(* ===== verification/_CoqProject ===== *)
-Q . S2P
Prelude.v
Effect.v
VtTypes.v
Utf8.v
Parser.v
ParserFacts.v
Width.v
Screen.v
Decimal.v
CsiFacts.v
ScreenFacts.v
ScreenSpec.v
Repaint.v
RepaintFacts.v
Checkpoint.v
CheckpointFacts.v
Engine.v
EngineFacts.v
RepaintRound.v
Attach.v
AttachFacts.v
Ring.v
Transcript.v
Content.v
ContentFacts.v
Session.v
SessionFacts.v
Pty.v
PtyFacts.v
Kernel.v
Forest.v
KernelFacts.v
Socket.v
Viewport.v
Text.v
Float.v
Path.v
SocketPath.v
Look.v
LookFacts.v
Input.v
Cold.v
ColdFacts.v
HostClient.v
HostClientFacts.v
PumpFacts.v
Connect.v
Ffi.v
FfiFacts.v
Daemon.v
DaemonFacts.v
DaemonCold.v
DaemonSafe.v
DaemonFlow.v
System.v
Proxy.v
Launch.v
LaunchFacts.v
LaunchRuns.v
Task.v
TaskFacts.v
Attention.v
AttentionFacts.v
Automation.v
Trust.v
Config.v
Polls.v
Observe.v
Alike.v
Resume.v
