(* ===== verification/Prelude.v ===== *)
(** * RILL: a verification library

    RILL is a terminal for macOS split into planes.  A kernel owns the PTYs and
    a bounded byte history of each; a host attaches to it over a small framed
    protocol, feeds the bytes to a VT engine and draws the engine's grid.  This
    library models the planes that are pure program logic, in Rust under
    [crates/], and proves what makes each correct.

    ** How the code is read

    A Rust function is a Rocq function of the same name, state passed in and
    out.  An [option] around a result is a possible panic: an index out of
    range, a slice past its end, an overflowing [+] or [-] of a machine integer
    ([chk_add], [chk_sub]) is [None], so "never [None]" is "never panics and
    never wraps".  Integers are [Z]; saturating operations are written out; the
    ranges [u8], [u16], [u32], [u64] are predicates that invariants carry.  A
    [Result] is [result E A].  Vectors are lists read by [Z] index with the
    panics of the code ([zget], [zset], [slice], [copy_within]); a [HashMap] is
    a [gmap]; texts are UTF-8 bytes or strings.  Where the code is compiled with
    the [mutate] feature it reads a switch from the environment; that build
    exists to test the tests, and its branches are left out everywhere.

    ** The parts

    - Shared types (rill-vt-types, color.rs): [VtTypes].
    - The VT parser (vt-engine/parser.rs): [Parser], a byte state machine over
      an abstract client, the class [Actions] for the trait of that name.
      [from_utf8] of the standard library is [Utf8].  [ParserFacts] proves that
      the loop ends within two steps per byte, that the parser keeps its buffers
      in bounds and calls its client only within the contract ([SafeActions], an
      interface the screen discharges), that cutting the input anywhere changes
      nothing, that the calls can be recorded and replayed on any client, that
      text prints as itself and that CAN always recovers.  [CsiFacts] proves
      that a control sequence written in decimal reaches the client with the
      same parameters; [Decimal] holds the decimal lemmas.
    - Character widths (east_asian_width.rs): [Width], the tables in full and
      the binary search proved equal to membership.
    - The screen (screen.rs): [Screen] is every operation of the grid: writing,
      wide characters and clusters, scrolling, erasing, editing, the alternate
      screen, modes, SGR, replies, resize, snapshot.  [ScreenFacts] has the
      invariant [wf] and, for each operation, one lemma that it does not panic,
      keeps [wf] and marks every row it changes ([good]); these discharge
      [SafeActions].  [ScreenSpec] states cell by cell what scrolling, line and
      cell editing, erasing, resizing and the cursor report do.
    - [Repaint] (repaint_bytes and its encoders) and [RepaintFacts];
      [RepaintRound] proves that a resync redraws the screen on another engine
      ([paintable] says which screens, [ready] which engines) and shows screens
      on which it does not.
    - [Checkpoint] (export, import, the FNV-1a hash) and [CheckpointFacts]: the
      codec is a round trip field by field ([Roundtrip]), any single changed
      byte is refused, and what is imported is well formed up to the scroll
      margins, which the code does not check.
    - [Engine] (vt-engine/lib.rs) puts parser and screen together;
      [EngineFacts] has the properties of whole runs: no operation panics on
      grids of at most 65528 columns and imports whose margins are inside them
      (and where these bounds are left, how it does), snapshots report every
      changed row, checkpoints restore.
    - [Alike] is the equivalence of screens that differ only in what a checkpoint
      leaves out; every operation of the screen respects it.  [Resume] does the
      same for the parser's idle buffers and concludes: a session's checkpoint
      and the bytes [recovery] gives with it show what the whole output shows.
    - The attach protocol (rill-attach): [Attach], [AttachFacts]: frames survive
      the wire however it is cut, and the decoder is total and bounded.
    - The kernel's byte history (ring.rs, checkpoint.rs, error.rs): [Ring],
      specified by the whole stream it was given.
    - The transcript ledger (transcript.rs): [Transcript], and the content
      timeline (content.rs): [Content], [ContentFacts].  Both are specified by a
      plain list of accepted events with a condition over the whole list; the
      code's cached fields are proved to decide it.  Retention policies and
      redaction are in [ContentFacts].
    - A PTY (pty.rs): [Pty], over the class [PtySys], one operation for each
      system call, with [PtySysLaws] (read(2), write(2), termios), [PtyClock]
      and [PtyFair] for what is asked of the system; descriptors are closed
      where Rust drops their owners.  [PtyFacts]: no descriptor leaks or is
      closed twice, writing is exact, the teardown is bounded.
    - A session (session.rs, journal.rs): [Session], over the class [PtyOps] for
      the PTY and [PtyLaws] for what read(2) promises; the clock is an argument.
      [SessionFacts] makes any PTY keep a trace and proves, over any sequence of
      operations, that nothing read is lost, credit is never exceeded, input
      reaches the child before a later geometry, and a child's exit reaches the
      attached client.
    - The session graph (kernel.rs): [Kernel]; [Forest] has forests as parent
      and child functions and the search of a subtree; [KernelFacts] has the
      reachable kernels as a step relation, the tree invariant, closing and
      moving containers, and the event log.

    - Sockets: [Socket] has the non-blocking write loop of the daemon
      ([write_outbox]) and of the host ([flush_outbox]) over the class
      [SockOps]; a traced socket remembers what was read and written, so that a
      flush is "the wire and the queue together are unchanged".  [Effect] is the
      state-and-error monad the stateful parts share, with its rules.
    - The host (rill-host): [Viewport] (scroll.rs), [Input] (the encoders of
      lib.rs), [HostClient] (the client of lib.rs).  [HostClientFacts] has its
      invariant over any socket and the credit it grants; [PumpFacts] proves
      what one pump does with the frames that arrive.
    - The cold protocols (nav.rs, content.rs and the encoders of
      rilld/lib.rs): [Text] has the text functions used, [Cold] both ends of the
      navigation line and of the content request and response, [ColdFacts] that
      what one end writes the other reads.
    - The daemon (rilld/lib.rs): [Daemon] is the whole step.  [DaemonFacts]
      serves a read chunk to every client; [DaemonCold] follows a content
      submission from the host and back; [DaemonSafe] has the invariant [dinv],
      one lemma that each operation keeps it, the reachable daemons [dreach],
      and that no step panics; [DaemonFlow] what draining and flushing give each
      client, and two runs in which the code falls short.
    - [System] joins the two ends: what the shell writes is what the host's
      engine is fed, through the daemon's queues, the wire and the decoder.
    - The control proxy (rilld/proxy.rs): [Proxy], pipes between traced sockets.
    - [Polls]: what daemon and proxy sleep on, [poll_with_extras] of kernel.rs,
      and their loops; a turn is a poll and a [Daemon.step], and the loop stays
      among the daemons of [DaemonSafe].  [Observe]: the getters, the waits, Drop
      of a session and the error texts of kernel and daemon.
    - Starting up (endpoint.rs, bind and Drop of rilld/lib.rs, the start of
      proxy.rs, main.rs): [Launch] writes each as a program over system calls, so
      that several processes can be run against one file system, call by call.
      [LaunchFacts] has what a program may call, what it must find and how many
      calls it makes; [LaunchRuns] the interleaved runs: a live daemon keeps its
      sockets and its lock, while two proxies started at once need not (an example
      shows one such schedule).  [SocketPath] has
      the names of the companion sockets.
    - The host's connections and its C interface: [Connect] (connecting, the cold
      sockets over the class [BlockSock], error texts), [Ffi] (ffi.rs: handles,
      strings handed out, the last error), [FfiFacts] (runs of any calls on NULL
      and live handles: they return but for a connect whose look files cannot be
      read to their end, and a failure leaves its text behind).
    - Look files (rill-look, load_surface of rill-host): [Look], over a
      [Machine] of files and environment, with f32 of the standard library in
      [Float] and paths in [Path]; the toml crate is a parameter.  [LookFacts]:
      a file of settings reads as the look they describe, reading ends when no
      theme file names a theme, what is loaded is in range.
    - Orchestration (rill-orchestrate): [Task] and [TaskFacts] (task.rs),
      [Attention] and [AttentionFacts] (attention.rs), [Automation]
      (automation.rs), [Trust] (trust.rs, and the context attachment of
      task.rs), [Config] (config.rs).  Tasks and the attention queue are state
      machines with their reachable states; the queue is specified by the whole
      history of requests.

    ** Interfaces

    The parser is proved against [SafeActions] and knows nothing of the screen;
    the screen implements it ([screen_safe]); the engine combines the two.  The
    session is proved against [PtyLaws]; the PTY of pty.rs implements it
    ([os_pty], [os_pty_faithful]), and a scripted one shows the laws can hold.
    Codecs of larger data are proved against [Roundtrip] and [Sound].  Host,
    daemon and proxy are proved against [SockLaws], what read(2) and write(2)
    promise, and the pump against [SockReady], a socket with frames waiting; a
    scripted socket ([Script]) satisfies both and runs the examples.  [BlockOps]
    is what the daemon asks of a new connection, without laws; [HashOrder] is
    any order of the kernel's leaves, since that of a [HashMap] is not known.

    ** Fuel

    The loop of [Parser::feed] may put a byte back: it is given two steps per
    byte plus one, and [feed_terminates] proves that is enough.  The decoder's
    loop takes at least five bytes per turn and gets the buffer's length plus
    one ([push_bounded_eq]).  The search for a free id tries one id more than
    are taken ([alloc_id_eq]); the search of a subtree gets the number of
    containers plus one, enough in a forest ([collect_loop_eq]) and by no fuel
    enough on a cycle ([reparent_cycle_diverges]).  A write loop gets the length
    of its queue plus one ([write_loop_eq]).  Writing to a PTY gets the length
    plus the stalls the system still has in it ([write_all_eq]), its teardown
    201 rounds of 10 ms ([terminate_eq]).  Look files recurse through the themes
    they name: two levels are enough when themes name none, and a theme that
    names itself has no fuel ([theme_loop_diverges]).  Reading a content request is
    bounded by the request's maximum ([read_request_ok]).  The host's pump and
    the drain of a leaf read for as long as the other side keeps giving bytes:
    running out of fuel is a result of its own ([Ok None], [Ok false]), and
    [pump_exact] and [drain_delivers] prove when it does not happen.  The wait for
    the worker gets 251 rounds of 20 ms: its five seconds are over by then on any
    clock that does not go back ([control_start_costs], at most 796 calls); the
    daemon's pump as many turns as it has time left ([daemon_pump_ends]).  Session,
    kernel and daemon runs are bounded by 2^48 - 1 kernel calls, so that no u64
    counter of theirs can overflow; [step_cost] bounds those of one step.  A
    host's client is bounded by 2^28 operations and bytes read ([hop_ok]), since
    some of its counters have 32 bits.

    ** Not modelled

    The operating system: system calls are classes ([PtySys], [SockOps],
    [BlockSock], [HostNet]) or the calls of a program ([Sys]), with their
    documented behaviour as laws ([PtySysLaws], [SockLaws], [PollLaws],
    [LaunchLaws]).  TOML, which is a parameter of [Task], [Config] and [Look].
    The Objective-C application, the fuzz targets and the scripts, which are not
    the program's logic.  The mutate builds, and the peer credentials of systems
    other than Darwin.  Drop glue that only closes a descriptor.

    ** Plan

    What is left of the program is outside its own logic.  Of the theorems, next
    would come: the poll laws carried through [daemon_run], so that a leaf with
    output is drained within a turn; and the replies of a resumed engine, which
    [Resume] leaves aside. *)
From Stdlib Require Export Ascii Sorting.Sorted.
From stdpp Require Export base tactics numbers list list_numbers option gmap strings.
From Stdlib Require Export ZArith Lia ZifyBool.

Local Open Scope Z_scope.

(** ** Functional record update

    [r <| f := v |>] is the record [r] with field [f] replaced.  A record type
    gives its eta expansion once ([Eta]); the update of each field is derived
    from it. *)

Class Eta (R : Type) := eta : R -> R.

Class Field {R T : Type} (get : R -> T) := put : T -> R -> R.

Ltac derive_put get :=
  match type of get with
  | ?R -> ?T =>
      let body := eval hnf in (@eta R _) in
      let abs := eval pattern get in body in
      match abs with
      | ?F _ =>
          let res := eval cbv beta in (fun (v : T) (r : R) => F (fun _ : R => v) r) in
          exact res
      end
  end.

#[export] Hint Extern 0 (Field ?get) => derive_put get : typeclass_instances.

Declare Scope rill_scope.
Delimit Scope rill_scope with rill.

#[warnings="-postfix-notation-not-level-1"]
Notation "r <| f := v |>" := (put (get := f) v r)
  (at level 12, f at level 0, left associativity, format "r  <|  f  :=  v  |>").

(** ** Machine integers

    Unsigned integers are [Z] with a range predicate.  Rust's [saturating_*]
    operations are written out; its plain [+] and [-] are [chk_add] and
    [chk_sub], which panic ([None]) where the result leaves the type, so a
    proof that no operation panics is also a proof that none wraps. *)

Abbreviation u8_max := 255 (only parsing).
Abbreviation u16_max := 65535 (only parsing).
Abbreviation u32_max := 4294967295 (only parsing).
Abbreviation u64_max := 18446744073709551615 (only parsing).

Definition u8 (z : Z) : Prop := 0 <= z <= u8_max.
Definition u16 (z : Z) : Prop := 0 <= z <= u16_max.
Definition u32 (z : Z) : Prop := 0 <= z <= u32_max.
Definition u64 (z : Z) : Prop := 0 <= z <= u64_max.

Definition sat_add (max a b : Z) : Z := Z.min (a + b) max.
Definition sat_sub (a b : Z) : Z := Z.max (a - b) 0.
Definition chk_add (max a b : Z) : option Z :=
  if a + b <=? max then Some (a + b) else None.
Definition chk_sub (a b : Z) : option Z :=
  if b <=? a then Some (a - b) else None.

(** [lo ..= hi] as a match pattern. *)
Definition within (lo hi b : Z) : bool := (lo <=? b) && (b <=? hi).

Ltac num := unfold u8, u16, u32, u64, sat_add, sat_sub, within in *; lia.

(** ** Results *)

(** Rust's [Result]; a panic is the [None] of an [option] around it. *)
Inductive result (E A : Type) : Type :=
| Ok (a : A)
| Err (e : E).
Arguments Ok {E A} a.
Arguments Err {E A} e.

#[export] Instance result_ret {E} : MRet (result E) := fun A a => Ok a.
#[export] Instance result_bind {E} : MBind (result E) :=
  fun A B f m => match m with Ok a => f a | Err e => Err e end.

Definition is_ok {E A} (r : result E A) : bool :=
  match r with Ok _ => true | Err _ => false end.

Lemma result_bind_Ok {E A B} (f : A -> result E B) m b :
  m ≫= f = Ok b <-> exists a, m = Ok a /\ f a = Ok b.
Proof. destruct m; cbn; split; [eauto | intros (? & [= ->] & ?) | done | by intros (? & ? & _)]; done. Qed.

(** [safe o P]: the computation [o] does not panic and its value satisfies
    [P].  The rules below are the program logic of the panic-freedom proofs. *)
Definition safe {A} (o : option A) (P : A -> Prop) : Prop :=
  exists a, o = Some a /\ P a.

Section Safe.
Context {A B : Type}.
Implicit Types (o : option A) (P : A -> Prop) (Q : B -> Prop).

Lemma safe_ret a P : P a -> safe (Some a) P.
Proof. intros; exists a; auto. Qed.

Lemma safe_bind o (f : A -> option B) P Q :
  safe o P -> (forall a, P a -> safe (f a) Q) -> safe (o ≫= f) Q.
Proof. intros (a & -> & HP) Hf. exact (Hf a HP). Qed.

Lemma safe_mono o P (P' : A -> Prop) :
  safe o P -> (forall a, P a -> P' a) -> safe o P'.
Proof. intros (a & -> & HP) H. exists a; auto. Qed.

Lemma safe_conj o P (P' : A -> Prop) :
  safe o P -> safe o P' -> safe o (fun a => P a /\ P' a).
Proof. intros (a & -> & HP) (a' & [= <-] & HP'). exists a; auto. Qed.

Lemma safe_inv o P a : safe o P -> o = Some a -> P a.
Proof. intros (a' & -> & HP) [= ->]. exact HP. Qed.

Lemma safe_some o P : safe o P -> exists a, o = Some a.
Proof. intros (a & H & _); eauto. Qed.

Lemma safe_if (b : bool) o1 o2 P :
  (b = true -> safe o1 P) -> (b = false -> safe o2 P) ->
  safe (if b then o1 else o2) P.
Proof. destruct b; auto. Qed.
End Safe.

(** Loops: [for x in xs { body }]. *)
Fixpoint for_each {X S : Type} (xs : list X) (body : X -> S -> option S) (s : S)
  : option S :=
  match xs with
  | [] => Some s
  | x :: xs' => s' ← body x s; for_each xs' body s'
  end.

(** [lo..hi] and [lo..=hi]; [.rev()] is [reverse]. *)
Definition range (lo hi : Z) : list Z := seqZ lo (hi - lo).
Definition range_incl (lo hi : Z) : list Z := seqZ lo (hi - lo + 1).

Section ForEach.
Context {X S : Type}.
Implicit Types (body : X -> S -> option S).

Lemma for_each_app body xs ys s :
  for_each (xs ++ ys) body s = (for_each xs body s ≫= for_each ys body).
Proof.
  revert s; induction xs as [|x xs IH]; intros s; cbn; [done|].
  destruct (body x s); cbn; auto.
Qed.

Lemma for_each_inv body (P : S -> Prop) xs s :
  P s -> (forall x s, x ∈ xs -> P s -> safe (body x s) P) ->
  safe (for_each xs body s) P.
Proof.
  revert s; induction xs as [|x xs IH]; intros s HP Hb; cbn.
  - now apply safe_ret.
  - eapply safe_bind; [apply Hb; [left | exact HP] |].
    intros s' HP'. apply IH; [done|]. intros; apply Hb; [now right | done].
Qed.
End ForEach.

Section ForRange.
Context {S : Type} (body : Z -> S -> option S) (P : Z -> S -> Prop).

(** Ascending loops: [P i s] holds when the loop reaches index [i]. *)
Lemma for_range lo hi s :
  lo <= hi -> P lo s ->
  (forall i s, lo <= i < hi -> P i s -> safe (body i s) (P (i + 1))) ->
  safe (for_each (range lo hi) body s) (P hi).
Proof.
  unfold range. intros Hle. remember (Z.to_nat (hi - lo)) as n eqn:Hn.
  revert lo s Hle Hn. induction n as [|n IH]; intros lo s Hle Hn HP Hb.
  - replace (hi - lo) with 0 by lia. replace hi with lo by lia. now apply safe_ret.
  - rewrite seqZ_cons by lia. cbn.
    eapply safe_bind; [apply Hb; [lia | exact HP] |].
    intros s' HP'. replace (Z.pred (hi - lo)) with (hi - Z.succ lo) by lia.
    apply IH; [lia | lia | exact HP' | intros; apply Hb; [lia | done]].
Qed.

(** Descending loops: [P i s] holds when indices [i..hi] are done. *)
Lemma for_range_rev lo hi s :
  lo <= hi -> P hi s ->
  (forall i s, lo <= i < hi -> P (i + 1) s -> safe (body i s) (P i)) ->
  safe (for_each (reverse (range lo hi)) body s) (P lo).
Proof.
  unfold range. intros Hle. remember (Z.to_nat (hi - lo)) as n eqn:Hn.
  revert hi s Hle Hn. induction n as [|n IH]; intros hi s Hle Hn HP Hb.
  - replace (hi - lo) with 0 by lia. replace lo with hi by lia. now apply safe_ret.
  - replace (hi - lo) with (Z.of_nat (Datatypes.S n)) by lia.
    rewrite seqZ_S, reverse_app. cbn.
    replace (lo + Z.of_nat n) with (hi - 1) by lia.
    eapply safe_bind; [apply (Hb (hi - 1)); [lia |] |].
    { now replace (hi - 1 + 1) with hi by lia. }
    intros s' HP'. replace (Z.of_nat n) with (hi - 1 - lo) by lia.
    apply IH; [lia | lia | exact HP' | intros; apply Hb; [lia | done]].
Qed.
End ForRange.

Lemma elem_of_range lo hi i : i ∈ range lo hi <-> lo <= i < hi.
Proof. unfold range. rewrite elem_of_seqZ. lia. Qed.

Lemma elem_of_range_incl lo hi i : i ∈ range_incl lo hi <-> lo <= i <= hi.
Proof. unfold range_incl. rewrite elem_of_seqZ. lia. Qed.

Lemma range_incl_range lo hi : range_incl lo hi = range lo (hi + 1).
Proof. unfold range, range_incl. f_equal. lia. Qed.

(** ** Vectors

    A [Vec], slice or array is a list read and written by [Z] index.  Every
    operation panics exactly where Rust's does: an index out of range, a range
    whose ends are out of order or past the end. *)

Definition len {A} (l : list A) : Z := Z.of_nat (length l).

Definition zget {A} (l : list A) (i : Z) : option A :=
  if 0 <=? i then l !! Z.to_nat i else None.

Definition zset {A} (l : list A) (i : Z) (x : A) : option (list A) :=
  if (0 <=? i) && (i <? len l) then Some (<[Z.to_nat i := x]> l) else None.

Definition in_range {A} (l : list A) (a b : Z) : bool :=
  (0 <=? a) && (a <=? b) && (b <=? len l).

(** [l[a..b]] *)
Definition slice {A} (l : list A) (a b : Z) : option (list A) :=
  if in_range l a b
  then Some (take (Z.to_nat (b - a)) (drop (Z.to_nat a) l)) else None.

(** [for x in &mut l[a..b] { *x = v }] *)
Definition fill_range {A} (l : list A) (a b : Z) (v : A) : option (list A) :=
  if in_range l a b
  then Some (take (Z.to_nat a) l ++ replicate (Z.to_nat (b - a)) v
             ++ drop (Z.to_nat b) l)
  else None.

(** [l.copy_within(a..b, d)] *)
Definition copy_within {A} (l : list A) (a b d : Z) : option (list A) :=
  if in_range l a b && in_range l d (d + (b - a))
  then Some (take (Z.to_nat d) l
             ++ take (Z.to_nat (b - a)) (drop (Z.to_nat a) l)
             ++ drop (Z.to_nat (d + (b - a))) l)
  else None.

Arguments len : simpl never.
Arguments zget : simpl never.
Arguments zset : simpl never.
Arguments slice : simpl never.
Arguments fill_range : simpl never.
Arguments copy_within : simpl never.
Arguments range : simpl never.
Arguments range_incl : simpl never.

Section Vectors.
Context {A : Type}.
Implicit Types (l : list A) (i a b d : Z) (x : A).

Lemma len_nonneg l : 0 <= len l.
Proof. unfold len; lia. Qed.

Lemma len_app l l' : len (l ++ l') = len l + len l'.
Proof. unfold len. rewrite length_app. lia. Qed.

Lemma len_nil : len (@nil A) = 0.
Proof. done. Qed.

Lemma len_cons x l : len (x :: l) = 1 + len l.
Proof. unfold len; cbn [length]; lia. Qed.

Lemma len_replicate n x : len (replicate n x) = Z.of_nat n.
Proof. unfold len. now rewrite length_replicate. Qed.

Lemma zget_Some l i x : zget l i = Some x -> 0 <= i < len l.
Proof.
  unfold zget, len. destruct (Z.leb_spec 0 i); [|done].
  intros Hl%lookup_lt_Some. lia.
Qed.

Lemma zget_in l i : 0 <= i < len l -> exists x, zget l i = Some x.
Proof.
  unfold zget, len. intros H. destruct (Z.leb_spec 0 i); [|lia].
  apply lookup_lt_is_Some_2. lia.
Qed.

Lemma zget_out l i : ~ 0 <= i < len l -> zget l i = None.
Proof.
  unfold zget, len. intros H. destruct (Z.leb_spec 0 i); [|done].
  apply lookup_ge_None_2. lia.
Qed.

Lemma zget_nth l (n : nat) : zget l (Z.of_nat n) = l !! n.
Proof. unfold zget. destruct (Z.leb_spec 0 (Z.of_nat n)); [|lia]. now rewrite Nat2Z.id. Qed.

Lemma zget_ext l l' :
  len l = len l' -> (forall i, 0 <= i < len l -> zget l i = zget l' i) -> l = l'.
Proof.
  intros Hl H. apply list_eq_same_length with (n := length l); [unfold len in Hl; lia|done|].
  intros n x y Hn Hx Hy. rewrite <- zget_nth in Hx, Hy.
  rewrite H in Hx by (unfold len; lia). congruence.
Qed.

Lemma zget_app l l' i :
  zget (l ++ l') i = if i <? len l then zget l i else zget l' (i - len l).
Proof.
  unfold zget, len. destruct (Z.ltb_spec i (Z.of_nat (length l))).
  - destruct (Z.leb_spec 0 i); [|done]. apply lookup_app_l. lia.
  - rewrite !(proj2 (Z.leb_le _ _)) by lia.
    rewrite lookup_app_r by lia. f_equal. lia.
Qed.

Lemma zget_take l n i : zget (take n l) i = if i <? Z.of_nat n then zget l i else None.
Proof.
  unfold zget. destruct (Z.leb_spec 0 i); [|now destruct (i <? Z.of_nat n)].
  destruct (Z.ltb_spec i (Z.of_nat n)); [apply lookup_take_lt | apply lookup_take_ge]; lia.
Qed.

Lemma zget_drop l n i : 0 <= i -> zget (drop n l) i = zget l (Z.of_nat n + i).
Proof.
  intros. unfold zget. rewrite !(proj2 (Z.leb_le _ _)) by lia.
  rewrite lookup_drop. f_equal. lia.
Qed.

Lemma zget_replicate n x i :
  zget (replicate n x) i = if (0 <=? i) && (i <? Z.of_nat n) then Some x else None.
Proof.
  unfold zget. destruct (Z.leb_spec 0 i); cbn; [|done].
  destruct (Z.ltb_spec i (Z.of_nat n)); [apply lookup_replicate_2 | apply lookup_replicate_None]; lia.
Qed.

Lemma len_take n l : len (take n l) = Z.min (Z.of_nat n) (len l).
Proof. unfold len. rewrite length_take. lia. Qed.

Lemma len_drop n l : len (drop n l) = Z.max 0 (len l - Z.of_nat n).
Proof. unfold len. rewrite length_drop. lia. Qed.

Lemma zget_map {B} (f : A -> B) l i : zget (map f l) i = f <$> zget l i.
Proof.
  unfold zget. destruct (0 <=? i); [|done].
  change (map f l) with (f <$> l). apply list_lookup_fmap.
Qed.

Lemma zset_ok l i x :
  0 <= i < len l ->
  safe (zset l i x) (fun l' => len l' = len l /\
    forall j, zget l' j = if j =? i then Some x else zget l j).
Proof.
  intros H. unfold zset. rewrite (proj2 (andb_true_iff _ _)) by lia.
  apply safe_ret. split; [unfold len; now rewrite length_insert|].
  intros j. unfold zget. destruct (Z.eqb_spec j i) as [->|Hne].
  - rewrite (proj2 (Z.leb_le _ _)) by lia. apply list_lookup_insert_eq.
    unfold len in H; lia.
  - destruct (Z.leb_spec 0 j); [|done]. apply list_lookup_insert_ne. lia.
Qed.

Lemma in_range_iff l a b : in_range l a b = true <-> 0 <= a <= b /\ b <= len l.
Proof. unfold in_range. lia. Qed.

Lemma slice_ok l a b :
  0 <= a <= b -> b <= len l ->
  safe (slice l a b) (fun l' => len l' = b - a /\
    forall j, 0 <= j < b - a -> zget l' j = zget l (a + j)).
Proof.
  intros. unfold slice. rewrite (proj2 (in_range_iff _ _ _)) by lia.
  apply safe_ret. rewrite len_take, len_drop. split; [lia|].
  intros j Hj. rewrite zget_take, zget_drop by lia.
  rewrite (proj2 (Z.ltb_lt _ _)) by lia. f_equal. lia.
Qed.

Lemma fill_range_ok l a b x :
  0 <= a <= b -> b <= len l ->
  safe (fill_range l a b x) (fun l' => len l' = len l /\
    forall j, zget l' j = if (a <=? j) && (j <? b) then Some x else zget l j).
Proof.
  intros. unfold fill_range. rewrite (proj2 (in_range_iff _ _ _)) by lia.
  apply safe_ret. split.
  { rewrite !len_app, len_take, len_replicate, len_drop. lia. }
  intros j. rewrite !zget_app, zget_take, zget_replicate, !len_take, len_replicate.
  destruct (Z.ltb_spec j (Z.min (Z.of_nat (Z.to_nat a)) (len l))).
  - rewrite (proj2 (Z.ltb_lt _ _)) by lia.
    now rewrite (proj2 (andb_false_iff _ _)) by lia.
  - destruct (Z.ltb_spec (j - Z.min (Z.of_nat (Z.to_nat a)) (len l)) (Z.of_nat (Z.to_nat (b - a)))).
    + now rewrite !(proj2 (andb_true_iff _ _)) by lia.
    + rewrite zget_drop by lia. rewrite (proj2 (andb_false_iff _ _)) by lia.
      f_equal. lia.
Qed.

Lemma copy_within_ok l a b d :
  0 <= a <= b -> b <= len l -> 0 <= d -> d + (b - a) <= len l ->
  safe (copy_within l a b d) (fun l' => len l' = len l /\
    forall j, zget l' j = if (d <=? j) && (j <? d + (b - a))
                          then zget l (j - d + a) else zget l j).
Proof.
  intros. unfold copy_within.
  rewrite (proj2 (in_range_iff l a b)), (proj2 (in_range_iff l d _)) by lia. cbn.
  apply safe_ret. split.
  { rewrite !len_app, !len_take, !len_drop. lia. }
  intros j. rewrite !zget_app, !zget_take, !len_take, len_drop.
  destruct (Z.ltb_spec j (Z.min (Z.of_nat (Z.to_nat d)) (len l))).
  - rewrite (proj2 (Z.ltb_lt _ _)) by lia.
    now rewrite (proj2 (andb_false_iff _ _)) by lia.
  - destruct (Z.ltb_spec (j - Z.min (Z.of_nat (Z.to_nat d)) (len l))
      (Z.min (Z.of_nat (Z.to_nat (b - a))) (Z.max 0 (len l - Z.of_nat (Z.to_nat a))))).
    + rewrite (proj2 (Z.ltb_lt _ _)), !(proj2 (andb_true_iff _ _)) by lia.
      rewrite zget_drop by lia. f_equal. lia.
    + rewrite zget_drop by lia. rewrite (proj2 (andb_false_iff _ _)) by lia.
      f_equal. lia.
Qed.
End Vectors.

(** ** Bytes and fixed-width encodings *)

Definition bytes (l : list Z) : Prop := Forall u8 l.

(** A character literal, and the bytes of a byte-string literal. *)
Definition ch (a : Ascii.ascii) : Z := Z.of_N (Ascii.N_of_ascii a).
Arguments ch a%_char.

Fixpoint lit (s : string) : list Z :=
  match s with
  | EmptyString => []
  | String a s => ch a :: lit s
  end.
Arguments lit s%_string.

(** A literal that starts with ESC. *)
Definition elit (s : string) : list Z := 0x1b :: lit s.
Arguments elit s%_string.

(** [v.to_le_bytes()] of an [n]-byte unsigned integer, and its inverse. *)
Fixpoint le_bytes (n : nat) (v : Z) : list Z :=
  match n with
  | O => []
  | S n' => v mod 256 :: le_bytes n' (v / 256)
  end.

Fixpoint le_val (l : list Z) : Z :=
  match l with
  | [] => 0
  | b :: l' => b + 256 * le_val l'
  end.

(** Big-endian: the same bytes in the other order. *)
Definition be_bytes (n : nat) (v : Z) : list Z := reverse (le_bytes n v).
Definition be_val (l : list Z) : Z := le_val (reverse l).

Section Encodings.
Implicit Types (l : list Z) (v : Z).

Lemma length_le_bytes n v : length (le_bytes n v) = n.
Proof. revert v; induction n; cbn; auto. Qed.

Lemma length_be_bytes n v : length (be_bytes n v) = n.
Proof. unfold be_bytes. now rewrite length_reverse, length_le_bytes. Qed.

Lemma len_le_bytes n v : len (le_bytes n v) = Z.of_nat n.
Proof. unfold len. now rewrite length_le_bytes. Qed.

Lemma len_be_bytes n v : len (be_bytes n v) = Z.of_nat n.
Proof. unfold len. now rewrite length_be_bytes. Qed.

Lemma bytes_le_bytes n v : bytes (le_bytes n v).
Proof.
  revert v; induction n; intros v; constructor; [|apply IHn].
  pose proof (Z.mod_pos_bound v 256). num.
Qed.

Lemma bytes_be_bytes n v : bytes (be_bytes n v).
Proof. apply Forall_reverse, bytes_le_bytes. Qed.

Lemma bytes_app l l' : bytes (l ++ l') <-> bytes l /\ bytes l'.
Proof. apply Forall_app. Qed.

Lemma pow256_S n : 256 ^ Z.of_nat (S n) = 256 * 256 ^ Z.of_nat n.
Proof. rewrite Nat2Z.inj_succ, Z.pow_succ_r by lia. done. Qed.

Lemma le_val_bytes n v : 0 <= v < 256 ^ Z.of_nat n -> le_val (le_bytes n v) = v.
Proof.
  revert v; induction n as [|n IH]; intros v Hv; [cbn in *; lia|].
  rewrite pow256_S in Hv. cbn. rewrite IH.
  - rewrite (Z.div_mod v 256) at 3 by lia. lia.
  - split; [apply Z.div_pos | apply Z.div_lt_upper_bound]; lia.
Qed.

Lemma le_val_bound l : bytes l -> 0 <= le_val l < 256 ^ Z.of_nat (length l).
Proof.
  induction 1 as [|b l Hb _ IH]; [cbn; lia|].
  cbn [le_val length]. rewrite pow256_S. num.
Qed.

Lemma le_bytes_val l : bytes l -> le_bytes (length l) (le_val l) = l.
Proof.
  induction 1 as [|b l Hb _ IH]; [done|]. cbn.
  rewrite (Z.mul_comm 256), Z.mod_add, Z.div_add by lia.
  rewrite Z.mod_small, Z.div_small by num. now rewrite Z.add_0_l, IH.
Qed.

Lemma be_val_bytes n v : 0 <= v < 256 ^ Z.of_nat n -> be_val (be_bytes n v) = v.
Proof.
  intros. unfold be_val, be_bytes. rewrite reverse_involutive. now apply le_val_bytes.
Qed.

Lemma be_val_bound l : bytes l -> 0 <= be_val l < 256 ^ Z.of_nat (length l).
Proof.
  intros H. unfold be_val. rewrite <- (length_reverse l).
  apply le_val_bound. now apply Forall_reverse.
Qed.

Lemma be_bytes_val l : bytes l -> be_bytes (length l) (be_val l) = l.
Proof.
  intros H. unfold be_bytes, be_val. rewrite <- (length_reverse l).
  rewrite le_bytes_val by (by apply Forall_reverse). apply reverse_involutive.
Qed.

Lemma take_app_n {A} (n : nat) (x y : list A) : length x = n -> take n (x ++ y) = x.
Proof. intros <-. apply take_app_length. Qed.

Lemma drop_app_n {A} (n : nat) (x y : list A) : length x = n -> drop n (x ++ y) = y.
Proof. intros <-. apply drop_app_length. Qed.
End Encodings.

(** ** Slices in the middle of a list *)

(** A slice is the middle part of a list cut in three. *)
Lemma slice_is {A} (l p x r : list A) a b :
  l = p ++ x ++ r -> a = len p -> b = a + len x -> slice l a b = Some x.
Proof.
  intros -> -> ->. pose proof (len_nonneg p). pose proof (len_nonneg x). pose proof (len_nonneg r).
  unfold slice. rewrite (proj2 (in_range_iff _ _ _)) by (rewrite !len_app; lia).
  f_equal. rewrite (drop_app_n (Z.to_nat (len p))) by (unfold len; lia).
  apply take_app_n. unfold len. lia.
Qed.

(** Conversely what a slice gives is the front of what starts there. *)
Lemma slice_drop {A} (l x : list A) a b :
  slice l a b = Some x ->
  drop (Z.to_nat a) l = x ++ drop (Z.to_nat b) l /\ len x = b - a /\ 0 <= a <= b /\ b <= len l.
Proof.
  unfold slice. destruct (in_range l a b) eqn:Hr; [|done]. apply in_range_iff in Hr. intros [= <-].
  split_and!; [|unfold len in *; rewrite length_take, length_drop; lia|lia..].
  rewrite <- (take_drop (Z.to_nat (b - a)) (drop (Z.to_nat a) l)) at 1. f_equal.
  rewrite drop_drop. f_equal. lia.
Qed.

Lemma zget_drop_cons {A} (l : list A) i x :
  zget l i = Some x -> drop (Z.to_nat i) l = x :: drop (Z.to_nat (i + 1)) l.
Proof.
  intros Hx. pose proof (zget_Some _ _ _ Hx). unfold zget in Hx.
  rewrite (proj2 (Z.leb_le 0 i)) in Hx by lia. rewrite (drop_S _ _ _ Hx). do 2 f_equal. lia.
Qed.

Lemma slice_bytes l x a b : bytes l -> slice l a b = Some x -> bytes x.
Proof.
  unfold slice. intros H. destruct (in_range l a b); [|done]. intros [= <-].
  by apply Forall_take, Forall_drop.
Qed.

Lemma slice_some {A} (l : list A) a b : 0 <= a <= b -> b <= len l -> exists x, slice l a b = Some x.
Proof. intros Ha Hb. destruct (slice_ok l a b Ha Hb) as (x & -> & _). eauto. Qed.

(** ** Sorted logs *)

Section Sorted.
Context {A : Type} (R : relation A).
Implicit Types (l : list A).

(** In a sorted log the last element is the largest. *)
Lemma sorted_before_last l z a :
  StronglySorted R l -> last l = Some z -> a ∈ l -> a = z \/ R a z.
Proof.
  rewrite last_Some. intros Hs [l' ->] [Ha|Ha%list_elem_of_singleton]%elem_of_app; [right|by left].
  induction l' as [|b l' IH]; [by apply not_elem_of_nil in Ha|].
  cbn in Hs. inversion_clear Hs as [|? ? Hs' Hb]. apply elem_of_cons in Ha as [->|Ha]; [|auto].
  rewrite Forall_forall in Hb. apply Hb, elem_of_app. right. by apply list_elem_of_singleton.
Qed.

Lemma sorted_snoc l z : StronglySorted R l -> Forall (fun a => R a z) l -> StronglySorted R (l ++ [z]).
Proof.
  induction 1 as [|a l Hs IH Ha]; intros Hz; cbn; [by repeat constructor|].
  inversion_clear Hz. constructor; [auto|]. apply Forall_app. auto.
Qed.

Lemma sorted_filter (P : A -> Prop) `{!forall x, Decision (P x)} l :
  StronglySorted R l -> StronglySorted R (filter P l).
Proof.
  induction 1 as [|a l Hs IH Ha]; [constructor|]. rewrite filter_cons. case_decide; [|done].
  constructor; [done|]. apply Forall_forall. intros x [_ Hx]%list_elem_of_filter.
  rewrite Forall_forall in Ha. auto.
Qed.
End Sorted.

(** What a decoder that consumes a prefix owes to its encoder: it gives the
    value back and leaves exactly the bytes that follow.  Decoders of larger
    data are proved against this interface. *)
Class Roundtrip {E A : Type} (put : A -> list Z)
    (take : list Z -> result E (A * list Z)) (valid : A -> Prop) : Prop :=
  take_put : forall a rest, valid a -> take (put a ++ rest) = Ok (a, rest).

(** [n] values one after another. *)
Fixpoint take_n {E A : Type} (take : list Z -> result E (A * list Z)) (n : nat)
    (rest : list Z) : result E (list A * list Z) :=
  match n with
  | O => Ok ([], rest)
  | S n' =>
      '(a, rest) ← take rest;
      '(l, rest) ← take_n take n' rest;
      Ok (a :: l, rest)
  end.

Lemma take_n_put {E A} put take valid `{!@Roundtrip E A put take valid} l rest :
  Forall valid l ->
  take_n take (length l) (concat (map put l) ++ rest) = Ok (l, rest).
Proof.
  induction 1 as [|a l Ha _ IH]; cbn; [done|].
  rewrite <- app_assoc, take_put by done. cbn. now rewrite IH.
Qed.

(** ** Automation *)

Create HintDb rill discriminated.
Create Rewrite HintDb len.

#[export] Hint Rewrite @len_app @len_nil @len_cons @len_replicate @len_take @len_drop
  len_le_bytes len_be_bytes : len.
#[export] Hint Resolve bytes_le_bytes bytes_be_bytes len_nonneg : rill.

(** Split on the next boolean test of the goal, keeping it as a hypothesis. *)
Ltac case_if :=
  match goal with
  | |- context [if ?b then _ else _] => destruct b eqn:?
  end.

(** Split on every boolean test of a hypothesis. *)
Ltac case_if_in H :=
  repeat match type of H with
  | context [if ?b then _ else _] => destruct b eqn:?
  end.

(** Every branch of a computation that is a chain of [if]s. *)
Ltac safe_ifs :=
  repeat match goal with
  | |- safe (if _ then _ else _) _ => apply safe_if; intros ?
  end.

(** Peel one bind of a [safe] goal, given the rule for its first step. *)
Tactic Notation "safe_step" uconstr(lem) :=
  eapply safe_bind; [eapply lem | cbn beta; intros].
Tactic Notation "safe_step" uconstr(lem) "as" simple_intropattern(pat) :=
  eapply safe_bind; [eapply lem | cbn beta; intros ? pat].
