(* ===== verification/Effect.v ===== *)
(** The state-and-error monad in which operations with mutable state are
    written, and its rules: one for panic-freedom and postconditions, one for
    relations every operation preserves.  [None] is a panic; the state survives
    an error, as it does where the code mutates and then returns [Err]. *)
From S2P Require Import Prelude.

Local Open Scope Z_scope.

(** ** The monad *)

Definition ST (E S A : Type) : Type := S -> option (result E A * S).

#[export] Instance se_ret {E S} : MRet (ST E S) := fun A a s => Some (Ok a, s).
#[export] Instance se_bind {E S} : MBind (ST E S) := fun A B f m s =>
  match m s with
  | Some (Ok a, s) => f a s
  | Some (Err e, s) => Some (Err e, s)
  | None => None
  end.

Definition fail {E S A} (e : E) : ST E S A := fun s => Some (Err e, s).
Definition panic {E S A} : ST E S A := fun _ => None.
Definition gets {E S A} (f : S -> A) : ST E S A := fun s => Some (Ok (f s), s).
Definition modify {E S} (f : S -> S) : ST E S () := fun s => Some (Ok (), f s).
Definition of_result {E S A} (r : result E A) : ST E S A := fun s => Some (r, s).
Definition of_option {E S A} (o : option A) : ST E S A := match o with Some a => mret a | None => panic end.

(** ** Rules *)

Lemma se_bind_rule {E S A B} (m : ST E S A) (f : A -> ST E S B) s (Q : result E B * S -> Prop) :
  safe (m s) (fun rs => match fst rs with
                        | Ok a => safe (f a (snd rs)) Q
                        | Err e => Q (Err e, snd rs)
                        end) ->
  safe ((m ≫= f) s) Q.
Proof.
  intros ([r s'] & Hm & H). unfold mbind, se_bind. rewrite Hm. cbn in H.
  destruct r as [a|e]; [exact H|by apply safe_ret].
Qed.

(** ** What operations leave alone *)

Definition pres {E S A} (R : relation S) (m : ST E S A) : Prop :=
  forall s r s', m s = Some (r, s') -> R s s'.

Section Pres.
Context {E S : Type} (R : relation S) `{!PreOrder R}.

Lemma pres_bind {A B} (m : ST E S A) (f : A -> ST E S B) :
  pres R m -> (forall a, pres R (f a)) -> pres R (m ≫= f).
Proof.
  intros Hm Hf s r s' H. unfold mbind, se_bind in H. destruct (m s) as [[[a|e] s1]|] eqn:Em; [| |done].
  - etransitivity; [by eapply Hm|by eapply Hf].
  - injection H as _ <-. by eapply Hm.
Qed.

Lemma se_bind_inv {A B} (m : ST E S A) (f : A -> ST E S B) s r s' :
  (m ≫= f) s = Some (r, s') ->
  (exists a s1, m s = Some (Ok a, s1) /\ f a s1 = Some (r, s')) \/
  (exists e, m s = Some (Err e, s') /\ r = Err e).
Proof.
  unfold mbind, se_bind. destruct (m s) as [[[a|e] s1]|]; intros H; [left|right|done].
  - by exists a, s1.
  - injection H as <- <-. by exists e.
Qed.

Lemma pres_ret {A} (a : A) : pres R (mret a : ST E S A).
Proof. by intros s r s' [= _ <-]. Qed.

Lemma pres_gets {A} (f : S -> A) : pres R (gets f : ST E S A).
Proof. by intros s r s' [= _ <-]. Qed.

Lemma pres_of_result {A} (x : result E A) : pres R (of_result x : ST E S A).
Proof. by intros s r s' [= _ <-]. Qed.

Lemma pres_modify (f : S -> S) : (forall s, R s (f s)) -> pres R (modify f : ST E S ()).
Proof. intros H s r s' [= _ <-]. apply H. Qed.
End Pres.

