(* ===== verification/VtTypes.v ===== *)
(** The types the VT crates share (crates/rill-vt-types/src/lib.rs) and the
    materialisation of indexed colours (crates/vt-engine/src/color.rs). *)
From S2P Require Import Prelude.

Local Open Scope Z_scope.

(** [rill_vt_types::Error].  [std::io::Error] is carried as its code. *)
Inductive VtError : Type :=
| Vt (msg : string)
| Config (msg : string)
| Io (code : Z).

Record Rgb := mkRgb { r_ : Z; g_ : Z; b_ : Z }.

Inductive Color : Type :=
| Default
| Indexed (n : Z)
| RgbColor (r g b : Z).

#[export] Instance rgb_eq_dec : EqDecision Rgb.
Proof. solve_decision. Defined.
#[export] Instance color_eq_dec : EqDecision Color.
Proof. solve_decision. Defined.

(** [ansi] is a [[Rgb; 16]]: a list of length 16 ([palette_ok]). *)
Record Palette := mkPalette {
  ansi : list Rgb;
  foreground : Rgb;
  background : Rgb;
  cursor : Rgb }.

Definition rgb_ok (c : Rgb) : Prop := u8 (r_ c) /\ u8 (g_ c) /\ u8 (b_ c).

Definition color_ok (c : Color) : Prop :=
  match c with
  | Default => True
  | Indexed n => u8 n
  | RgbColor r g b => u8 r /\ u8 g /\ u8 b
  end.

Definition palette_ok (p : Palette) : Prop :=
  length (ansi p) = 16%nat /\ Forall rgb_ok (ansi p) /\
  rgb_ok (foreground p) /\ rgb_ok (background p) /\ rgb_ok (cursor p).

Definition vt_default : Palette :=
  mkPalette
    [ mkRgb 0x1d 0x1f 0x21; mkRgb 0xcc 0x66 0x66; mkRgb 0xb5 0xbd 0x68; mkRgb 0xf0 0xc6 0x74;
      mkRgb 0x81 0xa2 0xbe; mkRgb 0xb2 0x94 0xbb; mkRgb 0x8a 0xbe 0xb7; mkRgb 0xc5 0xc8 0xc6;
      mkRgb 0x66 0x66 0x66; mkRgb 0xd5 0x4e 0x53; mkRgb 0xb9 0xca 0x4a; mkRgb 0xe7 0xc5 0x47;
      mkRgb 0x7a 0xa6 0xda; mkRgb 0xc3 0x97 0xd8; mkRgb 0x70 0xc0 0xb1; mkRgb 0xea 0xea 0xea ]
    (mkRgb 0xcc 0xcc 0xcc) (mkRgb 0x12 0x12 0x12) (mkRgb 0xcc 0xcc 0xcc).

Lemma vt_default_ok : palette_ok vt_default.
Proof.
  repeat split; try (cbn; num).
  unfold vt_default; cbn. repeat constructor; cbn; num.
Qed.

Definition ATTR_BOLD : Z := Z.shiftl 1 0.
Definition ATTR_UNDERLINE : Z := Z.shiftl 1 1.
Definition ATTR_INVERSE : Z := Z.shiftl 1 2.
Definition ATTR_WIDE_LEAD : Z := Z.shiftl 1 3.
Definition ATTR_WIDE_TAIL : Z := Z.shiftl 1 4.

Record PodCell := mkPodCell {
  pc_codepoint : Z;
  pc_fg : Z;
  pc_bg : Z;
  pc_attrs : Z;
  pc_pad : Z }.

#[export] Instance podcell_eq_dec : EqDecision PodCell.
Proof. solve_decision. Defined.

Record PodGrid := mkPodGrid {
  pg_cols : Z;
  pg_rows : Z;
  pg_cursor_col : Z;
  pg_cursor_row : Z;
  pg_cursor_visible : bool;
  pg_full_damage : bool;
  pg_damage_row0 : Z;
  pg_damage_row1 : Z;
  pg_default_fg : Z;
  pg_default_bg : Z;
  pg_grapheme_truncated : Z;
  pg_replies_dropped : Z;
  pg_cells : list PodCell }.

#[export] Instance eta_podgrid : Eta PodGrid := fun g =>
  mkPodGrid (pg_cols g) (pg_rows g) (pg_cursor_col g) (pg_cursor_row g)
    (pg_cursor_visible g) (pg_full_damage g) (pg_damage_row0 g) (pg_damage_row1 g)
    (pg_default_fg g) (pg_default_bg g) (pg_grapheme_truncated g)
    (pg_replies_dropped g) (pg_cells g).

(** [PodGrid::cell]: [checked_mul] and [checked_add] on a 64-bit [usize]. *)
Definition pod_cell_at (g : PodGrid) (col row : Z) : option PodCell :=
  let m := row * pg_cols g in
  if u64_max <? m then None
  else if u64_max <? m + col then None
  else zget (pg_cells g) (m + col).

Record TerminalModeState := mkModeState {
  ms_application_cursor_keys : bool;
  ms_application_keypad : bool;
  ms_bracketed_paste : bool;
  ms_mouse_x10 : bool;
  ms_mouse_button : bool;
  ms_mouse_any : bool;
  ms_mouse_sgr : bool;
  ms_focus_events : bool;
  ms_alternate_screen : bool;
  ms_cursor_visible : bool }.

Definition mode_fresh : TerminalModeState :=
  mkModeState false false false false false false false false false true.

(** ** Indexed colours (color.rs) *)

Definition cube (level : Z) : Z := if level =? 0 then 0 else 55 + 40 * level.

(** [indexed] panics only if the palette held fewer than sixteen entries. *)
Definition indexed (n : Z) (palette : Palette) : option Rgb :=
  if within 0 15 n then zget (ansi palette) n
  else if within 16 231 n then
    let i := n - 16 in
    let r := i / 36 in
    let g := (i mod 36) / 6 in
    let b := i mod 6 in
    Some (mkRgb (cube r) (cube g) (cube b))
  else
    let v := 8 + 10 * (n - 232) in
    Some (mkRgb v v v).

(** [pack] of screen.rs: RGBA8888 with an opaque alpha. *)
Definition pack (rgb : Rgb) : Z :=
  Z.lor (Z.lor (Z.lor (Z.shiftl (r_ rgb) 24) (Z.shiftl (g_ rgb) 16)) (Z.shiftl (b_ rgb) 8)) 0xff.

Lemma cube_u8 level : 0 <= level <= 5 -> u8 (cube level).
Proof. intros. unfold cube. case_if; num. Qed.

Lemma indexed_ok n p :
  u8 n -> palette_ok p -> safe (indexed n p) rgb_ok.
Proof.
  intros Hn (Hlen & Hall & _). unfold indexed.
  apply safe_if; intros H1.
  - destruct (zget_in (ansi p) n) as (c & Hc); [unfold len; num|].
    rewrite Hc. apply safe_ret.
    unfold zget in Hc. rewrite (proj2 (Z.leb_le _ _)) in Hc by num.
    eapply Forall_lookup_1; eassumption.
  - apply safe_if; intros H2; apply safe_ret; unfold rgb_ok; cbn [r_ g_ b_]; [|num].
    unfold within in H2.
    repeat split; apply cube_u8; Z.to_euclidean_division_equations; lia.
Qed.
