(* ===== verification/Utf8.v ===== *)
(** UTF-8 as the Rust standard library implements it: [str::from_utf8],
    [char::encode_utf8], [char::from_u32].  Characters are Unicode scalar
    values in [Z]. *)
From S2P Require Import Prelude.

Local Open Scope Z_scope.

Definition is_scalar (c : Z) : bool := within 0 0xd7ff c || within 0xe000 0x10ffff c.

(** [char::from_u32] *)
Definition char_from_u32 (c : Z) : option Z := if is_scalar c then Some c else None.

Definition encode_utf8 (c : Z) : list Z :=
  if c <? 0x80 then [c]
  else if c <? 0x800 then [0xc0 + c / 64; 0x80 + c mod 64]
  else if c <? 0x10000 then
    [0xe0 + c / 4096; 0x80 + c / 64 mod 64; 0x80 + c mod 64]
  else
    [0xf0 + c / 262144; 0x80 + c / 4096 mod 64; 0x80 + c / 64 mod 64; 0x80 + c mod 64].

Definition is_cont (b : Z) : bool := within 0x80 0xbf b.

(** The second byte allowed after a three- or four-byte lead (no overlong
    form, no surrogate, nothing above U+10FFFF). *)
Definition second3 (b0 b1 : Z) : bool :=
  if b0 =? 0xe0 then within 0xa0 0xbf b1
  else if b0 =? 0xed then within 0x80 0x9f b1
  else within 0xe1 0xef b0 && is_cont b1.

Definition second4 (b0 b1 : Z) : bool :=
  if b0 =? 0xf0 then within 0x90 0xbf b1
  else if b0 =? 0xf4 then within 0x80 0x8f b1
  else within 0xf1 0xf3 b0 && is_cont b1.

(** [str::from_utf8]: the characters, or [None] for any invalid sequence. *)
Fixpoint from_utf8 (bs : list Z) : option (list Z) :=
  match bs with
  | [] => Some []
  | b0 :: r0 =>
    if within 0 0x7f b0 then cons b0 <$> from_utf8 r0
    else match r0 with
    | [] => None
    | b1 :: r1 =>
      if within 0xc2 0xdf b0 && is_cont b1
      then cons ((b0 - 0xc0) * 64 + (b1 - 0x80)) <$> from_utf8 r1
      else match r1 with
      | [] => None
      | b2 :: r2 =>
        if second3 b0 b1 && is_cont b2
        then cons ((b0 - 0xe0) * 4096 + (b1 - 0x80) * 64 + (b2 - 0x80)) <$> from_utf8 r2
        else match r2 with
        | [] => None
        | b3 :: r3 =>
          if second4 b0 b1 && is_cont b2 && is_cont b3
          then cons ((b0 - 0xf0) * 262144 + (b1 - 0x80) * 4096 + (b2 - 0x80) * 64
                     + (b3 - 0x80)) <$> from_utf8 r3
          else None
        end
      end
    end
  end.

Lemma from_utf8_encode c rest :
  is_scalar c = true ->
  from_utf8 (encode_utf8 c ++ rest) = cons c <$> from_utf8 rest.
Proof.
  unfold is_scalar, encode_utf8. intros Hc. unfold within in Hc.
  repeat case_if; cbn [app from_utf8].
  - now replace (within 0 127 c) with true by num.
  - unfold is_cont, within.
    replace ((0 <=? _) && _) with false by (Z.to_euclidean_division_equations; lia).
    replace ((0xc2 <=? _) && _ && _) with true by (Z.to_euclidean_division_equations; lia).
    f_equal. f_equal. Z.to_euclidean_division_equations; lia.
  - unfold is_cont, second3, is_cont, within.
    replace ((0 <=? _) && _) with false by (Z.to_euclidean_division_equations; lia).
    replace ((0xc2 <=? _) && _ && _) with false by (Z.to_euclidean_division_equations; lia).
    match goal with |- context [if ?b && ?b' then cons ?x <$> _ else _] =>
      replace (b && b') with true
        by (Z.to_euclidean_division_equations; repeat case_if; lia)
    end.
    f_equal. f_equal. Z.to_euclidean_division_equations; lia.
  - unfold is_cont, second3, second4, is_cont, within.
    replace ((0 <=? _) && _) with false by (Z.to_euclidean_division_equations; lia).
    replace ((0xc2 <=? _) && _ && _) with false by (Z.to_euclidean_division_equations; lia).
    rewrite (proj2 (Z.eqb_neq _ 0xe0)) by (Z.to_euclidean_division_equations; lia).
    rewrite (proj2 (Z.eqb_neq _ 0xed)) by (Z.to_euclidean_division_equations; lia).
    replace ((0xe1 <=? _) && _) with false by (Z.to_euclidean_division_equations; lia). cbn [andb].
    match goal with |- context [if ?b && ?b' && ?b'' then cons ?x <$> _ else _] =>
      replace (b && b' && b'') with true
        by (Z.to_euclidean_division_equations; repeat case_if; lia)
    end.
    f_equal. f_equal. Z.to_euclidean_division_equations; lia.
Qed.
