(* ===== verification/Parser.v ===== *)
(** The byte state machine of crates/vt-engine/src/parser.rs.  The parser holds
    no grid: it drives whatever implements [Actions].  Array writes are
    bounds-checked as Rust checks them ([None] is a panic). *)
From S2P Require Import Prelude Utf8.

Local Open Scope Z_scope.

(** [trait Actions]: what the parser asks of its client, each call updating
    the client's state or panicking. *)
Class Actions (A : Type) := {
  print : Z -> A -> option A;
  execute : Z -> A -> option A;
  csi : list Z -> list Z -> bool -> Z -> A -> option A;
  esc : list Z -> Z -> A -> option A;
  osc : list Z -> A -> option A }.

Inductive State :=
| Ground
| Escape
| EscapeIntermediate
| CsiEntry
| CsiParam
| CsiIntermediate
| CsiIgnore
| OscString
| OscEscape
| DcsPassthrough
| DcsEscape
| SosPmApc
| SosEscape.

#[export] Instance state_eq_dec : EqDecision State.
Proof. solve_decision. Defined.

Definition MAX_PARAMS : Z := 32.
Definition MAX_INTER : Z := 2.
Definition MAX_OSC : Z := 1024.
Definition MAX_UTF8 : Z := 4.

(** The fields of [Parser], but the one that only the mutation build has. *)
Record Parser := mkParser {
  state : State;
  params : list Z;
  param_len : Z;
  param_acc : Z;
  intermediates : list Z;
  inter_len : Z;
  ignore : bool;
  osc_buf : list Z;
  osc_len : Z;
  utf8 : list Z;
  utf8_len : Z;
  utf8_needed : Z;
  putback : option Z }.

#[export] Instance eta_parser : Eta Parser := fun p =>
  mkParser (state p) (params p) (param_len p) (param_acc p) (intermediates p)
    (inter_len p) (ignore p) (osc_buf p) (osc_len p) (utf8 p) (utf8_len p)
    (utf8_needed p) (putback p).

(** [[0; n]] *)
Definition zeros (n : Z) : list Z := replicate (Z.to_nat n) 0.

Arguments MAX_PARAMS : simpl never.
Arguments MAX_INTER : simpl never.
Arguments MAX_OSC : simpl never.
Arguments MAX_UTF8 : simpl never.
Arguments zeros : simpl never.

Definition is_idle (p : Parser) : bool :=
  bool_decide (state p = Ground) && (utf8_len p =? 0) && bool_decide (putback p = None).

Definition new : Parser :=
  {| state := Ground;
     params := zeros MAX_PARAMS; param_len := 0; param_acc := 0;
     intermediates := zeros MAX_INTER; inter_len := 0;
     ignore := false;
     osc_buf := zeros MAX_OSC; osc_len := 0;
     utf8 := zeros MAX_UTF8; utf8_len := 0; utf8_needed := 0;
     putback := None |}.

Definition reprocess (b : Z) (p : Parser) : Parser := p <| putback := Some b |>.

Definition reset_seq (p : Parser) : Parser :=
  p <| params := zeros MAX_PARAMS |> <| param_len := 0 |> <| param_acc := 0 |>
    <| intermediates := zeros MAX_INTER |> <| inter_len := 0 |>
    <| ignore := false |> <| osc_len := 0 |>.

Definition push_inter (b : Z) (p : Parser) : option Parser :=
  if inter_len p <? MAX_INTER then
    l ← zset (intermediates p) (inter_len p) b;
    Some (p <| intermediates := l |> <| inter_len := inter_len p + 1 |>)
  else Some (p <| ignore := true |>).

(** [b - b'0'] is a [u8] subtraction; the accumulator is a [u32]. *)
Definition push_digit (b : Z) (p : Parser) : option Parser :=
  d ← chk_sub b 0x30;
  let acc := sat_add u32_max (Z.min (param_acc p * 10) u32_max) d in
  Some (p <| param_acc := if u16_max <? acc then u16_max else acc |>).

Definition finish_param (p : Parser) : option Parser :=
  p ← (if param_len p <? MAX_PARAMS then
         l ← zset (params p) (param_len p) (Z.min (param_acc p) u16_max);
         Some (p <| params := l |> <| param_len := param_len p + 1 |>)
       else Some (p <| ignore := true |>));
  Some (p <| param_acc := 0 |>).

Definition push_osc (b : Z) (p : Parser) : option Parser :=
  if osc_len p <? MAX_OSC then
    l ← zset (osc_buf p) (osc_len p) b;
    Some (p <| osc_buf := l |> <| osc_len := osc_len p + 1 |>)
  else Some (p <| ignore := true |>).

Definition decode_utf8 (bs : list Z) : option Z := from_utf8 bs ≫= head.

Definition start_utf8 (lead needed : Z) (p : Parser) : option Parser :=
  l ← zset (zeros MAX_UTF8) 0 lead;
  Some (p <| utf8 := l |> <| utf8_len := 1 |> <| utf8_needed := needed |>).

(** Byte classes the states share. *)
Definition is_c0 (b : Z) : bool := within 0x00 0x17 b || (b =? 0x19) || within 0x1c 0x1f b.
Definition is_cancel (b : Z) : bool := (b =? 0x18) || (b =? 0x1a).

Section Feed.
  Context {A : Type} `{!Actions A}.
  Implicit Types (p : Parser) (a : A) (b : Z).

Definition abort_utf8 (p : Parser) (a : A) : option (Parser * A) :=
  if 0 <? utf8_needed p then
    a ← print 0xfffd a;
    Some (p <| utf8_len := 0 |> <| utf8_needed := 0 |>, a)
  else Some (p, a).

Definition finish_utf8 (p : Parser) (a : A) : option (Parser * A) :=
  let needed := utf8_needed p in
  let buf := utf8 p in
  let p := p <| utf8_len := 0 |> <| utf8_needed := 0 |> in
  bs ← slice buf 0 needed;
  match decode_utf8 bs with
  | Some c => a ← print c a; Some (p, a)
  | None => a ← print 0xfffd a; Some (p, a)
  end.

Definition ground (b : Z) (p : Parser) (a : A) : option (Parser * A) :=
  if 0 <? utf8_needed p then
    if within 0x80 0xbf b then
      l ← zset (utf8 p) (utf8_len p) b;
      let p := p <| utf8 := l |> <| utf8_len := utf8_len p + 1 |> in
      if utf8_len p =? utf8_needed p then finish_utf8 p a else Some (p, a)
    else
      '(p, a) ← abort_utf8 p a;
      Some (reprocess b p, a)
  else if is_c0 b then
    a ← execute b a; Some (p, a)
  else if is_cancel b then
    let p := reset_seq p <| state := Ground |> in
    a ← execute b a; Some (p, a)
  else if b =? 0x1b then
    Some (reset_seq p <| state := Escape |>, a)
  else if within 0x20 0x7e b then
    a ← print b a; Some (p, a)
  else if b =? 0x7f then Some (p, a)
  else if within 0x80 0x9f b then
    a ← print 0xfffd a; Some (p, a)
  else if within 0xa0 0xbf b then
    a ← print 0xfffd a; Some (p, a)
  else if (b =? 0xc0) || (b =? 0xc1) then
    a ← print 0xfffd a; Some (p, a)
  else if within 0xc2 0xdf b then
    p ← start_utf8 b 2 p; Some (p, a)
  else if within 0xe0 0xef b then
    p ← start_utf8 b 3 p; Some (p, a)
  else if within 0xf0 0xf4 b then
    p ← start_utf8 b 4 p; Some (p, a)
  else
    a ← print 0xfffd a; Some (p, a).

(** [CAN]/[SUB] in an escape or control sequence: back to ground, executed. *)
Definition cancel (b : Z) (p : Parser) (a : A) : option (Parser * A) :=
  a ← execute b a; Some (p <| state := Ground |>, a).

Definition escape (b : Z) (p : Parser) (a : A) : option (Parser * A) :=
  if is_c0 b then a ← execute b a; Some (p, a)
  else if is_cancel b then cancel b p a
  else if b =? 0x1b then Some (reset_seq p, a)
  else if within 0x20 0x2f b then
    p ← push_inter b p; Some (p <| state := EscapeIntermediate |>, a)
  else if within 0x30 0x4f b || within 0x51 0x57 b || (b =? 0x59) || (b =? 0x5a)
       || (b =? 0x5c) || within 0x60 0x7e b then
    i ← slice (intermediates p) 0 (inter_len p);
    a ← esc i b a;
    Some (reset_seq (p <| state := Ground |>), a)
  else if b =? 0x50 then Some (reset_seq p <| state := DcsPassthrough |>, a)
  else if (b =? 0x58) || (b =? 0x5e) || (b =? 0x5f) then
    Some (reset_seq p <| state := SosPmApc |>, a)
  else if b =? 0x5b then Some (reset_seq p <| state := CsiEntry |>, a)
  else if b =? 0x5d then Some (reset_seq p <| state := OscString |>, a)
  else if b =? 0x7f then Some (p, a)
  else Some (reset_seq (p <| state := Ground |>), a).

Definition escape_intermediate (b : Z) (p : Parser) (a : A) : option (Parser * A) :=
  if is_c0 b then a ← execute b a; Some (p, a)
  else if is_cancel b then cancel b p a
  else if b =? 0x1b then Some (reset_seq p <| state := Escape |>, a)
  else if within 0x20 0x2f b then p ← push_inter b p; Some (p, a)
  else if within 0x30 0x7e b then
    i ← slice (intermediates p) 0 (inter_len p);
    a ← esc i b a;
    Some (reset_seq (p <| state := Ground |>), a)
  else Some (reset_seq (p <| state := Ground |>), a).

Definition dispatch_csi (action : Z) (p : Parser) (a : A) : option (Parser * A) :=
  ps ← slice (params p) 0 (param_len p);
  i ← slice (intermediates p) 0 (inter_len p);
  a ← csi ps i (ignore p) action a;
  Some (reset_seq (p <| state := Ground |>), a).

Definition csi_entry (b : Z) (p : Parser) (a : A) : option (Parser * A) :=
  if is_c0 b then a ← execute b a; Some (p, a)
  else if is_cancel b then cancel b p a
  else if b =? 0x1b then Some (reset_seq p <| state := Escape |>, a)
  else if within 0x20 0x2f b then
    p ← push_inter b p; Some (p <| state := CsiIntermediate |>, a)
  else if within 0x30 0x39 b then
    p ← push_digit b p; Some (p <| state := CsiParam |>, a)
  else if (b =? 0x3a) || (b =? 0x3b) then
    p ← finish_param p; Some (p <| state := CsiParam |>, a)
  else if within 0x3c 0x3f b then
    p ← push_inter b p; Some (p <| state := CsiParam |>, a)
  else if within 0x40 0x7e b then dispatch_csi b p a
  else if b =? 0x7f then Some (p, a)
  else Some (p <| ignore := true |> <| state := CsiParam |>, a).

Definition csi_param (b : Z) (p : Parser) (a : A) : option (Parser * A) :=
  if is_c0 b then a ← execute b a; Some (p, a)
  else if is_cancel b then cancel b p a
  else if b =? 0x1b then Some (reset_seq p <| state := Escape |>, a)
  else if within 0x20 0x2f b then
    p ← finish_param p;
    p ← push_inter b p; Some (p <| state := CsiIntermediate |>, a)
  else if within 0x30 0x39 b then p ← push_digit b p; Some (p, a)
  else if (b =? 0x3a) || (b =? 0x3b) then p ← finish_param p; Some (p, a)
  else if within 0x3c 0x3f b then Some (p <| state := CsiIgnore |>, a)
  else if within 0x40 0x7e b then
    p ← finish_param p; dispatch_csi b p a
  else if b =? 0x7f then Some (p, a)
  else Some (p <| ignore := true |>, a).

Definition csi_intermediate (b : Z) (p : Parser) (a : A) : option (Parser * A) :=
  if is_c0 b then a ← execute b a; Some (p, a)
  else if is_cancel b then cancel b p a
  else if b =? 0x1b then Some (reset_seq p <| state := Escape |>, a)
  else if within 0x20 0x2f b then p ← push_inter b p; Some (p, a)
  else if within 0x30 0x3f b then Some (p <| state := CsiIgnore |>, a)
  else if within 0x40 0x7e b then dispatch_csi b p a
  else Some (p <| ignore := true |> <| state := CsiIgnore |>, a).

Definition csi_ignore (b : Z) (p : Parser) (a : A) : option (Parser * A) :=
  if is_c0 b then a ← execute b a; Some (p, a)
  else if is_cancel b then cancel b p a
  else if b =? 0x1b then Some (reset_seq p <| state := Escape |>, a)
  else if within 0x40 0x7e b then Some (reset_seq (p <| state := Ground |>), a)
  else Some (p, a).

Definition osc_string (b : Z) (p : Parser) (a : A) : option (Parser * A) :=
  if b =? 0x07 then
    payload ← slice (osc_buf p) 0 (osc_len p);
    a ← osc payload a;
    Some (reset_seq (p <| state := Ground |>), a)
  else if b =? 0x1b then Some (p <| state := OscEscape |>, a)
  else if is_cancel b then
    a ← execute b a; Some (reset_seq (p <| state := Ground |>), a)
  else p ← push_osc b p; Some (p, a).

Definition osc_escape (b : Z) (p : Parser) (a : A) : option (Parser * A) :=
  if b =? 0x5c then
    payload ← slice (osc_buf p) 0 (osc_len p);
    a ← osc payload a;
    Some (reset_seq (p <| state := Ground |>), a)
  else Some (reprocess b (reset_seq (p <| state := Escape |>)), a).

Definition dcs_passthrough (b : Z) (p : Parser) (a : A) : option (Parser * A) :=
  if b =? 0x1b then Some (p <| state := DcsEscape |>, a)
  else if is_cancel b then
    a ← execute b a; Some (reset_seq (p <| state := Ground |>), a)
  else Some (p, a).

Definition dcs_escape (b : Z) (p : Parser) (a : A) : option (Parser * A) :=
  if b =? 0x5c then Some (reset_seq (p <| state := Ground |>), a)
  else Some (reprocess b (reset_seq (p <| state := Escape |>)), a).

Definition sos (b : Z) (p : Parser) (a : A) : option (Parser * A) :=
  if b =? 0x1b then Some (p <| state := SosEscape |>, a)
  else if is_cancel b then Some (reset_seq (p <| state := Ground |>), a)
  else Some (p, a).

Definition sos_escape (b : Z) (p : Parser) (a : A) : option (Parser * A) :=
  if b =? 0x5c then Some (reset_seq (p <| state := Ground |>), a)
  else Some (reprocess b (reset_seq (p <| state := Escape |>)), a).

(** The [match self.state] of [Parser::step]. *)
Definition dispatch (b : Z) (p : Parser) (a : A) : option (Parser * A) :=
  match state p with
  | Ground => ground b p a
  | Escape => escape b p a
  | EscapeIntermediate => escape_intermediate b p a
  | CsiEntry => csi_entry b p a
  | CsiParam => csi_param b p a
  | CsiIntermediate => csi_intermediate b p a
  | CsiIgnore => csi_ignore b p a
  | OscString => osc_string b p a
  | OscEscape => osc_escape b p a
  | DcsPassthrough => dcs_passthrough b p a
  | DcsEscape => dcs_escape b p a
  | SosPmApc => sos b p a
  | SosEscape => sos_escape b p a
  end.

Definition step (b : Z) (p : Parser) (a : A) : option (Parser * A) :=
  '(p, a) ← (if (0 <? utf8_needed p) && negb (bool_decide (state p = Ground))
             then abort_utf8 p a else Some (p, a));
  dispatch b p a.

(** The loop of [Parser::feed]: the put-back byte first, then the next input
    byte.  [None] is a panic, [Some None] is running out of fuel. *)
Fixpoint feed_loop (fuel : nat) (bs : list Z) (p : Parser) (a : A)
  : option (option (Parser * A)) :=
  match fuel with
  | O => Some None
  | S fuel =>
    match putback p, bs with
    | None, [] => Some (Some (p, a))
    | Some b, _ =>
        '(p, a) ← step b (p <| putback := None |>) a;
        feed_loop fuel bs p a
    | None, b :: bs =>
        '(p, a) ← step b p a;
        feed_loop fuel bs p a
    end
  end.

(** Two steps per byte and the final test are enough ([feed_loop_enough]). *)
Definition feed_fuel (bs : list Z) : nat := 2 * length bs + 3.

Definition feed (bs : list Z) (p : Parser) (a : A) : option (Parser * A) :=
  feed_loop (feed_fuel bs) bs p a ≫= id.

End Feed.

Arguments feed {A _} : simpl never.
Arguments feed_fuel : simpl never.
