(* ===== verification/ParserFacts.v ===== *)
(** What the parser guarantees: it terminates, it is insensitive to how the
    byte stream is cut into chunks, it never panics, and it hands its client
    well-formed arguments only. *)
From S2P Require Import Prelude Utf8 Parser.

Local Open Scope Z_scope.

(** ** Termination and chunking *)

(** A put-back byte is consumed by a state that does not put it back again. *)
Definition settled (p : Parser) : bool :=
  match state p with
  | Ground => utf8_needed p <=? 0
  | Escape => true
  | _ => false
  end.

(** [bind_inv]: read a successful monadic computation backwards. *)
Ltac bind_inv :=
  repeat match goal with
  | H : (_ ≫= _) = Some _ |- _ => apply bind_Some in H as (? & ? & ?)
  | H : Some _ = Some _ |- _ => injection H as H
  | H : (_, _) = (_, _) |- _ => injection H as H
  | H : None = Some _ |- _ => discriminate H
  | x : (_ * _)%type |- _ => destruct x
  | H : (if ?b then _ else _) = Some _ |- _ => destruct b eqn:?
  | H : match ?o with Some _ => _ | None => _ end = Some _ |- _ => destruct o eqn:?
  end; subst.

Section Stepping.
Context {A : Type} `{!Actions A}.
Implicit Types (p : Parser) (a : A) (b : Z).

Lemma push_inter_putback b p p' : push_inter b p = Some p' ->
  putback p' = putback p /\ state p' = state p.
Proof. unfold push_inter. intros H. bind_inv; done. Qed.

Lemma push_digit_putback b p p' : push_digit b p = Some p' ->
  putback p' = putback p /\ state p' = state p.
Proof. unfold push_digit. intros H. bind_inv; done. Qed.

Lemma finish_param_putback p p' : finish_param p = Some p' ->
  putback p' = putback p /\ state p' = state p.
Proof. unfold finish_param. intros H. bind_inv; done. Qed.

Lemma push_osc_putback b p p' : push_osc b p = Some p' ->
  putback p' = putback p /\ state p' = state p.
Proof. unfold push_osc. intros H. bind_inv; done. Qed.

Lemma start_utf8_putback b n p p' : start_utf8 b n p = Some p' ->
  putback p' = putback p /\ state p' = state p.
Proof. unfold start_utf8. intros H. bind_inv; done. Qed.

Ltac putback_frame :=
  repeat match goal with
    | H : push_inter _ _ = Some _ |- _ => apply push_inter_putback in H as [? ?]
    | H : push_digit _ _ = Some _ |- _ => apply push_digit_putback in H as [? ?]
    | H : finish_param _ = Some _ |- _ => apply finish_param_putback in H as [? ?]
    | H : push_osc _ _ = Some _ |- _ => apply push_osc_putback in H as [? ?]
    | H : start_utf8 _ _ _ = Some _ |- _ => apply start_utf8_putback in H as [? ?]
    end; cbn in *.

Lemma step_dispatch b p a r :
  step b p a = Some r ->
  exists p0 a0, dispatch b p0 a0 = Some r /\ state p0 = state p /\
    putback p0 = putback p /\ (state p = Ground -> p0 = p).
Proof.
  unfold step. intros H. apply bind_Some in H as ([p0 a0] & H0 & H).
  exists p0, a0. destruct (_ && _) eqn:E.
  - unfold abort_utf8 in H0. bind_inv; (split_and!; [done..|]).
    + intros Hg. rewrite bool_decide_eq_true_2 in E by done. lia.
    + done.
  - bind_inv. done.
Qed.

Lemma dispatch_putback b p a p' a' :
  dispatch b p a = Some (p', a') ->
  putback p' = putback p \/ (settled p = false /\ settled p' = true).
Proof.
  unfold dispatch, settled. intros H. destruct (state p) eqn:Est;
  unfold ground, escape, escape_intermediate, csi_entry, csi_param,
    csi_intermediate, csi_ignore, osc_string, osc_escape, dcs_passthrough,
    dcs_escape, sos, sos_escape, dispatch_csi, cancel, finish_utf8, abort_utf8 in *.
  all: bind_inv; cbn in *; try (left; done); try (right; split; [lia | done]).
  all: putback_frame; try (left; congruence).
  all: right; rewrite Est; cbn; lia.
Qed.

Lemma dispatch_putback_byte b p a p' a' :
  dispatch b p a = Some (p', a') -> putback p' = putback p \/ putback p' = Some b.
Proof.
  unfold dispatch. intros H. destruct (state p);
  unfold ground, escape, escape_intermediate, csi_entry, csi_param,
    csi_intermediate, csi_ignore, osc_string, osc_escape, dcs_passthrough,
    dcs_escape, sos, sos_escape, dispatch_csi, cancel, finish_utf8, abort_utf8 in *.
  all: bind_inv; cbn in *; try (left; done); try (right; done).
  all: putback_frame; left; congruence.
Qed.

Lemma step_putback_byte b p a p' a' :
  step b p a = Some (p', a') -> putback p' = putback p \/ putback p' = Some b.
Proof.
  intros (p0 & a0 & H & _ & <- & _)%step_dispatch. by eapply dispatch_putback_byte.
Qed.

(** One step keeps the put-back slot, or fills it and settles. *)
Lemma step_putback b p a p' a' :
  step b p a = Some (p', a') ->
  putback p' = putback p \/ (settled p = false /\ settled p' = true).
Proof.
  intros (p0 & a0 & H & Hs & <- & Hg)%step_dispatch.
  apply dispatch_putback in H as [?|[H1 H2]]; [by left | right; split; [|done]].
  unfold settled in *. rewrite Hs in H1. destruct (state p); [|done..].
  now rewrite Hg in H1.
Qed.
End Stepping.

Section Feeding.
Context {A : Type} `{!Actions A}.
Implicit Types (p : Parser) (a : A) (b : Z) (bs : list Z).

(** Steps left: two per unread byte, up to two for a put-back byte, and the
    test that ends the loop. *)
Definition feed_measure bs p : nat :=
  2 * length bs + match putback p with
                  | None => 1
                  | Some _ => if settled p then 2 else 3
                  end.

Lemma settled_putback p o : settled (p <| putback := o |>) = settled p.
Proof. done. Qed.

Lemma feed_loop_enough n bs p a :
  (feed_measure bs p <= n)%nat -> feed_loop n bs p a <> Some None.
Proof.
  revert bs p a. unfold feed_measure.
  induction n as [|n IH]; intros bs p a Hn; cbn [feed_loop].
  { destruct (putback p); [destruct (settled p)|]; lia. }
  destruct (putback p) as [b|] eqn:Hp.
  - destruct (step b _ a) as [[p' a']|] eqn:Hs; cbn; [|done].
    apply step_putback in Hs. rewrite settled_putback in Hs. cbn in Hs.
    apply IH. destruct Hs as [-> | [H1 H2]]; [destruct (settled p); lia|].
    rewrite H1 in Hn. rewrite H2. destruct (putback p'); lia.
  - destruct bs as [|b bs]; [done|].
    destruct (step b p a) as [[p' a']|] eqn:Hs; cbn; [|done].
    apply step_putback in Hs. rewrite Hp in Hs. cbn in Hn.
    apply IH. destruct Hs as [-> | [_ ->]]; [lia|]. destruct (putback p'); lia.
Qed.

Lemma feed_fuel_measure bs p : (feed_measure bs p <= feed_fuel bs)%nat.
Proof.
  unfold feed_measure, feed_fuel.
  destruct (putback p); [destruct (settled p)|]; lia.
Qed.

Lemma feed_loop_mono n m bs p a :
  (n <= m)%nat -> feed_loop n bs p a <> Some None ->
  feed_loop m bs p a = feed_loop n bs p a.
Proof.
  revert m bs p a. induction n as [|n IH]; intros m bs p a Hm H; [done|].
  destruct m as [|m]; [lia|]. cbn [feed_loop] in *.
  destruct (putback p) as [b|] eqn:Hp.
  - destruct (step b _ a) as [[p' a']|] eqn:Hs; cbn in *; [apply IH; [lia|done] | done].
  - destruct bs as [|b bs]; [done|].
    destruct (step b p a) as [[p' a']|] eqn:Hs; cbn in *; [apply IH; [lia|done] | done].
Qed.

(** The value [feed] computes, whatever fuel reaches it. *)
Lemma feed_loop_feed n bs p a :
  feed_loop n bs p a <> Some None -> feed bs p a = feed_loop n bs p a ≫= id.
Proof.
  intros H. unfold feed. f_equal.
  pose proof (feed_loop_enough _ _ _ a (feed_fuel_measure bs p)) as H'.
  destruct (Nat.le_ge_cases n (feed_fuel bs)).
  - now apply feed_loop_mono.
  - symmetry. now apply feed_loop_mono.
Qed.

Lemma feed_loop_app n bs bs' p a :
  match feed_loop n bs p a with
  | None => feed_loop n (bs ++ bs') p a = None
  | Some None => True
  | Some (Some (p', a')) => forall m, exists k,
      feed_loop k (bs ++ bs') p a = feed_loop m bs' p' a'
  end.
Proof.
  revert bs p a. induction n as [|n IH]; intros bs p a; [done|]. cbn [feed_loop].
  destruct (putback p) as [b|] eqn:Hp.
  - destruct (step b _ a) as [[p' a']|] eqn:Hs; cbn; [|done].
    specialize (IH bs p' a'). destruct (feed_loop n bs p' a') as [[[p2 a2]|]|]; try done.
    intros m. destruct (IH m) as [k Hk]. exists (S k). cbn [feed_loop].
    rewrite Hp, Hs. exact Hk.
  - destruct bs as [|b bs]; cbn [app].
    + intros m. now exists m.
    + destruct (step b p a) as [[p' a']|] eqn:Hs; cbn; [|done].
      specialize (IH bs p' a'). destruct (feed_loop n bs p' a') as [[[p2 a2]|]|]; try done.
      intros m. destruct (IH m) as [k Hk]. exists (S k). cbn [feed_loop].
      rewrite Hp, Hs. exact Hk.
Qed.

Lemma feed_loop_idle n bs p a p' a' :
  feed_loop n bs p a = Some (Some (p', a')) -> putback p' = None.
Proof.
  revert bs p a. induction n as [|n IH]; intros bs p a; [done|]. cbn [feed_loop].
  destruct (putback p) as [b|] eqn:Hp; [|destruct bs as [|b bs]].
  - destruct (step b _ a) as [[? ?]|]; cbn; [apply IH | done].
  - congruence.
  - destruct (step b _ a) as [[? ?]|]; cbn; [apply IH | done].
Qed.

Lemma feed_putback bs p a p' a' : feed bs p a = Some (p', a') -> putback p' = None.
Proof.
  unfold feed. intros (o & H & Ho)%bind_Some. cbn in Ho. subst o.
  eapply feed_loop_idle, H.
Qed.

Lemma feed_app_eq bs bs' p a :
  feed (bs ++ bs') p a = ('(p', a') ← feed bs p a; feed bs' p' a').
Proof.
  assert (feed bs p a = feed_loop (feed_fuel bs) bs p a ≫= id) as -> by done.
  pose proof (feed_loop_app (feed_fuel bs) bs bs' p a) as H.
  pose proof (feed_loop_enough _ _ _ a (feed_fuel_measure bs p)) as He.
  destruct (feed_loop (feed_fuel bs) bs p a) as [[[p' a']|]|]; cbn; [|done|].
  - destruct (H (feed_fuel bs')) as [k Hk].
    rewrite (feed_loop_feed k); [now rewrite Hk|]. rewrite Hk.
    apply feed_loop_enough, feed_fuel_measure.
  - rewrite (feed_loop_feed (feed_fuel bs)); [now rewrite H|]. congruence.
Qed.

Lemma feed_nil p a : putback p = None -> feed [] p a = Some (p, a).
Proof. intros H. unfold feed, feed_fuel. cbn. now rewrite H. Qed.

(** One byte, and what it may put back. *)
Lemma feed_cons b bs p a :
  putback p = None ->
  feed (b :: bs) p a = ('(p', a') ← step b p a; feed bs p' a').
Proof.
  intros Hp. pose proof (feed_loop_enough (S (feed_fuel bs)) (b :: bs) p a) as H.
  rewrite (feed_loop_feed (S (feed_fuel bs))).
  - cbn [feed_loop]. rewrite Hp. destruct (step b p a) as [[p' a']|]; done.
  - apply H. unfold feed_measure, feed_fuel. rewrite Hp. cbn. lia.
Qed.

Lemma feed_reprocess b bs p a :
  putback p = Some b ->
  feed bs p a = ('(p', a') ← step b (p <| putback := None |>) a; feed bs p' a').
Proof.
  intros Hp.
  rewrite (feed_loop_feed (S (feed_fuel bs))).
  - cbn [feed_loop]. rewrite Hp. destruct (step b _ a) as [[p' a']|]; done.
  - apply feed_loop_enough. pose proof (feed_fuel_measure bs p). lia.
Qed.
End Feeding.

(** ** Well-formedness and safety *)

(** The sequence buffers: fixed arrays with a fill count within them. *)
Definition seq_ok (p : Parser) : Prop :=
  (len (params p) = MAX_PARAMS /\ 0 <= param_len p <= MAX_PARAMS /\
   u16 (param_acc p) /\ Forall u16 (params p)) /\
  (len (intermediates p) = MAX_INTER /\ 0 <= inter_len p <= MAX_INTER /\
   bytes (intermediates p)) /\
  (len (osc_buf p) = MAX_OSC /\ 0 <= osc_len p <= MAX_OSC /\ bytes (osc_buf p)).

Definition utf8_idle (p : Parser) : Prop := utf8_needed p = 0 /\ utf8_len p = 0.

(** A partial UTF-8 sequence: a multi-byte lead and fewer bytes than needed. *)
Definition utf8_partial (p : Parser) : Prop :=
  2 <= utf8_needed p <= MAX_UTF8 /\ 1 <= utf8_len p < utf8_needed p /\
  len (utf8 p) = MAX_UTF8 /\
  exists lead, zget (utf8 p) 0 = Some lead /\ 0xc2 <= lead.

Definition parser_ok (p : Parser) : Prop :=
  seq_ok p /\ (utf8_idle p \/ (state p = Ground /\ utf8_partial p)).

(** Characters the parser may print: scalar values, no C0 control, no DEL. *)
Definition printable (c : Z) : bool :=
  is_scalar c && (0x20 <=? c) && negb (c =? 0x7f).

(** The promise a client makes to the parser: each call, with the arguments
    the parser passes, does not panic and keeps the client's invariant. *)
Class SafeActions (A : Type) `{!Actions A} (I : A -> Prop) : Prop := {
  safe_print c a : printable c = true -> I a -> safe (print c a) I;
  safe_execute b a : 0 <= b < 0x20 -> I a -> safe (execute b a) I;
  safe_csi ps i ign act a :
    Forall u16 ps -> len ps <= MAX_PARAMS -> bytes i -> len i <= MAX_INTER ->
    0x40 <= act <= 0x7e -> I a -> safe (csi ps i ign act a) I;
  safe_esc i b a :
    bytes i -> len i <= MAX_INTER -> 0x30 <= b <= 0x7e -> I a ->
    safe (esc i b a) I;
  safe_osc payload a :
    bytes payload -> len payload <= MAX_OSC -> I a -> safe (osc payload a) I }.

Lemma len_zeros n : 0 <= n -> len (zeros n) = n.
Proof. intros. unfold zeros. rewrite len_replicate. lia. Qed.

Lemma Forall_zeros (P : Z -> Prop) n : P 0 -> Forall P (zeros n).
Proof. apply Forall_replicate. Qed.

Lemma seq_ok_reset p : seq_ok p -> seq_ok (reset_seq p).
Proof.
  intros (? & ? & ? & ? & ?). unfold seq_ok, bytes; cbn . unfold MAX_PARAMS, MAX_INTER.
  rewrite !len_zeros by lia.
  split_and!; try apply Forall_zeros; try (unfold MAX_OSC in *; num); done.
Qed.

Lemma parser_ok_new : parser_ok new.
Proof.
  split; [|by left].
  unfold seq_ok, bytes; cbn . unfold MAX_PARAMS, MAX_INTER, MAX_OSC.
  rewrite !len_zeros by lia. split_and!; try apply Forall_zeros; num.
Qed.

(** Updates the invariant does not read, and the reset; the hint database
    [parser] closes the invariant goals of the handlers. *)
Section Frame.
Implicit Types (p : Parser).

Lemma seq_ok_state p s : seq_ok p -> seq_ok (p <| state := s |>).
Proof. exact id. Qed.
Lemma seq_ok_putback p o : seq_ok p -> seq_ok (p <| putback := o |>).
Proof. exact id. Qed.
Lemma seq_ok_ignore p i : seq_ok p -> seq_ok (p <| ignore := i |>).
Proof. exact id. Qed.
Lemma utf8_idle_state p s : utf8_idle p -> utf8_idle (p <| state := s |>).
Proof. exact id. Qed.
Lemma utf8_idle_putback p o : utf8_idle p -> utf8_idle (p <| putback := o |>).
Proof. exact id. Qed.
Lemma utf8_idle_ignore p i : utf8_idle p -> utf8_idle (p <| ignore := i |>).
Proof. exact id. Qed.
Lemma utf8_idle_reset p : utf8_idle p -> utf8_idle (reset_seq p).
Proof. exact id. Qed.
Lemma seq_ok_reprocess b p : seq_ok p -> seq_ok (reprocess b p).
Proof. exact id. Qed.
Lemma utf8_idle_reprocess b p : utf8_idle p -> utf8_idle (reprocess b p).
Proof. exact id. Qed.
End Frame.

Create HintDb parser discriminated.
#[export] Hint Constants Opaque : parser.
#[export] Hint Resolve seq_ok_state seq_ok_putback seq_ok_ignore seq_ok_reset
  utf8_idle_state utf8_idle_putback utf8_idle_ignore utf8_idle_reset
  seq_ok_reprocess utf8_idle_reprocess : parser.

Lemma zset_Forall {B} (P : B -> Prop) l i x l' :
  zset l i x = Some l' -> Forall P l -> P x -> Forall P l'.
Proof. unfold zset. intros. case_if_in H; [|done]. simplify_eq. by apply Forall_insert. Qed.

(** The buffer operations keep the buffers well formed and touch nothing else
    that the invariant reads. *)
Definition seq_step (p p' : Parser) : Prop :=
  seq_ok p' /\ utf8_needed p' = utf8_needed p /\ utf8_len p' = utf8_len p.

Lemma seq_step_idle p p' : seq_step p p' -> utf8_idle p -> seq_ok p' /\ utf8_idle p'.
Proof. unfold utf8_idle. intros (? & -> & ->) ?; auto. Qed.

Ltac seq_solve := unfold seq_step, seq_ok; cbn; split_and!; try tauto; try num.

Lemma push_inter_safe b p : seq_ok p -> u8 b ->
  safe (push_inter b p) (seq_step p).
Proof.
  intros Hs Hb. unfold push_inter. apply safe_if; intros Hi; [|by apply safe_ret].
  destruct Hs as (? & (Hl & Hle & Hbs) & ?).
  destruct (zset_ok (intermediates p) (inter_len p) b) as (l & Hz & Hl' & _); [lia|].
  rewrite Hz. apply safe_ret. seq_solve.
  by eapply zset_Forall.
Qed.

Lemma push_digit_safe b p : seq_ok p -> 0x30 <= b ->
  safe (push_digit b p) (seq_step p).
Proof.
  intros Hs Hb. unfold push_digit, chk_sub.
  rewrite (proj2 (Z.leb_le _ _)) by lia. apply safe_ret.
  destruct Hs as ((? & ? & Hacc & ?) & ? & ?). seq_solve. case_if; num.
Qed.

Lemma finish_param_safe p : seq_ok p ->
  safe (finish_param p) (seq_step p).
Proof.
  intros Hs. pose proof Hs as ((Hl & Hle & Ha & Hf) & ? & ?). unfold finish_param.
  eapply safe_bind with (P := fun p' => seq_ok p' /\ state p' = state p /\
    utf8_needed p' = utf8_needed p /\ utf8_len p' = utf8_len p).
  - apply safe_if; intros Hi; [|by apply safe_ret].
    destruct (zset_ok (params p) (param_len p) (Z.min (param_acc p) u16_max))
      as (l & Hz & Hl' & _); [lia|].
    rewrite Hz. apply safe_ret. seq_solve.
    eapply zset_Forall; [done..|]. num.
  - intros p' (((?&?&?&?)&?&?)&?&?). apply safe_ret. seq_solve.
Qed.

Lemma push_osc_safe b p : seq_ok p -> u8 b ->
  safe (push_osc b p) (seq_step p).
Proof.
  intros Hs Hb. unfold push_osc. apply safe_if; intros Hi; [|by apply safe_ret].
  destruct Hs as (? & ? & (Hl & Hle & Hbs)).
  destruct (zset_ok (osc_buf p) (osc_len p) b) as (l & Hz & Hl' & _); [lia|].
  rewrite Hz. apply safe_ret. seq_solve.
  by eapply zset_Forall.
Qed.

Lemma slice_prefix_safe {B} (P : B -> Prop) l n :
  0 <= n <= len l -> Forall P l ->
  safe (slice l 0 n) (fun l' => len l' = n /\ Forall P l').
Proof.
  intros Hn Hl. unfold slice. rewrite (proj2 (in_range_iff _ _ _)) by lia.
  apply safe_ret. rewrite len_take, len_drop. split; [lia|].
  now apply Forall_take, Forall_drop.
Qed.

Lemma is_c0_spec b : is_c0 b = true -> 0 <= b < 0x20.
Proof. unfold is_c0. num. Qed.

Lemma is_cancel_spec b : is_cancel b = true -> 0 <= b < 0x20.
Proof. unfold is_cancel. num. Qed.

(** A multi-byte sequence decodes to a scalar value above ASCII. *)
Lemma from_utf8_head b0 r cs :
  0x80 <= b0 -> from_utf8 (b0 :: r) = Some cs ->
  exists c cs', cs = c :: cs' /\ is_scalar c = true /\ 0x80 <= c.
Proof.
  intros Hb. cbn [from_utf8]. replace (within 0 127 b0) with false by num.
  intros H. repeat match goal with
  | H : match ?l with [] => _ | _ :: _ => _ end = Some _ |- _ => destruct l; [done|]
  | H : (if ?b then _ else _) = Some _ |- _ => destruct b eqn:?
  | H : _ <$> _ = Some _ |- _ => apply fmap_Some in H as (cs' & _ & ->)
  | H : None = Some _ |- _ => done
  end; eexists _, cs'; (split; [done|]);
  unfold second3, second4, is_cont, is_scalar, within in *;
  repeat match goal with H : context [if ?b then _ else _] |- _ => destruct b eqn:? end; lia.
Qed.

Lemma decode_utf8_printable b0 r c :
  0xc2 <= b0 -> decode_utf8 (b0 :: r) = Some c -> printable c = true.
Proof.
  intros Hb (cs & Hcs & Hc)%bind_Some.
  apply from_utf8_head in Hcs as (c' & cs' & -> & Hs & Hge); [|lia].
  injection Hc as ->. unfold printable. rewrite Hs. lia.
Qed.

Section Safety.
Context {A : Type} `{!Actions A} (I : A -> Prop) `{!SafeActions A I}.
Implicit Types (p : Parser) (a : A) (b : Z).

(** The invariant of the pair the parser threads. *)
Definition pair_ok (r : Parser * A) : Prop := parser_ok r.1 /\ I r.2.

Lemma pair_ok_idle p a : seq_ok p -> utf8_idle p -> I a -> pair_ok (p, a).
Proof. intros. split; [split; [done | by left] | done]. Qed.

Lemma safe_csi_step p b a :
  seq_ok p -> utf8_idle p -> 0x40 <= b <= 0x7e -> I a ->
  safe (dispatch_csi b p a) pair_ok.
Proof.
  intros Hs Hu Hb Ha. pose proof Hs as ((?&?&?&?)&(?&?&?)&?). unfold dispatch_csi.
  eapply safe_bind; [apply (slice_prefix_safe u16); [lia|done]|]; intros ps [??].
  eapply safe_bind; [apply (slice_prefix_safe u8); [lia|done]|]; intros i [??].
  eapply safe_bind; [apply safe_csi; lia || done|]; intros.
  apply safe_ret, pair_ok_idle; auto with parser nocore.
Qed.

Lemma safe_esc_step p b a :
  seq_ok p -> utf8_idle p -> 0x30 <= b <= 0x7e -> I a ->
  safe (i ← slice (intermediates p) 0 (inter_len p);
        a ← esc i b a;
        Some (reset_seq (p <| state := Ground |>), a)) pair_ok.
Proof.
  intros Hs Hu Hb Ha. pose proof Hs as ((?&?&?&?)&(?&?&?)&?).
  eapply safe_bind; [apply (slice_prefix_safe u8); [lia|done]|]; intros i [??].
  eapply safe_bind; [apply safe_esc; lia || done|]; intros.
  apply safe_ret, pair_ok_idle; auto with parser nocore.
Qed.

Lemma safe_osc_step p a :
  seq_ok p -> utf8_idle p -> I a ->
  safe (payload ← slice (osc_buf p) 0 (osc_len p);
        a ← osc payload a;
        Some (reset_seq (p <| state := Ground |>), a)) pair_ok.
Proof.
  intros Hs Hu Ha. pose proof Hs as (?&?&(?&?&?)).
  eapply safe_bind; [apply (slice_prefix_safe u8); [lia|done]|]; intros i [??].
  eapply safe_bind; [apply safe_osc; lia || done|]; intros.
  apply safe_ret, pair_ok_idle; auto with parser nocore.
Qed.
End Safety.

Ltac handler :=
  repeat match goal with
  | |- safe (if _ then _ else _) _ => apply safe_if; intros
  | |- safe (cancel _ _ _) _ => unfold cancel
  | |- safe (dispatch_csi _ _ _) _ => apply safe_csi_step; [assumption.. | num | assumption]
  | |- safe (slice (intermediates _) _ _ ≫= _) _ =>
      apply safe_esc_step; [assumption.. | num | assumption]
  | |- safe (slice (osc_buf _) _ _ ≫= _) _ => apply safe_osc_step; assumption
  | |- safe (execute _ _ ≫= _) _ =>
      eapply safe_bind; [apply safe_execute; [first [by apply is_c0_spec | by apply is_cancel_spec] | assumption] | intros]
  | |- safe (push_inter _ _ ≫= _) _ =>
      eapply safe_bind; [apply push_inter_safe; assumption | intros ? [? ?]%seq_step_idle; [|assumption]]
  | |- safe (push_digit _ _ ≫= _) _ =>
      eapply safe_bind; [apply push_digit_safe; [assumption | num] | intros ? [? ?]%seq_step_idle; [|assumption]]
  | |- safe (finish_param _ ≫= _) _ =>
      eapply safe_bind; [apply finish_param_safe; assumption | intros ? [? ?]%seq_step_idle; [|assumption]]
  | |- safe (push_osc _ _ ≫= _) _ =>
      eapply safe_bind; [apply push_osc_safe; assumption | intros ? [? ?]%seq_step_idle; [|assumption]]
  | |- safe (Some _) _ => apply safe_ret
  | |- pair_ok _ _ =>
      apply pair_ok_idle; [solve [auto 8 with parser nocore].. | assumption]
  end.

Section Safety2.
Context {A : Type} `{!Actions A} (I : A -> Prop) `{!SafeActions A I}.
Implicit Types (p : Parser) (a : A) (b : Z).

Lemma dispatch_safe_idle b p a :
  state p <> Ground -> seq_ok p -> utf8_idle p -> u8 b -> I a ->
  safe (dispatch b p a) (pair_ok I).
Proof.
  intros Hg Hs Hu Hb Ha. unfold dispatch. destruct (state p); [done|..];
  unfold escape, escape_intermediate, csi_entry, csi_param, csi_intermediate,
    csi_ignore, osc_string, osc_escape, dcs_passthrough, dcs_escape, sos, sos_escape.
  all: handler.
Qed.

Lemma start_utf8_safe lead n p a :
  seq_ok p -> state p = Ground -> 0xc2 <= lead <= 0xff -> 2 <= n <= 4 -> I a ->
  safe (p ← start_utf8 lead n p; Some (p, a)) (pair_ok I).
Proof.
  intros Hs Hg Hl Hn Ha. unfold start_utf8.
  destruct (zset_ok (zeros MAX_UTF8) 0 lead) as (l & Hz & Hlen & Hget).
  { rewrite len_zeros; unfold MAX_UTF8; lia. }
  rewrite Hz. cbn. apply safe_ret. split; [split|]; [exact Hs| |exact Ha].
  right. split; [exact Hg|]. unfold utf8_partial; cbn.
  rewrite len_zeros in Hlen by (unfold MAX_UTF8; lia).
  split_and!; try done; try (unfold MAX_UTF8; lia).
  exists lead. rewrite Hget. cbn. split; [done|lia].
Qed.

Lemma finish_utf8_safe p a :
  seq_ok p -> len (utf8 p) = MAX_UTF8 -> 2 <= utf8_needed p <= MAX_UTF8 ->
  (exists lead, zget (utf8 p) 0 = Some lead /\ 0xc2 <= lead) -> I a ->
  safe (finish_utf8 p a) (pair_ok I).
Proof.
  intros Hs Hl Hn (lead & Hg & Hlead) Ha. unfold finish_utf8.
  eapply safe_bind; [apply slice_ok; lia|]. intros bs [Hbs Hget].
  assert (exists r, bs = lead :: r) as [r ->].
  { specialize (Hget 0 ltac:(lia)). rewrite Z.add_0_r, Hg in Hget.
    destruct bs as [|b r]; [done|]. injection Hget as ->. eauto. }
  destruct (decode_utf8 (lead :: r)) as [c|] eqn:Hd.
  - apply decode_utf8_printable in Hd; [|done].
    eapply safe_bind; [by apply safe_print|]. intros a' Ha'.
    apply safe_ret, pair_ok_idle; [exact Hs | done | done].
  - eapply safe_bind; [by apply safe_print|]. intros a' Ha'.
    apply safe_ret, pair_ok_idle; [exact Hs | done | done].
Qed.

Lemma ground_safe b p a :
  state p = Ground -> parser_ok p -> u8 b -> I a ->
  safe (ground b p a) (pair_ok I).
Proof.
  intros Hg [Hs Hu] Hb Ha. unfold ground. apply safe_if; intros Hn.
  - destruct Hu as [[? _]|(_ & Hnd & Hle & Hl & lead & Hlead & Hge)]; [lia|].
    apply safe_if; intros Hc.
    + destruct (zset_ok (utf8 p) (utf8_len p) b) as (l & Hz & Hlen & Hget); [lia|].
      rewrite Hz. cbn. assert (zget l 0 = Some lead).
      { rewrite Hget. now rewrite (proj2 (Z.eqb_neq _ _)) by lia. }
      apply safe_if; intros He.
      * apply finish_utf8_safe; cbn; [exact Hs | lia | lia | by exists lead | done].
      * apply safe_ret. split; [split|]; [exact Hs| |exact Ha].
        right. split; [exact Hg|]. unfold utf8_partial; cbn.
        split_and!; try lia. by exists lead.
    + unfold abort_utf8. rewrite Hn.
      eapply safe_bind with (P := fun r => pair_ok I r).
      * eapply safe_bind; [by apply safe_print|]. intros a' Ha'.
        apply safe_ret, pair_ok_idle; [exact Hs | done | done].
      * intros [p' a'] [[Hs' Hu'] Ha']. apply safe_ret. cbn in *.
        split; [split|]; [exact Hs'| |exact Ha'].
        destruct Hu' as [?|[? ?]]; [by left | right; done].
  - assert (utf8_idle p) by (destruct Hu as [?|(_ & ? & _)]; [done | lia]).
    repeat (apply safe_if; intros).
    all: try match goal with
      | |- safe (print _ _ ≫= _) _ =>
          eapply safe_bind; [apply safe_print; [unfold printable, is_scalar; num | done]|];
          intros; apply safe_ret, pair_ok_idle; [solve [auto 8 with parser nocore].. | assumption]
      | |- safe (start_utf8 _ _ _ ≫= _) _ => apply start_utf8_safe; (done || num)
      end.
    all: handler.
Qed.

Lemma dispatch_safe b p a :
  parser_ok p -> u8 b -> I a -> safe (dispatch b p a) (pair_ok I).
Proof.
  intros Hp Hb Ha. destruct (decide (state p = Ground)) as [Hg|Hg].
  - unfold dispatch. rewrite Hg. by apply ground_safe.
  - destruct Hp as [Hs [Hu|[? _]]]; [|done]. by apply dispatch_safe_idle.
Qed.

(** In a well-formed state no partial sequence is pending outside ground, so
    the abort at the head of [step] does not fire. *)
Lemma step_is_dispatch b p a : parser_ok p -> step b p a = dispatch b p a.
Proof.
  intros [_ Hu]. unfold step. destruct (_ && _) eqn:E; [|done].
  exfalso. destruct Hu as [[? _]|[? _]]; [lia|].
  rewrite bool_decide_eq_true_2 in E by done. lia.
Qed.

Lemma step_safe b p a :
  parser_ok p -> u8 b -> I a -> safe (step b p a) (pair_ok I).
Proof. intros. rewrite step_is_dispatch by done. by apply dispatch_safe. Qed.

Lemma feed_loop_safe n bs p a :
  parser_ok p -> bytes bs -> (forall b, putback p = Some b -> u8 b) -> I a ->
  exists o, feed_loop n bs p a = Some o /\ forall r, o = Some r -> pair_ok I r.
Proof.
  revert bs p a. induction n as [|n IH]; intros bs p a Hp Hbs Hpb Ha.
  { exists None. done. }
  assert (Hstep : forall b (p0 : Parser) bs', u8 b -> bytes bs' -> parser_ok p0 ->
    putback p0 = None -> exists o,
    ('(p', a') ← step b p0 a; feed_loop n bs' p' a') = Some o /\
    forall r, o = Some r -> pair_ok I r).
  { intros b p0 bs' Hb Hbs' Hp0 Hpb0.
    destruct (step_safe b p0 a Hp0 Hb Ha) as ([p' a'] & Hs & [Hp' Ha']).
    rewrite Hs. cbn. apply IH; [done..| |done].
    intros b' Hb'. assert (Hpb' := step_putback_byte _ _ _ _ _ Hs). cbn in *.
    destruct Hpb' as [Hpb'|Hpb']; congruence. }
  cbn [feed_loop]. destruct (putback p) as [b|] eqn:Hpb1.
  - apply Hstep; [by apply Hpb | done | exact Hp | done].
  - destruct bs as [|b bs].
    + exists (Some (p, a)). split; [done|]. intros r [= <-]. done.
    + inversion Hbs; subst. by apply Hstep.
Qed.
End Safety2.

(** ** The parser is independent of its client

    [replay] performs recorded calls; the recorder is the client that only
    records them. *)

Inductive Event :=
| EPrint (c : Z)
| EExecute (b : Z)
| ECsi (ps i : list Z) (ign : bool) (act : Z)
| EEsc (i : list Z) (b : Z)
| EOsc (payload : list Z).

#[export] Instance event_eq_dec : EqDecision Event.
Proof. solve_decision. Defined.

Definition perform {A} `{Actions A} (e : Event) (a : A) : option A :=
  match e with
  | EPrint c => print c a
  | EExecute b => execute b a
  | ECsi ps i ign act => csi ps i ign act a
  | EEsc i b => esc i b a
  | EOsc payload => osc payload a
  end.

Definition replay {A} `{Actions A} (evs : list Event) (a : A) : option A :=
  for_each evs perform a.

#[export] Instance recorder : Actions (list Event) := {|
  print c l := Some (l ++ [EPrint c]);
  execute b l := Some (l ++ [EExecute b]);
  csi ps i ign act l := Some (l ++ [ECsi ps i ign act]);
  esc i b l := Some (l ++ [EEsc i b]);
  osc payload l := Some (l ++ [EOsc payload]) |}.

Definition event_ok (e : Event) : Prop :=
  match e with
  | EPrint c => printable c = true
  | EExecute b => 0 <= b < 0x20
  | ECsi ps i _ act =>
      Forall u16 ps /\ len ps <= MAX_PARAMS /\ bytes i /\ len i <= MAX_INTER /\
      0x40 <= act <= 0x7e
  | EEsc i b => bytes i /\ len i <= MAX_INTER /\ 0x30 <= b <= 0x7e
  | EOsc payload => bytes payload /\ len payload <= MAX_OSC
  end.

#[export] Instance recorder_safe : SafeActions (list Event) (Forall event_ok).
Proof.
  split; intros; apply safe_ret, Forall_app_2; try done; apply Forall_singleton;
    cbn; split_and?; (done || lia).
Qed.

Lemma replay_app {A} `{Actions A} evs evs' (a : A) :
  replay (evs ++ evs') a = replay evs a ≫= replay evs'.
Proof. apply for_each_app. Qed.

Lemma replay_recorder evs (l : list Event) : replay evs l = Some (l ++ evs).
Proof.
  revert l. induction evs as [|e evs IH]; intros l.
  - unfold replay; cbn. now rewrite app_nil_r.
  - unfold replay in *; destruct e; cbn; rewrite IH, <- app_assoc; done.
Qed.

Section Traced.
(** A computation whose effect on any client is a fixed list of calls. *)
Definition traced (h : forall A, Actions A -> A -> option (Parser * A))
    (p' : Parser) (evs : list Event) : Prop :=
  forall A (HA : Actions A) a, h A HA a = (a' ← replay evs a; Some (p', a')).

Lemma bind_assoc_opt {X Y W} (m : option X) (f : X -> option Y) (g : Y -> option W) :
  (m ≫= f) ≫= g = m ≫= (fun x => f x ≫= g).
Proof. destruct m; done. Qed.

Lemma bind_ret_opt {X} (m : option X) : (m ≫= fun x => Some x) = m.
Proof. destruct m; done. Qed.

Ltac leaf_nil := eexists _, []; intros A HA a; reflexivity.
Ltac leaf_event :=
  match goal with
  | |- exists p' evs, traced (fun A HA a => print ?c a ≫= fun a' => Some (?q, a')) _ _ =>
      exists q, [EPrint c]; intros A HA a; cbn; now rewrite bind_assoc_opt
  | |- exists p' evs, traced (fun A HA a => execute ?c a ≫= fun a' => Some (?q, a')) _ _ =>
      exists q, [EExecute c]; intros A HA a; cbn; now rewrite bind_assoc_opt
  | |- exists p' evs, traced (fun A HA a => esc ?i ?c a ≫= fun a' => Some (?q, a')) _ _ =>
      exists q, [EEsc i c]; intros A HA a; cbn; now rewrite bind_assoc_opt
  | |- exists p' evs, traced (fun A HA a => osc ?c a ≫= fun a' => Some (?q, a')) _ _ =>
      exists q, [EOsc c]; intros A HA a; cbn; now rewrite bind_assoc_opt
  | |- exists p' evs, traced (fun A HA a => csi ?ps ?i ?g ?c a ≫= fun a' => Some (?q, a')) _ _ =>
      exists q, [ECsi ps i g c]; intros A HA a; cbn; now rewrite bind_assoc_opt
  end.

(** The recorder runs without panic, so every parser-side operation of the
    step succeeds; replace each by its value and read the calls off. *)
Lemma dispatch_traced b p :
  parser_ok p -> u8 b ->
  exists p' evs, traced (fun A HA a => @dispatch A HA b p a) p' evs.
Proof.
  intros Hp Hb.
  destruct (dispatch_safe (Forall event_ok) b p [] Hp Hb (Forall_nil_2 _))
    as ([q l] & Hq & _).
  revert Hq. unfold dispatch.
  destruct (state p);
  unfold ground, escape, escape_intermediate, csi_entry, csi_param,
    csi_intermediate, csi_ignore, osc_string, osc_escape, dcs_passthrough,
    dcs_escape, sos, sos_escape, dispatch_csi, cancel, finish_utf8, abort_utf8.
  all: intros Hq; repeat first
    [ leaf_nil | leaf_event
    | match type of Hq with
      | context [if ?c then _ else _] => destruct c eqn:?
      | (?m ≫= _) = Some _ =>
          let E := fresh "E" in destruct m eqn:E; cbn [mbind option_bind] in Hq; [|discriminate Hq]
      | match ?m with Some _ => _ | None => _ end = Some _ => destruct m eqn:?
      end; cbn [mbind option_bind] ].
  exists (reprocess b (p <| utf8_len := 0 |> <| utf8_needed := 0 |>)), [EPrint 0xfffd].
  intros A HA a. cbn [replay for_each perform]. now destruct (print 65533 a).
Qed.

Lemma traced_det h p1 p2 e1 e2 :
  traced h p1 e1 -> traced h p2 e2 -> p1 = p2 /\ e1 = e2.
Proof.
  intros H1 H2. specialize (H1 _ recorder []). specialize (H2 _ recorder []).
  rewrite replay_recorder in H1, H2. rewrite H1 in H2. cbn in H2. by simplify_eq.
Qed.

(** A byte, with the byte it may put back. *)
Lemma step_traced b p :
  parser_ok p -> u8 b ->
  exists p' evs, traced (fun A HA a => @step A HA b p a) p' evs /\ parser_ok p' /\
    (putback p' = putback p \/ putback p' = Some b) /\ Forall event_ok evs /\
    (putback p' = putback p \/ settled p' = true /\ settled p = false).
Proof.
  intros Hp Hb. destruct (dispatch_traced b p Hp Hb) as (p' & evs & Ht).
  exists p', evs.
  assert (Hs : traced (fun A HA a => @step A HA b p a) p' evs).
  { intros A HA a. rewrite step_is_dispatch by done. apply Ht. }
  split; [exact Hs|].
  destruct (step_safe (Forall event_ok) b p [] Hp Hb (Forall_nil_2 _))
    as ([q l] & Hq & [Hok Hl]).
  pose proof (step_putback_byte _ _ _ _ _ Hq) as Hpb.
  pose proof (step_putback _ _ _ _ _ Hq) as Hset.
  rewrite (Hs _ recorder), replay_recorder in Hq. cbn in Hq. simplify_eq.
  cbn in *. split_and!; try done. tauto.
Qed.

Lemma feed_traced_from n bs p :
  (feed_measure bs p <= n)%nat ->
  parser_ok p -> bytes bs -> (forall b, putback p = Some b -> u8 b) ->
  exists p' evs, traced (fun A HA a => @feed A HA bs p a) p' evs /\
    parser_ok p' /\ putback p' = None /\ Forall event_ok evs.
Proof.
  revert bs p. induction n as [|n IH]; intros bs p Hn Hp Hbs Hpb.
  { unfold feed_measure in Hn. destruct (putback p); [destruct (settled p)|]; lia. }
  assert (Hgo : forall b p0 bs', parser_ok p0 -> u8 b -> bytes bs' -> putback p0 = None ->
    (forall p', (putback p' = None \/ (settled p' = true /\ settled p0 = false)) ->
      (feed_measure bs' p' <= n)%nat) ->
    (forall A (HA : Actions A) a,
      @feed A HA bs p a = ('(p', a') ← step b p0 a; feed bs' p' a')) ->
    exists p' evs, traced (fun A HA a => @feed A HA bs p a) p' evs /\
      parser_ok p' /\ putback p' = None /\ Forall event_ok evs).
  { intros b p0 bs' Hp0 Hb Hbs' Hpb0 Hm Heq.
    destruct (step_traced b p0 Hp0 Hb) as (p1 & e1 & Ht1 & Hp1 & Hpb1 & He1 & Hset).
    rewrite Hpb0 in *.
    destruct (IH bs' p1) as (p2 & e2 & Ht2 & Hp2 & Hpb2 & He2); [|done..| |].
    { apply Hm. tauto. }
    { intros b' Hb'. destruct Hpb1; congruence. }
    exists p2, (e1 ++ e2). split_and!; [|done|done|by apply Forall_app_2].
    intros A HA a. rewrite Heq, (Ht1 A HA), replay_app.
    destruct (replay e1 a); cbn; [apply Ht2 | done]. }
  unfold feed_measure in Hn. destruct (putback p) as [b|] eqn:Hpb1.
  - apply (Hgo b (p <| putback := None |>) bs); auto.
    + intros p'. unfold feed_measure. intros [-> | [H1 H2]];
        [destruct (settled p); lia|].
      rewrite H1. change (settled p = false) in H2. rewrite H2 in Hn.
      destruct (putback p'); lia.
    + intros A HA a. now apply feed_reprocess.
  - destruct bs as [|b bs].
    + exists p, []. split_and!; try done. intros A HA a. now apply feed_nil.
    + inversion Hbs; subst. apply (Hgo b p bs); auto.
      * intros p'. unfold feed_measure. cbn [length] in Hn.
        intros [-> | [-> _]]; [lia|]. destruct (putback p'); lia.
      * intros A HA a. now apply feed_cons.
Qed.
End Traced.

(** ** Text and recovery *)

(** Decide the tests a concrete byte range settles. *)
Ltac byte_cases :=
  repeat match goal with
  | |- context [if ?b then _ else _] =>
      first [ replace b with true by (unfold is_c0, is_cancel, within, is_cont in *; cbn; lia)
            | replace b with false by (unfold is_c0, is_cancel, within, is_cont in *; cbn; lia) ];
      cbn iota
  end.

Section Text.
Implicit Types (p : Parser) (b c : Z).

Definition idle_ok (p : Parser) : Prop :=
  parser_ok p /\ state p = Ground /\ utf8_idle p /\ putback p = None.

Lemma is_idle_ok p : parser_ok p -> is_idle p = true -> idle_ok p.
Proof.
  unfold is_idle. intros Hp. rewrite !andb_true_iff, !bool_decide_eq_true.
  intros [[Hg Hl] Hpb]. split_and!; try done.
  destruct Hp as [_ [?|(_ & _ & ? & _)]]; [done | lia].
Qed.

Lemma idle_ok_is_idle p : idle_ok p -> is_idle p = true.
Proof.
  intros (_ & Hg & [_ Hl] & Hpb). unfold is_idle.
  rewrite !andb_true_iff, !bool_decide_eq_true. split_and!; [done | lia | done].
Qed.

(** The parser part-way through a multi-byte character. *)
Definition partial (buf : list Z) (l n : Z) (p : Parser) : Parser :=
  p <| utf8 := buf |> <| utf8_len := l |> <| utf8_needed := n |>.

Lemma ground_lead A (HA : Actions A) b n p a :
  utf8_needed p = 0 ->
  (n = 2 /\ 0xc2 <= b <= 0xdf \/ n = 3 /\ 0xe0 <= b <= 0xef \/ n = 4 /\ 0xf0 <= b <= 0xf4) ->
  ground b p a = Some (partial [b; 0; 0; 0] 1 n p, a).
Proof.
  intros Hu Hb. unfold ground. rewrite Hu.
  destruct Hb as [[-> ?]|[[-> ?]|[-> ?]]]; byte_cases; done.
Qed.

Lemma step_partial A (HA : Actions A) b p a buf l n :
  state p = Ground -> 0x80 <= b <= 0xbf -> 1 <= l < n -> n <= 4 -> len buf = 4 ->
  step b (partial buf l n p) a =
    (buf' ← zset buf l b;
     if l + 1 =? n then finish_utf8 (partial buf' (l + 1) n p) a
     else Some (partial buf' (l + 1) n p, a)).
Proof.
  intros Hg Hb Hl Hn Hbuf. unfold step. cbn. rewrite Hg.
  rewrite andb_false_r. cbn. unfold dispatch. cbn. rewrite Hg.
  unfold ground. cbn. byte_cases. done.
Qed.

Lemma step_ground A (HA : Actions A) b p a :
  state p = Ground -> step b p a = ground b p a.
Proof. intros Hg. unfold step, dispatch. rewrite Hg, andb_false_r. cbn. now rewrite Hg. Qed.

(** The last byte of a character. *)
Lemma finish_partial A (HA : Actions A) buf bs l n p a c :
  slice buf 0 n = Some bs -> decode_utf8 bs = Some c ->
  finish_utf8 (partial buf l n p) a = (a' ← print c a; Some (partial buf 0 0 p, a')).
Proof. intros Hs Hd. unfold finish_utf8. cbn. rewrite Hs. cbn. now rewrite Hd. Qed.

Ltac next_byte :=
  rewrite feed_cons by done;
  rewrite step_partial;
    [ | assumption
      | (Z.to_euclidean_division_equations; lia) | lia | lia | reflexivity ];
  match goal with
  | |- context [zset ?l ?i ?b] =>
      let v := eval cbv [zset andb Z.leb Z.ltb Z.compare Pos.compare Pos.compare_cont len
        length Z.of_nat Pos.of_succ_nat Pos.succ Z.to_nat Pos.to_nat Pos.iter_op Nat.add
        insert list_insert CompOpp] in (zset l i b) in
      change (zset l i b) with v
  end;
  change (1 + 1) with 2; change (2 + 1) with 3; change (3 + 1) with 4;
  cbn [mbind option_bind];
  match goal with
  | |- context [if ?x =? ?y then _ else _] =>
      let v := eval vm_compute in (x =? y) in change (x =? y) with v
  end; cbn iota; cbn [mbind option_bind].

(** A printable character, encoded, is printed and leaves the parser idle. *)
Lemma feed_char c p :
  idle_ok p -> printable c = true ->
  exists p', idle_ok p' /\
    traced (fun A HA a => @feed A HA (encode_utf8 c) p a) p' [EPrint c].
Proof.
  intros Hi Hc. pose proof Hi as (Hp & Hg & [Hn Hl] & Hpb).
  assert (Hsc : is_scalar c = true) by (unfold printable in Hc; lia).
  assert (Hdec : decode_utf8 (encode_utf8 c) = Some c).
  { unfold decode_utf8. rewrite <- (app_nil_r (encode_utf8 c)), from_utf8_encode by done. done. }
  assert (Hq : forall buf, idle_ok (partial buf 0 0 p)).
  { intros buf. split_and!; try done. destruct Hp as [? _]. split; [done | by left]. }
  unfold encode_utf8, is_scalar, printable, within in *.
  repeat case_if.
  1: exists p. 2-4: eexists; split; [apply Hq|].
  1: split; [done|].
  all: intros A HA a; rewrite feed_cons by done; rewrite step_ground by done.
  1: { unfold ground. rewrite Hn. byte_cases. rewrite bind_assoc_opt. cbn.
       destruct (print c a); [cbn; by rewrite feed_nil | done]. }
  1: rewrite (ground_lead _ _ _ 2) by (done || (Z.to_euclidean_division_equations; lia)).
  2: rewrite (ground_lead _ _ _ 3) by (done || (Z.to_euclidean_division_equations; lia)).
  3: rewrite (ground_lead _ _ _ 4) by (done || (Z.to_euclidean_division_equations; lia)).
  all: cbn [mbind option_bind].
  all: repeat next_byte.
  all: erewrite finish_partial by (reflexivity || exact Hdec).
  all: cbn; destruct (print c a); [cbn; by rewrite feed_nil | done].
Qed.
End Text.

(** ** The properties of the parser *)

Section Properties.
Context {A : Type} `{!Actions A}.
Implicit Types (p : Parser) (a : A).

(** C24. The loop of [Parser::feed] terminates: from every parser state, well
    formed or not, and for every client, two steps per byte of input (and
    the steps a pending put-back byte takes) are enough for it to finish. *)
Theorem feed_terminates (bs : list Z) (p : Parser) (a : A) :
  feed_loop (feed_fuel bs) bs p a <> Some None.
Proof. apply feed_loop_enough, feed_fuel_measure. Qed.

Lemma feed_chunks_eq (chunks : list (list Z)) (p : Parser) (a : A) :
  putback p = None ->
  for_each chunks (fun bs '(p, a) => feed bs p a) (p, a) = feed (concat chunks) p a.
Proof.
  revert p a. induction chunks as [|bs chunks IH]; intros p a Hp; cbn.
  - now rewrite feed_nil.
  - rewrite feed_app_eq. destruct (feed bs p a) as [[p' a']|] eqn:Hf; cbn; [|done].
    apply IH. by eapply feed_putback.
Qed.

Lemma feed_safe_eq (I : A -> Prop) `{!SafeActions A I} bs p a :
  parser_ok p -> putback p = None -> bytes bs -> I a ->
  safe (feed bs p a) (fun r => pair_ok I r /\ putback r.1 = None).
Proof.
  intros Hp Hpb Hbs Ha.
  destruct (feed_loop_safe I (feed_fuel bs) bs p a Hp Hbs) as (o & Ho & Hr);
    [congruence | done |].
  destruct o as [[p' a']|]; [|by apply feed_terminates in Ho].
  exists (p', a'). unfold feed. rewrite Ho. split; [done|]. split; [by apply Hr|].
  cbn. eapply feed_loop_idle, Ho.
Qed.

End Properties.

Lemma feed_trace_eq (bs : list Z) (p : Parser) :
  parser_ok p -> putback p = None -> bytes bs ->
  exists p' evs, traced (fun A HA a => @feed A HA bs p a) p' evs /\
    parser_ok p' /\ putback p' = None /\ Forall event_ok evs.
Proof.
  intros. eapply (feed_traced_from (feed_measure bs p)); [done..|]. congruence.
Qed.


(** C23. Chunking does not matter: feeding a stream cut anywhere, chunk by
    chunk, is feeding the concatenation at once, for every client, panics
    included. *)
Theorem feed_chunk_invariant (A : Type) (HA : Actions A) (chunks : list (list Z))
    (p : Parser) (a : A) :
  putback p = None ->
  for_each chunks (fun bs '(p, a) => feed bs p a) (p, a) = feed (concat chunks) p a.
Proof. apply feed_chunks_eq. Qed.

Lemma feed_chunk_invariant_witness :
  putback new = None /\
  for_each [[0x1b]; [0x5b; 0x33]; [0x31; 0x6d]] (fun bs '(p, a) => feed bs p a) (new, [])
  = feed [0x1b; 0x5b; 0x33; 0x31; 0x6d] new ([] : list Event).
Proof.
  split; [reflexivity|].
  apply (feed_chunk_invariant (list Event) recorder [[0x1b]; [0x5b; 0x33]; [0x31; 0x6d]] new []).
  reflexivity.
Defined.

(** The parser never panics and only calls its client within the contract:
    on any byte stream, from any well-formed state, every array access is in
    bounds, every call the client receives satisfies [SafeActions]'s
    preconditions (scalar printable characters, C0 controls only, at most 32
    parameters of 16 bits, at most 2 intermediates, at most 1024 OSC bytes), so
    a client that is safe under them stays safe and keeps its invariant. *)
Theorem feed_safe_client (A : Type) (HA : Actions A) (I : A -> Prop)
    (HS : SafeActions A I) (bs : list Z) (p : Parser) (a : A) :
  parser_ok p -> putback p = None -> bytes bs -> I a ->
  safe (feed bs p a) (fun r => pair_ok I r /\ putback r.1 = None).
Proof. apply feed_safe_eq. done. Qed.

Lemma feed_safe_client_witness :
  parser_ok new /\ putback new = None /\ bytes [0xe2; 0x1b; 0x5b; 0x80; 0x6d] /\
  safe (feed [0xe2; 0x1b; 0x5b; 0x80; 0x6d] new [])
    (fun r => pair_ok (Forall event_ok) r /\ putback r.1 = None).
Proof.
  assert (Hb : bytes [0xe2; 0x1b; 0x5b; 0x80; 0x6d]) by (repeat constructor; discriminate).
  split; [exact parser_ok_new|]. split; [reflexivity|]. split; [exact Hb|].
  apply (feed_safe_client (list Event) recorder (Forall event_ok) recorder_safe).
  - exact parser_ok_new.
  - reflexivity.
  - exact Hb.
  - constructor.
Defined.

(** The parser does not depend on its client: the calls it makes are a
    function of its state and the input alone.  Recording them and replaying
    the record on any client gives what feeding that client directly gives. *)
Theorem feed_is_replay (bs : list Z) (p : Parser) :
  parser_ok p -> putback p = None -> bytes bs ->
  exists p' evs, feed bs p [] = Some (p', evs) /\ Forall event_ok evs /\
    forall (A : Type) (HA : Actions A) (a : A),
      feed bs p a = (a' ← replay evs a; Some (p', a')).
Proof.
  intros Hp Hpb Hbs. destruct (feed_trace_eq bs p Hp Hpb Hbs) as (p' & evs & Ht & _ & _ & He).
  exists p', evs. split_and!; [|done|exact Ht].
  rewrite (Ht _ recorder), replay_recorder. done.
Qed.

Lemma feed_is_replay_witness :
  parser_ok new /\ putback new = None /\ bytes [0x1b; 0x5b; 0x41; 0x78] /\
  exists p' evs, feed [0x1b; 0x5b; 0x41; 0x78] new [] = Some (p', evs) /\
    Forall event_ok evs /\
    forall (A : Type) (HA : Actions A) (a : A),
      feed [0x1b; 0x5b; 0x41; 0x78] new a = (a' ← replay evs a; Some (p', a')).
Proof.
  assert (Hb : bytes [0x1b; 0x5b; 0x41; 0x78]) by (repeat constructor; discriminate).
  split; [exact parser_ok_new|]. split; [reflexivity|]. split; [exact Hb|].
  apply (feed_is_replay [0x1b; 0x5b; 0x41; 0x78] new); [exact parser_ok_new | reflexivity | exact Hb].
Defined.

(** Text passes through: any sequence of printable characters, UTF-8
    encoded, fed to an idle parser prints exactly those characters in order and
    leaves the parser idle. *)
Theorem feed_text (cs : list Z) (p : Parser) :
  idle_ok p -> Forall (fun c => printable c = true) cs ->
  exists p', idle_ok p' /\
    forall (A : Type) (HA : Actions A) (a : A),
      feed (concat (map encode_utf8 cs)) p a = (a' ← replay (map EPrint cs) a; Some (p', a')).
Proof.
  intros Hi Hcs. revert p Hi. induction Hcs as [|c cs Hc _ IH]; intros p Hi; cbn [map concat].
  - exists p. split; [done|]. intros A HA a. cbn. destruct Hi as (_ & _ & _ & ?). by apply feed_nil.
  - destruct (feed_char c p Hi Hc) as (p1 & Hi1 & Ht1). destruct (IH p1 Hi1) as (p2 & Hi2 & Ht2).
    exists p2. split; [done|]. intros A HA a. rewrite feed_app_eq, (Ht1 A HA).
    change (EPrint c :: map EPrint cs) with ([EPrint c] ++ map EPrint cs).
    rewrite replay_app. destruct (replay [EPrint c] a); cbn; [apply Ht2 | done].
Qed.

Lemma feed_text_witness :
  idle_ok new /\ Forall (fun c => printable c = true) [0x65; 0x301; 0x65e5; 0x1f600] /\
  exists p', idle_ok p' /\
    forall (A : Type) (HA : Actions A) (a : A),
      feed (concat (map encode_utf8 [0x65; 0x301; 0x65e5; 0x1f600])) new a
      = (a' ← replay (map EPrint [0x65; 0x301; 0x65e5; 0x1f600]) a; Some (p', a')).
Proof.
  assert (Hi : idle_ok new) by (split; [exact parser_ok_new | repeat split; reflexivity]).
  assert (Hc : Forall (fun c => printable c = true) [0x65; 0x301; 0x65e5; 0x1f600])
    by (repeat constructor; reflexivity).
  split; [exact Hi|]. split; [exact Hc|].
  apply (feed_text [0x65; 0x301; 0x65e5; 0x1f600] new Hi Hc).
Defined.

(** A byte put back by its step is the next byte. *)
Lemma feed_reprocess_cons (A : Type) (HA : Actions A) b p q (a a1 : A) :
  putback p = None -> putback q = None -> step b p a = Some (reprocess b q, a1) ->
  feed [b] p a = feed [b] q a1.
Proof.
  intros Hp Hq Hs. rewrite feed_cons, Hs by done. cbn [mbind option_bind].
  rewrite (feed_reprocess b) by done. rewrite (feed_cons b [] q) by done.
  do 2 f_equal. unfold reprocess. destruct q; cbn in *; by subst.
Qed.

Definition in_string_escape (p : Parser) : bool :=
  match state p with OscEscape | DcsEscape | SosEscape => true | _ => false end.

(** CAN, state by state, outside a UTF-8 sequence. *)
Lemma step_can_idle (A : Type) (HA : Actions A) p (a : A) r :
  utf8_idle p -> putback p = None -> in_string_escape p = false ->
  step 0x18 p a = Some r -> is_idle r.1 = true.
Proof.
  intros [Hn Hl] Hpb Hse Hs. unfold step in Hs. rewrite Hn in Hs. cbn in Hs.
  unfold dispatch in Hs. unfold in_string_escape in Hse.
  assert (Hi : forall q, state q = Ground -> utf8_len q = 0 -> putback q = None -> is_idle q = true).
  { intros q H1 H2 H3. unfold is_idle. by rewrite H1, H2, H3. }
  destruct (state p) eqn:Hst; try discriminate Hse.
  1: unfold ground in Hs; rewrite Hn in Hs.
  all: cbn in Hs; unfold cancel in Hs; try (destruct (execute 24 a) as [a1|]; [|discriminate Hs]);
    cbn in Hs; injection Hs as <-; by apply Hi.
Qed.

Lemma feed_can_step (A : Type) (HA : Actions A) p (a : A) r :
  utf8_idle p -> putback p = None -> in_string_escape p = false ->
  feed [0x18] p a = Some r -> is_idle r.1 = true.
Proof.
  intros Hu Hpb Hse Hf. rewrite feed_cons in Hf by exact Hpb.
  destruct (step 0x18 p a) as [[q a1]|] eqn:Hs; [|discriminate Hf].
  cbn [mbind option_bind] in Hf. pose proof (step_can_idle _ _ _ _ _ Hu Hpb Hse Hs) as Hi.
  assert (Hq : putback q = None).
  { unfold is_idle in Hi. cbn in Hi. apply andb_true_iff in Hi as [_ Hi].
    by apply bool_decide_eq_true in Hi. }
  rewrite feed_nil in Hf by exact Hq. injection Hf as <-. exact Hi.
Qed.

Lemma feed_can_idle (A : Type) (HA : Actions A) p (a : A) r :
  parser_ok p -> putback p = None -> feed [0x18] p a = Some r -> is_idle r.1 = true.
Proof.
  intros [_ [Hu|[Hg [Hn _]]]] Hpb Hf.
  - destruct (in_string_escape p) eqn:Hse; [|by eapply feed_can_step].
    rewrite (feed_reprocess_cons _ _ 0x18 p (reset_seq (p <| state := Escape |>)) a a) in Hf.
    + eapply feed_can_step; [| | |exact Hf]; done.
    + done.
    + done.
    + unfold step. destruct Hu as [-> _]. cbn. unfold dispatch, in_string_escape in *.
      destruct (state p); done.
  - assert (Hs : step 0x18 p a = (a1 ← print 0xfffd a;
      Some (reprocess 0x18 (p <| utf8_len := 0 |> <| utf8_needed := 0 |>), a1))).
    { rewrite step_ground by done. unfold ground, abort_utf8.
      rewrite (proj2 (Z.ltb_lt _ _)) by lia. cbn. by destruct (print 65533 a). }
    destruct (print 0xfffd a) as [a1|]; cbn [mbind option_bind] in Hs.
    + erewrite feed_reprocess_cons in Hf; [| exact Hpb | | exact Hs]; [|exact Hpb].
      eapply feed_can_step; [| | |exact Hf]; [done|done|].
      unfold in_string_escape. cbn. by rewrite Hg.
    + rewrite feed_cons, Hs in Hf by done. discriminate Hf.
Qed.

(** C40. CAN recovers: whatever sequence the parser is in the middle of, one
    CAN byte makes it idle again. *)
Theorem feed_can_recovers (A : Type) (HA : Actions A) (I : A -> Prop)
    (HS : SafeActions A I) (p : Parser) (a : A) :
  parser_ok p -> putback p = None -> I a ->
  safe (feed [0x18] p a) (fun r => is_idle r.1 = true /\ I r.2).
Proof.
  intros Hp Hpb Ha. assert (Hb : bytes [0x18]) by (repeat constructor; discriminate).
  destruct (feed_safe_eq I [0x18] p a Hp Hpb Hb Ha) as ([p' a'] & Hf & [[_ Ha'] _]).
  exists (p', a'). split; [exact Hf|]. split; [|exact Ha'].
  exact (feed_can_idle _ _ _ _ _ Hp Hpb Hf).
Qed.

Lemma feed_can_recovers_witness :
  parser_ok new /\ putback new = None /\
  safe (feed [0x18] new []) (fun r => is_idle r.1 = true /\ Forall event_ok r.2).
Proof.
  split; [exact parser_ok_new|]. split; [reflexivity|].
  apply (feed_can_recovers (list Event) recorder (Forall event_ok) recorder_safe).
  - exact parser_ok_new.
  - reflexivity.
  - constructor.
Defined.
