(* ===== verification/Width.v ===== *)
(** Character widths (crates/vt-engine/src/east_asian_width.rs): the generated
    tables of wide characters and of combining marks, and their binary search. *)
From S2P Require Import Prelude.

Local Open Scope Z_scope.

Definition WIDE_RANGES : list (Z * Z) :=
  [
    (0x1100, 0x115F); (0x231A, 0x231B); (0x2329, 0x232A); (0x23E9, 0x23EC); (0x23F0, 0x23F0);
    (0x23F3, 0x23F3); (0x25FD, 0x25FE); (0x2614, 0x2615); (0x2630, 0x2637); (0x2648, 0x2653);
    (0x267F, 0x267F); (0x268A, 0x268F); (0x2693, 0x2693); (0x26A1, 0x26A1); (0x26AA, 0x26AB);
    (0x26BD, 0x26BE); (0x26C4, 0x26C5); (0x26CE, 0x26CE); (0x26D4, 0x26D4); (0x26EA, 0x26EA);
    (0x26F2, 0x26F3); (0x26F5, 0x26F5); (0x26FA, 0x26FA); (0x26FD, 0x26FD); (0x2705, 0x2705);
    (0x270A, 0x270B); (0x2728, 0x2728); (0x274C, 0x274C); (0x274E, 0x274E); (0x2753, 0x2755);
    (0x2757, 0x2757); (0x2795, 0x2797); (0x27B0, 0x27B0); (0x27BF, 0x27BF); (0x2B1B, 0x2B1C);
    (0x2B50, 0x2B50); (0x2B55, 0x2B55); (0x2E80, 0x2E99); (0x2E9B, 0x2EF3); (0x2F00, 0x2FD5);
    (0x2FF0, 0x303E); (0x3041, 0x3096); (0x3099, 0x30FF); (0x3105, 0x312F); (0x3131, 0x318E);
    (0x3190, 0x31E5); (0x31EF, 0x321E); (0x3220, 0x3247); (0x3250, 0xA48C); (0xA490, 0xA4C6);
    (0xA960, 0xA97C); (0xAC00, 0xD7A3); (0xF900, 0xFAFF); (0xFE10, 0xFE19); (0xFE30, 0xFE52);
    (0xFE54, 0xFE66); (0xFE68, 0xFE6B); (0xFF01, 0xFF60); (0xFFE0, 0xFFE6); (0x16FE0, 0x16FE4);
    (0x16FF0, 0x16FF1); (0x17000, 0x187F7); (0x18800, 0x18CD5); (0x18CFF, 0x18D08);
    (0x1AFF0, 0x1AFF3); (0x1AFF5, 0x1AFFB); (0x1AFFD, 0x1AFFE); (0x1B000, 0x1B122);
    (0x1B132, 0x1B132); (0x1B150, 0x1B152); (0x1B155, 0x1B155); (0x1B164, 0x1B167);
    (0x1B170, 0x1B2FB); (0x1D300, 0x1D356); (0x1D360, 0x1D376); (0x1F004, 0x1F004);
    (0x1F0CF, 0x1F0CF); (0x1F18E, 0x1F18E); (0x1F191, 0x1F19A); (0x1F200, 0x1F202);
    (0x1F210, 0x1F23B); (0x1F240, 0x1F248); (0x1F250, 0x1F251); (0x1F260, 0x1F265);
    (0x1F300, 0x1F320); (0x1F32D, 0x1F335); (0x1F337, 0x1F37C); (0x1F37E, 0x1F393);
    (0x1F3A0, 0x1F3CA); (0x1F3CF, 0x1F3D3); (0x1F3E0, 0x1F3F0); (0x1F3F4, 0x1F3F4);
    (0x1F3F8, 0x1F43E); (0x1F440, 0x1F440); (0x1F442, 0x1F4FC); (0x1F4FF, 0x1F53D);
    (0x1F54B, 0x1F54E); (0x1F550, 0x1F567); (0x1F57A, 0x1F57A); (0x1F595, 0x1F596);
    (0x1F5A4, 0x1F5A4); (0x1F5FB, 0x1F64F); (0x1F680, 0x1F6C5); (0x1F6CC, 0x1F6CC);
    (0x1F6D0, 0x1F6D2); (0x1F6D5, 0x1F6D7); (0x1F6DC, 0x1F6DF); (0x1F6EB, 0x1F6EC);
    (0x1F6F4, 0x1F6FC); (0x1F7E0, 0x1F7EB); (0x1F7F0, 0x1F7F0); (0x1F90C, 0x1F93A);
    (0x1F93C, 0x1F945); (0x1F947, 0x1F9FF); (0x1FA70, 0x1FA7C); (0x1FA80, 0x1FA89);
    (0x1FA8F, 0x1FAC6); (0x1FACE, 0x1FADC); (0x1FADF, 0x1FAE9); (0x1FAF0, 0x1FAF8);
    (0x20000, 0x2FFFD); (0x30000, 0x3FFFD) ].

Definition MARK_RANGES : list (Z * Z) :=
  [
    (0x300, 0x36F); (0x483, 0x489); (0x591, 0x5BD); (0x5BF, 0x5BF); (0x5C1, 0x5C2); (0x5C4, 0x5C5);
    (0x5C7, 0x5C7); (0x610, 0x61A); (0x64B, 0x65F); (0x670, 0x670); (0x6D6, 0x6DC); (0x6DF, 0x6E4);
    (0x6E7, 0x6E8); (0x6EA, 0x6ED); (0x711, 0x711); (0x730, 0x74A); (0x7A6, 0x7B0); (0x7EB, 0x7F3);
    (0x7FD, 0x7FD); (0x816, 0x819); (0x81B, 0x823); (0x825, 0x827); (0x829, 0x82D); (0x859, 0x85B);
    (0x897, 0x89F); (0x8CA, 0x8E1); (0x8E3, 0x902); (0x93A, 0x93A); (0x93C, 0x93C); (0x941, 0x948);
    (0x94D, 0x94D); (0x951, 0x957); (0x962, 0x963); (0x981, 0x981); (0x9BC, 0x9BC); (0x9C1, 0x9C4);
    (0x9CD, 0x9CD); (0x9E2, 0x9E3); (0x9FE, 0x9FE); (0xA01, 0xA02); (0xA3C, 0xA3C); (0xA41, 0xA42);
    (0xA47, 0xA48); (0xA4B, 0xA4D); (0xA51, 0xA51); (0xA70, 0xA71); (0xA75, 0xA75); (0xA81, 0xA82);
    (0xABC, 0xABC); (0xAC1, 0xAC5); (0xAC7, 0xAC8); (0xACD, 0xACD); (0xAE2, 0xAE3); (0xAFA, 0xAFF);
    (0xB01, 0xB01); (0xB3C, 0xB3C); (0xB3F, 0xB3F); (0xB41, 0xB44); (0xB4D, 0xB4D); (0xB55, 0xB56);
    (0xB62, 0xB63); (0xB82, 0xB82); (0xBC0, 0xBC0); (0xBCD, 0xBCD); (0xC00, 0xC00); (0xC04, 0xC04);
    (0xC3C, 0xC3C); (0xC3E, 0xC40); (0xC46, 0xC48); (0xC4A, 0xC4D); (0xC55, 0xC56); (0xC62, 0xC63);
    (0xC81, 0xC81); (0xCBC, 0xCBC); (0xCBF, 0xCBF); (0xCC6, 0xCC6); (0xCCC, 0xCCD); (0xCE2, 0xCE3);
    (0xD00, 0xD01); (0xD3B, 0xD3C); (0xD41, 0xD44); (0xD4D, 0xD4D); (0xD62, 0xD63); (0xD81, 0xD81);
    (0xDCA, 0xDCA); (0xDD2, 0xDD4); (0xDD6, 0xDD6); (0xE31, 0xE31); (0xE34, 0xE3A); (0xE47, 0xE4E);
    (0xEB1, 0xEB1); (0xEB4, 0xEBC); (0xEC8, 0xECE); (0xF18, 0xF19); (0xF35, 0xF35); (0xF37, 0xF37);
    (0xF39, 0xF39); (0xF71, 0xF7E); (0xF80, 0xF84); (0xF86, 0xF87); (0xF8D, 0xF97); (0xF99, 0xFBC);
    (0xFC6, 0xFC6); (0x102D, 0x1030); (0x1032, 0x1037); (0x1039, 0x103A); (0x103D, 0x103E);
    (0x1058, 0x1059); (0x105E, 0x1060); (0x1071, 0x1074); (0x1082, 0x1082); (0x1085, 0x1086);
    (0x108D, 0x108D); (0x109D, 0x109D); (0x135D, 0x135F); (0x1712, 0x1714); (0x1732, 0x1733);
    (0x1752, 0x1753); (0x1772, 0x1773); (0x17B4, 0x17B5); (0x17B7, 0x17BD); (0x17C6, 0x17C6);
    (0x17C9, 0x17D3); (0x17DD, 0x17DD); (0x180B, 0x180D); (0x180F, 0x180F); (0x1885, 0x1886);
    (0x18A9, 0x18A9); (0x1920, 0x1922); (0x1927, 0x1928); (0x1932, 0x1932); (0x1939, 0x193B);
    (0x1A17, 0x1A18); (0x1A1B, 0x1A1B); (0x1A56, 0x1A56); (0x1A58, 0x1A5E); (0x1A60, 0x1A60);
    (0x1A62, 0x1A62); (0x1A65, 0x1A6C); (0x1A73, 0x1A7C); (0x1A7F, 0x1A7F); (0x1AB0, 0x1ACE);
    (0x1B00, 0x1B03); (0x1B34, 0x1B34); (0x1B36, 0x1B3A); (0x1B3C, 0x1B3C); (0x1B42, 0x1B42);
    (0x1B6B, 0x1B73); (0x1B80, 0x1B81); (0x1BA2, 0x1BA5); (0x1BA8, 0x1BA9); (0x1BAB, 0x1BAD);
    (0x1BE6, 0x1BE6); (0x1BE8, 0x1BE9); (0x1BED, 0x1BED); (0x1BEF, 0x1BF1); (0x1C2C, 0x1C33);
    (0x1C36, 0x1C37); (0x1CD0, 0x1CD2); (0x1CD4, 0x1CE0); (0x1CE2, 0x1CE8); (0x1CED, 0x1CED);
    (0x1CF4, 0x1CF4); (0x1CF8, 0x1CF9); (0x1DC0, 0x1DFF); (0x20D0, 0x20F0); (0x2CEF, 0x2CF1);
    (0x2D7F, 0x2D7F); (0x2DE0, 0x2DFF); (0x302A, 0x302D); (0x3099, 0x309A); (0xA66F, 0xA672);
    (0xA674, 0xA67D); (0xA69E, 0xA69F); (0xA6F0, 0xA6F1); (0xA802, 0xA802); (0xA806, 0xA806);
    (0xA80B, 0xA80B); (0xA825, 0xA826); (0xA82C, 0xA82C); (0xA8C4, 0xA8C5); (0xA8E0, 0xA8F1);
    (0xA8FF, 0xA8FF); (0xA926, 0xA92D); (0xA947, 0xA951); (0xA980, 0xA982); (0xA9B3, 0xA9B3);
    (0xA9B6, 0xA9B9); (0xA9BC, 0xA9BD); (0xA9E5, 0xA9E5); (0xAA29, 0xAA2E); (0xAA31, 0xAA32);
    (0xAA35, 0xAA36); (0xAA43, 0xAA43); (0xAA4C, 0xAA4C); (0xAA7C, 0xAA7C); (0xAAB0, 0xAAB0);
    (0xAAB2, 0xAAB4); (0xAAB7, 0xAAB8); (0xAABE, 0xAABF); (0xAAC1, 0xAAC1); (0xAAEC, 0xAAED);
    (0xAAF6, 0xAAF6); (0xABE5, 0xABE5); (0xABE8, 0xABE8); (0xABED, 0xABED); (0xFB1E, 0xFB1E);
    (0xFE00, 0xFE0F); (0xFE20, 0xFE2F); (0x101FD, 0x101FD); (0x102E0, 0x102E0); (0x10376, 0x1037A);
    (0x10A01, 0x10A03); (0x10A05, 0x10A06); (0x10A0C, 0x10A0F); (0x10A38, 0x10A3A);
    (0x10A3F, 0x10A3F); (0x10AE5, 0x10AE6); (0x10D24, 0x10D27); (0x10D69, 0x10D6D);
    (0x10EAB, 0x10EAC); (0x10EFC, 0x10EFF); (0x10F46, 0x10F50); (0x10F82, 0x10F85);
    (0x11001, 0x11001); (0x11038, 0x11046); (0x11070, 0x11070); (0x11073, 0x11074);
    (0x1107F, 0x11081); (0x110B3, 0x110B6); (0x110B9, 0x110BA); (0x110C2, 0x110C2);
    (0x11100, 0x11102); (0x11127, 0x1112B); (0x1112D, 0x11134); (0x11173, 0x11173);
    (0x11180, 0x11181); (0x111B6, 0x111BE); (0x111C9, 0x111CC); (0x111CF, 0x111CF);
    (0x1122F, 0x11231); (0x11234, 0x11234); (0x11236, 0x11237); (0x1123E, 0x1123E);
    (0x11241, 0x11241); (0x112DF, 0x112DF); (0x112E3, 0x112EA); (0x11300, 0x11301);
    (0x1133B, 0x1133C); (0x11340, 0x11340); (0x11366, 0x1136C); (0x11370, 0x11374);
    (0x113BB, 0x113C0); (0x113CE, 0x113CE); (0x113D0, 0x113D0); (0x113D2, 0x113D2);
    (0x113E1, 0x113E2); (0x11438, 0x1143F); (0x11442, 0x11444); (0x11446, 0x11446);
    (0x1145E, 0x1145E); (0x114B3, 0x114B8); (0x114BA, 0x114BA); (0x114BF, 0x114C0);
    (0x114C2, 0x114C3); (0x115B2, 0x115B5); (0x115BC, 0x115BD); (0x115BF, 0x115C0);
    (0x115DC, 0x115DD); (0x11633, 0x1163A); (0x1163D, 0x1163D); (0x1163F, 0x11640);
    (0x116AB, 0x116AB); (0x116AD, 0x116AD); (0x116B0, 0x116B5); (0x116B7, 0x116B7);
    (0x1171D, 0x1171D); (0x1171F, 0x1171F); (0x11722, 0x11725); (0x11727, 0x1172B);
    (0x1182F, 0x11837); (0x11839, 0x1183A); (0x1193B, 0x1193C); (0x1193E, 0x1193E);
    (0x11943, 0x11943); (0x119D4, 0x119D7); (0x119DA, 0x119DB); (0x119E0, 0x119E0);
    (0x11A01, 0x11A0A); (0x11A33, 0x11A38); (0x11A3B, 0x11A3E); (0x11A47, 0x11A47);
    (0x11A51, 0x11A56); (0x11A59, 0x11A5B); (0x11A8A, 0x11A96); (0x11A98, 0x11A99);
    (0x11C30, 0x11C36); (0x11C38, 0x11C3D); (0x11C3F, 0x11C3F); (0x11C92, 0x11CA7);
    (0x11CAA, 0x11CB0); (0x11CB2, 0x11CB3); (0x11CB5, 0x11CB6); (0x11D31, 0x11D36);
    (0x11D3A, 0x11D3A); (0x11D3C, 0x11D3D); (0x11D3F, 0x11D45); (0x11D47, 0x11D47);
    (0x11D90, 0x11D91); (0x11D95, 0x11D95); (0x11D97, 0x11D97); (0x11EF3, 0x11EF4);
    (0x11F00, 0x11F01); (0x11F36, 0x11F3A); (0x11F40, 0x11F40); (0x11F42, 0x11F42);
    (0x11F5A, 0x11F5A); (0x13440, 0x13440); (0x13447, 0x13455); (0x1611E, 0x16129);
    (0x1612D, 0x1612F); (0x16AF0, 0x16AF4); (0x16B30, 0x16B36); (0x16F4F, 0x16F4F);
    (0x16F8F, 0x16F92); (0x16FE4, 0x16FE4); (0x1BC9D, 0x1BC9E); (0x1CF00, 0x1CF2D);
    (0x1CF30, 0x1CF46); (0x1D167, 0x1D169); (0x1D17B, 0x1D182); (0x1D185, 0x1D18B);
    (0x1D1AA, 0x1D1AD); (0x1D242, 0x1D244); (0x1DA00, 0x1DA36); (0x1DA3B, 0x1DA6C);
    (0x1DA75, 0x1DA75); (0x1DA84, 0x1DA84); (0x1DA9B, 0x1DA9F); (0x1DAA1, 0x1DAAF);
    (0x1E000, 0x1E006); (0x1E008, 0x1E018); (0x1E01B, 0x1E021); (0x1E023, 0x1E024);
    (0x1E026, 0x1E02A); (0x1E08F, 0x1E08F); (0x1E130, 0x1E136); (0x1E2AE, 0x1E2AE);
    (0x1E2EC, 0x1E2EF); (0x1E4EC, 0x1E4EF); (0x1E5EE, 0x1E5EF); (0x1E8D0, 0x1E8D6);
    (0x1E944, 0x1E94A); (0xE0100, 0xE01EF) ].

(** The closure [contains] passes to [binary_search_by]. *)
Definition compare_range (cp : Z) (r : Z * Z) : comparison :=
  if r.2 <? cp then Lt else if cp <? r.1 then Gt else Eq.

(** [<[T]>::binary_search_by] of the standard library, for its [is_ok]: halve
    the candidates until one is left.  [size] is the fuel as well: every
    iteration makes it smaller. *)
Fixpoint search_loop {A} (cmp : A -> comparison) (l : list A) (fuel base size : nat) : nat :=
  match fuel with
  | O => base
  | S fuel =>
      if (size <=? 1)%nat then base else
      let half := Nat.div2 size in
      let mid := (base + half)%nat in
      let base := match l !! mid with
                  | Some x => match cmp x with Gt => base | _ => mid end
                  | None => base
                  end in
      search_loop cmp l fuel base (size - half)
  end.

Definition binary_search_is_ok {A} (cmp : A -> comparison) (l : list A) : bool :=
  match l !! search_loop cmp l (length l) 0 (length l) with
  | Some x => match cmp x with Eq => true | _ => false end
  | None => false
  end.

Definition contains (ranges : list (Z * Z)) (cp : Z) : bool :=
  binary_search_is_ok (compare_range cp) ranges.

Definition is_wide (cp : Z) : bool := contains WIDE_RANGES cp.
Definition is_mark (cp : Z) : bool := contains MARK_RANGES cp.

(** ** What the search needs of a table *)

Definition in_table (ranges : list (Z * Z)) (cp : Z) : bool :=
  existsb (fun r => (r.1 <=? cp) && (cp <=? r.2)) ranges.

(** Ranges are not empty, ascending and disjoint. *)
Fixpoint table_ok_from (lo : Z) (ranges : list (Z * Z)) : bool :=
  match ranges with
  | [] => true
  | (a, b) :: rest => (lo <? a) && (a <=? b) && table_ok_from b rest
  end.

Definition table_ok (ranges : list (Z * Z)) : bool := table_ok_from (-1) ranges.

Lemma table_ok_bounds lo l n r :
  table_ok_from lo l = true -> l !! n = Some r -> lo < r.1 /\ r.1 <= r.2.
Proof.
  revert lo n; induction l as [|[a b] l IH]; intros lo n; cbn; [done|].
  intros Hok. destruct n; cbn; [intros [= <-]; cbn; lia|].
  intros Hn. destruct (IH b n) as [? ?]; [lia | done | lia].
Qed.

(** Later entries lie above earlier ones. *)
Lemma table_ok_sorted lo l i j x y :
  table_ok_from lo l = true -> (i < j)%nat -> l !! i = Some x -> l !! j = Some y ->
  x.2 < y.1.
Proof.
  revert lo i j; induction l as [|[a b] l IH]; intros lo i j Hok Hij; cbn; [done|].
  cbn in Hok. destruct j; [lia|]. destruct i; cbn.
  - intros [= <-] Hy. cbn. eapply table_ok_bounds with (lo := b) in Hy as [? ?]; lia.
  - intros Hx Hy. eapply (IH b i j); [lia | lia | done | done].
Qed.

Section Search.
Context {A : Type} (cmp : A -> comparison) (l : list A).

(** The order [binary_search_by] asks of its argument. *)
Definition search_sorted : Prop :=
  forall i j x y, (i < j)%nat -> l !! i = Some x -> l !! j = Some y ->
    (cmp y <> Gt -> cmp x = Lt).

(** The loop keeps every match between [base] and [base + size]. *)
Lemma search_loop_ok (fuel base size n : nat) x :
  search_sorted -> (size <= fuel)%nat -> (base + size <= length l)%nat ->
  l !! n = Some x -> cmp x = Eq -> (base <= n < base + size)%nat ->
  search_loop cmp l fuel base size = n.
Proof.
  intros Hs. revert base size. induction fuel as [|fuel IH]; intros base size Hf Hl Hn Hx Hr;
    cbn [search_loop]; [lia|].
  destruct (Nat.leb_spec size 1); [lia|].
  pose proof (Nat.lt_div2 size ltac:(lia)) as Hd1.
  pose proof (Nat.div2_odd size) as Hd3.
  assert (1 <= Nat.div2 size)%nat as Hd2 by (pose proof (Nat.div2_le_mono 2 size ltac:(lia)); done).
  assert (2 * Nat.div2 size <= size)%nat by lia. clear Hd3.
  destruct (lookup_lt_is_Some_2 l (base + Nat.div2 size)) as [m Hm]; [lia|].
  rewrite Hm. destruct (decide (cmp m = Gt)) as [Hg|Hg].
  - rewrite Hg. apply IH; try done; [lia..|].
    destruct (decide (n < base + Nat.div2 size)%nat); [lia|exfalso].
    destruct (decide (n = base + Nat.div2 size)%nat) as [->|]; [congruence|].
    assert (cmp m = Lt); [|congruence].
    eapply (Hs (base + Nat.div2 size)%nat n); [|done..|congruence]. lia.
  - replace (match cmp m with Gt => base | _ => _ end) with (base + Nat.div2 size)%nat
      by (destruct (cmp m); congruence).
    apply IH; try done; [lia..|].
    destruct (decide (n < base + Nat.div2 size)%nat) as [Hlt|]; [exfalso|lia].
    assert (cmp x = Lt) by (eapply (Hs n); done). congruence.
Qed.

Lemma binary_search_ok :
  search_sorted ->
  binary_search_is_ok cmp l = existsb (fun x => match cmp x with Eq => true | _ => false end) l.
Proof.
  intros Hs. unfold binary_search_is_ok. apply eq_true_iff_eq. rewrite existsb_exists. split.
  - destruct (l !! _) as [x|] eqn:Hx; [|done]. intros Hc. exists x. split; [|done].
    apply list_elem_of_In, list_elem_of_lookup. eauto.
  - intros (x & Hin%list_elem_of_In%list_elem_of_lookup & Hc). destruct Hin as [n Hn].
    rewrite (search_loop_ok _ _ _ n x); try done; [by rewrite Hn | by destruct (cmp x) |].
    apply lookup_lt_Some in Hn. lia.
Qed.
End Search.

Lemma contains_eq ranges cp :
  table_ok ranges = true -> contains ranges cp = in_table ranges cp.
Proof.
  intros Hok. unfold contains, in_table. rewrite binary_search_ok.
  - clear. induction ranges as [|r ranges IH]; cbn; [done|]. f_equal; [|done].
    unfold compare_range. destruct (Z.ltb_spec r.2 cp), (Z.ltb_spec cp r.1); lia.
  - intros i j x y Hij Hx Hy Hg. unfold compare_range in *.
    pose proof (table_ok_sorted _ _ _ _ _ _ Hok Hij Hx Hy).
    pose proof (table_ok_bounds _ _ _ _ Hok Hx). pose proof (table_ok_bounds _ _ _ _ Hok Hy).
    revert Hg. repeat case_if; intros; try congruence; exfalso; lia.
Qed.

Lemma wide_table_ok : table_ok WIDE_RANGES = true.
Proof. reflexivity. Qed.
Lemma mark_table_ok : table_ok MARK_RANGES = true.
Proof. reflexivity. Qed.

(** The binary search over both generated tables is exact: a character is
    wide, or a mark, exactly when some range of its table holds it. *)
Theorem width_tables_exact (cp : Z) :
  is_wide cp = in_table WIDE_RANGES cp /\ is_mark cp = in_table MARK_RANGES cp.
Proof. split; apply contains_eq; [apply wide_table_ok | apply mark_table_ok]. Qed.
