(* ===== verification/Screen.v ===== *)
(** The visible grid of crates/vt-engine/src/screen.rs: cells, cursor, pen,
    modes, damage and replies, and every operation that changes them.  The
    repaint encoder is in Repaint.v, the checkpoint codec in Checkpoint.v.

    A method on [&mut self] is a function from the screen to [option Screen];
    [None] is a panic: a slice index out of range or a plain [u16] addition or
    subtraction that leaves its type.  [usize] sums of products of two [u16]
    cannot overflow and are plain [Z].  [crate::mutate] is [false] in every
    build but the mutation build, so its branches are not here. *)
From S2P Require Import Prelude VtTypes Utf8 Parser Width.

Local Open Scope Z_scope.

(** ** Data *)

Record Cell := mkCell { codepoint : Z; fg : Color; bg : Color; attrs : Z }.

#[export] Instance eta_cell : Eta Cell := fun c =>
  mkCell (codepoint c) (fg c) (bg c) (attrs c).
#[export] Instance cell_eq_dec : EqDecision Cell.
Proof. solve_decision. Defined.

(** [Cell::blank] *)
Definition blank (b : Color) : Cell := mkCell 32 Default b 0.

Record SavedCursor := mkSaved {
  sc_col : Z; sc_row : Z; sc_pending_wrap : bool;
  sc_fg : Color; sc_bg : Color; sc_attrs : Z }.

#[export] Instance eta_saved : Eta SavedCursor := fun c =>
  mkSaved (sc_col c) (sc_row c) (sc_pending_wrap c) (sc_fg c) (sc_bg c) (sc_attrs c).

Record OpenCluster := mkCluster {
  oc_row : Z; oc_col : Z; oc_len : Z;
  oc_after_zwj : bool; oc_last_was_ri : bool; oc_width : Z }.

#[export] Instance eta_cluster : Eta OpenCluster := fun c =>
  mkCluster (oc_row c) (oc_col c) (oc_len c) (oc_after_zwj c) (oc_last_was_ri c) (oc_width c).

Record Screen := mkScreen {
  cols : Z;
  rows : Z;
  cells : list Cell;
  cursor_col : Z;
  cursor_row : Z;
  cursor_visible : bool;
  pending_wrap : bool;
  autowrap : bool;
  full_damage : bool;
  damage_row0 : Z;
  damage_row1 : Z;
  scroll_top : Z;
  scroll_bottom : Z;
  palette : Palette;
  pen_fg : Color;
  pen_bg : Color;
  pen_attrs : Z;
  saved_cursor : option SavedCursor;
  alt_cursor : option SavedCursor;
  saved_grid : option (list Cell);
  in_alt : bool;
  replies : list Z;
  replies_dropped : Z;
  discard_replies : bool;
  open_cluster : option OpenCluster;
  grapheme_truncated : Z;
  application_cursor_keys : bool;
  application_keypad : bool;
  bracketed_paste : bool;
  mouse_x10 : bool;
  mouse_button : bool;
  mouse_any : bool;
  mouse_sgr : bool;
  focus_events : bool;
  scrolled_off : list (list Cell) }.

#[export] Instance eta_screen : Eta Screen := fun s =>
  mkScreen (cols s) (rows s) (cells s) (cursor_col s) (cursor_row s) (cursor_visible s)
    (pending_wrap s) (autowrap s) (full_damage s) (damage_row0 s) (damage_row1 s)
    (scroll_top s) (scroll_bottom s) (palette s) (pen_fg s) (pen_bg s) (pen_attrs s)
    (saved_cursor s) (alt_cursor s) (saved_grid s) (in_alt s) (replies s)
    (replies_dropped s) (discard_replies s) (open_cluster s) (grapheme_truncated s)
    (application_cursor_keys s) (application_keypad s) (bracketed_paste s) (mouse_x10 s)
    (mouse_button s) (mouse_any s) (mouse_sgr s) (focus_events s) (scrolled_off s).

Definition RILL_GRAPHEME_MAX : Z := 32.
Definition REPLY_CAP : Z := 1024.

(** [as u16] *)
Definition as_u16 (z : Z) : Z := z mod 65536.

(** ** Construction, resize, snapshot *)

Definition resize_cells (old : list Cell) (old_cols old_rows cols rows : Z)
  : option (list Cell) :=
  let next := replicate (Z.to_nat (cols * rows)) (blank Default) in
  let copy_cols := Z.min old_cols cols in
  let copy_rows := Z.min old_rows rows in
  for_each (range 0 copy_rows) (fun r next =>
    for_each (range 0 copy_cols) (fun c next =>
      let src := r * old_cols + c in
      let dst := r * cols + c in
      if src <? len old then x ← zget old src; zset next dst x else Some next)
    next) next.

Definition new (cols rows : Z) : result VtError Screen :=
  if (cols =? 0) || (rows =? 0) then Err (Vt "empty grid")
  else Ok {|
    cols := cols; rows := rows;
    cells := replicate (Z.to_nat (cols * rows)) (blank Default);
    cursor_col := 0; cursor_row := 0; cursor_visible := true;
    pending_wrap := false; autowrap := true;
    full_damage := true; damage_row0 := 0; damage_row1 := 0;
    scroll_top := 0; scroll_bottom := sat_sub rows 1;
    palette := vt_default;
    pen_fg := Default; pen_bg := Default; pen_attrs := 0;
    saved_cursor := None; alt_cursor := None; saved_grid := None; in_alt := false;
    replies := []; replies_dropped := 0; discard_replies := false;
    open_cluster := None; grapheme_truncated := 0;
    application_cursor_keys := false; application_keypad := false;
    bracketed_paste := false; mouse_x10 := false; mouse_button := false;
    mouse_any := false; mouse_sgr := false; focus_events := false;
    scrolled_off := [] |}.

Definition mode_state (s : Screen) : TerminalModeState :=
  mkModeState (application_cursor_keys s) (application_keypad s) (bracketed_paste s)
    (mouse_x10 s) (mouse_button s) (mouse_any s) (mouse_sgr s) (focus_events s)
    (in_alt s) (cursor_visible s).

Definition clamp_saved (cols rows : Z) (c : SavedCursor) : SavedCursor :=
  c <| sc_col := Z.min (sc_col c) (sat_sub cols 1) |>
    <| sc_row := Z.min (sc_row c) (sat_sub rows 1) |>.

Definition resize (new_cols new_rows : Z) (s : Screen) : option (result VtError unit * Screen) :=
  if (new_cols =? 0) || (new_rows =? 0) then Some (Err (Vt "empty grid"), s)
  else
    let old_cols := cols s in
    let old_rows := rows s in
    next ← resize_cells (cells s) old_cols old_rows new_cols new_rows;
    grid ← match saved_grid s with
           | Some saved =>
               g ← resize_cells saved old_cols old_rows new_cols new_rows; Some (Some g)
           | None => Some None
           end;
    Some (Ok (),
      s <| saved_grid := grid |> <| cols := new_cols |> <| rows := new_rows |>
        <| cells := next |>
        <| cursor_col := Z.min (cursor_col s) (sat_sub new_cols 1) |>
        <| cursor_row := Z.min (cursor_row s) (sat_sub new_rows 1) |>
        <| scroll_top := 0 |> <| scroll_bottom := sat_sub new_rows 1 |>
        <| pending_wrap := false |> <| full_damage := true |>
        <| saved_cursor := clamp_saved new_cols new_rows <$> saved_cursor s |>
        <| alt_cursor := clamp_saved new_cols new_rows <$> alt_cursor s |>
        <| open_cluster := None |>).

Definition resolve (color : Color) (is_fg : bool) (s : Screen) : option Rgb :=
  match color with
  | Default => Some (if is_fg then foreground (palette s) else background (palette s))
  | Indexed n => indexed n (palette s)
  | RgbColor r g b => Some (mkRgb r g b)
  end.

Definition pod_cell (s : Screen) (c : Cell) : option PodCell :=
  f ← resolve (fg c) true s;
  b ← resolve (bg c) false s;
  Some (mkPodCell (codepoint c) (pack f) (pack b) (attrs c) 0).

Definition snapshot (s : Screen) : option (PodGrid * Screen) :=
  cs ← mapM (pod_cell s) (cells s);
  Some
    (mkPodGrid (cols s) (rows s) (cursor_col s) (cursor_row s) (cursor_visible s)
       (full_damage s) (damage_row0 s) (damage_row1 s)
       (pack (foreground (palette s))) (pack (background (palette s)))
       (grapheme_truncated s) (replies_dropped s) cs,
     s <| full_damage := false |> <| damage_row0 := 1 |> <| damage_row1 := 0 |>).

Definition idx (col row : Z) (s : Screen) : Z := row * cols s + col.

Definition color_at (col row : Z) (s : Screen) : option (option (Color * Color)) :=
  if (cols s <=? col) || (rows s <=? row) then Some None
  else c ← zget (cells s) (idx col row s); Some (Some (fg c, bg c)).

Definition set_palette (p : Palette) (s : Screen) : Screen :=
  s <| palette := p |> <| full_damage := true |>.

Definition take_replies (s : Screen) : list Z * Screen :=
  (replies s, s <| replies := [] |>).

Definition take_scrolled_off (s : Screen) : option (list (list PodCell) * Screen) :=
  let rows := scrolled_off s in
  let s := s <| scrolled_off := [] |> in
  out ← mapM (mapM (pod_cell s)) rows;
  Some (out, s).

Definition has_replies (s : Screen) : bool := negb (len (replies s) =? 0).

Definition set_discard_replies (discard : bool) (s : Screen) : Screen :=
  s <| discard_replies := discard |>.

(** ** Replies *)

(** [write_u16]: the decimal digits of [n] into [out]; gives the buffer and the
    number of bytes written.  [tmp] has room for five digits. *)
Fixpoint write_digits (fuel : nat) (tmp : list Z) (x k : Z) : option (list Z * Z) :=
  match fuel with
  | O => None
  | S fuel =>
      tmp ← zset tmp k (0x30 + x mod 10);
      let k := k + 1 in
      let x := x / 10 in
      if x =? 0 then Some (tmp, k) else write_digits fuel tmp x k
  end.

Definition write_u16 (out : list Z) (n : Z) : option (list Z * Z) :=
  '(tmp, k) ← write_digits 5 (zeros 5) n 0;
  '(out, w) ← for_each (reverse (range 0 k)) (fun k '(out, w) =>
    d ← zget tmp k;
    out ← zset out w d;
    Some (out, w + 1)) (out, 0);
  Some (out, w).

Definition enqueue_reply (bs : list Z) (s : Screen) : Screen :=
  if discard_replies s then
    s <| replies_dropped := sat_add u32_max (replies_dropped s) 1 |>
  else if REPLY_CAP <? len (replies s) + len bs then
    s <| replies_dropped := sat_add u32_max (replies_dropped s) 1 |>
  else s <| replies := replies s ++ bs |>.

Definition reply_primary_da (s : Screen) : Screen :=
  enqueue_reply (0x1b :: lit "[?6c") s.

Definition reply_secondary_da (s : Screen) : Screen :=
  enqueue_reply (0x1b :: lit "[>0;0;0c") s.

Definition reply_dsr_status (s : Screen) : Screen :=
  enqueue_reply (0x1b :: lit "[0n") s.

(** [write_u16(&mut buf[i..], n)] *)
Definition write_u16_at (buf : list Z) (i n : Z) : option (list Z * Z) :=
  rest ← slice buf i (len buf);
  '(rest, k) ← write_u16 rest n;
  Some (take (Z.to_nat i) buf ++ rest, k).

Definition reply_dsr_cursor (s : Screen) : option Screen :=
  let row := sat_add u16_max (cursor_row s) 1 in
  let col := sat_add u16_max (cursor_col s) 1 in
  let buf := zeros 16 in
  buf ← zset buf 0 0x1b;
  buf ← zset buf 1 (ch "[");
  let i := 2 in
  '(buf, k) ← write_u16_at buf i row;
  let i := i + k in
  buf ← zset buf i (ch ";");
  let i := i + 1 in
  '(buf, k) ← write_u16_at buf i col;
  let i := i + k in
  buf ← zset buf i (ch "R");
  let i := i + 1 in
  bs ← slice buf 0 i;
  Some (enqueue_reply bs s).

(** ** Select graphic rendition *)

Definition paint_indexed (n : Z) : Color := Indexed (Z.min n 255).

(** One parameter of SGR other than 38 and 48. *)
Definition sgr_one (n : Z) (s : Screen) : option Screen :=
  if n =? 0 then Some (s <| pen_attrs := 0 |> <| pen_fg := Default |> <| pen_bg := Default |>)
  else if n =? 1 then Some (s <| pen_attrs := Z.lor (pen_attrs s) 1 |>)
  else if n =? 3 then Some s
  else if n =? 4 then Some (s <| pen_attrs := Z.lor (pen_attrs s) 2 |>)
  else if n =? 7 then Some (s <| pen_attrs := Z.lor (pen_attrs s) 4 |>)
  else if n =? 22 then Some (s <| pen_attrs := Z.ldiff (pen_attrs s) 1 |>)
  else if n =? 24 then Some (s <| pen_attrs := Z.ldiff (pen_attrs s) 2 |>)
  else if n =? 27 then Some (s <| pen_attrs := Z.ldiff (pen_attrs s) 4 |>)
  else if within 30 37 n then
    d ← chk_sub n 30; Some (s <| pen_fg := paint_indexed d |>)
  else if within 90 97 n then
    d ← chk_sub n 90; d ← chk_add u16_max d 8; Some (s <| pen_fg := paint_indexed d |>)
  else if within 40 47 n then
    d ← chk_sub n 40; Some (s <| pen_bg := paint_indexed d |>)
  else if within 100 107 n then
    d ← chk_sub n 100; d ← chk_add u16_max d 8; Some (s <| pen_bg := paint_indexed d |>)
  else if n =? 39 then Some (s <| pen_fg := Default |>)
  else if n =? 49 then Some (s <| pen_bg := Default |>)
  else Some s.

Definition set_pen (is_fg : bool) (c : Color) (s : Screen) : Screen :=
  if is_fg then s <| pen_fg := c |> else s <| pen_bg := c |>.

(** The loop of [apply_sgr]; the list is [params[i..]]. *)
Fixpoint sgr_loop (ps : list Z) (s : Screen) : option Screen :=
  match ps with
  | [] => Some s
  | n :: ps =>
      if (n =? 38) || (n =? 48) then
        let is_fg := n =? 38 in
        match ps with
        | kind :: ps1 =>
            if kind =? 5 then
              match ps1 with
              | i :: ps2 => sgr_loop ps2 (set_pen is_fg (paint_indexed i) s)
              | [] => sgr_loop ps1 s
              end
            else if kind =? 2 then
              match ps1 with
              | r :: g :: b :: ps2 =>
                  sgr_loop ps2
                    (set_pen is_fg (RgbColor (Z.min r 255) (Z.min g 255) (Z.min b 255)) s)
              | _ => sgr_loop ps1 s
              end
            else sgr_loop ps s
        | [] => sgr_loop ps s
        end
      else s ← sgr_one n s; sgr_loop ps s
  end.

Definition apply_sgr (ps : list Z) (s : Screen) : option Screen :=
  sgr_loop (match ps with [] => [0] | _ => ps end) s.

(** ** Damage, cursor, scrolling *)

Definition dirty (row : Z) (s : Screen) : Screen :=
  if full_damage s then s
  else if damage_row1 s <? damage_row0 s then
    s <| damage_row0 := row |> <| damage_row1 := row |>
  else
    let s := if row <? damage_row0 s then s <| damage_row0 := row |> else s in
    if damage_row1 s <? row then s <| damage_row1 := row |> else s.

Definition clear_pending_wrap (s : Screen) : Screen := s <| pending_wrap := false |>.

Definition last_col (s : Screen) : Z := sat_sub (cols s) 1.
Definition last_row (s : Screen) : Z := sat_sub (rows s) 1.

Definition set_cursor (row col : Z) (s : Screen) : Screen :=
  let s := clear_pending_wrap s <| open_cluster := None |> in
  s <| cursor_row := Z.min row (last_row s) |> <| cursor_col := Z.min col (last_col s) |>.

(** Blank row [r] of the grid with the pen's background. *)
Definition blank_row (r : Z) (s : Screen) : option Screen :=
  let start := r * cols s in
  cs ← fill_range (cells s) start (start + cols s) (blank (pen_bg s));
  Some (s <| cells := cs |>).

(** Copy row [src] over row [dst]. *)
Definition copy_row (src dst : Z) (s : Screen) : option Screen :=
  let from := src * cols s in
  cs ← copy_within (cells s) from (from + cols s) (dst * cols s);
  Some (s <| cells := cs |>).

Definition scroll_up (s : Screen) : option Screen :=
  let top := scroll_top s in
  let bot := scroll_bottom s in
  let n := cols s in
  s ← (if negb (in_alt s) && (scroll_top s =? 0) && (0 <? n) then
         row ← slice (cells s) (top * n) (top * n + n);
         Some (s <| scrolled_off := scrolled_off s ++ [row] |>)
       else Some s);
  s ← for_each (range top bot) (fun r s => copy_row (r + 1) r s) s;
  s ← blank_row bot s;
  Some (s <| full_damage := true |>).

Definition scroll_down (s : Screen) : option Screen :=
  let top := scroll_top s in
  let bot := scroll_bottom s in
  s ← (if top <? bot then
         for_each (reverse (range_incl (top + 1) bot)) (fun r s => copy_row (r - 1) r s) s
       else Some s);
  s ← blank_row top s;
  Some (s <| full_damage := true |>).

Definition index (s : Screen) : option Screen :=
  if cursor_row s <? scroll_bottom s then
    r ← chk_add u16_max (cursor_row s) 1; Some (s <| cursor_row := r |>)
  else scroll_up s.

Definition reverse_index (s : Screen) : option Screen :=
  if scroll_top s <? cursor_row s then
    r ← chk_sub (cursor_row s) 1; Some (s <| cursor_row := r |>)
  else scroll_down s.

(** ** Saved cursors, the alternate screen, modes *)

Definition capture_cursor (s : Screen) : SavedCursor :=
  mkSaved (cursor_col s) (cursor_row s) (pending_wrap s) (pen_fg s) (pen_bg s) (pen_attrs s).

Definition restore_cursor (c : SavedCursor) (s : Screen) : Screen :=
  let s := clear_pending_wrap s in
  s <| cursor_col := Z.min (sc_col c) (last_col s) |>
    <| cursor_row := Z.min (sc_row c) (last_row s) |>
    <| pending_wrap := sc_pending_wrap c |>
    <| pen_fg := sc_fg c |> <| pen_bg := sc_bg c |> <| pen_attrs := sc_attrs c |>.

Definition blank_grid (s : Screen) : list Cell :=
  replicate (Z.to_nat (cols s * rows s)) (blank (pen_bg s)).

Definition enter_alt (save_cursor clear : bool) (s : Screen) : Screen :=
  let s := if negb (in_alt s) then
             let s := s <| saved_grid := Some (cells s) |> in
             if save_cursor then s <| alt_cursor := Some (capture_cursor s) |>
             else s <| alt_cursor := None |>
           else s in
  let s := if clear then set_cursor 0 0 (s <| cells := blank_grid s |>) else s in
  s <| in_alt := true |> <| full_damage := true |>.

Definition leave_alt (restore : bool) (s : Screen) : Screen :=
  if negb (in_alt s) then s
  else
    let s := match saved_grid s with
             | Some grid => s <| saved_grid := None |> <| cells := grid |>
             | None => s
             end in
    let s := if restore then
               match alt_cursor s with
               | Some c => restore_cursor c (s <| alt_cursor := None |>)
               | None => s
               end
             else s <| alt_cursor := None |> in
    s <| in_alt := false |> <| full_damage := true |>.

Definition set_scroll_region (ps : list Z) (s : Screen) : option Screen :=
  let top := match zget ps 0 with None => 1 | Some n => if n =? 0 then 1 else n end in
  let bot := match zget ps 1 with None => rows s | Some n => if n =? 0 then rows s else n end in
  if (top <? 1) || (rows s <? bot) || (bot <=? top) then Some s
  else
    t ← chk_sub top 1;
    b ← chk_sub bot 1;
    Some (set_cursor 0 0 (s <| scroll_top := t |> <| scroll_bottom := b |>)).

Definition private_mode_one (set : bool) (p : Z) (s : Screen) : Screen :=
  if p =? 1 then s <| application_cursor_keys := set |>
  else if p =? 7 then s <| autowrap := set |>
  else if p =? 25 then s <| cursor_visible := set |>
  else if p =? 2004 then s <| bracketed_paste := set |>
  else if p =? 1000 then s <| mouse_x10 := set |>
  else if p =? 1002 then s <| mouse_button := set |>
  else if p =? 1003 then s <| mouse_any := set |>
  else if p =? 1004 then s <| focus_events := set |>
  else if p =? 1006 then s <| mouse_sgr := set |>
  else if p =? 1047 then if set then enter_alt false true s else leave_alt false s
  else if p =? 1049 then if set then enter_alt true true s else leave_alt true s
  else s.

Definition private_mode (ps : list Z) (set : bool) (s : Screen) : Screen :=
  fold_left (fun s p => private_mode_one set p s) ps s.

(** ** Printing *)

Definition is_regional_indicator (c : Z) : bool := within 0x1f1e6 0x1f1ff c.

Definition is_cluster_continuer (c : Z) : bool :=
  is_mark c || (c =? 0x200d) || within 0xfe00 0xfe0f c || within 0xe0100 0xe01ef c.

Definition should_append (c : Z) (s : Screen) : bool :=
  match open_cluster s with
  | None => false
  | Some cl =>
      is_cluster_continuer c || oc_after_zwj cl
      || (oc_last_was_ri cl && is_regional_indicator c)
  end.

Definition cluster_width (c : Z) : Z := if is_wide c then 2 else 1.

Definition remaining_cols (s : Screen) : Z := sat_sub (cols s) (cursor_col s).

Definition wrap_if_needed_width (width : Z) (s : Screen) : option Screen :=
  if negb (pending_wrap s || (remaining_cols s <? width)) then Some s
  else if negb (autowrap s) then Some (s <| pending_wrap := false |>)
  else index (s <| pending_wrap := false |> <| cursor_col := 0 |>).

Definition has_attr (a bit : Z) : bool := negb (Z.land a bit =? 0).

(** Replace the cell at index [j] by a blank where it has the attribute. *)
Definition blank_if (j bit : Z) (s : Screen) : option Screen :=
  x ← zget (cells s) j;
  if has_attr (attrs x) bit then
    cs ← zset (cells s) j (blank (pen_bg s)); Some (s <| cells := cs |>)
  else Some s.

Definition smash_wide_at (col row : Z) (s : Screen) : option Screen :=
  if (cols s <=? col) || (rows s <=? row) then Some s
  else
    x ← zget (cells s) (idx col row s);
    let a := attrs x in
    s ← (if has_attr a ATTR_WIDE_LEAD then
           next ← chk_add u16_max col 1;
           if next <? cols s then blank_if (idx next row s) ATTR_WIDE_TAIL s else Some s
         else Some s);
    if has_attr a ATTR_WIDE_TAIL && (0 <? col) then
      prev ← chk_sub col 1;
      blank_if (idx prev row s) ATTR_WIDE_LEAD s
    else Some s.

Definition advance_after_width (width : Z) (s : Screen) : Screen :=
  let next := sat_add u16_max (cursor_col s) width in
  if next <? cols s then s <| cursor_col := next |> <| pending_wrap := false |>
  else s <| cursor_col := last_col s |> <| pending_wrap := autowrap s |>.

Definition append_to_cluster (c : Z) (s : Screen) : bool * Screen :=
  match open_cluster s with
  | None => (false, s)
  | Some cl =>
      let full := RILL_GRAPHEME_MAX <=? oc_len cl in
      let s := if full then
                 s <| grapheme_truncated := sat_add u32_max (grapheme_truncated s) 1 |>
               else s in
      let cl := if full then cl else cl <| oc_len := sat_add u8_max (oc_len cl) 1 |> in
      let cl := cl <| oc_after_zwj := (c =? 0x200d) |>
                   <| oc_last_was_ri := is_regional_indicator c |> in
      (true, dirty (oc_row cl) s <| open_cluster := Some cl |>)
  end.

Definition maybe_expand_ri_pair (s : Screen) : option Screen :=
  match open_cluster s with
  | None => Some s
  | Some cl =>
      if 2 <=? oc_width cl then Some s
      else
        let tail_col := sat_add u16_max (oc_col cl) 1 in
        if (cols s <=? tail_col) || negb (oc_row cl =? cursor_row s) then Some s
        else
          s ← smash_wide_at tail_col (oc_row cl) s;
          let lead_i := idx (oc_col cl) (oc_row cl) s in
          let tail_i := idx tail_col (oc_row cl) s in
          lead ← zget (cells s) lead_i;
          cs ← zset (cells s) lead_i
                 (lead <| attrs := Z.lor (Z.land (attrs lead) 7) ATTR_WIDE_LEAD |>);
          cs ← zset cs tail_i
                 (mkCell (codepoint lead) (fg lead) (bg lead)
                    (Z.lor (Z.land (attrs lead) 7) ATTR_WIDE_TAIL));
          let s := s <| cells := cs |> <| open_cluster := Some (cl <| oc_width := 2 |>) |> in
          let s := dirty (oc_row cl) s in
          if (cursor_col s <=? tail_col) && (cursor_row s =? oc_row cl) then
            Some (advance_after_width 1 (s <| cursor_col := tail_col |>))
          else Some s
  end.

(** The part of [write_char] after the wrap: put the glyph down and advance. *)
Definition put_glyph (c width : Z) (s : Screen) : option Screen :=
  let row := cursor_row s in
  let col := cursor_col s in
  s ← smash_wide_at col row s;
  s ← (if width =? 2 then
         next ← chk_add u16_max col 1; smash_wide_at next row s
       else Some s);
  let sgr := Z.land (pen_attrs s) 7 in
  cs ← zset (cells s) (idx col row s)
         (mkCell c (pen_fg s) (pen_bg s)
            (Z.lor sgr (if width =? 2 then ATTR_WIDE_LEAD else 0)));
  let s := s <| cells := cs |> in
  s ← (if width =? 2 then
         next ← chk_add u16_max col 1;
         cs ← zset (cells s) (idx next row s)
                (mkCell c (pen_fg s) (pen_bg s) (Z.lor sgr ATTR_WIDE_TAIL));
         Some (s <| cells := cs |>)
       else Some s);
  let s := s <| open_cluster := Some
             (mkCluster row col 1 (c =? 0x200d) (is_regional_indicator c) width) |> in
  Some (advance_after_width width (dirty row s)).

Definition write_char (c : Z) (s : Screen) : option Screen :=
  let '(appended, s) := if should_append c s then append_to_cluster c s else (false, s) in
  if appended then
    if is_regional_indicator c then maybe_expand_ri_pair s else Some s
  else
    let width := cluster_width c in
    s ← wrap_if_needed_width width s;
    if (cols s <? width) || (remaining_cols s <? width) then Some s
    else put_glyph c width s.

(** ** Erasing and editing *)

Definition erase_span (from to : Z) (s : Screen) : option Screen :=
  let to := Z.min to (len (cells s)) in
  let from := Z.min from to in
  let n := Z.max (cols s) 1 in
  s ← for_each (range from to) (fun i s =>
        smash_wide_at (as_u16 (i mod n)) (as_u16 (i / n)) s) s;
  cs ← fill_range (cells s) from to (blank (pen_bg s));
  let s := s <| cells := cs |> in
  if from <? to then
    let r0 := as_u16 (from / n) in
    let r1 := as_u16 ((to - 1) / n) in
    Some (fold_left (fun s r => dirty r s) (range_incl r0 r1) s)
  else Some s.

Definition erase_display (mode : Z) (s : Screen) : option Screen :=
  let cur := idx (cursor_col s) (cursor_row s) s in
  if mode =? 0 then erase_span cur (len (cells s)) s
  else if mode =? 1 then erase_span 0 (cur + 1) s
  else s ← erase_span 0 (len (cells s)) s; Some (s <| full_damage := true |>).

Definition erase_line (mode : Z) (s : Screen) : option Screen :=
  let row_start := idx 0 (cursor_row s) s in
  let row_end := row_start + cols s in
  let cur := idx (cursor_col s) (cursor_row s) s in
  if mode =? 0 then erase_span cur row_end s
  else if mode =? 1 then erase_span row_start (cur + 1) s
  else erase_span row_start row_end s.

Definition erase_chars (n : Z) (s : Screen) : option Screen :=
  let n := Z.min n (sat_sub (cols s) (cursor_col s)) in
  let from := idx (cursor_col s) (cursor_row s) s in
  erase_span from (from + n) s.

(** The lines [n] that [insert_lines] and [delete_lines] move. *)
Definition line_count (n : Z) (s : Screen) : option Z :=
  m ← chk_add u16_max (sat_sub (scroll_bottom s) (cursor_row s)) 1;
  Some (Z.min n m).

Definition dirty_to_bottom (s : Screen) : Screen :=
  fold_left (fun s r => dirty r s) (range_incl (cursor_row s) (scroll_bottom s)) s.

Definition insert_lines (n : Z) (s : Screen) : option Screen :=
  if (cursor_row s <? scroll_top s) || (scroll_bottom s <? cursor_row s) then Some s
  else
    n ← line_count n s;
    if n =? 0 then Some s
    else
      let first := cursor_row s in
      let last := scroll_bottom s in
      s ← (if first + n <=? last then
             hi ← chk_sub last n;
             for_each (reverse (range_incl first hi)) (fun r s => copy_row r (r + n) s) s
           else Some s);
      s ← for_each (range first (first + n)) blank_row s;
      Some (dirty_to_bottom s).

Definition delete_lines (n : Z) (s : Screen) : option Screen :=
  if (cursor_row s <? scroll_top s) || (scroll_bottom s <? cursor_row s) then Some s
  else
    n ← line_count n s;
    if n =? 0 then Some s
    else
      let first := cursor_row s in
      let last := scroll_bottom s in
      s ← (if first + n <=? last then
             hi ← chk_sub last n;
             for_each (range_incl first hi) (fun r s => copy_row (r + n) r s) s
           else Some s);
      lo ← chk_sub (last + 1) n;
      s ← for_each (range_incl lo last) blank_row s;
      Some (dirty_to_bottom s).

Definition insert_cells (n : Z) (s : Screen) : option Screen :=
  let n := Z.min n (sat_sub (cols s) (cursor_col s)) in
  if n =? 0 then Some s
  else
    let col := cursor_col s in
    let row_start := idx 0 (cursor_row s) s in
    cs ← (if col + n <? cols s then
            hi ← chk_sub (row_start + cols s) n;
            copy_within (cells s) (row_start + col) hi (row_start + col + n)
          else Some (cells s));
    cs ← fill_range cs (row_start + col) (row_start + col + n) (blank (pen_bg s));
    Some (dirty (cursor_row s) (s <| cells := cs |>)).

Definition delete_cells (n : Z) (s : Screen) : option Screen :=
  let n := Z.min n (sat_sub (cols s) (cursor_col s)) in
  if n =? 0 then Some s
  else
    let row := cursor_row s in
    let col := cursor_col s in
    hi ← chk_add u16_max col n;
    s ← for_each (range col hi) (fun c s => smash_wide_at c row s) s;
    let row_start := idx 0 row s in
    cs ← (if col + n <? cols s then
            copy_within (cells s) (row_start + col + n) (row_start + cols s) (row_start + col)
          else Some (cells s));
    lo ← chk_sub (row_start + cols s) n;
    cs ← fill_range cs lo (row_start + cols s) (blank (pen_bg s));
    Some (dirty row (s <| cells := cs |>)).

(** ** Control functions *)

Definition csi_n (ps : list Z) (i default : Z) : Z :=
  match zget ps i with
  | None => default
  | Some n => if n =? 0 then default else n
  end.

Definition repeat_op (n : Z) (op : Screen -> option Screen) (s : Screen) : option Screen :=
  for_each (range 0 n) (fun _ s => op s) s.

Definition csi_dispatch (ps : list Z) (action : Z) (s : Screen) : option Screen :=
  if action =? ch "A" then
    Some (set_cursor (sat_sub (cursor_row s) (csi_n ps 0 1)) (cursor_col s) s)
  else if action =? ch "B" then
    Some (set_cursor (sat_add u16_max (cursor_row s) (csi_n ps 0 1)) (cursor_col s) s)
  else if action =? ch "C" then
    Some (set_cursor (cursor_row s) (sat_add u16_max (cursor_col s) (csi_n ps 0 1)) s)
  else if action =? ch "D" then
    Some (set_cursor (cursor_row s) (sat_sub (cursor_col s) (csi_n ps 0 1)) s)
  else if action =? ch "E" then
    Some (set_cursor (sat_add u16_max (cursor_row s) (csi_n ps 0 1)) 0 s)
  else if action =? ch "F" then
    Some (set_cursor (sat_sub (cursor_row s) (csi_n ps 0 1)) 0 s)
  else if action =? ch "G" then
    Some (set_cursor (cursor_row s) (sat_sub (csi_n ps 0 1) 1) s)
  else if (action =? ch "H") || (action =? ch "f") then
    Some (set_cursor (sat_sub (csi_n ps 0 1) 1) (sat_sub (csi_n ps 1 1) 1) s)
  else if action =? ch "d" then
    Some (set_cursor (sat_sub (csi_n ps 0 1) 1) (cursor_col s) s)
  else if action =? ch "J" then erase_display (csi_n ps 0 0) s
  else if action =? ch "K" then erase_line (csi_n ps 0 0) s
  else if action =? ch "X" then erase_chars (csi_n ps 0 1) s
  else if action =? ch "L" then insert_lines (csi_n ps 0 1) s
  else if action =? ch "M" then delete_lines (csi_n ps 0 1) s
  else if action =? ch "@" then insert_cells (csi_n ps 0 1) s
  else if action =? ch "P" then delete_cells (csi_n ps 0 1) s
  else if action =? ch "r" then set_scroll_region ps s
  else if action =? ch "S" then repeat_op (csi_n ps 0 1) scroll_up s
  else if action =? ch "T" then repeat_op (csi_n ps 0 1) scroll_down s
  else if action =? ch "m" then apply_sgr ps s
  else if action =? ch "c" then
    Some (if default 0 (zget ps 0) =? 0 then reply_primary_da s else s)
  else if action =? ch "n" then
    match zget ps 0 with
    | Some n => if n =? 6 then reply_dsr_cursor s
                else Some (if n =? 5 then reply_dsr_status s else s)
    | None => Some s
    end
  else Some s.

Definition screen_execute (byte : Z) (s : Screen) : option Screen :=
  let s0 := clear_pending_wrap s <| open_cluster := None |> in
  if byte =? 0x08 then
    if 0 <? cursor_col s0 then
      c ← chk_sub (cursor_col s0) 1; Some (s0 <| cursor_col := c |>)
    else Some s0
  else if byte =? 0x09 then
    n ← chk_add u16_max (cursor_col s0 / 8) 1;
    next ← (if n * 8 <=? u16_max then Some (n * 8) else None);
    Some (s0 <| cursor_col := Z.min next (sat_sub (cols s0) 1) |>)
  else if within 0x0a 0x0c byte then index s0
  else if byte =? 0x0d then Some (s0 <| cursor_col := 0 |>)
  else Some s.

Definition screen_csi (ps inter : list Z) (ign : bool) (action : Z) (s : Screen)
  : option Screen :=
  if ign then Some s
  else if bool_decide (inter = [ch "?"]) && ((action =? ch "h") || (action =? ch "l")) then
    Some (private_mode ps (action =? ch "h") s)
  else if bool_decide (inter = [ch ">"]) && (action =? ch "c") then
    Some (reply_secondary_da s)
  else if negb (len inter =? 0) then Some s
  else csi_dispatch ps action s.

Definition screen_esc (inter : list Z) (byte : Z) (s : Screen) : option Screen :=
  if byte =? ch "7" then Some (s <| saved_cursor := Some (capture_cursor s) |>)
  else if byte =? ch "8" then
    Some match saved_cursor s with Some c => restore_cursor c s | None => s end
  else if byte =? ch "D" then index (clear_pending_wrap s)
  else if byte =? ch "E" then index (clear_pending_wrap s <| cursor_col := 0 |>)
  else if byte =? ch "M" then reverse_index (clear_pending_wrap s)
  else if (byte =? ch "=") && (len inter =? 0) then Some (s <| application_keypad := true |>)
  else if (byte =? ch ">") && (len inter =? 0) then Some (s <| application_keypad := false |>)
  else Some s.

(** [impl Actions for Screen]; [osc] is the trait's empty default. *)
#[export] Instance screen_actions : Actions Screen := {
  print := write_char;
  execute := screen_execute;
  csi := screen_csi;
  esc := screen_esc;
  osc := fun _ s => Some s }.
