(* ===== verification/Decimal.v ===== *)
(** The decimal encoding of crates/vt-engine/src/screen.rs ([write_u16],
    [push_u16]): the digits it writes, that five are enough, and the reading
    that gives the number back. *)
From S2P Require Import Prelude Parser Screen.

Local Open Scope Z_scope.

(** The digits of [n], least significant first, at most [fuel] of them. *)
Fixpoint dec_rev (fuel : nat) (n : Z) : list Z :=
  match fuel with
  | O => []
  | S fuel => 0x30 + n mod 10 :: (if n / 10 =? 0 then [] else dec_rev fuel (n / 10))
  end.

(** What a reader of terminal replies expects: most significant digit first. *)
Definition decimal (n : Z) : list Z := reverse (dec_rev 5 n).

(** The value of a string of decimal digits. *)
Definition dec_val (ds : list Z) : Z := fold_left (fun acc d => acc * 10 + (d - 0x30)) ds 0.

Definition is_digit (d : Z) : Prop := 0x30 <= d <= 0x39.

Lemma zget_reverse {A} (l : list A) i :
  0 <= i < len l -> zget (reverse l) i = zget l (len l - 1 - i).
Proof.
  intros Hi. unfold zget, len in *. rewrite !(proj2 (Z.leb_le _ _)) by lia.
  rewrite reverse_lookup by lia. f_equal. lia.
Qed.

Lemma len_reverse {A} (l : list A) : len (reverse l) = len l.
Proof. unfold len. by rewrite length_reverse. Qed.

Lemma dec_rev_len fuel n : 1 <= len (dec_rev (S fuel) n) <= Z.of_nat (S fuel).
Proof.
  revert n; induction fuel as [|fuel IH]; intros n.
  - cbn. case_if; autorewrite with len; lia.
  - remember (S fuel) as f. cbn. rewrite len_cons. case_if; [autorewrite with len; lia|].
    specialize (IH (n / 10)). lia.
Qed.

Lemma dec_rev_digits fuel n : Forall is_digit (dec_rev fuel n).
Proof.
  revert n; induction fuel as [|fuel IH]; intros n; cbn; [done|].
  constructor; [unfold is_digit; Z.to_euclidean_division_equations; lia|]. by case_if.
Qed.

Lemma decimal_len n : 1 <= len (decimal n) <= 5.
Proof. unfold decimal. rewrite len_reverse. apply (dec_rev_len 4). Qed.

Lemma decimal_digits n : Forall is_digit (decimal n).
Proof. apply Forall_reverse, dec_rev_digits. Qed.

Lemma dec_val_snoc ds d : dec_val (ds ++ [d]) = dec_val ds * 10 + (d - 0x30).
Proof. unfold dec_val. by rewrite fold_left_app. Qed.

Lemma dec_rev_val fuel n :
  0 <= n < 10 ^ Z.of_nat fuel -> dec_val (reverse (dec_rev fuel n)) = n.
Proof.
  revert n; induction fuel as [|fuel IH]; intros n Hn; [cbn in *; lia|].
  rewrite Nat2Z.inj_succ, Z.pow_succ_r in Hn by lia. cbn [dec_rev].
  rewrite reverse_cons, dec_val_snoc. destruct (Z.eqb_spec (n / 10) 0).
  - cbn. Z.to_euclidean_division_equations; lia.
  - rewrite IH; Z.to_euclidean_division_equations; lia.
Qed.

Lemma dec_val_decimal n : u16 n -> dec_val (decimal n) = n.
Proof. intros. apply dec_rev_val. cbn. num. Qed.

(** The first loop of [write_u16]. *)
Lemma write_digits_ok fuel tmp x k :
  0 <= x < 10 ^ Z.of_nat fuel -> (0 < fuel)%nat -> 0 <= k -> k + Z.of_nat fuel <= len tmp ->
  safe (write_digits fuel tmp x k) (fun r =>
    len r.1 = len tmp /\ r.2 = k + len (dec_rev fuel x) /\
    (forall j, j < k -> zget r.1 j = zget tmp j) /\
    forall j, 0 <= j < len (dec_rev fuel x) -> zget r.1 (k + j) = zget (dec_rev fuel x) j).
Proof.
  revert tmp x k; induction fuel as [|fuel IH]; intros tmp x k Hx Hf Hk Hlen; [lia|].
  rewrite Nat2Z.inj_succ, Z.pow_succ_r in Hx by lia. cbn [write_digits dec_rev].
  safe_step zset_ok as [Hl Hg]; [lia|]. rewrite len_cons.
  assert (Hhd : forall l, zget ((48 + x mod 10) :: l) 0 = Some (48 + x mod 10)) by done.
  assert (Htl : forall l j, 0 < j -> zget ((48 + x mod 10) :: l) j = zget l (j - 1)).
  { intros l j Hj. change (_ :: l) with ([48 + x mod 10] ++ l). rewrite zget_app.
    change (len [48 + x mod 10]) with 1. case_if; [lia|done]. }
  destruct (Z.eqb_spec (x / 10) 0) as [Hz|Hz].
  - apply safe_ret. cbn [fst snd]. split_and!; [done|done| |].
    + intros j Hj. rewrite Hg. case_if; [lia|done].
    + intros j Hj. change (len []) with 0 in Hj. replace j with 0 by lia.
      rewrite Hg, Hhd. case_if; [done|lia].
  - assert (0 < fuel)%nat by (destruct fuel; [cbn in Hx; Z.to_euclidean_division_equations; lia|lia]).
    eapply safe_mono; [apply IH; [Z.to_euclidean_division_equations; lia|done|lia|lia]|].
    intros [t k'] (Hl' & Hk' & Hlo & Hhi). cbn [fst snd] in *. split_and!; [lia|lia| |].
    + intros j Hj. rewrite Hlo, Hg by lia. case_if; [lia|done].
    + intros j Hj. destruct (decide (j = 0)) as [->|].
      * rewrite Hhd, Hlo, Hg by lia. case_if; [done|lia].
      * rewrite Htl by lia. rewrite <- Hhi by lia. f_equal. lia.
Qed.

(** [write_u16] puts the decimal digits of [n] at the front of its buffer. *)
Lemma write_u16_eq out n :
  u16 n -> len (decimal n) <= len out ->
  write_u16 out n = Some (decimal n ++ drop (length (decimal n)) out, len (decimal n)).
Proof.
  intros Hn Hout. unfold write_u16.
  destruct (write_digits_ok 5 (zeros 5) n 0) as ([tmp k] & Hw & Hl & Hk & _ & Hg);
    [cbn; num|lia|lia|done|].
  rewrite Hw. cbn [mbind option_bind fst snd] in *. clear Hw.
  assert (Hkd : k = len (decimal n)) by (unfold decimal; rewrite len_reverse; lia).
  pose proof (dec_rev_len 4 n) as Hd. change (len (zeros 5)) with 5 in Hl.
  destruct (for_range_rev (fun k '(out, w) =>
      d ← zget tmp k; out ← zset out w d; Some (out, w + 1))
    (fun i '(o, w) => w = k - i /\ len o = len out /\
       forall j, zget o j = if (0 <=? j) && (j <? w) then zget (decimal n) j else zget out j)
    0 k (out, 0)) as ([o w] & Ho & Hw & Hlo & Hgo).
  - lia.
  - split_and!; [lia|done|]. intros j. case_if; [lia|done].
  - intros i [o w] Hi (Hw & Hlo & Hgo).
    destruct (zget_in tmp i) as [d Hdd]; [lia|]. rewrite Hdd. cbn [mbind option_bind].
    safe_step zset_ok as [Hl2 Hg2]; [lia|]. apply safe_ret. split_and!; [lia|lia|].
    intros j. rewrite Hg2, Hgo. destruct (Z.eqb_spec j w) as [->|].
    + rewrite (proj2 (andb_true_iff _ _)) by lia. unfold decimal. rewrite zget_reverse by lia.
      rewrite <- Hdd, <- Hg by lia. f_equal. lia.
    + repeat case_if; lia || done.
  - rewrite Ho. cbn [mbind option_bind]. do 2 f_equal; [|lia].
    assert (Hnat : Z.of_nat (length (decimal n)) = len (decimal n)) by done.
    apply zget_ext.
    { rewrite len_app, len_drop. lia. }
    intros j Hj. rewrite Hgo, zget_app. case_if; [case_if; [done|lia]|].
    case_if; [lia|]. rewrite zget_drop by lia. f_equal. lia.
Qed.

(** ** Control sequences *)

(** Parameters separated by semicolons. *)
Fixpoint join_params (ps : list Z) : list Z :=
  match ps with
  | [] => []
  | [p] => decimal p
  | p :: ps => decimal p ++ ch ";" :: join_params ps
  end.

(** A control sequence: CSI, a marker or none, parameters, final byte. *)
Definition csi_marked (marker ps : list Z) (final : Z) : list Z :=
  elit "[" ++ marker ++ join_params ps ++ [final].
Definition csi_seq (ps : list Z) (final : Z) : list Z := csi_marked [] ps final.
