(* ===== verification/CsiFacts.v ===== *)
(** The parser reads control sequences as they are written: the parameters of
    a sequence written in decimal arrive, in order and unchanged, in one call
    of the client. *)
From S2P Require Import Prelude Parser ParserFacts Screen Decimal.

Local Open Scope Z_scope.

(** In the middle of a control sequence: the parameters finished so far, the
    value of the one being read, the marker. *)
Definition collecting (p : Parser) (inter ps : list Z) (v : Z) : Prop :=
  parser_ok p /\ utf8_idle p /\ putback p = None /\ ignore p = false /\
  slice (params p) 0 (param_len p) = Some ps /\ len ps = param_len p /\
  slice (intermediates p) 0 (inter_len p) = Some inter /\ param_acc p = v.

(** Bytes that only move the parser. *)
Definition silent (bs : list Z) (p p' : Parser) : Prop :=
  traced (fun A HA a => @feed A HA bs p a) p' [].

Lemma silent_nil p : putback p = None -> silent [] p p.
Proof. intros Hp A HA a. cbn. by apply feed_nil. Qed.

Lemma traced_app bs bs' p p1 p2 e1 e2 :
  traced (fun A HA a => @feed A HA bs p a) p1 e1 ->
  traced (fun A HA a => @feed A HA bs' p1 a) p2 e2 ->
  traced (fun A HA a => @feed A HA (bs ++ bs') p a) p2 (e1 ++ e2).
Proof.
  intros H1 H2 A HA a. rewrite feed_app_eq, (H1 A HA), replay_app.
  destruct (replay e1 a); cbn; [apply H2|done].
Qed.

Lemma silent_app bs bs' p p1 p2 : silent bs p p1 -> silent bs' p1 p2 -> silent (bs ++ bs') p p2.
Proof. intros H1 H2. exact (traced_app _ _ _ _ _ [] [] H1 H2). Qed.

(** One byte whose step does not call the client. *)
Lemma silent_step b p p' :
  putback p = None -> putback p' = None ->
  (forall A (HA : Actions A) (a : A), step b p a = Some (p', a)) -> silent [b] p p'.
Proof.
  intros Hp Hp' Hs A HA a. cbn. rewrite feed_cons, Hs by done. cbn [mbind option_bind].
  by apply feed_nil.
Qed.

Lemma step_csi A (HA : Actions A) b p a :
  utf8_idle p -> step b p a = dispatch b p a.
Proof. intros [Hn _]. unfold step. by rewrite Hn. Qed.

Lemma parser_ok_step (b : Z) p p' :
  parser_ok p -> putback p = None -> u8 b -> step b p ([] : list Event) = Some (p', []) -> parser_ok p'.
Proof.
  intros Hp Hpb Hb Hs. destruct (step_safe (Forall event_ok) b p [] Hp Hb) as ([q l] & Hq & [H _]);
    [constructor|].
  rewrite Hs in Hq. by injection Hq as <- <-.
Qed.

(** A silent step keeps the parser well formed. *)
Lemma silent_step_ok b p p' :
  parser_ok p -> putback p = None -> putback p' = None -> u8 b ->
  (forall A (HA : Actions A) (a : A), step b p a = Some (p', a)) ->
  silent [b] p p' /\ parser_ok p'.
Proof. intros. split; [by apply silent_step|]. by eapply parser_ok_step. Qed.

Lemma csi_intro p :
  idle_ok p ->
  exists p', silent (elit "[") p p' /\ collecting p' [] [] 0 /\ state p' = CsiEntry.
Proof.
  intros (Hp & Hg & Hu & Hpb).
  set (p1 := reset_seq p <| state := Escape |>).
  set (p2 := reset_seq p1 <| state := CsiEntry |>).
  destruct (silent_step_ok 0x1b p p1) as [H1 Hok1]; [done|done|done|num| |].
  { intros A HA a. rewrite step_ground by done. unfold ground. by destruct Hu as [-> _]. }
  destruct (silent_step_ok 0x5b p1 p2) as [H2 Hok2]; [done|done|done|num| |].
  { intros A HA a. rewrite step_csi by done. done. }
  exists p2. split; [by apply (silent_app [0x1b] [0x5b] p p1 p2)|].
  split; [|done]. split_and!; try done.
Qed.

(** Tests on a byte whose range is known. *)
Ltac byte_range :=
  unfold is_c0, is_cancel, within;
  repeat match goal with
  | |- context [if ?c then _ else _] =>
      first [ replace c with false by lia | replace c with true by lia ]
  end.

Lemma csi_marker m p :
  collecting p [] [] 0 -> state p = CsiEntry -> within 0x3c 0x3f m = true ->
  exists p', silent [m] p p' /\ collecting p' [m] [] 0 /\ state p' = CsiParam.
Proof.
  intros (Hp & Hu & Hpb & Hi & Hps & Hlen & Hin & Hv) Hst Hm. unfold within in Hm.
  assert (Hil : inter_len p = 0).
  { unfold slice in Hin. case_if_in Hin; [|done]. injection Hin as Hin.
    apply (f_equal len) in Hin. rewrite len_take, len_drop in Hin. change (len []) with 0 in Hin.
    unfold in_range in *. lia. }
  destruct Hp as [(Hpar & (Hil2 & Hin2) & Hosc) Huu].
  destruct (zset_ok (intermediates p) 0 m) as (l & Hl & Hll & Hlg).
  { unfold MAX_INTER in *. lia. }
  set (p' := p <| intermediates := l |> <| inter_len := 1 |> <| state := CsiParam |>).
  destruct (silent_step_ok m p p') as [H1 Hok]; [by split|done|done|num| |].
  { intros A HA a. rewrite step_csi by done. unfold dispatch. rewrite Hst. unfold csi_entry.
    byte_range. cbn iota. unfold push_inter. rewrite Hil.
    change (0 <? MAX_INTER) with true. cbn iota. rewrite Hl. done. }
  exists p'. split; [done|]. split; [|done]. split_and!; try done.
  cbn. unfold slice. rewrite (proj2 (in_range_iff _ _ _)) by (unfold MAX_INTER in *; lia).
  cbn. rewrite drop_0. specialize (Hlg 0). unfold zget in Hlg. cbn in Hlg.
  destruct l; [done|]. cbn in Hlg. injection Hlg as ->. done.
Qed.

Lemma csi_digit d p inter ps v :
  collecting p inter ps v -> state p = CsiEntry \/ state p = CsiParam ->
  is_digit d -> 0 <= v -> v * 10 + (d - 0x30) <= u16_max ->
  exists p', silent [d] p p' /\ collecting p' inter ps (v * 10 + (d - 0x30)) /\ state p' = CsiParam.
Proof.
  intros (Hp & Hu & Hpb & Hi & Hps & Hlen & Hin & Hv) Hst Hd Hv0 Hmax. unfold is_digit in Hd.
  set (p' := p <| param_acc := v * 10 + (d - 0x30) |> <| state := CsiParam |>).
  destruct (silent_step_ok d p p') as [H1 Hok]; [done|done|done|num| |].
  { intros A HA a. rewrite step_csi by done. unfold dispatch.
    assert (Hpush : push_digit d p = Some (p <| param_acc := v * 10 + (d - 0x30) |>)).
    { unfold push_digit, chk_sub. rewrite (proj2 (Z.leb_le _ _)) by lia. cbn [mbind option_bind].
      rewrite Hv. replace (sat_add u32_max (Z.min (v * 10) u32_max) (d - 48)) with (v * 10 + (d - 48)) by num.
      by rewrite (proj2 (Z.ltb_ge _ _)) by lia. }
    destruct Hst as [Hst|Hst]; rewrite Hst.
    - unfold csi_entry. byte_range. cbn iota. by rewrite Hpush.
    - unfold csi_param. byte_range. cbn iota. rewrite Hpush. cbn [mbind option_bind].
      subst p'. do 2 f_equal. destruct p. cbn in Hst. by rewrite Hst. }
  exists p'. split; [done|]. split; [|done]. by split_and!.
Qed.

Lemma dec_val_from ds v :
  fold_left (fun acc d => acc * 10 + (d - 0x30)) ds v = v * 10 ^ len ds + dec_val ds.
Proof.
  unfold dec_val. revert v. induction ds as [|d ds IH]; intros v; cbn [fold_left].
  - change (len []) with 0. lia.
  - rewrite IH, (IH (0 * 10 + _)), len_cons. pose proof (len_nonneg ds).
    rewrite Z.pow_add_r by lia. lia.
Qed.

Lemma dec_val_nonneg ds : Forall is_digit ds -> 0 <= dec_val ds.
Proof.
  intros H. unfold dec_val. assert (Hg : forall v, 0 <= v ->
    0 <= fold_left (fun acc d => acc * 10 + (d - 0x30)) ds v); [|by apply Hg].
  induction H as [|d ds Hd _ IH]; intros v Hv; cbn; [done|]. apply IH. unfold is_digit in Hd. lia.
Qed.

Lemma csi_digits ds p inter ps v :
  collecting p inter ps v -> state p = CsiEntry \/ state p = CsiParam ->
  Forall is_digit ds -> ds <> [] -> 0 <= v ->
  fold_left (fun acc d => acc * 10 + (d - 0x30)) ds v <= u16_max ->
  exists p', silent ds p p' /\
    collecting p' inter ps (fold_left (fun acc d => acc * 10 + (d - 0x30)) ds v) /\
    state p' = CsiParam.
Proof.
  intros Hc Hst Hds. revert p v Hc Hst. induction Hds as [|d ds Hd Hds IH]; intros p v Hc Hst Hne Hv Hmax;
    [done|]. cbn [fold_left] in *.
  assert (Hle : v * 10 + (d - 48) <= u16_max).
  { rewrite dec_val_from in Hmax. pose proof (dec_val_nonneg ds Hds).
    assert (1 <= 10 ^ len ds) by (apply (Z.pow_le_mono_r 10 0); [lia|apply len_nonneg]).
    unfold is_digit in Hd. nia. }
  destruct (csi_digit d p inter ps v) as (p1 & H1 & Hc1 & Hs1); [done..|].
  destruct ds as [|d2 ds].
  - exists p1. done.
  - destruct (IH p1 (v * 10 + (d - 48))) as (p2 & H2 & Hc2 & Hs2);
      [done|by right|done|unfold is_digit in Hd; lia|done|].
    exists p2. split; [|done]. by apply (silent_app [d] (d2 :: ds) p p1 p2).
Qed.

Lemma csi_number n p inter ps :
  collecting p inter ps 0 -> state p = CsiEntry \/ state p = CsiParam -> u16 n ->
  exists p', silent (decimal n) p p' /\ collecting p' inter ps n /\ state p' = CsiParam.
Proof.
  intros Hc Hst Hn. destruct (csi_digits (decimal n) p inter ps 0) as (p' & H1 & Hc1 & Hs1);
    [done|done|apply decimal_digits| |done| |].
  - pose proof (decimal_len n). intros He. rewrite He in *. by destruct H as [H _].
  - fold (dec_val (decimal n)). rewrite dec_val_decimal by done. num.
  - exists p'. fold (dec_val (decimal n)) in Hc1. by rewrite dec_val_decimal in Hc1.
Qed.

(** [finish_param] appends the value being read. *)
Lemma finish_param_collect p inter ps v :
  collecting p inter ps v -> u16 v -> len ps < MAX_PARAMS ->
  exists l, finish_param p = Some (p <| params := l |> <| param_len := param_len p + 1 |> <| param_acc := 0 |>)
    /\ len l = MAX_PARAMS /\ slice l 0 (param_len p + 1) = Some (ps ++ [v]).
Proof.
  intros (Hp & Hu & Hpb & Hi & Hps & Hlen & Hin & Hv) Hv16 Hroom.
  destruct Hp as [((Hpl & _) & _) _]. pose proof (len_nonneg ps).
  destruct (zset_ok (params p) (param_len p) v) as (l & Hl & Hll & Hlg); [lia|].
  exists l. split; [|split; [lia|]].
  - unfold finish_param. rewrite (proj2 (Z.ltb_lt _ _)) by lia. rewrite Hv.
    replace (Z.min v u16_max) with v by num. rewrite Hl. done.
  - destruct (slice_ok l 0 (param_len p + 1)) as (l' & Hl' & Hll' & Hlg'); [lia|lia|].
    rewrite Hl'. f_equal. apply zget_ext.
    { rewrite len_app. change (len [v]) with 1. lia. }
    intros j Hj. rewrite Hlg' by lia. rewrite Z.add_0_l, Hlg, zget_app.
    destruct (slice_ok (params p) 0 (param_len p)) as (l2 & Hl2 & Hll2 & Hlg2); [lia|lia|].
    rewrite Hps in Hl2. injection Hl2 as <-.
    case_if; case_if; try lia.
    + replace (j - len ps) with 0 by lia. done.
    + by rewrite Hlg2 by lia.
Qed.

Lemma csi_sep p inter ps v :
  collecting p inter ps v -> state p = CsiParam -> u16 v -> len ps < MAX_PARAMS ->
  exists p', silent [ch ";"] p p' /\ collecting p' inter (ps ++ [v]) 0 /\ state p' = CsiParam.
Proof.
  intros Hc Hst Hv Hroom. pose proof Hc as (Hp & Hu & Hpb & Hi & Hps & Hlen & Hin & _).
  destruct (finish_param_collect _ _ _ _ Hc Hv Hroom) as (l & Hf & Hl & Hs).
  set (p' := p <| params := l |> <| param_len := param_len p + 1 |> <| param_acc := 0 |>).
  destruct (silent_step_ok (ch ";") p p') as [H1 Hok];
    [done|done|done|vm_compute; split; discriminate| |].
  { intros A HA a. rewrite step_csi by done. unfold dispatch. rewrite Hst.
    change (ch ";") with 59. unfold csi_param. byte_range. cbn [orb]. cbn iota. by rewrite Hf. }
  exists p'. split; [done|]. split; [|done]. split_and!; try done.
  cbn. rewrite len_app. change (len [v]) with 1. lia.
Qed.

Lemma csi_final f p inter ps v :
  collecting p inter ps v -> state p = CsiParam -> u16 v -> len ps < MAX_PARAMS ->
  within 0x40 0x7e f = true ->
  exists p', idle_ok p' /\
    traced (fun A HA a => @feed A HA [f] p a) p' [ECsi (ps ++ [v]) inter false f].
Proof.
  intros Hc Hst Hv Hroom Hf. pose proof Hc as (Hp & Hu & Hpb & Hi & Hps & Hlen & Hin & _).
  destruct (finish_param_collect _ _ _ _ Hc Hv Hroom) as (l & Hfin & Hl & Hs).
  set (p1 := p <| params := l |> <| param_len := param_len p + 1 |> <| param_acc := 0 |>).
  exists (reset_seq (p1 <| state := Ground |>)). split.
  - split_and!; try done. split; [|by left]. destruct Hp as [Hp _].
    destruct Hp as ((Hpl & Hpn & _) & (Hil & Hib) & Ho). apply seq_ok_reset.
    assert (Hok : parser_ok p1).
    { eapply (parser_ok_step (ch ";") p p1); [by apply Hc|done|vm_compute; split; discriminate|].
      rewrite step_csi by done. unfold dispatch. rewrite Hst.
      change (ch ";") with 59. unfold csi_param. byte_range. cbn iota. by rewrite Hfin. }
    apply Hok.
  - intros A HA a. unfold within in Hf. rewrite feed_cons by done. rewrite step_csi by done.
    unfold dispatch. rewrite Hst. unfold csi_param. byte_range. cbn iota. rewrite Hfin.
    cbn [mbind option_bind]. fold p1. unfold dispatch_csi.
    change (params p1) with l. change (param_len p1) with (param_len p + 1). rewrite Hs.
    change (intermediates p1) with (intermediates p). change (inter_len p1) with (inter_len p).
    rewrite Hin. change (ignore p1) with (ignore p). rewrite Hi. cbn [mbind option_bind].
    unfold replay. cbn [for_each perform]. destruct (csi (ps ++ [v]) inter false f a) as [a'|]; [|done].
    cbn [mbind option_bind]. rewrite feed_nil by done. done.
Qed.

(** The parameters after the first ones, then the final byte. *)
Lemma csi_params_final f qs v p inter ps :
  collecting p inter ps 0 -> state p = CsiEntry \/ state p = CsiParam ->
  Forall u16 (v :: qs) -> len ps + len (v :: qs) <= MAX_PARAMS -> within 0x40 0x7e f = true ->
  exists p', idle_ok p' /\
    traced (fun A HA a => @feed A HA (join_params (v :: qs) ++ [f]) p a) p'
      [ECsi (ps ++ v :: qs) inter false f].
Proof.
  revert v p ps. induction qs as [|q qs IH]; intros v p ps Hc Hst Hall Hroom Hf.
  - apply Forall_cons in Hall as [Hv _]. change (len [v]) with 1 in Hroom.
    destruct (csi_number v p inter ps Hc Hst Hv) as (p1 & H1 & Hc1 & Hs1).
    assert (Hlt : len ps < MAX_PARAMS) by lia.
    destruct (csi_final f p1 inter ps v Hc1 Hs1 Hv Hlt Hf) as (p2 & Hi2 & H2).
    exists p2. split; [done|]. exact (traced_app _ _ _ _ _ [] _ H1 H2).
  - apply Forall_cons in Hall as [Hv Hall]. rewrite !len_cons in Hroom. pose proof (len_nonneg qs).
    destruct (csi_number v p inter ps Hc Hst Hv) as (p1 & H1 & Hc1 & Hs1).
    assert (Hlt : len ps < MAX_PARAMS) by lia.
    destruct (csi_sep p1 inter ps v Hc1 Hs1 Hv Hlt) as (p2 & H2 & Hc2 & Hs2).
    destruct (IH q p2 (ps ++ [v])) as (p3 & Hi3 & H3); [done|by right|done| |done|].
    { rewrite len_app. change (len [v]) with 1. rewrite len_cons. lia. }
    exists p3. split; [done|].
    change (join_params (v :: q :: qs)) with (decimal v ++ [ch ";"] ++ join_params (q :: qs)).
    rewrite <- !app_assoc in *.
    pose proof (traced_app _ _ _ _ _ [] _ H2 H3) as H23.
    exact (traced_app _ _ _ _ _ [] _ H1 H23).
Qed.

Definition marker_ok (m : list Z) : Prop := m = [] \/ exists b, m = [b] /\ within 0x3c 0x3f b = true.

Lemma feed_csi_eq m ps f p :
  idle_ok p -> marker_ok m -> ps <> [] -> Forall u16 ps -> len ps <= MAX_PARAMS ->
  within 0x40 0x7e f = true ->
  exists p', idle_ok p' /\
    traced (fun A HA a => @feed A HA (csi_marked m ps f) p a) p' [ECsi ps m false f].
Proof.
  intros Hi Hm Hne Hps Hlen Hf. destruct ps as [|v qs]; [done|].
  destruct (csi_intro p Hi) as (p1 & H1 & Hc1 & Hs1). unfold csi_marked.
  destruct Hm as [->|(b & -> & Hb)].
  - destruct (csi_params_final f qs v p1 [] [] Hc1 (or_introl Hs1) Hps Hlen Hf) as (p2 & Hi2 & H2).
    exists p2. split; [done|]. exact (traced_app _ _ _ _ _ [] _ H1 H2).
  - destruct (csi_marker b p1 Hc1 Hs1 Hb) as (p2 & H2 & Hc2 & Hs2).
    destruct (csi_params_final f qs v p2 [b] [] Hc2 (or_intror Hs2) Hps Hlen Hf) as (p3 & Hi3 & H3).
    exists p3. split; [done|].
    exact (traced_app _ _ _ _ _ [] _ H1 (traced_app _ _ _ _ _ [] _ H2 H3)).
Qed.

(** Control sequences are read as written: a CSI sequence with up to 32
    parameters of 16 bits, written in decimal with semicolons and with or
    without one private marker, makes exactly one call, with those parameters
    in order, that marker and that final byte, for every client, and leaves
    the parser idle. *)
Theorem feed_csi_sequence (m ps : list Z) (f : Z) (p : Parser) :
  idle_ok p -> marker_ok m -> ps <> [] -> Forall u16 ps -> len ps <= MAX_PARAMS ->
  within 0x40 0x7e f = true ->
  exists p', idle_ok p' /\
    forall (A : Type) (HA : Actions A) (a : A),
      feed (csi_marked m ps f) p a = (a' ← csi ps m false f a; Some (p', a')).
Proof.
  intros Hi Hm Hne Hps Hlen Hf.
  destruct (feed_csi_eq m ps f p Hi Hm Hne Hps Hlen Hf) as (p' & Hi' & Ht).
  exists p'. split; [done|]. intros A HA a. rewrite (Ht A HA). unfold replay. cbn.
  by destruct (csi ps m false f a).
Qed.

Lemma feed_csi_sequence_witness :
  idle_ok Parser.new /\
  exists p', idle_ok p' /\
    forall (A : Type) (HA : Actions A) (a : A),
      feed (csi_marked [ch "?"] [1049; 25] (ch "h")) Parser.new a
      = (a' ← csi [1049; 25] [ch "?"] false (ch "h") a; Some (p', a')).
Proof.
  assert (Hi : idle_ok Parser.new) by (split; [exact parser_ok_new | repeat split; reflexivity]).
  split; [exact Hi|].
  apply (feed_csi_sequence [ch "?"] [1049; 25] (ch "h") Parser.new Hi).
  - right. exists (ch "?"). split; reflexivity.
  - discriminate.
  - repeat constructor; discriminate.
  - vm_compute; discriminate.
  - reflexivity.
Defined.
