(* ===== verification/ScreenFacts.v ===== *)
(** The grid's invariant and its damage tracking: every operation of Screen.v
    that the parser can reach runs without a panic, keeps the screen well
    formed, and marks every row it changes. *)
From S2P Require Import Prelude VtTypes Utf8 Parser ParserFacts Width Screen Decimal.

Local Open Scope Z_scope.

(** ** Well-formed screens *)

Definition cell_ok (c : Cell) : Prop :=
  u32 (codepoint c) /\ color_ok (fg c) /\ color_ok (bg c) /\ u16 (attrs c).

Definition saved_ok (c : SavedCursor) : Prop :=
  u16 (sc_col c) /\ u16 (sc_row c) /\ color_ok (sc_fg c) /\ color_ok (sc_bg c) /\ u16 (sc_attrs c).

Definition cluster_ok (cols rows : Z) (c : OpenCluster) : Prop :=
  0 <= oc_row c < rows /\ 0 <= oc_col c < cols /\ u8 (oc_len c) /\ u8 (oc_width c).

(** An optional value satisfies [P] where it is there. *)
Definition opt_ok {A} (P : A -> Prop) (o : option A) : Prop :=
  match o with Some a => P a | None => True end.

(** The largest number of columns for which a tab stop is still a [u16]. *)
Definition MAX_TAB_COLS : Z := 65528.

Record wf (s : Screen) : Prop := {
  wf_cols : 1 <= cols s <= MAX_TAB_COLS;
  wf_rows : 1 <= rows s <= u16_max;
  wf_len : len (cells s) = cols s * rows s;
  wf_cells : Forall cell_ok (cells s);
  wf_cursor_col : 0 <= cursor_col s < cols s;
  wf_cursor_row : 0 <= cursor_row s < rows s;
  wf_region : 0 <= scroll_top s <= scroll_bottom s /\ scroll_bottom s < rows s;
  wf_damage : full_damage s = true \/ damage_row1 s < damage_row0 s
              \/ 0 <= damage_row0 s /\ damage_row1 s < rows s;
  wf_damage_u16 : u16 (damage_row0 s) /\ u16 (damage_row1 s);
  wf_palette : palette_ok (palette s);
  wf_pen : color_ok (pen_fg s) /\ color_ok (pen_bg s) /\ u16 (pen_attrs s);
  wf_saved : opt_ok saved_ok (saved_cursor s) /\ opt_ok saved_ok (alt_cursor s);
  wf_grid : opt_ok (fun g => len g = cols s * rows s /\ Forall cell_ok g) (saved_grid s);
  wf_replies : bytes (replies s) /\ len (replies s) <= REPLY_CAP;
  wf_counters : u32 (replies_dropped s) /\ u32 (grapheme_truncated s);
  wf_cluster : opt_ok (cluster_ok (cols s) (rows s)) (open_cluster s);
  wf_scrolled : Forall (Forall cell_ok) (scrolled_off s) }.

Lemma cell_ok_blank c : color_ok c -> cell_ok (blank c).
Proof. unfold cell_ok; cbn. intros; split_and!; num || done. Qed.

Lemma wf_blank s : wf s -> cell_ok (blank (pen_bg s)).
Proof. intros []; now apply cell_ok_blank. Qed.

(** ** Rows that are marked *)

Definition marked (s : Screen) (r : Z) : Prop :=
  full_damage s = true \/ damage_row0 s <= r <= damage_row1 s.

(** The cell at a column and a row. *)
Definition cell_at (s : Screen) (col row : Z) : option Cell := zget (cells s) (idx col row s).

(** [s'] is [s] after some operations: the same size and palette, no mark lost,
    and every cell that differs lies in a marked row. *)
Definition tracks (s s' : Screen) : Prop :=
  cols s' = cols s /\ rows s' = rows s /\ palette s' = palette s /\
  (forall r, 0 <= r < rows s -> marked s r -> marked s' r) /\
  (forall col row, 0 <= col < cols s -> 0 <= row < rows s ->
     cell_at s' col row = cell_at s col row \/ marked s' row).

Definition good (s s' : Screen) : Prop := wf s' /\ tracks s s'.

Lemma tracks_refl s : tracks s s.
Proof. repeat split; auto. Qed.

Lemma tracks_trans s1 s2 s3 : tracks s1 s2 -> tracks s2 s3 -> tracks s1 s3.
Proof.
  intros (Hc & Hr & Hp & Hm & Hd) (Hc' & Hr' & Hp' & Hm' & Hd'). rewrite Hc, Hr in *.
  repeat split; [congruence..|auto|].
  intros col row Hcol Hrow.
  destruct (Hd' col row Hcol Hrow) as [->|]; [|by right].
  destruct (Hd col row Hcol Hrow) as [->|]; [by left|right; auto].
Qed.

Lemma good_refl s : wf s -> good s s.
Proof. split; [done | apply tracks_refl]. Qed.

Lemma good_trans s1 s2 s3 : good s1 s2 -> good s2 s3 -> good s1 s3.
Proof. intros [_ ?] [? ?]. split; [done|]. by eapply tracks_trans. Qed.

#[export] Instance good_trans' : Transitive good.
Proof. intros ???. apply good_trans. Qed.

(** Sequencing: the rest of a handler starts from a well-formed screen. *)
Lemma good_bind o f s :
  safe o (good s) -> (forall s', wf s' -> safe (f s') (good s')) -> safe (o ≫= f) (good s).
Proof.
  intros Ho Hf. eapply safe_bind; [exact Ho|]. intros s' Hs'.
  eapply safe_mono; [apply Hf, Hs'|]. intros s'' ?. by eapply good_trans.
Qed.

(** The same size, cells and marks: what holds of the handlers that move the
    cursor, set a mode or answer. *)
Definition quiet (s s' : Screen) : Prop :=
  cols s' = cols s /\ rows s' = rows s /\ palette s' = palette s /\ cells s' = cells s /\
  full_damage s' = full_damage s /\ damage_row0 s' = damage_row0 s /\
  damage_row1 s' = damage_row1 s.

Lemma quiet_tracks s s' : quiet s s' -> tracks s s'.
Proof.
  intros (Hc & Hr & Hp & Hcs & Hf & H0 & H1).
  unfold tracks, marked, cell_at, idx. rewrite Hc, Hr, Hcs, Hf, H0, H1. auto 7.
Qed.

Lemma good_quiet s s' : wf s' -> quiet s s' -> good s s'.
Proof. split; [done|]. by apply quiet_tracks. Qed.

(** Full damage marks everything. *)
Lemma good_full s s' :
  wf s' -> cols s' = cols s -> rows s' = rows s -> palette s' = palette s ->
  full_damage s' = true -> good s s'.
Proof. intros. split; [done|]. repeat split; [done..| |]; intros; unfold marked; auto. Qed.

(** ** Edits of a block of rows *)

(** [s'] is [s] with other cells in rows [lo..=hi] and nothing else changed. *)
Definition edits (lo hi : Z) (s s' : Screen) : Prop :=
  exists cs, s' = s <| cells := cs |> /\ len cs = len (cells s) /\
    (Forall cell_ok (cells s) -> Forall cell_ok cs) /\
    forall i, ~ lo * cols s <= i < (hi + 1) * cols s -> zget cs i = zget (cells s) i.

Lemma edits_refl lo hi s : edits lo hi s s.
Proof. exists (cells s). destruct s; cbn; auto. Qed.

Lemma edits_trans lo hi s1 s2 s3 : edits lo hi s1 s2 -> edits lo hi s2 s3 -> edits lo hi s1 s3.
Proof.
  intros (cs & -> & Hl & Hf & Hg) (cs' & -> & Hl' & Hf' & Hg').
  cbn in *. exists cs'. split_and!; [done|congruence|auto|].
  intros. rewrite Hg', Hg; auto.
Qed.

Lemma edits_mono lo hi lo' hi' s s' :
  0 <= cols s -> lo' <= lo -> hi <= hi' -> edits lo hi s s' -> edits lo' hi' s s'.
Proof.
  intros Hc H1 H2 (cs & -> & Hl & Hf & Hg). exists cs. split_and!; auto.
  intros i Hi. apply Hg. nia.
Qed.

Lemma edits_frame lo hi s s' : edits lo hi s s' ->
  cols s' = cols s /\ rows s' = rows s /\ len (cells s') = len (cells s) /\
  cursor_col s' = cursor_col s /\ cursor_row s' = cursor_row s /\ pen_bg s' = pen_bg s /\
  scroll_bottom s' = scroll_bottom s /\ scroll_top s' = scroll_top s.
Proof. intros (cs & -> & Hl & _). by rewrite <- Hl. Qed.

Lemma edits_wf lo hi s s' : wf s -> edits lo hi s s' -> wf s'.
Proof. intros [] (cs & -> & Hl & Hf & _). split; cbn; auto. congruence. Qed.

(** Writing cells. *)
Lemma Forall_zget {A} (P : A -> Prop) l : Forall P l <-> forall i x, zget l i = Some x -> P x.
Proof.
  rewrite Forall_lookup. split.
  - intros H i x. unfold zget. case_if; [apply H | done].
  - intros H n x Hx. apply (H (Z.of_nat n)). by rewrite zget_nth.
Qed.

Lemma edits_zset lo hi s i x :
  0 <= i < len (cells s) -> lo * cols s <= i < (hi + 1) * cols s -> cell_ok x ->
  safe (cs ← zset (cells s) i x; Some (s <| cells := cs |>)) (edits lo hi s).
Proof.
  intros Hi Hr Hx. safe_step zset_ok as [Hl Hg]; [done|].
  apply safe_ret. exists a. split_and!; auto.
  - rewrite !Forall_zget. intros Hok j y Hj. rewrite Hg in Hj. case_if_in Hj; naive_solver.
  - intros j Hj. rewrite Hg. rewrite (proj2 (Z.eqb_neq _ _)) by lia. done.
Qed.

Lemma blank_row_edits r s :
  wf s -> 0 <= r < rows s -> safe (blank_row r s) (edits r r s).
Proof.
  intros Hwf Hr. pose proof (wf_len s Hwf). pose proof (wf_cols s Hwf).
  unfold blank_row. safe_step fill_range_ok as [Hl Hg]; [nia..|].
  apply safe_ret. exists a. split_and!; auto.
  - rewrite !Forall_zget. intros Hok j y Hj. rewrite Hg in Hj. case_if_in Hj; [|naive_solver].
    simplify_eq. by apply wf_blank.
  - intros j Hj. rewrite Hg. rewrite (proj2 (andb_false_iff _ _)); [done|]. nia.
Qed.

Lemma copy_row_edits src dst s :
  wf s -> 0 <= src < rows s -> 0 <= dst < rows s -> safe (copy_row src dst s) (edits dst dst s).
Proof.
  intros Hwf Hs Hd. pose proof (wf_len s Hwf). pose proof (wf_cols s Hwf).
  unfold copy_row. safe_step copy_within_ok as [Hl Hg]; [nia..|].
  apply safe_ret. exists a. split_and!; auto.
  - rewrite !Forall_zget. intros Hok j y Hj. rewrite Hg in Hj. case_if_in Hj; naive_solver.
  - intros j Hj. rewrite Hg. rewrite (proj2 (andb_false_iff _ _)); [done|]. nia.
Qed.

(** A loop of edits inside a block is an edit of the block. *)
Lemma for_each_edits {X} (xs : list X) body lo hi s :
  wf s ->
  (forall x s', x ∈ xs -> wf s' -> edits lo hi s s' -> safe (body x s') (edits lo hi s')) ->
  safe (for_each xs body s) (edits lo hi s).
Proof.
  intros Hwf Hb. apply for_each_inv; [apply edits_refl|].
  intros x s' Hx Hs'. eapply safe_mono; [apply Hb; auto; by eapply edits_wf|].
  intros. by eapply edits_trans.
Qed.

(** ** Marking rows *)

(** [s'] is [s] with rows [lo..=hi] marked as well. *)
Definition marks (lo hi : Z) (s s' : Screen) : Prop :=
  (exists a b, s' = s <| damage_row0 := a |> <| damage_row1 := b |>) /\ (wf s -> wf s') /\
  (forall r, marked s r -> marked s' r) /\ (forall r, lo <= r <= hi -> marked s' r).

Lemma dirty_marks r s : 0 <= r < rows s -> rows s <= u16_max -> marks r r s (dirty r s).
Proof.
  intros Hr Hmax. unfold dirty. destruct (full_damage s) eqn:Hf.
  { split_and!; [exists (damage_row0 s), (damage_row1 s); by destruct s | done..|by left]. }
  assert (Hw : forall a b, u16 a -> u16 b -> b < rows s \/ b < a ->
    wf s -> wf (s <| damage_row0 := a |> <| damage_row1 := b |>)).
  { intros a b Ha Hb Hor []. split; cbn; auto. right. num. }
  destruct (Z.ltb_spec (damage_row1 s) (damage_row0 s)).
  { split_and!; [by eexists _, _ | apply Hw; num | intros r' [?|?]; [congruence|lia] | right; cbn; lia]. }
  assert (Hs : s = s <| damage_row0 := damage_row0 s |> <| damage_row1 := damage_row1 s |>)
    by (by destruct s).
  set (a := Z.min r (damage_row0 s)). set (b := Z.max r (damage_row1 s)).
  assert (Hd : (if damage_row1 (if r <? damage_row0 s then s <| damage_row0 := r |> else s) <? r
     then (if r <? damage_row0 s then s <| damage_row0 := r |> else s) <| damage_row1 := r |>
     else if r <? damage_row0 s then s <| damage_row0 := r |> else s)
     = s <| damage_row0 := a |> <| damage_row1 := b |>).
  { subst a b. destruct (Z.ltb_spec r (damage_row0 s)); cbn; case_if.
    - replace (Z.min _ _) with r by lia. by replace (Z.max _ _) with r by lia.
    - replace (Z.min _ _) with r by lia. replace (Z.max _ _) with (damage_row1 s) by lia.
      by destruct s.
    - replace (Z.min _ _) with (damage_row0 s) by lia. replace (Z.max _ _) with r by lia.
      by destruct s.
    - replace (Z.min _ _) with (damage_row0 s) by lia.
      replace (Z.max _ _) with (damage_row1 s) by lia. exact Hs. }
  rewrite Hd. split_and!; [by eexists _, _ | | | ].
  - intros Hwf. pose proof Hwf as []. apply Hw; [num..| |done]. lia.
  - intros r' [?|?]; [congruence|]. right. cbn. lia.
  - right. cbn. lia.
Qed.

Lemma marks_frame lo hi s s' : marks lo hi s s' ->
  cols s' = cols s /\ rows s' = rows s /\ cells s' = cells s /\
  full_damage s' = full_damage s /\ cursor_col s' = cursor_col s /\ cursor_row s' = cursor_row s.
Proof. intros [(a & b & ->) _]. done. Qed.

Lemma dirty_all_marks lo hi s :
  0 <= lo -> hi < rows s -> rows s <= u16_max ->
  marks lo hi s (fold_left (fun s r => dirty r s) (range_incl lo hi) s).
Proof.
  intros Hlo Hhi Hmax. unfold range_incl.
  remember (Z.to_nat (hi - lo + 1)) as n eqn:Hn.
  revert hi Hhi Hn. induction n as [|n IH]; intros hi Hhi Hn.
  { destruct (decide (hi - lo + 1 <= 0)); [|lia]. rewrite seqZ_nil by done. cbn.
    split_and!; [exists (damage_row0 s), (damage_row1 s); by destruct s | done..|lia]. }
  replace (hi - lo + 1) with (Z.of_nat (S n)) by lia. rewrite seqZ_S, fold_left_app. cbn.
  specialize (IH (hi - 1)). replace (hi - 1 - lo + 1) with (Z.of_nat n) in IH by lia.
  destruct IH as (Hx & Hw & Hm & Ha); [lia..|].
  set (s1 := fold_left _ _ _) in *.
  assert (Hr : rows s1 = rows s) by (destruct Hx as (? & ? & ->); done).
  destruct (dirty_marks (lo + Z.of_nat n) s1) as (Hx' & Hw' & Hm' & Ha'); [lia..|].
  split_and!; [|auto..|].
  - destruct Hx as (? & ? & ->), Hx' as (a & b & ->). by exists a, b.
  - intros r Hr'. destruct (decide (r = lo + Z.of_nat n)) as [->|]; [apply Ha'; lia|].
    apply Hm', Ha. lia.
Qed.

Lemma edits_cell_at lo hi s s' col row :
  edits lo hi s s' -> 0 <= col < cols s -> ~ lo <= row <= hi ->
  cell_at s' col row = cell_at s col row.
Proof.
  intros (cs & -> & _ & _ & Hg) Hc Hr. unfold cell_at, idx. cbn. apply Hg. nia.
Qed.

(** An edit whose block is marked afterwards is tracked. *)
Lemma good_edits lo hi s s1 s2 :
  wf s -> edits lo hi s s1 -> marks lo hi s1 s2 -> good s s2.
Proof.
  intros Hwf He (Hx & Hw & Hm & Ha). pose proof (edits_frame _ _ _ _ He) as (Hc & Hr & Hfr).
  assert (Hmk : forall r, marked s r -> marked s1 r).
  { destruct He as (cs & -> & _). done. }
  assert (Hp : palette s1 = palette s) by (destruct He as (cs & -> & _); done).
  destruct Hx as (a & b & ->). split; [apply Hw; by eapply edits_wf|].
  repeat split; [done..|auto|].
  intros col row Hcol Hrow. destruct (decide (lo <= row <= hi)); [right; by apply Ha|left].
  by eapply edits_cell_at in He.
Qed.

Lemma good_edit_dirty r s s' :
  wf s -> 0 <= r < rows s -> edits r r s s' -> good s (dirty r s').
Proof.
  intros Hwf Hr He. pose proof (edits_frame _ _ _ _ He) as (_ & Hrow & _).
  eapply good_edits; [done..|]. apply dirty_marks; rewrite Hrow; [done|].
  apply Hwf.
Qed.

Lemma good_edits_dirty lo hi s s' :
  wf s -> 0 <= lo -> hi < rows s -> edits lo hi s s' ->
  good s (fold_left (fun s r => dirty r s) (range_incl lo hi) s').
Proof.
  intros Hwf H0 Hr He. pose proof (edits_frame _ _ _ _ He) as (_ & Hrow & _).
  eapply good_edits; [done..|]. apply dirty_all_marks; rewrite ?Hrow; [done..|].
  apply Hwf.
Qed.

Lemma edits_full lo hi s s' :
  wf s -> edits lo hi s s' -> good s (s' <| full_damage := true |>).
Proof.
  intros Hwf He. pose proof (edits_wf _ _ _ _ Hwf He) as Hwf'.
  destruct He as (cs & -> & _). apply good_full; try done.
  destruct Hwf'. split; cbn; auto.
Qed.

(** ** Scrolling *)

(** Changes of fields the grid's invariant does not relate to others. *)
Ltac wf_fields := intros []; split; cbn; auto.

Lemma wf_scrolled_off s l : wf s -> Forall (Forall cell_ok) l -> wf (s <| scrolled_off := l |>).
Proof. wf_fields. Qed.

Lemma wf_cursor_at s r c :
  wf s -> 0 <= r < rows s -> 0 <= c < cols s -> wf (s <| cursor_row := r |> <| cursor_col := c |>).
Proof. wf_fields. Qed.

Lemma wf_row_at s r : wf s -> 0 <= r < rows s -> wf (s <| cursor_row := r |>).
Proof. wf_fields. Qed.

Lemma wf_col_at s c : wf s -> 0 <= c < cols s -> wf (s <| cursor_col := c |>).
Proof. wf_fields. Qed.

Lemma wf_pending s b : wf s -> wf (s <| pending_wrap := b |>).
Proof. wf_fields. Qed.

Lemma wf_no_cluster s : wf s -> wf (s <| open_cluster := None |>).
Proof. wf_fields. Qed.

Create HintDb screen discriminated.
#[export] Hint Constants Opaque : screen.
#[export] Hint Resolve wf_row_at wf_col_at wf_pending wf_no_cluster good_refl : screen.

Lemma slice_Forall {A} (P : A -> Prop) l a b l' :
  Forall P l -> slice l a b = Some l' -> Forall P l'.
Proof.
  unfold slice. intros H. case_if; [|done]. intros [= <-]. by apply Forall_take, Forall_drop.
Qed.

Lemma scroll_up_good s : wf s -> safe (scroll_up s) (good s).
Proof.
  intros Hwf. pose proof Hwf as []. unfold scroll_up.
  apply safe_bind with (P := fun s1 => exists l, s1 = s <| scrolled_off := l |> /\ wf s1).
  { apply safe_if; intros Hc.
    - destruct (slice_ok (cells s) (scroll_top s * cols s) (scroll_top s * cols s + cols s))
        as (row & Hrow & _); [nia..|].
      rewrite Hrow. cbn. apply safe_ret. eexists. split; [done|]. apply wf_scrolled_off; [done|].
      apply Forall_app. split; [done|]. constructor; [|done]. by eapply slice_Forall.
    - apply safe_ret. exists (scrolled_off s). split; [by destruct s|done]. }
  intros s1 (l & Hs1 & Hwf1).
  assert (Ht : forall s2, good s1 s2 -> good s s2).
  { intros s2 Hg. subst s1. by destruct Hg. }
  assert (Hrows : rows s1 = rows s) by (by subst).
  eapply safe_mono; [|exact Ht]. clear Ht Hs1.
  eapply safe_bind.
  { apply for_each_edits with (lo := 0) (hi := rows s1 - 1); [done|].
    intros r s2 Hr%elem_of_range Hwf2 He. pose proof (edits_frame _ _ _ _ He) as (Hc & Hr2 & _).
    eapply safe_mono; [apply copy_row_edits; [done|lia..]|].
    intros s3 H3. eapply edits_mono; [| | |exact H3]; [|lia..]. rewrite Hc. pose proof (wf_cols s1 Hwf1); lia. }
  intros s2 He2. pose proof (edits_wf _ _ _ _ Hwf1 He2) as Hwf2.
  pose proof (edits_frame _ _ _ _ He2) as (Hc2 & Hr2 & _).
  eapply safe_bind; [apply blank_row_edits; [done|lia]|].
  intros s3 He3. apply safe_ret. eapply edits_full; [done|].
  eapply edits_trans; [exact He2|]. eapply edits_mono; [| | |exact He3]; [|lia..].
  pose proof (wf_cols s2 Hwf2); lia.
Qed.

Lemma scroll_down_good s : wf s -> safe (scroll_down s) (good s).
Proof.
  intros Hwf. pose proof Hwf as []. unfold scroll_down.
  eapply safe_bind with (P := edits 0 (rows s - 1) s).
  { apply safe_if; intros Hc; [|apply safe_ret, edits_refl].
    apply for_each_edits; [done|].
    intros r s2 Hr%elem_of_reverse%elem_of_range_incl Hwf2 He.
    pose proof (edits_frame _ _ _ _ He) as (Hc2 & Hr2 & _).
    eapply safe_mono; [apply copy_row_edits; [done|lia..]|].
    intros s3 H3. eapply edits_mono; [| | |exact H3]; [|lia..]. rewrite Hc2. lia. }
  intros s2 He2. pose proof (edits_wf _ _ _ _ Hwf He2) as Hwf2.
  pose proof (edits_frame _ _ _ _ He2) as (Hc2 & Hr2 & _).
  eapply safe_bind; [apply blank_row_edits; [done|lia]|].
  intros s3 He3. apply safe_ret. eapply edits_full; [done|].
  eapply edits_trans; [exact He2|]. eapply edits_mono; [| | |exact He3]; [|lia..].
  pose proof (wf_cols s2 Hwf2); lia.
Qed.

(** ** Cursor movement *)

Lemma quiet_refl s : quiet s s.
Proof. done. Qed.
#[export] Hint Resolve quiet_refl : screen.

(** A screen with other cursor, pen or modes: [quiet] by computation. *)
Ltac quiet_good := apply good_quiet; [|done].

Lemma index_good s : wf s -> safe (index s) (good s).
Proof.
  intros Hwf. pose proof Hwf as []. unfold index. apply safe_if; intros Hc.
  - unfold chk_add. rewrite (proj2 (Z.leb_le _ _)) by lia. apply safe_ret.
    quiet_good. apply wf_row_at; [done|lia].
  - by apply scroll_up_good.
Qed.

Lemma reverse_index_good s : wf s -> safe (reverse_index s) (good s).
Proof.
  intros Hwf. pose proof Hwf as []. unfold reverse_index. apply safe_if; intros Hc.
  - unfold chk_sub. rewrite (proj2 (Z.leb_le _ _)) by lia. apply safe_ret.
    quiet_good. apply wf_row_at; [done|lia].
  - by apply scroll_down_good.
Qed.

(** A handler that first moves the cursor and then runs [o]. *)
Lemma good_after s s1 o : good s s1 -> safe o (good s1) -> safe o (good s).
Proof. intros Hg Ho. eapply safe_mono; [exact Ho|]. intros s2 ?. by eapply good_trans. Qed.

Lemma set_cursor_wf r c s : wf s -> 0 <= r -> 0 <= c -> wf (set_cursor r c s).
Proof.
  intros [] Hr Hc. unfold set_cursor, clear_pending_wrap, last_row, last_col. split; cbn; auto; num.
Qed.

Lemma set_cursor_good r c s : wf s -> 0 <= r -> 0 <= c -> good s (set_cursor r c s).
Proof. intros. quiet_good. by apply set_cursor_wf. Qed.

Lemma capture_cursor_ok s : wf s -> saved_ok (capture_cursor s).
Proof. intros []. unfold saved_ok, MAX_TAB_COLS in *. cbn. split_and!; num || tauto. Qed.

Lemma restore_cursor_wf c s : wf s -> saved_ok c -> wf (restore_cursor c s).
Proof.
  intros [] (? & ? & ? & ? & ?). unfold restore_cursor, clear_pending_wrap, last_row, last_col.
  split; cbn; auto; num.
Qed.

(** ** The alternate screen *)

Lemma Forall_blank_grid s : wf s -> Forall cell_ok (blank_grid s).
Proof. intros H. apply Forall_replicate. by apply wf_blank. Qed.

Lemma len_blank_grid s : wf s -> len (blank_grid s) = cols s * rows s.
Proof. intros []. unfold blank_grid. rewrite len_replicate. nia. Qed.

Lemma enter_alt_wf save clear s : wf s -> wf (enter_alt save clear s).
Proof.
  intros Hwf. unfold enter_alt.
  set (s1 := if negb (in_alt s) then _ else s).
  assert (Hwf1 : wf s1).
  { subst s1. repeat case_if; try done; pose proof Hwf as []; split; cbn; auto.
    split; [tauto|]. cbn. by apply capture_cursor_ok. naive_solver. }
  set (s2 := if clear then _ else s1).
  assert (Hwf2 : wf s2).
  { subst s2. case_if; [|done]. apply set_cursor_wf; [|done..].
    pose proof (Forall_blank_grid _ Hwf1). pose proof (len_blank_grid _ Hwf1).
    pose proof Hwf1 as []. split; cbn; auto. }
  destruct Hwf2. split; cbn; auto.
Qed.

Lemma enter_alt_good save clear s : wf s -> good s (enter_alt save clear s).
Proof.
  intros Hwf. apply good_full; [by apply enter_alt_wf|..|done].
  all: unfold enter_alt; repeat case_if; done.
Qed.

Lemma leave_alt_good restore s : wf s -> good s (leave_alt restore s).
Proof.
  intros Hwf. unfold leave_alt. destruct (in_alt s); cbn; [|by apply good_refl].
  set (s1 := match saved_grid s with Some _ => _ | None => s end).
  assert (H1 : wf s1 /\ cols s1 = cols s /\ rows s1 = rows s /\ palette s1 = palette s).
  { subst s1. pose proof Hwf as []. destruct (saved_grid s) eqn:Hg; [|done].
    destruct wf_grid0. split; [split; cbn; auto|done]. }
  destruct H1 as (Hwf1 & Hc & Hr & Hp).
  assert (Hno : wf (s1 <| alt_cursor := None |>)).
  { destruct Hwf1. split; cbn; auto. naive_solver. }
  set (s2 := if restore then _ else _).
  assert (H2 : wf s2 /\ cols s2 = cols s /\ rows s2 = rows s /\ palette s2 = palette s).
  { subst s2. destruct restore; [|done]. destruct (alt_cursor s1) as [c|] eqn:Ha; [|done].
    split; [|done]. apply restore_cursor_wf; [done|].
    pose proof (wf_saved s1 Hwf1) as [_ Hs]. by rewrite Ha in Hs. }
  destruct H2 as (Hwf2 & Hc2 & Hr2 & Hp2). apply good_full; [|done..].
  destruct Hwf2. split; cbn; auto.
Qed.

Lemma csi_n_ok ps i d : Forall u16 ps -> u16 d -> u16 (csi_n ps i d).
Proof.
  intros Hps Hd. unfold csi_n. destruct (zget ps i) eqn:Hz; [|done]. case_if; [done|].
  rewrite Forall_zget in Hps. by eapply Hps.
Qed.

Lemma set_scroll_region_good ps s :
  wf s -> Forall u16 ps -> safe (set_scroll_region ps s) (good s).
Proof.
  intros Hwf Hps. pose proof Hwf as []. unfold set_scroll_region.
  set (top := match zget ps 0 with None => _ | Some _ => _ end).
  set (bot := match zget ps 1 with None => _ | Some _ => _ end).
  apply safe_if; intros Hc; [by apply safe_ret, good_refl|].
  unfold chk_sub. rewrite !(proj2 (Z.leb_le _ _)) by lia. cbn. apply safe_ret.
  quiet_good. apply set_cursor_wf; [|done..]. split; cbn; auto. lia.
Qed.

Lemma private_mode_one_good set p s : wf s -> good s (private_mode_one set p s).
Proof.
  intros Hwf. unfold private_mode_one.
  repeat case_if; try (by apply enter_alt_good); try (by apply leave_alt_good);
    try (by apply good_refl).
  all: quiet_good; destruct Hwf; split; cbn; auto.
Qed.

Lemma private_mode_good ps set s : wf s -> good s (private_mode ps set s).
Proof.
  unfold private_mode. revert s. induction ps as [|p ps IH]; intros s Hwf; cbn.
  - by apply good_refl.
  - eapply good_trans; [by apply private_mode_one_good|]. apply IH. by apply private_mode_one_good.
Qed.

(** ** Replies *)

Lemma enqueue_reply_good bs s : wf s -> bytes bs -> good s (enqueue_reply bs s).
Proof.
  intros Hwf Hbs. unfold enqueue_reply. pose proof (wf_replies s Hwf) as [Hb Hl].
  pose proof (wf_counters s Hwf).
  repeat case_if; quiet_good; destruct Hwf; split; cbn; auto; try num.
  split; [by apply bytes_app|]. rewrite len_app. lia.
Qed.

(** The bytes of a cursor position report. *)
Definition cursor_report (row col : Z) : list Z :=
  0x1b :: ch "[" :: decimal row ++ ch ";" :: decimal col ++ [ch "R"].

Lemma zset_mid {A} (x : list A) y z v i :
  len x = i -> zset (x ++ y :: z) i v = Some (x ++ v :: z).
Proof.
  intros <-. unfold zset, len. rewrite length_app. cbn [length].
  rewrite (proj2 (andb_true_iff _ _)) by lia. rewrite Nat2Z.id.
  by rewrite insert_app_r_alt, Nat.sub_diag by lia.
Qed.

Lemma write_u16_at_eq x y n i :
  u16 n -> len x = i -> len (decimal n) <= len y ->
  write_u16_at (x ++ y) i n =
    Some (x ++ decimal n ++ drop (length (decimal n)) y, len (decimal n)).
Proof.
  intros Hn Hi Hy. unfold write_u16_at.
  assert (Hs : slice (x ++ y) i (len (x ++ y)) = Some y).
  { pose proof (len_nonneg x). pose proof (len_nonneg y). unfold slice.
    rewrite (proj2 (in_range_iff _ _ _)) by (rewrite len_app; lia).
    f_equal. rewrite drop_app_n by (unfold len in *; lia).
    apply take_ge. rewrite len_app. unfold len in *; lia. }
  rewrite Hs. cbn [mbind option_bind]. rewrite write_u16_eq by done. cbn [mbind option_bind].
  rewrite take_app_n by (unfold len in *; lia). done.
Qed.

Lemma drop_replicate_cons n m (v : Z) :
  (n < m)%nat -> drop n (replicate m v) = v :: replicate (m - S n) v.
Proof. intros. rewrite drop_replicate. by replace (m - n)%nat with (S (m - S n)) by lia. Qed.

Lemma slice_front {A} (x y : list A) i : len x = i -> slice (x ++ y) 0 i = Some x.
Proof.
  intros <-. pose proof (len_nonneg x). pose proof (len_nonneg y). unfold slice.
  rewrite (proj2 (in_range_iff _ _ _)) by (rewrite len_app; lia).
  f_equal. rewrite drop_0. apply take_app_n. unfold len. lia.
Qed.

(** The report fits its buffer and is the one the program asked for. *)
Lemma reply_dsr_cursor_eq s :
  wf s -> reply_dsr_cursor s = Some (enqueue_reply (cursor_report (cursor_row s + 1) (cursor_col s + 1)) s).
Proof.
  intros []. unfold reply_dsr_cursor, MAX_TAB_COLS in *.
  replace (sat_add u16_max (cursor_row s) 1) with (cursor_row s + 1) by num.
  replace (sat_add u16_max (cursor_col s) 1) with (cursor_col s + 1) by num.
  assert (Hr16 : u16 (cursor_row s + 1)) by num. assert (Hc16 : u16 (cursor_col s + 1)) by num.
  generalize dependent (cursor_row s + 1). generalize dependent (cursor_col s + 1).
  intros col Hc16 row Hr16.
  pose proof (decimal_len row) as Hlr. pose proof (decimal_len col) as Hlc.
  change (zeros 16) with ([] ++ 0 :: replicate 15 0). rewrite zset_mid by done.
  cbn [mbind option_bind]. change ([] ++ 27 :: replicate 15 0) with ([27] ++ 0 :: replicate 14 0).
  rewrite zset_mid by done. cbn [mbind option_bind].
  change ([27] ++ ch "[" :: replicate 14 0) with ([27; ch "["] ++ replicate 14 0).
  rewrite write_u16_at_eq by (rewrite ?len_replicate; done || lia). cbn [mbind option_bind].
  rewrite drop_replicate_cons by (unfold len in *; lia). rewrite app_assoc.
  rewrite zset_mid by (rewrite len_app; done). cbn [mbind option_bind].
  rewrite cons_middle, app_assoc.
  rewrite write_u16_at_eq by (rewrite ?len_app, ?len_replicate; change (len [27; ch "["]) with 2;
    change (len [ch ";"]) with 1; unfold len in *; done || lia).
  cbn [mbind option_bind].
  rewrite drop_replicate_cons by (unfold len in *; lia). rewrite app_assoc.
  rewrite zset_mid by (rewrite !len_app; change (len [27; ch "["]) with 2;
    change (len [ch ";"]) with 1; lia). cbn [mbind option_bind].
  rewrite cons_middle, app_assoc.
  rewrite slice_front by (rewrite !len_app; change (len [27; ch "["]) with 2;
    change (len [ch ";"]) with 1; change (len [ch "R"]) with 1; lia).
  cbn [mbind option_bind]. do 2 f_equal. unfold cursor_report.
  by rewrite <- !app_assoc.
Qed.

Lemma bytes_decimal n : bytes (decimal n).
Proof.
  eapply Forall_impl; [apply decimal_digits|]. unfold is_digit. intros; num.
Qed.

Lemma bytes_cursor_report row col : bytes (cursor_report row col).
Proof.
  unfold cursor_report. repeat (apply Forall_cons; split; [vm_compute; split; discriminate|]).
  apply bytes_app. split; [apply bytes_decimal|].
  apply Forall_cons; split; [vm_compute; split; discriminate|].
  apply bytes_app. split; [apply bytes_decimal|].
  apply Forall_singleton. vm_compute; split; discriminate.
Qed.

Lemma reply_dsr_cursor_good s : wf s -> safe (reply_dsr_cursor s) (good s).
Proof.
  intros Hwf. rewrite reply_dsr_cursor_eq by done. apply safe_ret.
  apply enqueue_reply_good; [done|]. apply bytes_cursor_report.
Qed.

(** ** Select graphic rendition *)

Lemma paint_indexed_ok n : 0 <= n -> color_ok (paint_indexed n).
Proof. intros. cbn. num. Qed.

Lemma lor_u16 a b : u16 a -> u16 b -> u16 (Z.lor a b).
Proof.
  intros Ha Hb. split; [apply Z.lor_nonneg; num|].
  assert (Z.lor a b < 2 ^ 16); [|lia].
  destruct (decide (Z.lor a b = 0)) as [->|]; [lia|].
  apply Z.log2_lt_pow2; [assert (0 <= Z.lor a b) by (apply Z.lor_nonneg; num); lia|].
  rewrite Z.log2_lor by num. apply Z.max_lub_lt.
  all: destruct (decide (a = 0)), (decide (b = 0)); subst; try (cbn; lia);
    apply Z.log2_lt_pow2; num.
Qed.

(** [Z.land] with any mask keeps the bits of a [u16]. *)
Lemma land_u16 a b : u16 a -> u16 (Z.land a b).
Proof.
  intros Ha. assert (He : Z.land a b = Z.land a b mod 2 ^ 16).
  { rewrite <- Z.land_ones by lia. rewrite <- Z.land_assoc, (Z.land_comm b), Z.land_assoc.
    rewrite Z.land_ones by lia. rewrite (Z.mod_small a); [done|]. num. }
  rewrite He. pose proof (Z.mod_pos_bound (Z.land a b) (2 ^ 16)). num.
Qed.

Lemma ldiff_u16 a b : u16 a -> u16 (Z.ldiff a b).
Proof. rewrite Z.ldiff_land. apply land_u16. Qed.

Lemma wf_pen_update s f b a :
  wf s -> color_ok f -> color_ok b -> u16 a ->
  good s (s <| pen_attrs := a |> <| pen_fg := f |> <| pen_bg := b |>).
Proof. intros [] ???. quiet_good. split; cbn; auto. Qed.

Lemma sgr_one_good n s : u16 n -> wf s -> safe (sgr_one n s) (good s).
Proof.
  intros Hn Hwf. pose proof (wf_pen s Hwf) as (Hf & Hb & Ha).
  assert (Hfg : forall c, color_ok c -> good s (s <| pen_fg := c |>)).
  { intros c Hc. quiet_good. destruct Hwf; split; cbn; auto. }
  assert (Hbg : forall c, color_ok c -> good s (s <| pen_bg := c |>)).
  { intros c Hc. quiet_good. destruct Hwf; split; cbn; auto. }
  assert (Hat : forall a, u16 a -> good s (s <| pen_attrs := a |>)).
  { intros a Hc. quiet_good. destruct Hwf; split; cbn; auto. }
  unfold sgr_one, chk_sub, chk_add.
  repeat (apply safe_if; intros ?);
    rewrite ?(proj2 (Z.leb_le _ _)) by (unfold within in *; lia); cbn [mbind option_bind];
    rewrite ?(proj2 (Z.leb_le _ _)) by (unfold within in *; lia); cbn [mbind option_bind];
    apply safe_ret.
  all: first [ by apply good_refl
             | apply Hfg; first [done | apply paint_indexed_ok; unfold within in *; lia]
             | apply Hbg; first [done | apply paint_indexed_ok; unfold within in *; lia]
             | apply Hat; first [by apply ldiff_u16 | apply lor_u16; num]
             | apply wf_pen_update; done || num ].
Qed.

Lemma set_pen_good is_fg c s : color_ok c -> wf s -> good s (set_pen is_fg c s).
Proof.
  intros Hc []. unfold set_pen. destruct is_fg; quiet_good; split; cbn; auto; naive_solver.
Qed.

Lemma rgb_clamp_ok r g b :
  u16 r -> u16 g -> u16 b -> color_ok (RgbColor (Z.min r 255) (Z.min g 255) (Z.min b 255)).
Proof. cbn. num. Qed.

Lemma sgr_loop_good ps s : Forall u16 ps -> wf s -> safe (sgr_loop ps s) (good s).
Proof.
  remember (length ps) as n eqn:Hn. assert (Hle : (length ps <= n)%nat) by lia. clear Hn.
  revert ps s Hle. induction n as [|n IH]; intros ps s Hle Hps Hwf.
  { destruct ps; cbn in Hle; [|lia]. by apply safe_ret, good_refl. }
  destruct ps as [|p ps]; [by apply safe_ret, good_refl|]. cbn in Hle.
  apply Forall_cons in Hps as [Hp Hps]. cbn [sgr_loop].
  assert (Hrec : forall qs s', (length qs <= n)%nat -> Forall u16 qs -> good s s' ->
    safe (sgr_loop qs s') (good s)).
  { intros qs s' Hq Hqs Hg. eapply good_after; [exact Hg|]. apply IH; [done..|apply Hg]. }
  assert (Hr : good s s) by (by apply good_refl).
  apply safe_if; intros _.
  - destruct ps as [|kind ps1]; [apply Hrec; [cbn; lia|done|done]|].
    apply Forall_cons in Hps as [Hk Hps1]. cbn in Hle.
    apply safe_if; intros _; [|apply safe_if; intros _].
    + destruct ps1 as [|i ps2]; [apply Hrec; [cbn; lia|done|done]|].
      apply Forall_cons in Hps1 as [Hi Hps2]. cbn in Hle.
      apply Hrec; [lia|done|]. apply set_pen_good; [|done]. apply paint_indexed_ok. num.
    + destruct ps1 as [|r [|g [|b ps2]]]; try (apply Hrec; [cbn in *; lia|done|done]).
      repeat match goal with H : Forall u16 (_ :: _) |- _ => apply Forall_cons in H as [? H] end.
      cbn in Hle. apply Hrec; [lia|done|]. apply set_pen_good; [|done]. by apply rgb_clamp_ok.
    + apply Hrec; [cbn; lia| |done]. by constructor.
  - apply good_bind; [by apply sgr_one_good|]. intros s' Hwf'. apply IH; [lia|done|done].
Qed.

Lemma apply_sgr_good ps s : Forall u16 ps -> wf s -> safe (apply_sgr ps s) (good s).
Proof.
  intros Hps Hwf. unfold apply_sgr. apply sgr_loop_good; [|done].
  destruct ps; [|done]. constructor; [num|done].
Qed.

(** ** Printing *)

Lemma row_bounds s row col :
  wf s -> 0 <= row < rows s -> 0 <= col < cols s ->
  0 <= row * cols s + col < len (cells s).
Proof. intros [] ??. nia. Qed.

Lemma edits_idx s row col :
  0 <= col < cols s -> row * cols s <= idx col row s < (row + 1) * cols s.
Proof. unfold idx. nia. Qed.

Lemma zset_edits row col s x :
  wf s -> 0 <= row < rows s -> 0 <= col < cols s -> cell_ok x ->
  safe (cs ← zset (cells s) (idx col row s) x; Some (s <| cells := cs |>)) (edits row row s).
Proof.
  intros Hwf Hr Hc Hx. apply edits_zset; [by apply row_bounds|by apply edits_idx|done].
Qed.

Lemma blank_if_edits row col bit s :
  wf s -> 0 <= row < rows s -> 0 <= col < cols s ->
  safe (blank_if (idx col row s) bit s) (edits row row s).
Proof.
  intros Hwf Hr Hc. unfold blank_if.
  destruct (zget_in (cells s) (idx col row s)) as [x ->]; [by apply row_bounds|].
  cbn [mbind option_bind]. apply safe_if; intros _; [|apply safe_ret, edits_refl].
  apply zset_edits; [done..|]. by apply wf_blank.
Qed.

(** Wide pairs are broken up inside their own row. *)
Lemma smash_wide_at_edits col row s :
  wf s -> 0 <= col -> 0 <= row -> safe (smash_wide_at col row s) (edits row row s).
Proof.
  intros Hwf Hc Hr. unfold smash_wide_at. apply safe_if; intros H; [apply safe_ret, edits_refl|].
  assert (Hc' : col < cols s) by lia. assert (Hr' : row < rows s) by lia.
  destruct (zget_in (cells s) (idx col row s)) as [x ->]; [by apply row_bounds|].
  pose proof (wf_cols s Hwf) as Hmax. unfold MAX_TAB_COLS in Hmax.
  cbn [mbind option_bind].
  eapply safe_bind with (P := edits row row s).
  { apply safe_if; intros _; [|apply safe_ret, edits_refl].
    unfold chk_add. rewrite (proj2 (Z.leb_le _ _)) by lia. cbn [mbind option_bind].
    apply safe_if; intros Hn; [|apply safe_ret, edits_refl]. apply blank_if_edits; [done|lia..]. }
  intros s1 He. pose proof (edits_frame _ _ _ _ He) as (Hc1 & Hr1 & _).
  eapply safe_mono with (P := edits row row s1); [|intros; by eapply edits_trans].
  apply safe_if; intros Hb; [|apply safe_ret, edits_refl].
  unfold chk_sub. rewrite (proj2 (Z.leb_le _ _)) by lia. cbn [mbind option_bind].
  apply blank_if_edits; [by eapply edits_wf|lia..].
Qed.

Lemma advance_after_width_good w s : wf s -> 0 <= w -> good s (advance_after_width w s).
Proof.
  intros Hwf Hw. pose proof Hwf as []. unfold advance_after_width, last_col, MAX_TAB_COLS in *.
  case_if; quiet_good; apply wf_pending, wf_col_at; done || num.
Qed.

Lemma wf_cluster_set s cl :
  wf s -> cluster_ok (cols s) (rows s) cl -> wf (s <| open_cluster := Some cl |>).
Proof. intros [] ?; split; cbn; auto. Qed.

Lemma printable_u32 c : printable c = true -> u32 c.
Proof. unfold printable, is_scalar. num. Qed.

Lemma glyph_cell_ok s c bit :
  wf s -> u32 c -> u16 bit -> cell_ok (mkCell c (pen_fg s) (pen_bg s) (Z.lor (Z.land (pen_attrs s) 7) bit)).
Proof.
  intros [] Hc Hb. unfold cell_ok. cbn. split_and!; [done|tauto..|].
  apply lor_u16; [|done]. apply land_u16. tauto.
Qed.

Lemma dirty_cluster r s o :
  dirty r (s <| open_cluster := o |>) = dirty r s <| open_cluster := o |>.
Proof.
  unfold dirty; cbn. case_if; [done|]. case_if; [done|].
  destruct (r <? damage_row0 s); cbn; by destruct (damage_row1 s <? r).
Qed.

Lemma good_cluster s s' cl :
  good s s' -> cluster_ok (cols s) (rows s) cl -> good s (s' <| open_cluster := Some cl |>).
Proof.
  intros [Hwf Ht] Hcl. eapply good_trans; [by split|]. quiet_good.
  apply wf_cluster_set; [done|]. by destruct Ht as (-> & -> & _).
Qed.

(** The cells of one glyph: an edit of the cursor's row. *)
Lemma put_glyph_good c w s :
  wf s -> u32 c -> w = 1 \/ w = 2 -> cursor_col s + w <= cols s ->
  safe (put_glyph c w s) (good s).
Proof.
  intros Hwf Hc Hw Hfit. pose proof Hwf as [Hcols _ _ _ Hcc Hcr _ _ _ _ _ _ _ _ _ _ _].
  unfold put_glyph, MAX_TAB_COLS in *.
  set (row := cursor_row s) in *. set (col := cursor_col s) in *.
  assert (Hstep : forall o s1 (k : Screen -> option Screen), edits row row s s1 ->
    safe o (edits row row s1) ->
    (forall s2, edits row row s s2 -> wf s2 -> safe (k s2) (good s)) -> safe (o ≫= k) (good s)).
  { intros o s1 k He Ho Hk. eapply safe_bind; [exact Ho|]. intros s2 He2.
    apply Hk; [by eapply edits_trans|]. eapply edits_wf; [exact Hwf|]. by eapply edits_trans. }
  eapply Hstep; [apply edits_refl | apply smash_wide_at_edits; [done|lia..] |].
  intros s1 He1 Hwf1. pose proof (edits_frame _ _ _ _ He1) as (Hc1 & Hr1 & _).
  eapply (Hstep _ s1); [done| |].
  { apply safe_if; intros Hw2; [|apply safe_ret, edits_refl].
    unfold chk_add. rewrite (proj2 (Z.leb_le _ _)) by lia. cbn [mbind option_bind].
    apply smash_wide_at_edits; [done|lia..]. }
  intros s2 He2 Hwf2. pose proof (edits_frame _ _ _ _ He2) as (Hc2 & Hr2 & _).
  pose proof (fun bit => glyph_cell_ok s2 c bit Hwf2 Hc) as Hcell.
  destruct (zset_edits row col s2 (mkCell c (pen_fg s2) (pen_bg s2)
     (Z.lor (Z.land (pen_attrs s2) 7) (if w =? 2 then ATTR_WIDE_LEAD else 0))))
    as (s3 & Hs3 & He3); [done|lia..| apply Hcell; case_if; vm_compute; split; discriminate |].
  destruct (zset (cells s2) _ _) as [cs|]; [|discriminate Hs3]. cbn [mbind option_bind] in *.
  injection Hs3 as Hs3.
  assert (He23 : edits row row s s3) by (by eapply edits_trans).
  assert (Hwf3 : wf s3) by (by eapply edits_wf).
  pose proof (edits_frame _ _ _ _ He23) as (Hc3 & Hr3 & _).
  assert (Hpen : pen_fg s2 = pen_fg s3 /\ pen_bg s2 = pen_bg s3 /\ pen_attrs s2 = pen_attrs s3)
    by (by subst s3).
  rewrite Hs3. clear He3.
  eapply (Hstep _ s3); [done| |].
  { apply safe_if; intros Hw2; [|apply safe_ret, edits_refl].
    unfold chk_add. rewrite (proj2 (Z.leb_le _ _)) by lia. cbn [mbind option_bind].
    destruct Hpen as (_ & _ & ->).
    apply zset_edits; [done|lia..|]. apply glyph_cell_ok; [done..|]. vm_compute; split; discriminate. }
  intros s4 He4 Hwf4. apply safe_ret.
  pose proof (edits_frame _ _ _ _ He4) as (Hc4 & Hr4 & _).
  set (cl := mkCluster _ _ _ _ _ _).
  assert (Hg : good s (dirty row (s4 <| open_cluster := Some cl |>))).
  { rewrite dirty_cluster. apply good_cluster; [by apply good_edit_dirty|].
    unfold cluster_ok; cbn. num. }
  eapply good_trans; [exact Hg|]. apply advance_after_width_good; [apply Hg|lia].
Qed.

Lemma wrap_if_needed_width_good w s : wf s -> safe (wrap_if_needed_width w s) (good s).
Proof.
  intros Hwf. unfold wrap_if_needed_width.
  apply safe_if; intros _; [by apply safe_ret, good_refl|].
  apply safe_if; intros _; [apply safe_ret; quiet_good; by apply wf_pending|].
  eapply good_after; [|apply index_good].
  - quiet_good. apply wf_col_at; [by apply wf_pending|]. pose proof (wf_cols s Hwf). cbn. lia.
  - apply wf_col_at; [by apply wf_pending|]. pose proof (wf_cols s Hwf). cbn. lia.
Qed.

Lemma append_to_cluster_good c s b s' :
  wf s -> append_to_cluster c s = (b, s') -> good s s'.
Proof.
  intros Hwf. unfold append_to_cluster. pose proof (wf_cluster s Hwf) as Hcl.
  destruct (open_cluster s) as [cl|] eqn:Ho; intros [= <- <-]; [|by apply good_refl].
  cbn in Hcl. set (s1 := if RILL_GRAPHEME_MAX <=? oc_len cl then _ else s).
  assert (H1 : good s s1).
  { subst s1. case_if; [|by apply good_refl]. quiet_good.
    destruct Hwf. split; cbn; auto. num. }
  assert (Hsz : cols s1 = cols s /\ rows s1 = rows s) by (subst s1; by case_if).
  destruct Hsz as [Hc Hr]. destruct Hcl as (? & ? & ? & ?). clearbody s1.
  set (cl' := if RILL_GRAPHEME_MAX <=? oc_len cl then cl else _).
  assert (Hcl' : oc_row cl' = oc_row cl /\ oc_col cl' = oc_col cl /\ u8 (oc_len cl')
    /\ oc_width cl' = oc_width cl) by (subst cl'; case_if; cbn; num).
  clearbody cl'. cbn [oc_row] in *. apply good_cluster.
  - eapply good_trans; [exact H1|]. apply good_edit_dirty; [apply H1|cbn; lia|apply edits_refl].
  - unfold cluster_ok. cbn. num.
Qed.

Lemma maybe_expand_ri_pair_good s : wf s -> safe (maybe_expand_ri_pair s) (good s).
Proof.
  intros Hwf. pose proof Hwf as [Hcols _ _ _ Hcc Hcr _ _ _ _ _ _ _ _ _ Hcl _].
  unfold maybe_expand_ri_pair, MAX_TAB_COLS in *.
  destruct (open_cluster s) as [cl|] eqn:Ho; [|by apply safe_ret, good_refl].
  apply safe_if; intros _; [by apply safe_ret, good_refl|].
  apply safe_if; intros Hg; [by apply safe_ret, good_refl|].
  cbn in Hcl. destruct Hcl as (Hrow & Hcol & Hlen & Hwd).
  set (tail := sat_add u16_max (oc_col cl) 1) in *.
  assert (Htail : tail = oc_col cl + 1) by (unfold tail; num).
  safe_step smash_wide_at_edits as He1; [done|lia..|].
  rename a into s1. pose proof (edits_frame _ _ _ _ He1) as (Hc1 & Hr1 & _).
  assert (Hwf1 : wf s1) by (by eapply edits_wf).
  destruct (zget_in (cells s1) (idx (oc_col cl) (oc_row cl) s1)) as [lead Hlead];
    [apply row_bounds; done || lia|].
  rewrite Hlead. cbn [mbind option_bind].
  assert (Hl : cell_ok lead).
  { pose proof (wf_cells s1 Hwf1) as Hall. rewrite Forall_zget in Hall. by eapply Hall. }
  destruct Hl as (Hcp & Hfg & Hbg & Hat).
  assert (Hattr : forall bit, u16 bit -> u16 (Z.lor (Z.land (attrs lead) 7) bit)).
  { intros. apply lor_u16; [|done]. by apply land_u16. }
  destruct (zset_edits (oc_row cl) (oc_col cl) s1
    (lead <| attrs := Z.lor (Z.land (attrs lead) 7) ATTR_WIDE_LEAD |>)) as (s2 & Hs2 & He2);
    [done|lia|lia|split_and!; [done..|apply Hattr; vm_compute; split; discriminate]|].
  destruct (zset (cells s1) _ _) as [cs|]; [|discriminate Hs2]. cbn [mbind option_bind] in *.
  injection Hs2 as Hs2.
  assert (Hwf2 : wf s2) by (by eapply edits_wf).
  pose proof (edits_frame _ _ _ _ He2) as (Hc2 & Hr2 & _).
  destruct (zset_edits (oc_row cl) tail s2
    (mkCell (codepoint lead) (fg lead) (bg lead)
       (Z.lor (Z.land (attrs lead) 7) ATTR_WIDE_TAIL))) as (s3 & Hs3 & He3);
    [done|lia|lia|split_and!; [done..|apply Hattr; vm_compute; split; discriminate]|].
  replace (idx tail (oc_row cl) s1) with (idx tail (oc_row cl) s2) by (by subst s2).
  replace (cells s2) with cs in Hs3 by (by subst s2).
  destruct (zset cs _ _) as [cs'|]; [|discriminate Hs3]. cbn [mbind option_bind] in *.
  injection Hs3 as Hs3.
  assert (He : edits (oc_row cl) (oc_row cl) s s3)
    by (do 2 (eapply edits_trans; [done|]); exact He3).
  replace (s1 <| cells := cs' |>) with s3 by (by subst s2 s3).
  rewrite dirty_cluster.
  pose proof (edits_frame _ _ _ _ He) as (Hc3 & Hr3 & _).
  assert (Hd : good s (dirty (oc_row cl) s3 <| open_cluster := Some (cl <| oc_width := 2 |>) |>)).
  { apply good_cluster; [by apply good_edit_dirty|]. unfold cluster_ok; cbn. num. }
  set (s4 := dirty _ _ <| open_cluster := _ |>) in *.
  assert (Hcs : cols s4 = cols s) by apply Hd.
  apply safe_if; intros _; apply safe_ret; [|done].
  eapply good_trans; [exact Hd|]. destruct Hd as [Hwf4 _].
  assert (H5 : wf (s4 <| cursor_col := tail |>)) by (apply wf_col_at; [done|lia]).
  eapply good_trans; [by apply (good_quiet s4 (s4 <| cursor_col := tail |>))|].
  by apply advance_after_width_good.
Qed.

Lemma cluster_width_cases c : cluster_width c = 1 \/ cluster_width c = 2.
Proof. unfold cluster_width. case_if; auto. Qed.

Lemma write_char_good c s : wf s -> printable c = true -> safe (write_char c s) (good s).
Proof.
  intros Hwf Hc. unfold write_char.
  destruct (if should_append c s then append_to_cluster c s else (false, s)) as [b s1] eqn:Ha.
  assert (H1 : good s s1).
  { case_if_in Ha; [by eapply append_to_cluster_good|]. injection Ha as _ <-. by apply good_refl. }
  eapply good_after; [exact H1|]. destruct H1 as [Hwf1 _].
  apply safe_if; intros _.
  { apply safe_if; intros _; [by apply maybe_expand_ri_pair_good|by apply safe_ret, good_refl]. }
  apply good_bind; [by apply wrap_if_needed_width_good|]. intros s2 Hwf2.
  pose proof (cluster_width_cases c) as Hw.
  apply safe_if; intros Hfit; [by apply safe_ret, good_refl|].
  apply put_glyph_good; [done|by apply printable_u32|done|].
  unfold remaining_cols in Hfit. pose proof (wf_cursor_col s2 Hwf2). num.
Qed.

(** ** Erasing *)

Lemma as_u16_id z : u16 z -> as_u16 z = z.
Proof. intros. unfold as_u16. apply Z.mod_small. num. Qed.

Lemma fill_range_edits from to lo hi s :
  wf s -> 0 <= from <= to -> to <= len (cells s) ->
  lo * cols s <= from -> to <= (hi + 1) * cols s ->
  safe (cs ← fill_range (cells s) from to (blank (pen_bg s)); Some (s <| cells := cs |>))
    (edits lo hi s).
Proof.
  intros Hwf Hft Hto Hlo Hhi. safe_step fill_range_ok as [Hl Hg]; [done..|].
  apply safe_ret. exists a. split_and!; auto.
  - rewrite !Forall_zget. intros Hok j y Hj. rewrite Hg in Hj. case_if_in Hj; [|naive_solver].
    simplify_eq. by apply wf_blank.
  - intros j Hj. rewrite Hg. rewrite (proj2 (andb_false_iff _ _)); [done|]. lia.
Qed.

Lemma div_row_bounds s i :
  wf s -> 0 <= i < len (cells s) -> 0 <= i / cols s < rows s.
Proof.
  intros Hwf Hi. pose proof (wf_len s Hwf). pose proof (wf_cols s Hwf). split.
  - apply Z.div_pos; lia.
  - apply Z.div_lt_upper_bound; lia.
Qed.

Lemma fill_range_empty {A} (l : list A) i v : 0 <= i <= len l -> fill_range l i i v = Some l.
Proof.
  intros Hi. destruct (fill_range_ok l i i v) as (l' & -> & Hl & Hg); [lia..|].
  f_equal. apply zget_ext; [done|]. intros j _. rewrite Hg. case_if; [lia|done].
Qed.

Lemma range_empty lo hi : hi <= lo -> range lo hi = [].
Proof. intros. unfold range. rewrite seqZ_nil by lia. done. Qed.

(** The block of rows an erased span touches. *)
Lemma erase_loop_edits from to s :
  wf s -> 0 <= from < to -> to <= len (cells s) ->
  safe (for_each (range from to) (fun i s' =>
          smash_wide_at (as_u16 (i mod cols s)) (as_u16 (i / cols s)) s') s)
    (edits (from / cols s) ((to - 1) / cols s) s).
Proof.
  intros Hwf Hft Hto. pose proof (wf_cols s Hwf). pose proof (wf_rows s Hwf).
  apply for_each_edits; [done|]. intros i s1 Hi%elem_of_range Hwf1 He.
  pose proof (edits_frame _ _ _ _ He) as (Hc & Hr & Hl & _).
  pose proof (Z.mod_pos_bound i (cols s)). unfold MAX_TAB_COLS in *.
  destruct (div_row_bounds s i) as [Hd0 Hd]; [done|lia|].
  rewrite !as_u16_id by num.
  eapply safe_mono; [apply smash_wide_at_edits; [done|lia..]|]. intros s2 H2.
  eapply edits_mono; [| | |exact H2]; [lia| |].
  - apply Z.div_le_mono; lia.
  - apply Z.div_le_mono; lia.
Qed.

Lemma erase_span_good from to s :
  wf s -> 0 <= from -> 0 <= to -> safe (erase_span from to s) (good s).
Proof.
  intros Hwf Hfrom0 Hto0. unfold erase_span. pose proof (wf_cols s Hwf) as Hcols.
  pose proof (wf_rows s Hwf) as Hrows. pose proof (len_nonneg (cells s)) as Hlen0.
  set (to' := Z.min to (len (cells s))). set (from' := Z.min from to').
  assert (Hr : 0 <= from' <= to' /\ to' <= len (cells s)) by lia. clearbody to' from'.
  replace (Z.max (cols s) 1) with (cols s) by lia.
  destruct (decide (from' = to')) as [->|Hne].
  { rewrite range_empty by lia. cbn [for_each mbind option_bind].
    rewrite fill_range_empty by lia. cbn [mbind option_bind].
    rewrite Z.ltb_irrefl. apply safe_ret. replace (s <| cells := cells s |>) with s by (by destruct s).
    by apply good_refl. }
  unfold MAX_TAB_COLS in *.
  destruct (div_row_bounds s from') as [Hd0 Hd1]; [done|lia|].
  destruct (div_row_bounds s (to' - 1)) as [He0 He1]; [done|lia|].
  rewrite (proj2 (Z.ltb_lt _ _)) by lia. rewrite !as_u16_id by num.
  eapply safe_bind; [apply erase_loop_edits; [done|lia..]|].
  intros s1 Hed1. pose proof (edits_frame _ _ _ _ Hed1) as (Hc1 & Hr1 & Hl1 & _).
  assert (Hwf1 : wf s1) by (by eapply edits_wf).
  destruct (fill_range_edits from' to' (from' / cols s) ((to' - 1) / cols s) s1)
    as (s2 & Hs2 & Hed2); [done|lia|lia|..].
  { rewrite Hc1. Z.to_euclidean_division_equations; nia. }
  { rewrite Hc1. Z.to_euclidean_division_equations; nia. }
  destruct (fill_range (cells s1) _ _ _) as [cs|]; [|discriminate Hs2]. cbn [mbind option_bind] in *.
  injection Hs2 as Hs2. rewrite Hs2. apply safe_ret.
  apply good_edits_dirty; [done|lia|lia|]. by eapply edits_trans.
Qed.

Lemma cursor_idx s : wf s -> 0 <= idx (cursor_col s) (cursor_row s) s < len (cells s).
Proof. intros H. apply row_bounds; [done|apply H..]. Qed.

Lemma full_good s s' : good s s' -> good s (s' <| full_damage := true |>).
Proof.
  intros [Hwf (Hc & Hr & Hp & _)]. apply good_full; try done. destruct Hwf. split; cbn; auto.
Qed.

Lemma erase_display_good m s : wf s -> safe (erase_display m s) (good s).
Proof.
  intros Hwf. pose proof (cursor_idx s Hwf). pose proof (len_nonneg (cells s)).
  unfold erase_display. apply safe_if; intros _; [by apply erase_span_good; [|lia..]|].
  apply safe_if; intros _; [by apply erase_span_good; [|lia..]|].
  eapply safe_bind; [by apply erase_span_good; [|lia..]|].
  intros s1 H1. apply safe_ret. by apply full_good.
Qed.

Lemma erase_line_good m s : wf s -> safe (erase_line m s) (good s).
Proof.
  intros Hwf. pose proof (cursor_idx s Hwf). pose proof Hwf as [].
  assert (0 <= idx 0 (cursor_row s) s) by (unfold idx; nia).
  unfold erase_line. repeat (apply safe_if; intros _); apply erase_span_good; done || lia.
Qed.

Lemma erase_chars_good n s : wf s -> 0 <= n -> safe (erase_chars n s) (good s).
Proof.
  intros Hwf Hn. pose proof (cursor_idx s Hwf).
  unfold erase_chars. apply erase_span_good; [done|lia|num].
Qed.

(** ** Inserting and deleting lines and cells *)

(** Copies and blanks of rows inside a block. *)
Lemma copy_rows_edits (xs : list Z) src dst lo hi s :
  wf s -> (forall r, r ∈ xs -> 0 <= src r < rows s /\ 0 <= dst r < rows s /\ lo <= dst r <= hi) ->
  safe (for_each xs (fun r s => copy_row (src r) (dst r) s) s) (edits lo hi s).
Proof.
  intros Hwf Hxs. apply for_each_edits; [done|]. intros r s1 Hr Hwf1 He.
  pose proof (edits_frame _ _ _ _ He) as (Hc & Hr1 & _).
  destruct (Hxs r Hr) as (? & ? & ?).
  eapply safe_mono; [apply copy_row_edits; [done|lia..]|]. intros s2 H2.
  eapply edits_mono; [| | |exact H2]; [|lia..]. pose proof (wf_cols s1 Hwf1). lia.
Qed.

Lemma blank_rows_edits (xs : list Z) lo hi s :
  wf s -> (forall r, r ∈ xs -> 0 <= r < rows s /\ lo <= r <= hi) ->
  safe (for_each xs blank_row s) (edits lo hi s).
Proof.
  intros Hwf Hxs. apply for_each_edits; [done|]. intros r s1 Hr Hwf1 He.
  pose proof (edits_frame _ _ _ _ He) as (Hc & Hr1 & _). destruct (Hxs r Hr) as (? & ?).
  eapply safe_mono; [apply blank_row_edits; [done|lia..]|]. intros s2 H2.
  eapply edits_mono; [| | |exact H2]; [|lia..]. pose proof (wf_cols s1 Hwf1). lia.
Qed.

Lemma line_count_eq n s :
  wf s -> cursor_row s <= scroll_bottom s ->
  line_count n s = Some (Z.min n (scroll_bottom s - cursor_row s + 1)).
Proof.
  intros [] H. unfold line_count, chk_add.
  replace (sat_sub (scroll_bottom s) (cursor_row s)) with (scroll_bottom s - cursor_row s) by num.
  by rewrite (proj2 (Z.leb_le _ _)) by lia.
Qed.

(** Both line operations edit the rows from the cursor to the bottom margin
    and mark exactly those. *)
Lemma dirty_to_bottom_good s s1 :
  wf s -> cursor_row s <= scroll_bottom s ->
  edits (cursor_row s) (scroll_bottom s) s s1 -> good s (dirty_to_bottom s1).
Proof.
  intros Hwf Hle He. pose proof Hwf as [].
  pose proof (edits_frame _ _ _ _ He) as (_ & _ & _ & _ & Hcr & _ & Hsb & _).
  unfold dirty_to_bottom. rewrite Hcr, Hsb. apply good_edits_dirty; done || lia.
Qed.

Lemma insert_lines_good n s : wf s -> 0 <= n -> safe (insert_lines n s) (good s).
Proof.
  intros Hwf Hn. pose proof Hwf as [_ _ _ _ _ Hcr [Ht Hb] _ _ _ _ _ _ _ _ _ _].
  unfold insert_lines. apply safe_if; intros Hin; [by apply safe_ret, good_refl|].
  rewrite line_count_eq by (done || lia). cbn [mbind option_bind].
  set (m := Z.min n _). assert (Hm : 0 <= m <= scroll_bottom s - cursor_row s + 1) by lia.
  clearbody m. apply safe_if; intros Hz; [by apply safe_ret, good_refl|].
  eapply safe_bind with (P := edits (cursor_row s) (scroll_bottom s) s).
  { apply safe_if; intros Hl; [|apply safe_ret, edits_refl].
    unfold chk_sub. rewrite (proj2 (Z.leb_le _ _)) by lia. cbn [mbind option_bind].
    apply copy_rows_edits with (src := fun r => r) (dst := fun r => r + m); [done|].
    intros r Hr%elem_of_reverse%elem_of_range_incl. lia. }
  intros s1 He1. pose proof (edits_frame _ _ _ _ He1) as (_ & Hr1 & _).
  assert (Hwf1 : wf s1) by (by eapply edits_wf).
  eapply safe_bind.
  { apply blank_rows_edits with (lo := cursor_row s) (hi := scroll_bottom s); [done|].
    intros r Hr%elem_of_range. lia. }
  intros s2 He2. apply safe_ret. apply dirty_to_bottom_good; [done|lia|]. by eapply edits_trans.
Qed.

Lemma delete_lines_good n s : wf s -> 0 <= n -> safe (delete_lines n s) (good s).
Proof.
  intros Hwf Hn. pose proof Hwf as [_ _ _ _ _ Hcr [Ht Hb] _ _ _ _ _ _ _ _ _ _].
  unfold delete_lines. apply safe_if; intros Hin; [by apply safe_ret, good_refl|].
  rewrite line_count_eq by (done || lia). cbn [mbind option_bind].
  set (m := Z.min n _). assert (Hm : 0 <= m <= scroll_bottom s - cursor_row s + 1) by lia.
  clearbody m. apply safe_if; intros Hz; [by apply safe_ret, good_refl|].
  eapply safe_bind with (P := edits (cursor_row s) (scroll_bottom s) s).
  { apply safe_if; intros Hl; [|apply safe_ret, edits_refl].
    unfold chk_sub. rewrite (proj2 (Z.leb_le _ _)) by lia. cbn [mbind option_bind].
    apply copy_rows_edits with (src := fun r => r + m) (dst := fun r => r); [done|].
    intros r Hr%elem_of_range_incl. lia. }
  intros s1 He1. pose proof (edits_frame _ _ _ _ He1) as (_ & Hr1 & _).
  assert (Hwf1 : wf s1) by (by eapply edits_wf).
  unfold chk_sub. rewrite (proj2 (Z.leb_le _ _)) by lia. cbn [mbind option_bind].
  eapply safe_bind.
  { apply blank_rows_edits with (lo := cursor_row s) (hi := scroll_bottom s); [done|].
    intros r Hr%elem_of_range_incl. lia. }
  intros s2 He2. apply safe_ret. apply dirty_to_bottom_good; [done|lia|]. by eapply edits_trans.
Qed.

Lemma Forall_copy_within {A} (P : A -> Prop) l a b d l' :
  Forall P l -> copy_within l a b d = Some l' -> Forall P l'.
Proof.
  intros Hl. unfold copy_within. case_if; [|done]. intros [= <-].
  apply Forall_app; split; [by apply Forall_take|].
  apply Forall_app; split; [by apply Forall_take, Forall_drop|by apply Forall_drop].
Qed.

Lemma Forall_fill_range {A} (P : A -> Prop) l a b x l' :
  Forall P l -> P x -> fill_range l a b x = Some l' -> Forall P l'.
Proof.
  intros Hl Hx. unfold fill_range. case_if; [|done]. intros [= <-].
  apply Forall_app; split; [by apply Forall_take|].
  apply Forall_app; split; [by apply Forall_replicate|by apply Forall_drop].
Qed.

(** The cells of one row, shifted and blanked: what ICH and DCH do to the
    buffer. *)
Definition shift_row (shift : bool) (a b d lo hi : Z) (v : Cell) (cs : list Cell)
  : option (list Cell) :=
  cs ← (if shift then copy_within cs a b d else Some cs);
  fill_range cs lo hi v.

Lemma shift_row_edits row shift a b d lo hi s :
  wf s -> 0 <= row < rows s ->
  (shift = true -> row * cols s <= a <= b /\ b <= (row + 1) * cols s /\
                   row * cols s <= d /\ d + (b - a) <= (row + 1) * cols s) ->
  row * cols s <= lo <= hi -> hi <= (row + 1) * cols s ->
  safe (shift_row shift a b d lo hi (blank (pen_bg s)) (cells s))
    (fun cs => edits row row s (s <| cells := cs |>)).
Proof.
  intros Hwf Hrow Hsh Hlo Hhi. pose proof Hwf as []. unfold shift_row.
  apply safe_bind with (P := fun cs => len cs = len (cells s) /\ Forall cell_ok cs /\
    forall i, ~ row * cols s <= i < (row + 1) * cols s -> zget cs i = zget (cells s) i).
  { apply safe_if; intros Hs; [|by apply safe_ret].
    destruct (copy_within_ok (cells s) a b d) as (cs & Hcs & Hl & Hg); [nia..|].
    rewrite Hcs. apply safe_ret. split_and!; [done|by eapply Forall_copy_within|].
    intros i Hi. rewrite Hg. case_if; [lia|done]. }
  intros cs (Hl & Hf & Hg).
  destruct (fill_range_ok cs lo hi (blank (pen_bg s))) as (cs' & Hcs' & Hl' & Hg'); [nia..|].
  rewrite Hcs'. apply safe_ret. exists cs'. split_and!; [done|congruence| |].
  - intros _. eapply Forall_fill_range; [exact Hf| |exact Hcs']. by apply wf_blank.
  - intros i Hi. rewrite Hg'. case_if; [lia|auto].
Qed.

Lemma insert_cells_good n s : wf s -> 0 <= n -> safe (insert_cells n s) (good s).
Proof.
  intros Hwf Hn. pose proof Hwf as [Hcols _ Hlen _ Hcc Hcr _ _ _ _ _ _ _ _ _ _ _].
  unfold insert_cells.
  replace (sat_sub (cols s) (cursor_col s)) with (cols s - cursor_col s) by num.
  set (m := Z.min n _). assert (Hm : 0 <= m <= cols s - cursor_col s) by lia. clearbody m.
  apply safe_if; intros Hz; [by apply safe_ret, good_refl|].
  unfold idx, chk_sub. rewrite (proj2 (Z.leb_le _ _)) by nia. cbn [mbind option_bind].
  destruct (shift_row_edits (cursor_row s) (cursor_col s + m <? cols s)
    (cursor_row s * cols s + 0 + cursor_col s) (cursor_row s * cols s + 0 + cols s - m)
    (cursor_row s * cols s + 0 + cursor_col s + m)
    (cursor_row s * cols s + 0 + cursor_col s) (cursor_row s * cols s + 0 + cursor_col s + m) s)
    as (cs & Hcs & He); [done|lia|nia|nia|nia|].
  unfold shift_row in Hcs.
  destruct (if cursor_col s + m <? cols s then _ else _) as [c1|]; [|discriminate Hcs].
  cbn [mbind option_bind] in *. rewrite Hcs. cbn [mbind option_bind]. apply safe_ret.
  by apply good_edit_dirty.
Qed.

Lemma delete_cells_good n s : wf s -> 0 <= n -> safe (delete_cells n s) (good s).
Proof.
  intros Hwf Hn. pose proof Hwf as [Hcols _ Hlen _ Hcc Hcr _ _ _ _ _ _ _ _ _ _ _].
  unfold delete_cells, MAX_TAB_COLS in *.
  replace (sat_sub (cols s) (cursor_col s)) with (cols s - cursor_col s) by num.
  set (m := Z.min n _). assert (Hm : 0 <= m <= cols s - cursor_col s) by lia. clearbody m.
  apply safe_if; intros Hz; [by apply safe_ret, good_refl|].
  unfold chk_add. rewrite (proj2 (Z.leb_le _ _)) by lia. cbn [mbind option_bind].
  eapply safe_bind.
  { apply for_each_edits with (lo := cursor_row s) (hi := cursor_row s); [done|].
    intros c s1 Hc%elem_of_range Hwf1 _. apply smash_wide_at_edits; [done|lia..]. }
  intros s1 He1. assert (Hwf1 : wf s1) by (by eapply edits_wf).
  pose proof (edits_frame _ _ _ _ He1) as (Hc1 & Hr1 & Hl1 & _).
  pose proof (wf_len s1 Hwf1).
  unfold idx, chk_sub. rewrite (proj2 (Z.leb_le _ _)) by nia. cbn [mbind option_bind].
  destruct (shift_row_edits (cursor_row s) (cursor_col s + m <? cols s1)
    (cursor_row s * cols s1 + 0 + cursor_col s + m) (cursor_row s * cols s1 + 0 + cols s1)
    (cursor_row s * cols s1 + 0 + cursor_col s)
    (cursor_row s * cols s1 + 0 + cols s1 - m) (cursor_row s * cols s1 + 0 + cols s1) s1)
    as (cs & Hcs & He2); [done|lia|rewrite Hc1; nia|rewrite Hc1; nia|rewrite Hc1; nia|].
  unfold shift_row in Hcs.
  destruct (if cursor_col s + m <? cols s1 then _ else _) as [c1|]; [|discriminate Hcs].
  cbn [mbind option_bind] in *. rewrite Hcs. cbn [mbind option_bind]. apply safe_ret.
  apply good_edit_dirty; [done|done|]. by eapply edits_trans.
Qed.

(** ** Control functions *)

Lemma repeat_good n op s :
  (forall s, wf s -> safe (op s) (good s)) -> wf s -> safe (repeat_op n op s) (good s).
Proof.
  intros Hop Hwf. unfold repeat_op. apply for_each_inv; [by apply good_refl|].
  intros _ s1 _ Hg. eapply good_after; [exact Hg|]. apply Hop, Hg.
Qed.

Lemma csi_dispatch_good ps action s :
  wf s -> Forall u16 ps -> safe (csi_dispatch ps action s) (good s).
Proof.
  intros Hwf Hps. pose proof (wf_cursor_col s Hwf). pose proof (wf_cursor_row s Hwf).
  assert (Hn : forall i d, u16 d -> u16 (csi_n ps i d)) by (intros; by apply csi_n_ok).
  assert (Hn0 : forall i, u16 (csi_n ps i 0)) by (intros; apply Hn; num).
  assert (Hn1 : forall i, u16 (csi_n ps i 1)) by (intros; apply Hn; num).
  pose proof (Hn1 0). pose proof (Hn1 1). pose proof (Hn0 0).
  unfold csi_dispatch.
  safe_ifs; try (apply safe_ret, set_cursor_good; [done|num..]).
  - by apply erase_display_good.
  - by apply erase_line_good.
  - apply erase_chars_good; [done|num].
  - apply insert_lines_good; [done|num].
  - apply delete_lines_good; [done|num].
  - apply insert_cells_good; [done|num].
  - apply delete_cells_good; [done|num].
  - by apply set_scroll_region_good.
  - apply repeat_good; [|done]. apply scroll_up_good.
  - apply repeat_good; [|done]. apply scroll_down_good.
  - by apply apply_sgr_good.
  - apply safe_ret. case_if; [|by apply good_refl].
    apply enqueue_reply_good; [done|]. repeat constructor; vm_compute; discriminate.
  - destruct (zget ps 0) as [n|]; [|by apply safe_ret, good_refl].
    apply safe_if; intros _; [by apply reply_dsr_cursor_good|]. apply safe_ret.
    case_if; [|by apply good_refl].
    apply enqueue_reply_good; [done|]. repeat constructor; vm_compute; discriminate.
  - by apply safe_ret, good_refl.
Qed.

Lemma screen_execute_good b s : wf s -> safe (screen_execute b s) (good s).
Proof.
  intros Hwf. unfold screen_execute. set (s0 := clear_pending_wrap s <| open_cluster := None |>).
  assert (Hg0 : good s s0).
  { quiet_good. by apply wf_no_cluster, wf_pending. }
  assert (Hc0 : cursor_col s0 = cursor_col s /\ cols s0 = cols s) by done.
  destruct Hc0 as [Hc0 Hcs]. pose proof Hg0 as [Hwf0 _].
  pose proof (wf_cursor_col s Hwf). pose proof (wf_cols s Hwf). unfold MAX_TAB_COLS in *.
  assert (Hcol : forall c, 0 <= c < cols s -> good s (s0 <| cursor_col := c |>)).
  { intros c Hc. eapply good_trans; [exact Hg0|]. quiet_good. by apply wf_col_at. }
  clearbody s0. unfold chk_add, chk_sub.
  safe_ifs.
  - rewrite (proj2 (Z.leb_le _ _)) by lia. apply safe_ret, Hcol. lia.
  - by apply safe_ret.
  - rewrite (proj2 (Z.leb_le (cursor_col s0 / 8 + 1) _)) by (Z.to_euclidean_division_equations; lia).
    cbn [mbind option_bind].
    rewrite (proj2 (Z.leb_le _ _)) by (Z.to_euclidean_division_equations; lia).
    apply safe_ret, Hcol. unfold sat_sub. Z.to_euclidean_division_equations; lia.
  - eapply good_after; [exact Hg0|]. by apply index_good.
  - apply safe_ret, Hcol. lia.
  - by apply safe_ret, good_refl.
Qed.

Lemma screen_csi_good ps i ign action s :
  wf s -> Forall u16 ps -> safe (screen_csi ps i ign action s) (good s).
Proof.
  intros Hwf Hps. unfold screen_csi. safe_ifs.
  - by apply safe_ret, good_refl.
  - by apply safe_ret, private_mode_good.
  - apply safe_ret, enqueue_reply_good; [done|]. repeat constructor; vm_compute; discriminate.
  - by apply safe_ret, good_refl.
  - by apply csi_dispatch_good.
Qed.

Lemma screen_esc_good i b s : wf s -> safe (screen_esc i b s) (good s).
Proof.
  intros Hwf. unfold screen_esc.
  assert (Hp : good s (clear_pending_wrap s)) by (quiet_good; by apply wf_pending).
  safe_ifs.
  - apply safe_ret. quiet_good. pose proof (capture_cursor_ok s Hwf).
    destruct Hwf. split; cbn; auto. naive_solver.
  - apply safe_ret. destruct (saved_cursor s) as [c|] eqn:Hs; [|by apply good_refl].
    quiet_good. apply restore_cursor_wf; [done|]. pose proof (wf_saved s Hwf) as [Ho _].
    by rewrite Hs in Ho.
  - eapply good_after; [exact Hp|]. apply index_good, Hp.
  - pose proof (wf_cols s Hwf).
    assert (Hg : good s (clear_pending_wrap s <| cursor_col := 0 |>)).
    { eapply good_trans; [exact Hp|]. quiet_good. apply wf_col_at; [apply Hp|]. cbn. lia. }
    eapply good_after; [exact Hg|]. apply index_good, Hg.
  - eapply good_after; [exact Hp|]. apply reverse_index_good, Hp.
  - apply safe_ret. quiet_good. destruct Hwf; split; cbn; auto.
  - apply safe_ret. quiet_good. destruct Hwf; split; cbn; auto.
  - by apply safe_ret, good_refl.
Qed.

(** The screen keeps the parser's contract, whatever well-formed screen the
    stream started from. *)
#[export] Instance screen_safe (s0 : Screen) : SafeActions Screen (good s0).
Proof.
  assert (Hstep : forall s o, good s0 s -> (wf s -> safe o (good s)) -> safe o (good s0)).
  { intros s o Hg Ho. eapply good_after; [exact Hg|]. apply Ho, Hg. }
  split; cbn.
  - intros c s Hc Hg. eapply Hstep; [exact Hg|]. intros. by apply write_char_good.
  - intros b s _ Hg. eapply Hstep; [exact Hg|]. intros. by apply screen_execute_good.
  - intros ps i ign act s Hps _ _ _ _ Hg. eapply Hstep; [exact Hg|].
    intros. by apply screen_csi_good.
  - intros i b s _ _ _ Hg. eapply Hstep; [exact Hg|]. intros. by apply screen_esc_good.
  - intros payload s _ _ Hg. by apply safe_ret.
Qed.

(** ** Construction, resize, snapshot *)

Lemma new_wf c r s :
  1 <= c <= MAX_TAB_COLS -> 1 <= r <= u16_max -> new c r = Ok s -> wf s.
Proof.
  unfold MAX_TAB_COLS. intros Hc Hr. unfold new. case_if; [done|]. intros [= <-].
  split; cbn; auto; try (unfold MAX_TAB_COLS; num).
  - rewrite len_replicate. nia.
  - apply Forall_replicate. apply cell_ok_blank. done.
  - apply vt_default_ok.
  - split; [constructor|done].
Qed.

Lemma cell_index_inj c r1 c1 r2 c2 :
  0 <= c1 < c -> 0 <= c2 < c -> r1 * c + c1 = r2 * c + c2 -> r1 = r2 /\ c1 = c2.
Proof.
  intros H1 H2 He. assert (r1 = r2); [|subst; lia].
  destruct (Z.lt_trichotomy r1 r2) as [H|[H|H]]; [exfalso|done|exfalso].
  - assert ((r1 + 1) * c <= r2 * c) by (apply Z.mul_le_mono_nonneg_r; lia). lia.
  - assert ((r2 + 1) * c <= r1 * c) by (apply Z.mul_le_mono_nonneg_r; lia). lia.
Qed.

(** [resize_cells] keeps the common rectangle and blanks the rest. *)
Lemma resize_cells_ok old oc or c r :
  1 <= oc -> 1 <= or -> 1 <= c -> 1 <= r -> len old = oc * or ->
  safe (resize_cells old oc or c r) (fun next =>
    len next = c * r /\
    forall row col, 0 <= row < r -> 0 <= col < c ->
      zget next (row * c + col) =
        if (row <? or) && (col <? oc) then zget old (row * oc + col) else Some (blank Default)).
Proof.
  intros Hoc Hor Hc Hr Hlen. unfold resize_cells.
  set (cc := Z.min oc c). set (cr := Z.min or r).
  eapply safe_mono.
  { apply (for_range _ (fun k next => len next = c * r /\
      forall row col, 0 <= row < r -> 0 <= col < c ->
      zget next (row * c + col) =
        if (row <? Z.min k or) && (col <? oc) then zget old (row * oc + col)
        else Some (blank Default))); [lia| |].
    - split; [rewrite len_replicate; nia|]. intros row col Hrow Hcol.
      rewrite zget_replicate. rewrite (proj2 (andb_true_iff _ _)) by nia.
      by rewrite (proj2 (andb_false_iff _ _)) by lia.
    - intros k next Hk [Hl Hg].
      eapply safe_mono.
      { apply (for_range _ (fun j next => len next = c * r /\
          forall row col, 0 <= row < r -> 0 <= col < c ->
          zget next (row * c + col) =
            if ((row <? k) && (col <? oc)) || ((row =? k) && (col <? Z.min j oc))
            then zget old (row * oc + col) else Some (blank Default))); [lia| |].
        - split; [done|]. intros row col Hrow Hcol. rewrite Hg by done.
          repeat case_if; lia || done.
        - intros j nx Hj [Hl' Hg']. rewrite (proj2 (Z.ltb_lt _ _)) by nia.
          destruct (zget_in old (k * oc + j)) as [x Hx]; [nia|]. rewrite Hx.
          cbn [mbind option_bind]. eapply safe_mono; [apply zset_ok; nia|].
          intros nx' [Hl2 Hg2]. split; [congruence|]. intros row col Hrow Hcol.
          rewrite Hg2. destruct (Z.eqb_spec (row * c + col) (k * c + j)) as [He|He].
          + apply cell_index_inj in He as [-> ->]; [|lia..].
            rewrite (proj2 (orb_true_iff _ _)) by lia. done.
          + rewrite Hg' by done. assert (~ (row = k /\ col = j)) by (intros [-> ->]; lia).
            repeat case_if; lia || done. }
      intros nx [Hl' Hg']. split; [done|]. intros row col Hrow Hcol. rewrite Hg' by done.
      repeat case_if; lia || done. }
  intros next [Hl Hg]. split; [done|]. intros row col Hrow Hcol. rewrite Hg by done.
  repeat case_if; lia || done.
Qed.

Lemma resize_cells_cell_ok old oc or c r next :
  Forall cell_ok old -> resize_cells old oc or c r = Some next -> Forall cell_ok next.
Proof.
  intros Hold. unfold resize_cells.
  assert (Hloop : forall (xs : list Z) body (s s' : list Cell),
    (forall x s s', Forall cell_ok s -> body x s = Some s' -> Forall cell_ok s') ->
    Forall cell_ok s -> for_each xs body s = Some s' -> Forall cell_ok s').
  { induction xs as [|x xs IH]; intros body s s' Hb Hs; cbn; [by intros [= <-]|].
    destruct (body x s) as [s1|] eqn:Hx; [|done]. cbn. apply IH; [done|]. by eapply Hb. }
  apply Hloop; [|apply Forall_replicate; by apply cell_ok_blank].
  intros k s s' Hs. apply Hloop; [|done]. clear -Hold. intros j s s' Hs.
  case_if; [|by intros [= <-]].
  destruct (zget old _) as [x|] eqn:Hx; [|done]. cbn. unfold zset. case_if; [|done].
  intros [= <-]. apply Forall_insert; [done|]. rewrite Forall_zget in Hold. by eapply Hold.
Qed.

Lemma clamp_saved_ok c r sc :
  saved_ok sc -> 1 <= c <= u16_max -> 1 <= r <= u16_max -> saved_ok (clamp_saved c r sc).
Proof.
  intros (? & ? & ? & ? & ?) ??. unfold saved_ok. cbn. split_and!; done || num.
Qed.

Lemma resize_safe c r s :
  wf s -> 0 <= c <= MAX_TAB_COLS -> u16 r ->
  safe (resize c r s) (fun res => wf res.2 /\ (is_ok res.1 = negb ((c =? 0) || (r =? 0))) /\
    (is_ok res.1 = true -> cols res.2 = c /\ rows res.2 = r)).
Proof.
  intros Hwf Hc Hr. unfold resize. destruct ((c =? 0) || (r =? 0)) eqn:Hz.
  { by apply safe_ret. }
  pose proof Hwf as [Hcols Hrows Hlen Hcells Hcc Hcr Hreg Hdmg Hd16 Hpal Hpen [Hsv Hal] Hgrid
    Hrep Hcnt Hclu Hsc].
  unfold MAX_TAB_COLS in *.
  destruct (resize_cells_ok (cells s) (cols s) (rows s) c r) as (next & Hn & Hnl & _); [num..|].
  rewrite Hn. cbn [mbind option_bind].
  apply safe_bind with (P := opt_ok (fun g => len g = c * r /\ Forall cell_ok g)).
  { destruct (saved_grid s) as [g|]; [|by apply safe_ret]. cbn in Hgrid. destruct Hgrid as [Hgl Hgf].
    destruct (resize_cells_ok g (cols s) (rows s) c r) as (g' & Hg & Hgl' & _); [num..|].
    rewrite Hg. apply safe_ret. cbn. split; [done|]. by eapply resize_cells_cell_ok. }
  intros g Hg. apply safe_ret. cbn [fst snd]. split_and!; [|done|done].
  pose proof (resize_cells_cell_ok _ _ _ _ _ _ Hcells Hn).
  split; cbn; auto; try (unfold MAX_TAB_COLS; num).
  split; [destruct (saved_cursor s)|destruct (alt_cursor s)]; cbn in *; try done;
    apply clamp_saved_ok; done || num.
Qed.

Lemma resolve_safe c is_fg s : color_ok c -> palette_ok (palette s) -> safe (resolve c is_fg s) rgb_ok.
Proof.
  intros Hc Hp. pose proof Hp as (_ & _ & Hf & Hb & _). destruct c as [|n|r g b]; cbn in *.
  - apply safe_ret. by destruct is_fg.
  - by apply indexed_ok.
  - apply safe_ret. done.
Qed.

Lemma pod_cell_safe s c : palette_ok (palette s) -> cell_ok c -> safe (pod_cell s c) (fun _ => True).
Proof.
  intros Hp (_ & Hf & Hb & _). unfold pod_cell.
  safe_step (resolve_safe (fg c) true s) as _; [done..|].
  safe_step (resolve_safe (bg c) false s) as _; [done..|]. by apply safe_ret.
Qed.

Lemma mapM_safe {A B} (f : A -> option B) (P : A -> Prop) l :
  (forall x, P x -> safe (f x) (fun _ => True)) -> Forall P l ->
  safe (mapM f l) (fun l' => len l' = len l /\ forall i, zget l' i = zget l i ≫= f).
Proof.
  intros Hf. induction 1 as [|x l Hx _ IH]; cbn.
  - apply safe_ret. split; [done|]. intros i. unfold zget. by case_if.
  - destruct (Hf x Hx) as (y & Hy & _). rewrite Hy. cbn.
    destruct IH as (l' & Hl & Hlen & Hg). rewrite Hl. cbn. apply safe_ret.
    split; [rewrite !len_cons; lia|]. intros i.
    change (y :: l') with ([y] ++ l'). change (x :: l) with ([x] ++ l). rewrite !zget_app.
    change (len [y]) with 1. change (len [x]) with 1. case_if; [|apply Hg].
    destruct (decide (i = 0)) as [->|]; [change (Some y = f x); by rewrite Hy|]. by rewrite !zget_out by (cbn; lia).
Qed.

Lemma wf_damage_reset s :
  wf s -> wf (s <| full_damage := false |> <| damage_row0 := 1 |> <| damage_row1 := 0 |>).
Proof. intros []; split; cbn; auto; num. Qed.

(** A snapshot shows every cell with its colours resolved, the damage since
    the last one, and clears it. *)
Lemma snapshot_safe s :
  wf s -> safe (snapshot s) (fun r =>
    r.2 = s <| full_damage := false |> <| damage_row0 := 1 |> <| damage_row1 := 0 |> /\
    wf r.2 /\ len (pg_cells r.1) = cols s * rows s /\
    pg_cols r.1 = cols s /\ pg_rows r.1 = rows s /\
    pg_full_damage r.1 = full_damage s /\
    pg_damage_row0 r.1 = damage_row0 s /\ pg_damage_row1 r.1 = damage_row1 s /\
    forall i, zget (pg_cells r.1) i = zget (cells s) i ≫= pod_cell s).
Proof.
  intros Hwf. unfold snapshot. pose proof Hwf as [].
  destruct (mapM_safe (pod_cell s) cell_ok (cells s)) as (cs & Hcs & Hl & Hg); [|done|].
  { intros. by apply pod_cell_safe. }
  rewrite Hcs. cbn [mbind option_bind]. apply safe_ret. cbn.
  split_and!; try done; [by apply wf_damage_reset|congruence].
Qed.

Lemma take_scrolled_off_safe s :
  wf s -> safe (take_scrolled_off s) (fun r => wf r.2 /\ scrolled_off r.2 = [] /\
    len r.1 = len (scrolled_off s)).
Proof.
  intros Hwf. unfold take_scrolled_off. pose proof Hwf as [].
  destruct (mapM_safe (mapM (pod_cell (s <| scrolled_off := [] |>))) (Forall cell_ok) (scrolled_off s))
    as (out & Ho & Hl & _); [|done|].
  { intros row Hrow. destruct (mapM_safe (pod_cell (s <| scrolled_off := [] |>)) cell_ok row)
      as (r & Hr & _); [|done|by exists r].
    intros. by apply pod_cell_safe. }
  rewrite Ho. cbn [mbind option_bind]. apply safe_ret. cbn. split_and!; try done.
Qed.
