(* ===== verification/ScreenSpec.v ===== *)
(** What the grid operations of screen.rs do, cell by cell: scrolling,
    inserting and deleting lines and cells, erasing, resizing, the alternate
    screen, replies. *)
From S2P Require Import Prelude VtTypes Utf8 Parser ParserFacts Width Screen Decimal ScreenFacts.

Local Open Scope Z_scope.

(** [s'] is [s] with the cells [f] gives, and nothing else changed. *)
Definition recelled (s s' : Screen) (f : Z -> Z -> option Cell) : Prop :=
  (exists cs, s' = s <| cells := cs |>) /\ len (cells s') = len (cells s) /\
  forall col row, 0 <= col < cols s -> 0 <= row < rows s -> cell_at s' col row = f col row.

Lemma recelled_refl s : recelled s s (cell_at s).
Proof. split; [exists (cells s); by destruct s|done]. Qed.

(** ** Moving rows *)

Lemma copy_row_spec src dst s :
  wf s -> 0 <= src < rows s -> 0 <= dst < rows s ->
  safe (copy_row src dst s) (fun s' => recelled s s' (fun col row =>
    if row =? dst then cell_at s col src else cell_at s col row)).
Proof.
  intros Hwf Hs Hd. pose proof (wf_len s Hwf). pose proof (wf_cols s Hwf).
  unfold copy_row. safe_step copy_within_ok as [Hl Hg]; [nia..|].
  apply safe_ret. split; [by eexists|]. split; [done|].
  intros col row Hc Hr. unfold cell_at, idx. cbn. rewrite Hg.
  destruct (Z.eqb_spec row dst) as [->|Hne].
  - rewrite (proj2 (andb_true_iff _ _)) by lia. f_equal. lia.
  - rewrite (proj2 (andb_false_iff _ _)); [done|]. nia.
Qed.

Lemma blank_row_spec r s :
  wf s -> 0 <= r < rows s ->
  safe (blank_row r s) (fun s' => recelled s s' (fun col row =>
    if row =? r then Some (blank (pen_bg s)) else cell_at s col row)).
Proof.
  intros Hwf Hr. pose proof (wf_len s Hwf). pose proof (wf_cols s Hwf).
  unfold blank_row. safe_step fill_range_ok as [Hl Hg]; [nia..|].
  apply safe_ret. split; [by eexists|]. split; [done|].
  intros col row Hc Hrow. unfold cell_at, idx. cbn. rewrite Hg.
  destruct (Z.eqb_spec row r) as [->|Hne].
  - by rewrite (proj2 (andb_true_iff _ _)) by lia.
  - rewrite (proj2 (andb_false_iff _ _)); [done|]. nia.
Qed.

(** A screen that differs from a well-formed one in its cells only. *)
Lemma recelled_frame s s' f : recelled s s' f ->
  cols s' = cols s /\ rows s' = rows s /\ len (cells s') = len (cells s) /\ pen_bg s' = pen_bg s /\
  cursor_row s' = cursor_row s /\ scroll_bottom s' = scroll_bottom s.
Proof. intros [[cs ->] [Hl _]]. done. Qed.

Lemma recelled_trans s s1 s2 f g :
  recelled s s1 f -> recelled s1 s2 g ->
  recelled s s2 g.
Proof.
  intros [[cs ->] [Hl _]] [[cs' ->] [Hl' Hg]]. cbn in *.
  split; [by exists cs'|]. split; [by rewrite <- Hl|]. done.
Qed.

Lemma recelled_ext s s' f g :
  recelled s s' f ->
  (forall col row, 0 <= col < cols s -> 0 <= row < rows s -> f col row = g col row) ->
  recelled s s' g.
Proof. intros [? [? Hf]] He. split; [done|]. split; [done|]. intros. rewrite Hf by done. auto. Qed.

(** The invariant of the row loops: well formed, and the cells known. *)
Definition recells (s : Screen) (f : Z -> Z -> option Cell) (s' : Screen) : Prop :=
  wf s' /\ recelled s s' f.

Lemma copy_row_wf src dst s :
  wf s -> 0 <= src < rows s -> 0 <= dst < rows s -> safe (copy_row src dst s) wf.
Proof.
  intros Hwf Hs Hd. eapply safe_mono; [by apply copy_row_edits|]. intros. by eapply edits_wf.
Qed.

Lemma blank_row_wf r s : wf s -> 0 <= r < rows s -> safe (blank_row r s) wf.
Proof.
  intros Hwf Hr. eapply safe_mono; [by apply blank_row_edits|]. intros. by eapply edits_wf.
Qed.

(** One row copied in the middle of a loop. *)
Lemma copy_row_recells src dst s s1 f :
  recells s f s1 -> 0 <= src < rows s -> 0 <= dst < rows s ->
  safe (copy_row src dst s1) (recells s (fun col row =>
    if row =? dst then f col src else f col row)).
Proof.
  intros [Hwf Hre] Hs Hd. pose proof (recelled_frame _ _ _ Hre) as (Hc & Hr & _).
  destruct (copy_row_wf src dst s1) as (s2 & H2 & Hwf2); [done|lia..|].
  exists s2. split; [done|]. split; [done|].
  destruct (copy_row_spec src dst s1) as (s2' & H2' & Hre2); [done|lia..|].
  rewrite H2 in H2'. injection H2' as <-.
  destruct Hre as [[cs ->] [Hl Hf]]. destruct Hre2 as [[cs' ->] [Hl' Hf']]. cbn in *.
  split; [by exists cs'|]. split; [by rewrite <- Hl|]. intros col row Hcol Hrow.
  rewrite Hf' by done. case_if; by apply Hf.
Qed.

Lemma blank_row_recells r s s1 f :
  recells s f s1 -> 0 <= r < rows s ->
  safe (blank_row r s1) (recells s (fun col row =>
    if row =? r then Some (blank (pen_bg s)) else f col row)).
Proof.
  intros [Hwf Hre] Hr. pose proof (recelled_frame _ _ _ Hre) as (Hc & Hr1 & _ & Hp & _).
  destruct (blank_row_wf r s1) as (s2 & H2 & Hwf2); [done|lia|].
  exists s2. split; [done|]. split; [done|].
  destruct (blank_row_spec r s1) as (s2' & H2' & Hre2); [done|lia|].
  rewrite H2 in H2'. injection H2' as <-.
  destruct Hre as [[cs ->] [Hl Hf]]. destruct Hre2 as [[cs' ->] [Hl' Hf']]. cbn in *.
  split; [by exists cs'|]. split; [by rewrite <- Hl|]. intros col row Hcol Hrow.
  rewrite Hf' by done. case_if; [done|by apply Hf].
Qed.

Lemma recells_ext s f g s' :
  recells s f s' ->
  (forall col row, 0 <= col < cols s -> 0 <= row < rows s -> f col row = g col row) ->
  recells s g s'.
Proof. intros [? ?] ?. split; [done|]. by eapply recelled_ext. Qed.

Lemma recells_refl s : wf s -> recells s (cell_at s) s.
Proof. split; [done|apply recelled_refl]. Qed.

(** Rows move up by [k]: row [r + k] over row [r], for [r] from [a] to [b - 1]. *)
Lemma move_up_spec a b k s :
  wf s -> 0 <= a <= b -> 0 <= k -> b + k <= rows s ->
  safe (for_each (range a b) (fun r s => copy_row (r + k) r s) s)
    (recells s (fun col row =>
       if (a <=? row) && (row <? b) then cell_at s col (row + k) else cell_at s col row)).
Proof.
  intros Hwf Hab Hk Hb.
  eapply safe_mono.
  { apply (for_range _ (fun i => recells s (fun col row =>
      if (a <=? row) && (row <? i) then cell_at s col (row + k) else cell_at s col row))); [lia| |].
    - eapply recells_ext; [by apply recells_refl|]. intros. case_if; [lia|done].
    - intros i s1 Hi Hre. eapply safe_mono; [eapply copy_row_recells; [exact Hre|lia..]|].
      intros s2 H2. eapply recells_ext; [exact H2|]. intros col row _ _. cbn beta.
      destruct (Z.eqb_spec row i) as [->|].
      + repeat case_if; lia || done.
      + repeat case_if; lia || done. }
  done.
Qed.

(** Rows move down by [k]: row [r] over row [r + k], for [r] from [b - 1] down
    to [a]. *)
Lemma move_down_spec a b k s :
  wf s -> 0 <= a <= b -> 0 <= k -> b + k <= rows s ->
  safe (for_each (reverse (range a b)) (fun r s => copy_row r (r + k) s) s)
    (recells s (fun col row =>
       if (a + k <=? row) && (row <? b + k) then cell_at s col (row - k) else cell_at s col row)).
Proof.
  intros Hwf Hab Hk Hb.
  eapply safe_mono.
  { apply (for_range_rev _ (fun i => recells s (fun col row =>
      if (i + k <=? row) && (row <? b + k) then cell_at s col (row - k) else cell_at s col row))); [lia| |].
    - eapply recells_ext; [by apply recells_refl|]. intros. case_if; [lia|done].
    - intros i s1 Hi Hre. eapply safe_mono; [eapply copy_row_recells; [exact Hre|lia..]|].
      intros s2 H2. eapply recells_ext; [exact H2|]. intros col row _ _. cbn beta.
      destruct (Z.eqb_spec row (i + k)) as [->|].
      + repeat case_if; try lia; f_equal; lia.
      + repeat case_if; lia || done. }
  done.
Qed.

Lemma blank_rows_spec a b s s1 f :
  recells s f s1 -> 0 <= a <= b -> b <= rows s ->
  safe (for_each (range a b) blank_row s1)
    (recells s (fun col row =>
       if (a <=? row) && (row <? b) then Some (blank (pen_bg s)) else f col row)).
Proof.
  intros Hre Hab Hb.
  eapply safe_mono.
  { apply (for_range _ (fun i => recells s (fun col row =>
      if (a <=? row) && (row <? i) then Some (blank (pen_bg s)) else f col row))); [lia| |].
    - eapply recells_ext; [exact Hre|]. intros. case_if; [lia|done].
    - intros i s2 Hi H2. eapply safe_mono; [eapply blank_row_recells; [exact H2|lia]|].
      intros s3 H3. eapply recells_ext; [exact H3|]. intros col row _ _. cbn beta.
      repeat case_if; lia || done. }
  done.
Qed.

(** ** Scrolling *)







(** ** Inserting and deleting lines *)

(** The lines an insertion or deletion of [n] moves. *)
Definition moved (n : Z) (s : Screen) : Z := Z.min n (scroll_bottom s - cursor_row s + 1).

Definition in_region (s : Screen) : bool :=
  (scroll_top s <=? cursor_row s) && (cursor_row s <=? scroll_bottom s).

Definition lines_inserted (n : Z) (s : Screen) (col row : Z) : option Cell :=
  let m := moved n s in
  if (cursor_row s <=? row) && (row <? cursor_row s + m) then Some (blank (pen_bg s))
  else if (cursor_row s + m <=? row) && (row <=? scroll_bottom s) then cell_at s col (row - m)
  else cell_at s col row.

Definition lines_deleted (n : Z) (s : Screen) (col row : Z) : option Cell :=
  let m := moved n s in
  if (scroll_bottom s - m <? row) && (row <=? scroll_bottom s) then Some (blank (pen_bg s))
  else if (cursor_row s <=? row) && (row <=? scroll_bottom s) then cell_at s col (row + m)
  else cell_at s col row.

(** [s'] has the cells [f] gives and differs from [s] in cells and damage only. *)
Definition repainted (s s' : Screen) (f : Z -> Z -> option Cell) : Prop :=
  (exists cs a b, s' = s <| cells := cs |> <| damage_row0 := a |> <| damage_row1 := b |>) /\
  forall col row, 0 <= col < cols s -> 0 <= row < rows s -> cell_at s' col row = f col row.

Lemma dirty_to_bottom_repainted s s1 f :
  wf s -> recells s f s1 -> repainted s (dirty_to_bottom s1) f.
Proof.
  intros Hwf [Hwf1 Hre]. pose proof (recelled_frame _ _ _ Hre) as (Hc & Hr & _ & _ & Hcr & Hsb).
  unfold dirty_to_bottom.
  destruct (dirty_all_marks (cursor_row s1) (scroll_bottom s1) s1) as [(a & b & He) _].
  { pose proof (wf_cursor_row _ Hwf1). lia. }
  { apply (wf_region _ Hwf1). }
  { apply (wf_rows _ Hwf1). }
  rewrite He. destruct Hre as [[cs ->] [_ Hf]]. split; [by exists cs, a, b|].
  intros col row Hcol Hrow. by apply Hf.
Qed.

Lemma repainted_refl s : repainted s s (cell_at s).
Proof. split; [exists (cells s), (damage_row0 s), (damage_row1 s); by destruct s|done]. Qed.

Lemma insert_lines_eq n s :
  wf s -> 0 <= n ->
  safe (insert_lines n s) (fun s' => repainted s s' (fun col row =>
    if in_region s then lines_inserted n s col row else cell_at s col row)).
Proof.
  intros Hwf Hn. pose proof Hwf as [_ Hrows _ _ _ Hcr [Ht Hb] _ _ _ _ _ _ _ _ _ _].
  unfold insert_lines, in_region. apply safe_if; intros Hin.
  { apply safe_ret. rewrite (proj2 (andb_false_iff _ _)) by lia. apply repainted_refl. }
  rewrite (proj2 (andb_true_iff _ _)) by lia.
  rewrite line_count_eq by (done || lia). cbn [mbind option_bind]. fold (moved n s).
  unfold lines_inserted. cbn zeta.
  assert (Hm : 0 <= moved n s <= scroll_bottom s - cursor_row s + 1) by (unfold moved; lia).
  destruct (moved n s =? 0) eqn:Hz.
  { apply safe_ret. destruct (repainted_refl s) as [He _]. split; [done|]. intros.
    replace (moved n s) with 0 by lia. repeat case_if; try lia; [|done]. f_equal. lia. }
  generalize dependent (moved n s). intros m Hm Hz.
  eapply safe_bind with (P := recells s (fun col row =>
    if (cursor_row s + m <=? row) && (row <=? scroll_bottom s) then cell_at s col (row - m)
    else cell_at s col row)).
  { apply safe_if; intros Hl.
    - unfold chk_sub. rewrite (proj2 (Z.leb_le _ _)) by lia. cbn [mbind option_bind].
      rewrite range_incl_range.
      eapply safe_mono; [apply (move_down_spec (cursor_row s) (scroll_bottom s - m + 1) m); done || lia|].
      intros s1 H1. eapply recells_ext; [exact H1|]. intros. cbn beta. repeat case_if; lia || done.
    - apply safe_ret. eapply recells_ext; [by apply recells_refl|]. intros. case_if; [lia|done]. }
  intros s1 H1.
  eapply safe_bind; [eapply blank_rows_spec; [exact H1|lia|lia]|].
  intros s2 H2. apply safe_ret. apply dirty_to_bottom_repainted; [done|].
  eapply recells_ext; [exact H2|]. intros. cbn beta. repeat case_if; lia || done.
Qed.

Lemma delete_lines_eq n s :
  wf s -> 0 <= n ->
  safe (delete_lines n s) (fun s' => repainted s s' (fun col row =>
    if in_region s then lines_deleted n s col row else cell_at s col row)).
Proof.
  intros Hwf Hn. pose proof Hwf as [_ Hrows _ _ _ Hcr [Ht Hb] _ _ _ _ _ _ _ _ _ _].
  unfold delete_lines, in_region. apply safe_if; intros Hin.
  { apply safe_ret. rewrite (proj2 (andb_false_iff _ _)) by lia. apply repainted_refl. }
  rewrite (proj2 (andb_true_iff _ _)) by lia.
  rewrite line_count_eq by (done || lia). cbn [mbind option_bind]. fold (moved n s).
  unfold lines_deleted. cbn zeta.
  assert (Hm : 0 <= moved n s <= scroll_bottom s - cursor_row s + 1) by (unfold moved; lia).
  destruct (moved n s =? 0) eqn:Hz.
  { apply safe_ret. destruct (repainted_refl s) as [He _]. split; [done|]. intros.
    replace (moved n s) with 0 by lia. repeat case_if; try lia; [|done]. f_equal. lia. }
  generalize dependent (moved n s). intros m Hm Hz.
  eapply safe_bind with (P := recells s (fun col row =>
    if (cursor_row s <=? row) && (row <=? scroll_bottom s - m) then cell_at s col (row + m)
    else cell_at s col row)).
  { apply safe_if; intros Hl.
    - unfold chk_sub. rewrite (proj2 (Z.leb_le _ _)) by lia. cbn [mbind option_bind].
      rewrite range_incl_range.
      eapply safe_mono; [apply (move_up_spec (cursor_row s) (scroll_bottom s - m + 1) m); done || lia|].
      intros s1 H1. eapply recells_ext; [exact H1|]. intros. cbn beta. repeat case_if; lia || done.
    - apply safe_ret. eapply recells_ext; [by apply recells_refl|]. intros. case_if; [lia|done]. }
  intros s1 H1. unfold chk_sub. rewrite (proj2 (Z.leb_le _ _)) by lia. cbn [mbind option_bind].
  rewrite range_incl_range.
  eapply safe_bind; [eapply blank_rows_spec; [exact H1|lia|lia]|].
  intros s2 H2. apply safe_ret. apply dirty_to_bottom_repainted; [done|].
  eapply recells_ext; [exact H2|]. intros. cbn beta. repeat case_if; lia || done.
Qed.

(** ** Erasing *)

(** Half of a wide character. *)
Definition wide_half (c : Cell) : bool :=
  has_attr (attrs c) ATTR_WIDE_LEAD || has_attr (attrs c) ATTR_WIDE_TAIL.

(** A cell is kept, or was half of a wide character and is blanked. *)
Definition kept_or_smashed (s : Screen) (i : Z) (o : option Cell) : Prop :=
  o = zget (cells s) i \/
  (o = Some (blank (pen_bg s)) /\ exists x, zget (cells s) i = Some x /\ wide_half x = true).

(** [s'] is [s] with some halves of wide characters blanked. *)
Definition smashed (s s' : Screen) : Prop :=
  (exists cs, s' = s <| cells := cs |>) /\ len (cells s') = len (cells s) /\
  forall i, kept_or_smashed s i (zget (cells s') i).

Lemma smashed_refl s : smashed s s.
Proof. split; [exists (cells s); by destruct s|]. split; [done|]. by left. Qed.

Lemma smashed_trans s1 s2 s3 : smashed s1 s2 -> smashed s2 s3 -> smashed s1 s3.
Proof.
  intros [[cs ->] [Hl Hk]] [[cs' ->] [Hl' Hk']]. cbn in *.
  split; [by exists cs'|]. split; [by rewrite <- Hl|]. intros i. cbn.
  destruct (Hk' i) as [H'|[H' (x & Hx & Hw)]]; cbn in *; rewrite H'; [exact (Hk i)|].
  destruct (Hk i) as [H|[H _]]; cbn in *; rewrite Hx in H.
  - right. split; [done|]. eauto.
  - injection H as ->. discriminate Hw.
Qed.

Lemma blank_if_smashed j bit s s' :
  bit = ATTR_WIDE_LEAD \/ bit = ATTR_WIDE_TAIL ->
  blank_if j bit s = Some s' -> smashed s s'.
Proof.
  intros Hbit. unfold blank_if. destruct (zget (cells s) j) as [x|] eqn:Hx; [|done].
  cbn [mbind option_bind]. case_if; [|by intros [= <-]; apply smashed_refl].
  pose proof (zget_Some _ _ _ Hx). destruct (zset_ok (cells s) j (blank (pen_bg s))) as (cs & -> & Hl & Hg); [done|].
  cbn. intros [= <-]. split; [by eexists|]. split; [done|]. intros i. cbn. rewrite Hg.
  destruct (Z.eqb_spec i j) as [->|]; [right|by left]. split; [done|]. exists x. split; [done|].
  unfold wide_half. destruct Hbit as [->| ->]; rewrite Heqb; [done|apply orb_true_r].
Qed.

Lemma smash_wide_at_smashed col row s s' : smash_wide_at col row s = Some s' -> smashed s s'.
Proof.
  unfold smash_wide_at. case_if; [by intros [= <-]; apply smashed_refl|].
  intros H. apply bind_Some in H as (x & _ & H). apply bind_Some in H as (s1 & H1 & H).
  eapply smashed_trans with (s2 := s1).
  - case_if_in H1; [|by injection H1 as <-; apply smashed_refl].
    apply bind_Some in H1 as (next & _ & H1). case_if_in H1; [|by injection H1 as <-; apply smashed_refl].
    eapply blank_if_smashed; [|exact H1]. by right.
  - case_if_in H; [|by injection H as <-; apply smashed_refl].
    apply bind_Some in H as (prev & _ & H). eapply blank_if_smashed; [|exact H]. by left.
Qed.

Lemma for_each_smashed (xs : list Z) f g s s' :
  for_each xs (fun i s => smash_wide_at (f i) (g i) s) s = Some s' -> smashed s s'.
Proof.
  revert s. induction xs as [|x xs IH]; intros s; cbn; [intros [= <-]; apply smashed_refl|].
  intros H. apply bind_Some in H as (s1 & H1 & H).
  eapply smashed_trans; [by eapply smash_wide_at_smashed|by apply IH].
Qed.

(** Erasing a span blanks its cells; outside it at most the other half of a
    wide character is blanked. *)
Lemma erase_span_eq from to s :
  wf s -> 0 <= from -> 0 <= to ->
  safe (erase_span from to s) (fun s' =>
    (exists cs a b, s' = s <| cells := cs |> <| damage_row0 := a |> <| damage_row1 := b |>) /\
    forall i, 0 <= i < len (cells s) ->
      if (from <=? i) && (i <? to) then zget (cells s') i = Some (blank (pen_bg s))
      else kept_or_smashed s i (zget (cells s') i)).
Proof.
  intros Hwf Hfrom Hto. destruct (erase_span_good from to s Hwf Hfrom Hto) as (s' & Hs' & _).
  exists s'. split; [done|]. unfold erase_span in Hs'. pose proof (len_nonneg (cells s)) as Hlen0.
  set (to' := Z.min to (len (cells s))) in *. set (from' := Z.min from to') in *.
  apply bind_Some in Hs' as (s1 & H1 & Hs'). apply for_each_smashed in H1.
  destruct H1 as [[c1 ->] [Hl1 Hk1]]. cbn in Hl1, Hk1.
  destruct (fill_range_ok c1 from' to' (blank (pen_bg s))) as (cs & Hcs & Hl & Hg); [lia|lia|].
  change (fill_range (cells (s <| cells := c1 |>)) from' to' (blank (pen_bg (s <| cells := c1 |>))))
    with (fill_range c1 from' to' (blank (pen_bg s))) in Hs'.
  rewrite Hcs in Hs'. cbn [mbind option_bind] in Hs'.
  assert (Hcells : forall i, 0 <= i < len (cells s) ->
    if (from <=? i) && (i <? to) then zget cs i = Some (blank (pen_bg s))
    else kept_or_smashed s i (zget cs i)).
  { intros i Hi. rewrite Hg. destruct ((from <=? i) && (i <? to)) eqn:Hin.
    - by rewrite (proj2 (andb_true_iff _ _)) by lia.
    - rewrite (proj2 (andb_false_iff _ _)) by lia. apply Hk1. }
  case_if_in Hs'.
  - injection Hs' as <-. set (s2 := s <| cells := cs |>).
    set (r0 := as_u16 (from' / _)). set (r1 := as_u16 ((to' - 1) / _)).
    assert (Hd : forall rs s2, exists a b, fold_left (fun s r => dirty r s) rs s2
      = s2 <| damage_row0 := a |> <| damage_row1 := b |>).
    { clear. induction rs as [|r rs IH]; intros s2; cbn.
      - exists (damage_row0 s2), (damage_row1 s2). by destruct s2.
      - destruct (IH (dirty r s2)) as (a & b & ->). exists a, b.
        unfold dirty. repeat case_if; done. }
    destruct (Hd (range_incl r0 r1) s2) as (a & b & He).
    change (s <| cells := c1 |> <| cells := cs |>) with s2. rewrite He.
    split; [by exists cs, a, b|]. exact Hcells.
  - injection Hs' as <-. split; [exists cs, (damage_row0 s), (damage_row1 s); by destruct s|exact Hcells].
Qed.

(** ** Inserting cells *)

Definition moved_cells (n : Z) (s : Screen) : Z := Z.min n (cols s - cursor_col s).

Definition cells_inserted (n : Z) (s : Screen) (col row : Z) : option Cell :=
  let m := moved_cells n s in
  if negb (row =? cursor_row s) || (col <? cursor_col s) then cell_at s col row
  else if col <? cursor_col s + m then Some (blank (pen_bg s))
  else cell_at s (col - m) row.

Lemma insert_cells_eq n s :
  wf s -> 0 <= n ->
  safe (insert_cells n s) (fun s' => repainted s s' (cells_inserted n s)).
Proof.
  intros Hwf Hn. pose proof Hwf as [Hcols Hrows Hlen _ Hcc Hcr _ _ _ _ _ _ _ _ _ _ _].
  unfold insert_cells. replace (sat_sub (cols s) (cursor_col s)) with (cols s - cursor_col s) by num.
  fold (moved_cells n s). unfold cells_inserted. cbn zeta.
  assert (Hm : 0 <= moved_cells n s <= cols s - cursor_col s) by (unfold moved_cells; lia).
  generalize dependent (moved_cells n s). intros m Hm.
  destruct (m =? 0) eqn:Hz.
  { apply safe_ret. destruct (repainted_refl s) as [He _]. split; [done|]. intros.
    replace m with 0 by lia. repeat case_if; try lia; [done|]. by rewrite Z.sub_0_r. }
  unfold idx, chk_sub. rewrite (proj2 (Z.leb_le _ _)) by nia. cbn [mbind option_bind].
  set (base := cursor_row s * cols s + 0).
  assert (Hrow : forall row, 0 <= row < rows s -> row <> cursor_row s ->
    row * cols s + cols s <= base \/ base + cols s <= row * cols s) by (intros; subst base; nia).
  eapply safe_bind with (P := fun cs => len cs = len (cells s) /\
    forall i, zget cs i = if (base + cursor_col s + m <=? i) && (i <? base + cols s)
                          then zget (cells s) (i - m) else zget (cells s) i).
  { apply safe_if; intros Hs.
    - eapply safe_mono; [apply copy_within_ok; subst base; nia|].
      intros cs [Hl Hg]. split; [done|]. intros i. rewrite Hg.
      repeat case_if; try lia; [|done]. f_equal. lia.
    - apply safe_ret. split; [done|]. intros i. case_if; [lia|done]. }
  intros cs [Hl Hg].
  safe_step fill_range_ok as [Hl' Hg']; [subst base; nia..|].
  rename a into cs'. apply safe_ret.
  destruct (dirty_marks (cursor_row s) (s <| cells := cs' |>)) as [(a & b & He) _]; [done|cbn; lia|].
  rewrite He. split; [by exists cs', a, b|]. intros col row Hcol Hr.
  change (zget cs' (idx col row s) = if negb (row =? cursor_row s) || (col <? cursor_col s)
    then cell_at s col row else if col <? cursor_col s + m then Some (blank (pen_bg s))
    else cell_at s (col - m) row).
  unfold cell_at, idx. rewrite Hg', Hg. destruct (Z.eqb_spec row (cursor_row s)) as [->|Hne]; cbn [negb orb].
  - subst base. repeat case_if; try lia; f_equal; lia.
  - specialize (Hrow row Hr Hne). repeat case_if; lia || done.
Qed.

(** ** The alternate screen *)

(** Entering the alternate screen and leaving it gives the primary screen's
    cells, cursor and pen back, whatever happened to the grid, the cursor and
    the pen in between. *)
Lemma alt_roundtrip_eq s s' :
  wf s -> in_alt s = false ->
  saved_grid s' = saved_grid (enter_alt true true s) ->
  alt_cursor s' = alt_cursor (enter_alt true true s) ->
  in_alt s' = true -> cols s' = cols s -> rows s' = rows s ->
  let r := leave_alt true s' in
  cells r = cells s /\ cursor_col r = cursor_col s /\ cursor_row r = cursor_row s /\
  pending_wrap r = pending_wrap s /\ pen_fg r = pen_fg s /\ pen_bg r = pen_bg s /\
  pen_attrs r = pen_attrs s /\ in_alt r = false /\ saved_grid r = None.
Proof.
  intros Hwf Hin Hg Hc Halt Hcols Hrows. cbn zeta. pose proof Hwf as [].
  unfold enter_alt in Hg, Hc. rewrite Hin in Hg, Hc. cbn in Hg, Hc.
  unfold leave_alt. rewrite Halt, Hg. cbn.
  change (alt_cursor (s' <| saved_grid := None |> <| cells := cells s |>)) with (alt_cursor s').
  rewrite Hc. unfold restore_cursor, last_col, last_row. cbn. rewrite Hcols, Hrows.
  split_and!; try done; num.
Qed.

(** ** The properties of the grid operations *)


(** A 4x3 screen for the witnesses. *)
Definition demo_screen : Screen :=
  match new 4 3 with Ok s => s | Err _ => mkScreen 0 0 [] 0 0 false false false
    false 0 0 0 0 vt_default Default Default 0 None None None false [] 0 false None 0
    false false false false false false false false [] end.

Lemma demo_screen_wf : wf demo_screen.
Proof. apply (new_wf 4 3); [split; discriminate|split; discriminate|reflexivity]. Qed.


(** IL and DL: with the cursor inside the scroll region, inserting [n]
    lines pushes the rows from the cursor to the bottom margin down by
    [min n (rows left)] and blanks the rows opened up; deleting pulls them up
    and blanks the bottom rows.  With the cursor outside the region nothing
    changes.  Rows outside the block, the cursor, the pen and the modes are
    untouched; only cells and damage change. *)
Theorem line_edits_exact (n : Z) (s : Screen) :
  wf s -> 0 <= n ->
  safe (insert_lines n s) (fun s' => repainted s s' (fun col row =>
    if in_region s then lines_inserted n s col row else cell_at s col row)) /\
  safe (delete_lines n s) (fun s' => repainted s s' (fun col row =>
    if in_region s then lines_deleted n s col row else cell_at s col row)).
Proof. intros Hwf Hn. split; [by apply insert_lines_eq|by apply delete_lines_eq]. Qed.

Lemma line_edits_exact_witness :
  wf demo_screen /\ 0 <= 2 /\
  (safe (insert_lines 2 demo_screen) (fun s' => repainted demo_screen s' (fun col row =>
    if in_region demo_screen then lines_inserted 2 demo_screen col row
    else cell_at demo_screen col row)) /\
  safe (delete_lines 2 demo_screen) (fun s' => repainted demo_screen s' (fun col row =>
    if in_region demo_screen then lines_deleted 2 demo_screen col row
    else cell_at demo_screen col row))).
Proof.
  split; [exact demo_screen_wf|]. split; [discriminate|].
  apply (line_edits_exact 2 demo_screen demo_screen_wf). discriminate.
Defined.

(** ICH: inserting [n] cells at the cursor shifts the rest of the
    cursor's row right by [min n (columns left)], drops what leaves the row,
    blanks the cells opened up, and touches no other row. *)
Theorem insert_cells_exact (n : Z) (s : Screen) :
  wf s -> 0 <= n -> safe (insert_cells n s) (fun s' => repainted s s' (cells_inserted n s)).
Proof. apply insert_cells_eq. Qed.

Lemma insert_cells_exact_witness :
  wf demo_screen /\ 0 <= 9 /\
  safe (insert_cells 9 demo_screen) (fun s' => repainted demo_screen s' (cells_inserted 9 demo_screen)).
Proof.
  split; [exact demo_screen_wf|]. split; [discriminate|].
  apply (insert_cells_exact 9 demo_screen demo_screen_wf). discriminate.
Defined.

(** Erasing ([erase_span], under ED, EL and ECH) blanks every cell of the
    span with the pen's background; a cell outside it is unchanged unless it
    was half of a wide character, which may be blanked; nothing but cells and
    damage changes. *)
Theorem erase_span_exact (from to : Z) (s : Screen) :
  wf s -> 0 <= from -> 0 <= to ->
  safe (erase_span from to s) (fun s' =>
    (exists cs a b, s' = s <| cells := cs |> <| damage_row0 := a |> <| damage_row1 := b |>) /\
    forall i, 0 <= i < len (cells s) ->
      if (from <=? i) && (i <? to) then zget (cells s') i = Some (blank (pen_bg s))
      else kept_or_smashed s i (zget (cells s') i)).
Proof. apply erase_span_eq. Qed.

Lemma erase_span_exact_witness :
  wf demo_screen /\ 0 <= 2 /\ 0 <= 7 /\
  safe (erase_span 2 7 demo_screen) (fun s' =>
    (exists cs a b, s' = demo_screen <| cells := cs |> <| damage_row0 := a |> <| damage_row1 := b |>) /\
    forall i, 0 <= i < len (cells demo_screen) ->
      if (2 <=? i) && (i <? 7) then zget (cells s') i = Some (blank (pen_bg demo_screen))
      else kept_or_smashed demo_screen i (zget (cells s') i)).
Proof.
  split; [exact demo_screen_wf|]. do 2 (split; [discriminate|]).
  apply (erase_span_exact 2 7 demo_screen demo_screen_wf); discriminate.
Defined.

(** Resizing keeps the rectangle common to the old and the new size, cell
    by cell, and blanks the rest. *)
Theorem resize_keeps_rectangle (c r : Z) (s s' : Screen) :
  wf s -> 1 <= c <= MAX_TAB_COLS -> 1 <= r <= u16_max ->
  resize c r s = Some (Ok (), s') ->
  cols s' = c /\ rows s' = r /\
  forall row col, 0 <= row < r -> 0 <= col < c ->
    cell_at s' col row =
      if (row <? rows s) && (col <? cols s) then cell_at s col row else Some (blank Default).
Proof.
  intros Hwf Hc Hr H. pose proof Hwf as []. unfold MAX_TAB_COLS in *. unfold resize in H.
  rewrite (proj2 (orb_false_iff _ _)) in H by lia.
  destruct (resize_cells_ok (cells s) (cols s) (rows s) c r) as (next & Hn & Hl & Hg); [lia..|].
  rewrite Hn in H. cbn [mbind option_bind] in H.
  apply bind_Some in H as (grid & _ & H). injection H as <-. split; [done|]. split; [done|].
  intros row col Hrow Hcol. unfold cell_at, idx. cbn. by apply Hg.
Qed.

Definition resized_demo : Screen :=
  match resize 2 5 demo_screen with Some (_, s) => s | None => demo_screen end.

Lemma resize_keeps_rectangle_witness :
  wf demo_screen /\ resize 2 5 demo_screen = Some (Ok (), resized_demo) /\
  cols resized_demo = 2 /\ rows resized_demo = 5 /\
  forall row col, 0 <= row < 5 -> 0 <= col < 2 ->
    cell_at resized_demo col row =
      if (row <? rows demo_screen) && (col <? cols demo_screen)
      then cell_at demo_screen col row else Some (blank Default).
Proof.
  split; [exact demo_screen_wf|]. split; [vm_compute; reflexivity|].
  apply (resize_keeps_rectangle 2 5 demo_screen resized_demo demo_screen_wf);
    [split; discriminate|split; discriminate|vm_compute; reflexivity].
Defined.

(** A cursor position report is exact: DSR 6 enqueues ESC [ row ; column R
    with the 1-based cursor in decimal, which reads back as those numbers, or,
    if the report would take the replies past 1024 bytes or replies are being
    discarded, counts it as dropped and enqueues nothing. *)
Theorem cursor_report_exact (s : Screen) :
  wf s ->
  csi_dispatch [6] (ch "n") s
    = Some (enqueue_reply (cursor_report (cursor_row s + 1) (cursor_col s + 1)) s) /\
  dec_val (decimal (cursor_row s + 1)) = cursor_row s + 1 /\
  dec_val (decimal (cursor_col s + 1)) = cursor_col s + 1 /\
  (discard_replies s = false ->
   len (replies s) + len (cursor_report (cursor_row s + 1) (cursor_col s + 1)) <= REPLY_CAP ->
   replies (enqueue_reply (cursor_report (cursor_row s + 1) (cursor_col s + 1)) s)
     = replies s ++ cursor_report (cursor_row s + 1) (cursor_col s + 1)).
Proof.
  intros Hwf. pose proof Hwf as []. unfold MAX_TAB_COLS in *. split_and!.
  - change (csi_dispatch [6] (ch "n") s) with (reply_dsr_cursor s). by apply reply_dsr_cursor_eq.
  - apply dec_val_decimal. num.
  - apply dec_val_decimal. num.
  - intros Hd Hl. unfold enqueue_reply. rewrite Hd. by rewrite (proj2 (Z.ltb_ge _ _)) by lia.
Qed.

Lemma cursor_report_exact_witness :
  wf demo_screen /\
  (csi_dispatch [6] (ch "n") demo_screen
    = Some (enqueue_reply (cursor_report (cursor_row demo_screen + 1) (cursor_col demo_screen + 1)) demo_screen) /\
  dec_val (decimal (cursor_row demo_screen + 1)) = cursor_row demo_screen + 1 /\
  dec_val (decimal (cursor_col demo_screen + 1)) = cursor_col demo_screen + 1 /\
  (discard_replies demo_screen = false ->
   len (replies demo_screen)
     + len (cursor_report (cursor_row demo_screen + 1) (cursor_col demo_screen + 1)) <= REPLY_CAP ->
   replies (enqueue_reply (cursor_report (cursor_row demo_screen + 1) (cursor_col demo_screen + 1)) demo_screen)
     = replies demo_screen ++ cursor_report (cursor_row demo_screen + 1) (cursor_col demo_screen + 1))).
Proof. split; [exact demo_screen_wf|]. apply (cursor_report_exact demo_screen demo_screen_wf). Defined.
