(* ===== verification/Repaint.v ===== *)
(** The repaint encoder of crates/vt-engine/src/screen.rs: the visible grid as
    terminal bytes. *)
From S2P Require Import Prelude VtTypes Utf8 Parser Width Screen Decimal.

Local Open Scope Z_scope.

Definition cell_is_blank (c : Cell) : bool :=
  (codepoint c =? 32) && (attrs c =? 0)
  && bool_decide (fg c = Default) && bool_decide (bg c = Default).

(** [char::from_u32] is [None] for surrogates and out-of-range values. *)
Definition push_codepoint (out : list Z) (cp : Z) : list Z :=
  match char_from_u32 cp with
  | Some c => out ++ encode_utf8 c
  | None => out
  end.

Definition push_u16 (out : list Z) (n : Z) : option (list Z) :=
  '(buf, k) ← write_u16 (zeros 5) n;
  ds ← slice buf 0 k;
  Some (out ++ ds).

Definition emit_attrs (out : list Z) (a : Z) : list Z :=
  let out := if has_attr a 1 then out ++ elit "[1m" else out in
  let out := if has_attr a 2 then out ++ elit "[4m" else out in
  if has_attr a 4 then out ++ elit "[7m" else out.

Definition emit_color (out : list Z) (is_fg : bool) (color : Color) : option (list Z) :=
  match color with
  | Default => Some out
  | Indexed n =>
      if n <? 8 then
        k ← chk_add u16_max (if is_fg then 30 else 40) n;
        out ← push_u16 (out ++ elit "[") k;
        Some (out ++ lit "m")
      else if n <? 16 then
        k ← chk_add u16_max (if is_fg then 90 else 100) (sat_sub n 8);
        out ← push_u16 (out ++ elit "[") k;
        Some (out ++ lit "m")
      else
        out ← push_u16 (out ++ (if is_fg then elit "[38;5;" else elit "[48;5;")) n;
        Some (out ++ lit "m")
  | RgbColor r g b =>
      out ← push_u16 (out ++ (if is_fg then elit "[38;2;" else elit "[48;2;")) r;
      out ← push_u16 (out ++ lit ";") g;
      out ← push_u16 (out ++ lit ";") b;
      Some (out ++ lit "m")
  end.

(** The locals of [repaint_bytes] that its loops update. *)
Record Pen := mkPen { out : list Z; last_fg : Color; last_bg : Color; last_attrs : Z }.

#[export] Instance eta_pen : Eta Pen := fun p =>
  mkPen (out p) (last_fg p) (last_bg p) (last_attrs p).

(** One past the last column of row [r] that is not blank. *)
Definition last_used (s : Screen) (r : Z) : option Z :=
  for_each (range 0 (cols s)) (fun c last =>
    x ← zget (cells s) (idx c r s);
    if negb (cell_is_blank x) then chk_add u16_max c 1 else Some last) 0.

Definition repaint_cell (s : Screen) (r c : Z) (p : Pen) : option Pen :=
  x ← zget (cells s) (idx c r s);
  p ← (if negb (bool_decide (fg x = last_fg p)) || negb (bool_decide (bg x = last_bg p))
          || negb (Z.land (attrs x) 7 =? last_attrs p) then
         let o := emit_attrs (out p ++ elit "[0m") (attrs x) in
         o ← emit_color o true (fg x);
         o ← emit_color o false (bg x);
         Some (mkPen o (fg x) (bg x) (Z.land (attrs x) 7))
       else Some p);
  if has_attr (attrs x) ATTR_WIDE_TAIL then Some p
  else Some (p <| out := push_codepoint (out p) (codepoint x) |>).

Definition repaint_row (s : Screen) (r : Z) (p : Pen) : option Pen :=
  last ← last_used s r;
  p ← for_each (range 0 last) (repaint_cell s r) p;
  next ← chk_add u16_max r 1;
  if next <? rows s then
    Some (mkPen (out p ++ [0x0d; 0x0a] ++ elit "[0m") Default Default 0)
  else Some p.

Definition repaint_bytes (s : Screen) : option (list Z) :=
  let o := if in_alt s then elit "[?1049h" else [] in
  p ← for_each (range 0 (rows s)) (repaint_row s) (mkPen (o ++ elit "[0m") Default Default 0);
  o ← push_u16 (out p ++ elit "[") (sat_add u16_max (cursor_row s) 1);
  o ← push_u16 (o ++ lit ";") (sat_add u16_max (cursor_col s) 1);
  let o := o ++ lit "H" in
  Some (if negb (cursor_visible s) then o ++ elit "[?25l" else o).
