(* ===== verification/RepaintFacts.v ===== *)
(** The repaint encoder does not panic, and what its parts write. *)
From S2P Require Import Prelude VtTypes Utf8 Parser ParserFacts Width Screen Decimal ScreenFacts Repaint.

Local Open Scope Z_scope.

Lemma push_u16_eq o n : u16 n -> push_u16 o n = Some (o ++ decimal n).
Proof.
  intros Hn. unfold push_u16. pose proof (decimal_len n).
  rewrite write_u16_eq by (done || (change (len (zeros 5)) with 5; lia)).
  cbn [mbind option_bind]. rewrite slice_front by done. done.
Qed.

(** The parameters of the SGR sequence that selects a colour; none for the
    default one. *)
Definition color_params (is_fg : bool) (c : Color) : list Z :=
  match c with
  | Default => []
  | Indexed n =>
      if n <? 8 then [(if is_fg then 30 else 40) + n]
      else if n <? 16 then [(if is_fg then 90 else 100) + (n - 8)]
      else [if is_fg then 38 else 48; 5; n]
  | RgbColor r g b => [if is_fg then 38 else 48; 2; r; g; b]
  end.

Definition color_seq (is_fg : bool) (c : Color) : list Z :=
  match c with
  | Default => []
  | _ => csi_seq (color_params is_fg c) (ch "m")
  end.

Lemma emit_color_eq o is_fg c :
  color_ok c -> emit_color o is_fg c = Some (o ++ color_seq is_fg c).
Proof.
  intros Hc. destruct c as [|n|r g b]; cbn [emit_color color_seq color_params].
  - by rewrite app_nil_r.
  - cbn in Hc. unfold chk_add, csi_seq, csi_marked. destruct (Z.ltb_spec n 8); [|destruct (Z.ltb_spec n 16)].
    + rewrite (proj2 (Z.leb_le _ _)) by (destruct is_fg; num). cbn [mbind option_bind].
      rewrite push_u16_eq by (destruct is_fg; num). cbn [mbind option_bind join_params].
      by rewrite <- !app_assoc.
    + replace (sat_sub n 8) with (n - 8) by num.
      rewrite (proj2 (Z.leb_le _ _)) by (destruct is_fg; num). cbn [mbind option_bind].
      rewrite push_u16_eq by (destruct is_fg; num). cbn [mbind option_bind join_params].
      by rewrite <- !app_assoc.
    + rewrite push_u16_eq by num. cbn [mbind option_bind join_params]. rewrite <- !app_assoc.
      by destruct is_fg.
  - cbn in Hc. rewrite !push_u16_eq by num. cbn [mbind option_bind]. rewrite push_u16_eq by num.
    cbn [mbind option_bind]. rewrite push_u16_eq by num. cbn [mbind option_bind].
    unfold csi_seq, csi_marked. cbn [join_params].
    replace (if is_fg then elit "[38;2;" else elit "[48;2;")
      with (elit "[" ++ decimal (if is_fg then 38 else 48) ++ [ch ";"] ++ decimal 2 ++ [ch ";"])
      by (by destruct is_fg).
    change (lit ";") with [ch ";"]. change (lit "m") with [ch "m"].
    repeat (rewrite <- app_assoc || rewrite <- app_comm_cons). reflexivity.
Qed.

Lemma cell_at_safe s c r :
  wf s -> 0 <= r < rows s -> 0 <= c < cols s ->
  exists x, zget (cells s) (idx c r s) = Some x /\ cell_ok x.
Proof.
  intros Hwf Hr Hc. destruct (zget_in (cells s) (idx c r s)) as [x Hx]; [by apply row_bounds|].
  exists x. split; [done|]. pose proof (wf_cells s Hwf) as H. rewrite Forall_zget in H. by eapply H.
Qed.

Lemma last_used_safe s r :
  wf s -> 0 <= r < rows s -> safe (last_used s r) (fun n => 0 <= n <= cols s).
Proof.
  intros Hwf Hr. pose proof (wf_cols s Hwf). unfold MAX_TAB_COLS in *. unfold last_used.
  apply for_each_inv; [lia|]. intros c n Hc%elem_of_range Hn.
  destruct (cell_at_safe s c r Hwf Hr Hc) as (x & -> & _). cbn [mbind option_bind].
  apply safe_if; intros _; [|by apply safe_ret]. unfold chk_add.
  rewrite (proj2 (Z.leb_le _ _)) by lia. apply safe_ret. lia.
Qed.

Lemma repaint_cell_safe s r c p :
  wf s -> 0 <= r < rows s -> 0 <= c < cols s -> safe (repaint_cell s r c p) (fun _ => True).
Proof.
  intros Hwf Hr Hc. unfold repaint_cell.
  destruct (cell_at_safe s c r Hwf Hr Hc) as (x & -> & (_ & Hf & Hb & _)). cbn [mbind option_bind].
  rewrite !emit_color_eq by done. cbn [mbind option_bind]. rewrite emit_color_eq by done.
  cbn [mbind option_bind]. eapply safe_bind with (P := fun _ => True); [by case_if; apply safe_ret|].
  intros p' _. by case_if; apply safe_ret.
Qed.

Lemma repaint_bytes_safe s : wf s -> safe (repaint_bytes s) (fun _ => True).
Proof.
  intros Hwf. pose proof Hwf as []. unfold MAX_TAB_COLS in *. unfold repaint_bytes.
  eapply safe_bind with (P := fun _ => True).
  { apply for_each_inv; [done|]. intros r p Hr%elem_of_range _. unfold repaint_row.
    eapply safe_bind; [by apply last_used_safe|]. intros n Hn. cbn beta in *.
    eapply safe_bind with (P := fun _ => True).
    { apply for_each_inv; [done|]. intros c p' Hc%elem_of_range _.
      apply repaint_cell_safe; [done|done|lia]. }
    intros p' _. unfold chk_add. rewrite (proj2 (Z.leb_le _ _)) by lia. cbn [mbind option_bind].
    by case_if; apply safe_ret. }
  intros p _. rewrite push_u16_eq by num. cbn [mbind option_bind].
  rewrite push_u16_eq by num. cbn [mbind option_bind]. by apply safe_ret.
Qed.
