(* ===== verification/Checkpoint.v ===== *)
(** The versioned checkpoint codec of crates/vt-engine/src/screen.rs:
    [export_checkpoint], [import_checkpoint], the [put_*] encoders, the
    [take_*] decoders and the hash.  A decoder consumes a prefix of [rest] and
    gives what is left, or the error the code returns. *)
From S2P Require Import Prelude VtTypes Parser Screen.

Local Open Scope Z_scope.

Definition MAGIC : list Z := lit "R1CK".
Definition VERSION : Z := 1.
Definition HASH_OFF : Z := 14.

(** ** Encoders *)

Definition put_u16 (v : Z) : list Z := le_bytes 2 v.
Definition put_u32 (v : Z) : list Z := le_bytes 4 v.
Definition put_u64 (v : Z) : list Z := le_bytes 8 v.

Definition put_color (c : Color) : list Z :=
  match c with
  | Default => [0]
  | Indexed i => [1; i]
  | RgbColor r g b => [2; r; g; b]
  end.

Definition put_rgb (c : Rgb) : list Z := [r_ c; g_ c; b_ c].

Definition put_palette (p : Palette) : list Z :=
  concat (map put_rgb (ansi p)) ++ put_rgb (foreground p) ++ put_rgb (background p)
  ++ put_rgb (cursor p).

Definition put_cell (c : Cell) : list Z :=
  put_u32 (codepoint c) ++ put_u16 (attrs c) ++ put_color (fg c) ++ put_color (bg c).

(** [u8::from(bool)] *)
Definition put_bool (b : bool) : list Z := [if b then 1 else 0].

Definition put_saved (s : option SavedCursor) : list Z :=
  match s with
  | None => [0]
  | Some c =>
      1 :: put_u16 (sc_col c) ++ put_u16 (sc_row c) ++ put_bool (sc_pending_wrap c)
      ++ put_color (sc_fg c) ++ put_color (sc_bg c) ++ put_u16 (sc_attrs c)
  end.

Definition put_open_cluster (o : option OpenCluster) : list Z :=
  match o with
  | None => [0]
  | Some c =>
      1 :: put_u16 (oc_row c) ++ put_u16 (oc_col c) ++ [oc_len c]
      ++ put_bool (oc_after_zwj c) ++ put_bool (oc_last_was_ri c) ++ [oc_width c]
  end.

(** ** Decoders *)

(** A decoder of a value from the front of the bytes. *)
Definition decoder (A : Type) : Type := list Z -> result VtError (A * list Z).

Definition truncated : VtError := Vt "truncated checkpoint".

Definition take_u8 : decoder Z := fun rest =>
  match rest with
  | b :: tail => Ok (b, tail)
  | [] => Err truncated
  end.

(** [n] bytes of a little-endian integer. *)
Definition take_le (n : nat) : decoder Z := fun rest =>
  if len rest <? Z.of_nat n then Err truncated
  else Ok (le_val (take n rest), drop n rest).

Definition take_u16 : decoder Z := take_le 2.
Definition take_u32 : decoder Z := take_le 4.

Definition take_color : decoder Color := fun rest =>
  '(tag, rest) ← take_u8 rest;
  if tag =? 0 then Ok (Default, rest)
  else if tag =? 1 then
    '(i, rest) ← take_u8 rest; Ok (Indexed i, rest)
  else if tag =? 2 then
    '(r, rest) ← take_u8 rest;
    '(g, rest) ← take_u8 rest;
    '(b, rest) ← take_u8 rest;
    Ok (RgbColor r g b, rest)
  else Err (Vt "bad colour tag").

Definition take_rgb : decoder Rgb := fun rest =>
  '(r, rest) ← take_u8 rest;
  '(g, rest) ← take_u8 rest;
  '(b, rest) ← take_u8 rest;
  Ok (mkRgb r g b, rest).

Definition take_palette : decoder Palette := fun rest =>
  '(a, rest) ← take_n take_rgb 16 rest;
  '(f, rest) ← take_rgb rest;
  '(b, rest) ← take_rgb rest;
  '(c, rest) ← take_rgb rest;
  Ok (mkPalette a f b c, rest).

Definition take_cell : decoder Cell := fun rest =>
  '(cp, rest) ← take_u32 rest;
  '(a, rest) ← take_u16 rest;
  '(f, rest) ← take_color rest;
  '(b, rest) ← take_color rest;
  Ok (mkCell cp f b a, rest).

(** [take_u8(rest)? != 0] *)
Definition take_bool : decoder bool := fun rest =>
  '(b, rest) ← take_u8 rest; Ok (negb (b =? 0), rest).

Definition take_saved : decoder (option SavedCursor) := fun rest =>
  '(tag, rest) ← take_u8 rest;
  if tag =? 0 then Ok (None, rest)
  else if tag =? 1 then
    '(col, rest) ← take_u16 rest;
    '(row, rest) ← take_u16 rest;
    '(w, rest) ← take_bool rest;
    '(f, rest) ← take_color rest;
    '(b, rest) ← take_color rest;
    '(a, rest) ← take_u16 rest;
    Ok (Some (mkSaved col row w f b a), rest)
  else Err (Vt "bad saved cursor tag").

Definition take_open_cluster : decoder (option OpenCluster) := fun rest =>
  '(tag, rest) ← take_u8 rest;
  if tag =? 0 then Ok (None, rest)
  else if tag =? 1 then
    '(row, rest) ← take_u16 rest;
    '(col, rest) ← take_u16 rest;
    '(l, rest) ← take_u8 rest;
    '(z, rest) ← take_bool rest;
    '(ri, rest) ← take_bool rest;
    '(w, rest) ← take_u8 rest;
    Ok (Some (mkCluster row col l z ri w), rest)
  else Err (Vt "bad open cluster tag").

(** [n] cells, pushed one by one. *)
Definition take_cells (n : Z) : decoder (list Cell) := take_n take_cell (Z.to_nat n).

(** The tag byte of the saved grid, and the grid. *)
Definition take_grid (n : Z) : decoder (option (list Cell)) := fun rest =>
  '(tag, rest) ← take_u8 rest;
  if tag =? 0 then Ok (None, rest)
  else if tag =? 1 then
    '(g, rest) ← take_cells n rest; Ok (Some g, rest)
  else Err (Vt "bad saved grid tag").

(** ** Flags *)

Definition set_flag (b : bool) (i : Z) (f : Z) : Z := if b then Z.lor f (Z.shiftl 1 i) else f.
Definition flag (f i : Z) : bool := negb (Z.land f (Z.shiftl 1 i) =? 0).

Definition checkpoint_flags (s : Screen) : Z :=
  let f := set_flag (pending_wrap s) 0 0 in
  let f := set_flag (autowrap s) 1 f in
  let f := set_flag (cursor_visible s) 2 f in
  let f := set_flag (in_alt s) 3 f in
  let f := set_flag (application_cursor_keys s) 4 f in
  let f := set_flag (application_keypad s) 5 f in
  let f := set_flag (bracketed_paste s) 6 f in
  let f := set_flag (mouse_x10 s) 7 f in
  let f := set_flag (mouse_button s) 8 f in
  let f := set_flag (mouse_any s) 9 f in
  let f := set_flag (mouse_sgr s) 10 f in
  set_flag (focus_events s) 11 f.

Definition apply_checkpoint_flags (f : Z) (s : Screen) : Screen :=
  s <| pending_wrap := flag f 0 |> <| autowrap := flag f 1 |>
    <| cursor_visible := flag f 2 |> <| in_alt := flag f 3 |>
    <| application_cursor_keys := flag f 4 |> <| application_keypad := flag f 5 |>
    <| bracketed_paste := flag f 6 |> <| mouse_x10 := flag f 7 |>
    <| mouse_button := flag f 8 |> <| mouse_any := flag f 9 |>
    <| mouse_sgr := flag f 10 |> <| focus_events := flag f 11 |>.

(** ** The hash *)

Definition FNV_OFFSET : Z := 0xcbf29ce484222325.
Definition FNV_PRIME : Z := 0x100000001b3.

(** One byte of FNV-1a: [h ^= b; h = h.wrapping_mul(PRIME)]. *)
Definition fnv_step (h b : Z) : Z := (Z.lxor h b * FNV_PRIME) mod 2 ^ 64.

Fixpoint fnv_loop (i : Z) (blob : list Z) (h : Z) : Z :=
  match blob with
  | [] => h
  | b :: blob =>
      let byte := if (HASH_OFF <=? i) && (i <? HASH_OFF + 8) then 0 else b in
      fnv_loop (i + 1) blob (fnv_step h byte)
  end.

Definition fnv1a64_with_zero_hash (blob : list Z) : Z := fnv_loop 0 blob FNV_OFFSET.

(** ** Export and import *)

Definition checkpoint_payload (s : Screen) : list Z :=
  put_u16 (cols s) ++ put_u16 (rows s) ++ put_u16 (cursor_col s) ++ put_u16 (cursor_row s)
  ++ put_u16 (scroll_top s) ++ put_u16 (scroll_bottom s) ++ put_u16 (pen_attrs s)
  ++ put_u32 (checkpoint_flags s) ++ put_color (pen_fg s) ++ put_color (pen_bg s)
  ++ put_palette (palette s) ++ put_u32 (grapheme_truncated s)
  ++ concat (map put_cell (cells s))
  ++ match saved_grid s with
     | Some g => 1 :: concat (map put_cell g)
     | None => [0]
     end
  ++ put_saved (saved_cursor s) ++ put_saved (alt_cursor s)
  ++ put_open_cluster (open_cluster s).

(** [out[HASH_OFF..HASH_OFF + 8].copy_from_slice(bs)] *)
Definition patch_hash (out bs : list Z) : list Z :=
  take (Z.to_nat HASH_OFF) out ++ bs ++ drop (Z.to_nat (HASH_OFF + 8)) out.

Definition export_checkpoint (ending_offset : Z) (s : Screen) : list Z :=
  let out := MAGIC ++ put_u16 VERSION ++ put_u64 ending_offset ++ put_u64 0
             ++ checkpoint_payload s in
  patch_hash out (le_bytes 8 (fnv1a64_with_zero_hash out)).

Definition import_checkpoint (bs : list Z) (s : Screen) : result VtError (Z * Screen) :=
  if len bs <? 22 then Err truncated
  else if negb (bool_decide (take 4 bs = MAGIC)) then Err (Vt "bad checkpoint magic")
  else if negb (le_val (take 2 (drop 4 bs)) =? VERSION) then
    Err (Vt "unsupported checkpoint version")
  else
    let ending_offset := le_val (take 8 (drop 6 bs)) in
    let stored := le_val (take 8 (drop 14 bs)) in
    if negb (stored =? fnv1a64_with_zero_hash bs) then Err (Vt "checkpoint hash mismatch")
    else
      let rest := drop 22 bs in
      '(new_cols, rest) ← take_u16 rest;
      '(new_rows, rest) ← take_u16 rest;
      if (new_cols =? 0) || (new_rows =? 0) then Err (Vt "empty grid")
      else if u64_max <? new_cols * new_rows then Err (Vt "grid overflow")
      else
        let n := new_cols * new_rows in
        '(ccol, rest) ← take_u16 rest;
        '(crow, rest) ← take_u16 rest;
        '(top, rest) ← take_u16 rest;
        '(bottom, rest) ← take_u16 rest;
        '(pattrs, rest) ← take_u16 rest;
        '(flags, rest) ← take_u32 rest;
        '(pfg, rest) ← take_color rest;
        '(pbg, rest) ← take_color rest;
        '(pal, rest) ← take_palette rest;
        '(trunc, rest) ← take_u32 rest;
        '(cs, rest) ← take_cells n rest;
        '(grid, rest) ← take_grid n rest;
        '(saved, rest) ← take_saved rest;
        '(alt, rest) ← take_saved rest;
        '(cluster, rest) ← take_open_cluster rest;
        if negb (len rest =? 0) then Err (Vt "trailing checkpoint bytes")
        else
          let s := s <| cols := new_cols |> <| rows := new_rows |> <| cells := cs |>
                     <| cursor_col := Z.min ccol (sat_sub new_cols 1) |>
                     <| cursor_row := Z.min crow (sat_sub new_rows 1) |>
                     <| scroll_top := top |> <| scroll_bottom := bottom |>
                     <| pen_attrs := pattrs |> <| pen_fg := pfg |> <| pen_bg := pbg |>
                     <| palette := pal |> <| grapheme_truncated := trunc |> in
          let s := apply_checkpoint_flags flags s in
          Ok (ending_offset,
              s <| saved_grid := grid |> <| saved_cursor := saved |> <| alt_cursor := alt |>
                <| open_cluster := cluster |> <| full_damage := true |>
                <| damage_row0 := 0 |> <| damage_row1 := 0 |>
                <| replies := [] |> <| discard_replies := false |>).
