(* ===== verification/CheckpointFacts.v ===== *)
(** The checkpoint codec: exporting and importing gives the screen back, a
    blob with one byte changed is refused, and what an accepted blob need not
    satisfy. *)
From S2P Require Import Prelude VtTypes Utf8 Parser ParserFacts Screen Decimal ScreenFacts Checkpoint.

Local Open Scope Z_scope.

(** ** Round trips of the parts *)

#[export] Instance take_u8_put : Roundtrip (fun v => [v]) take_u8 u8.
Proof. by intros v rest _. Qed.

Lemma take_le_put n v rest :
  0 <= v < 256 ^ Z.of_nat n -> take_le n (le_bytes n v ++ rest) = Ok (v, rest).
Proof.
  intros Hv. unfold take_le. rewrite len_app, len_le_bytes.
  rewrite (proj2 (Z.ltb_ge _ _)) by (pose proof (len_nonneg rest); lia).
  by rewrite take_app_n, drop_app_n, le_val_bytes by (try apply length_le_bytes; done).
Qed.

#[export] Instance take_u16_put : Roundtrip put_u16 take_u16 u16.
Proof. intros v rest Hv. apply take_le_put. cbn. num. Qed.
#[export] Instance take_u32_put : Roundtrip put_u32 take_u32 u32.
Proof. intros v rest Hv. apply take_le_put. cbn. num. Qed.

#[export] Instance take_bool_put : Roundtrip put_bool take_bool (fun _ => True).
Proof. by intros [] rest _. Qed.

#[export] Instance take_color_put : Roundtrip put_color take_color color_ok.
Proof. by intros [|n|r g b] rest Hc. Qed.

#[export] Instance take_rgb_put : Roundtrip put_rgb take_rgb rgb_ok.
Proof. by intros [r g b] rest Hc. Qed.

(** Decode the next part: [take_part tk] reads it back by [tk]'s round trip. *)
Tactic Notation "take_part" constr(tk) :=
  rewrite (take_put (take := tk)) by (done || eauto); cbn [mbind result_bind].

#[export] Instance take_palette_put : Roundtrip put_palette take_palette palette_ok.
Proof.
  intros [a f b c] rest (Hl & Ha & Hf & Hb & Hc). unfold put_palette, take_palette.
  cbn [ansi foreground background cursor] in *.
  rewrite <- !app_assoc. rewrite <- Hl, (take_n_put put_rgb take_rgb rgb_ok) by done.
  cbn [mbind result_bind]. do 3 take_part take_rgb. done.
Qed.

#[export] Instance take_cell_put : Roundtrip put_cell take_cell cell_ok.
Proof.
  intros [cp f b a] rest (Hcp & Hf & Hb & Ha). unfold put_cell, take_cell.
  cbn [codepoint fg bg attrs] in *. rewrite <- !app_assoc.
  take_part take_u32. take_part take_u16. do 2 take_part take_color. done.
Qed.

#[export] Instance take_saved_put : Roundtrip put_saved take_saved (opt_ok saved_ok).
Proof.
  intros [[c r w f b a]|] rest; [|done]. intros (Hc & Hr & Hf & Hb & Ha).
  unfold put_saved, take_saved. cbn [sc_col sc_row sc_fg sc_bg sc_attrs sc_pending_wrap] in *.
  rewrite <- app_comm_cons. cbn [take_u8 mbind result_bind Z.eqb Pos.eqb].
  rewrite <- !app_assoc.
  do 2 take_part take_u16. take_part take_bool. do 2 take_part take_color. take_part take_u16. done.
Qed.

Definition cluster_u16 (c : OpenCluster) : Prop :=
  u16 (oc_row c) /\ u16 (oc_col c) /\ u8 (oc_len c) /\ u8 (oc_width c).

#[export] Instance take_cluster_put :
  Roundtrip put_open_cluster take_open_cluster (opt_ok cluster_u16).
Proof.
  intros [[r c l z ri w]|] rest; [|done]. intros (Hr & Hc & Hl & Hw).
  unfold put_open_cluster, take_open_cluster.
  cbn [oc_row oc_col oc_len oc_width oc_after_zwj oc_last_was_ri] in *.
  rewrite <- app_comm_cons. cbn [take_u8 mbind result_bind Z.eqb Pos.eqb].
  rewrite <- !app_assoc.
  do 2 take_part take_u16. rewrite <- app_comm_cons. cbn [take_u8 mbind result_bind app].
  do 2 take_part take_bool. done.
Qed.

(** The saved grid as the payload writes it. *)
Definition put_grid (g : option (list Cell)) : list Z :=
  match g with Some g => 1 :: concat (map put_cell g) | None => [0] end.

Lemma take_cells_put l rest :
  Forall cell_ok l -> take_cells (len l) (concat (map put_cell l) ++ rest) = Ok (l, rest).
Proof.
  intros Hl. unfold take_cells, len. rewrite Nat2Z.id.
  by apply (take_n_put put_cell take_cell cell_ok).
Qed.

Lemma take_grid_put n :
  Roundtrip put_grid (take_grid n) (opt_ok (fun g => len g = n /\ Forall cell_ok g)).
Proof.
  intros [g|] rest; [|done]. intros [<- Hg]. unfold put_grid, take_grid.
  rewrite <- app_comm_cons. cbn [take_u8 mbind result_bind Z.eqb Pos.eqb].
  by rewrite take_cells_put.
Qed.

(** ** Flags *)

Lemma flag_testbit f i : 0 <= i -> flag f i = Z.testbit f i.
Proof.
  intros Hi. unfold flag. rewrite Z.shiftl_mul_pow2, Z.mul_1_l by done.
  destruct (Z.testbit f i) eqn:Hb.
  - apply negb_true_iff, Z.eqb_neq. intros H0.
    assert (Ht : Z.testbit (Z.land f (2 ^ i)) i = false) by (rewrite H0; apply Z.bits_0).
    rewrite Z.land_spec, Hb, Z.pow2_bits_true in Ht by done. discriminate Ht.
  - apply negb_false_iff, Z.eqb_eq. apply Z.bits_inj'. intros j Hj.
    rewrite Z.land_spec, Z.bits_0. destruct (decide (i = j)) as [->|]; [by rewrite Hb|].
    rewrite Z.pow2_bits_false by done. apply andb_false_r.
Qed.

Lemma testbit_set_flag b i f j :
  0 <= i -> 0 <= j -> Z.testbit (set_flag b i f) j = (b && (i =? j)) || Z.testbit f j.
Proof.
  intros Hi Hj. unfold set_flag. destruct b; [|done].
  rewrite Z.lor_spec, orb_comm, Z.shiftl_mul_pow2, Z.mul_1_l by done.
  rewrite Z.pow2_bits_eqb by done. done.
Qed.

Lemma set_flag_u32 b i f : u32 f -> 0 <= i < 32 -> u32 (set_flag b i f).
Proof.
  intros Hf Hi. unfold set_flag. destruct b; [|done].
  assert (H0 : 0 <= Z.lor f (Z.shiftl 1 i)).
  { apply Z.lor_nonneg. split; [num|]. by apply Z.shiftl_nonneg. }
  assert (H1 : Z.lor f (Z.shiftl 1 i) < 2 ^ 32); [|num].
  assert (He : Z.lor f (Z.shiftl 1 i) = Z.lor f (Z.shiftl 1 i) mod 2 ^ 32).
  { apply Z.bits_inj'. intros j Hj. destruct (decide (j < 32)).
    - by rewrite Z.mod_pow2_bits_low by done.
    - rewrite Z.mod_pow2_bits_high by lia. rewrite Z.lor_spec, Z.shiftl_mul_pow2, Z.mul_1_l by lia.
      rewrite Z.pow2_bits_false by lia. rewrite <- (Z.mod_small f (2 ^ 32)) by num.
      by rewrite Z.mod_pow2_bits_high by lia. }
  rewrite He. apply Z.mod_pos_bound. lia.
Qed.

Lemma checkpoint_flags_u32 s : u32 (checkpoint_flags s).
Proof. unfold checkpoint_flags. repeat (apply set_flag_u32; [|lia]). num. Qed.

(** Every flag comes back from its own bit. *)
Lemma apply_flags_export s s' :
  apply_checkpoint_flags (checkpoint_flags s) s' =
    s' <| pending_wrap := pending_wrap s |> <| autowrap := autowrap s |>
       <| cursor_visible := cursor_visible s |> <| in_alt := in_alt s |>
       <| application_cursor_keys := application_cursor_keys s |>
       <| application_keypad := application_keypad s |>
       <| bracketed_paste := bracketed_paste s |> <| mouse_x10 := mouse_x10 s |>
       <| mouse_button := mouse_button s |> <| mouse_any := mouse_any s |>
       <| mouse_sgr := mouse_sgr s |> <| focus_events := focus_events s |>.
Proof.
  assert (Hbit : forall i, 0 <= i -> flag (checkpoint_flags s) i =
    Z.testbit (checkpoint_flags s) i) by (intros; by apply flag_testbit).
  unfold apply_checkpoint_flags. rewrite !Hbit by lia. unfold checkpoint_flags.
  rewrite !testbit_set_flag by lia. cbn [Z.eqb Pos.eqb]. rewrite Z.bits_0.
  rewrite ?andb_true_r, ?andb_false_r, ?orb_false_r, ?orb_false_l. done.
Qed.

(** ** The hash *)

Lemma lxor_u64 h b : u64 h -> u8 b -> u64 (Z.lxor h b).
Proof.
  intros Hh Hb. assert (He : Z.lxor h b = Z.lxor h b mod 2 ^ 64).
  { apply Z.bits_inj'. intros j Hj. destruct (decide (j < 64)).
    - by rewrite Z.mod_pow2_bits_low by done.
    - rewrite Z.mod_pow2_bits_high by lia. rewrite Z.lxor_spec.
      rewrite <- (Z.mod_small h (2 ^ 64)), <- (Z.mod_small b (2 ^ 64)) by num.
      by rewrite !Z.mod_pow2_bits_high by lia. }
  rewrite He. pose proof (Z.mod_pos_bound (Z.lxor h b) (2 ^ 64)). num.
Qed.

Lemma fnv_step_u64 h b : u64 (fnv_step h b).
Proof.
  unfold fnv_step, u64. pose proof (Z.mod_pos_bound (Z.lxor h b * FNV_PRIME) (2 ^ 64)). lia.
Qed.

(** The prime is odd, so multiplying by it modulo 2^64 can be undone. *)
Definition FNV_INVERSE : Z := 0xce965057aff6957b.

Lemma mul_prime_inv x : u64 x -> ((x * FNV_PRIME) mod 2 ^ 64 * FNV_INVERSE) mod 2 ^ 64 = x.
Proof.
  intros Hx. rewrite Z.mul_mod_idemp_l by lia. rewrite <- Z.mul_assoc.
  rewrite <- (Z.mul_mod_idemp_r x) by lia.
  change ((FNV_PRIME * FNV_INVERSE) mod 2 ^ 64) with 1. rewrite Z.mul_1_r.
  apply Z.mod_small. num.
Qed.

Lemma fnv_step_inj h h' b b' :
  u64 h -> u64 h' -> u8 b -> u8 b' -> fnv_step h b = fnv_step h' b' ->
  Z.lxor h b = Z.lxor h' b'.
Proof.
  intros Hh Hh' Hb Hb' He. unfold fnv_step in He.
  rewrite <- (mul_prime_inv (Z.lxor h b)), <- (mul_prime_inv (Z.lxor h' b'))
    by (by apply lxor_u64). by rewrite He.
Qed.

Lemma fnv_step_inj_h h h' b :
  u64 h -> u64 h' -> u8 b -> fnv_step h b = fnv_step h' b -> h = h'.
Proof.
  intros Hh Hh' Hb He%fnv_step_inj; [|done..].
  rewrite <- (Z.lxor_0_r h), <- (Z.lxor_0_r h'), <- (Z.lxor_nilpotent b).
  by rewrite <- !Z.lxor_assoc, He.
Qed.

Lemma fnv_step_inj_b h b b' : u64 h -> u8 b -> u8 b' -> fnv_step h b = fnv_step h b' -> b = b'.
Proof.
  intros Hh Hb Hb' He%fnv_step_inj; [|done..].
  rewrite <- (Z.lxor_0_l b), <- (Z.lxor_0_l b'), <- (Z.lxor_nilpotent h).
  by rewrite !Z.lxor_assoc, He.
Qed.

Definition hash_index (i : Z) : bool := (HASH_OFF <=? i) && (i <? HASH_OFF + 8).

Lemma fnv_loop_inj_h blob i h h' :
  bytes blob -> u64 h -> u64 h' -> fnv_loop i blob h = fnv_loop i blob h' -> h = h'.
Proof.
  revert i h h'. induction blob as [|b blob IH]; intros i h h' Hb Hh Hh'; cbn; [done|].
  apply Forall_cons in Hb as [Hb Hbs]. set (byte := if _ : bool then 0 else b).
  assert (u8 byte) by (subst byte; case_if; num).
  intros He%IH; [|done|apply fnv_step_u64..]. by apply fnv_step_inj_h in He.
Qed.

(** Changing one hashed byte changes the hash. *)
Lemma fnv_loop_changed x b b' y i h :
  bytes (x ++ b :: y) -> u8 b' -> u64 h -> 0 <= i ->
  hash_index (i + len x) = false -> b <> b' ->
  fnv_loop i (x ++ b :: y) h <> fnv_loop i (x ++ b' :: y) h.
Proof.
  intros Hb Hb' Hh Hi Hx Hne. revert i h Hb Hh Hi Hx.
  induction x as [|a x IH]; intros i h Hb Hh Hi Hx He.
  - apply Forall_cons in Hb as [Hb Hy]. cbn [app fnv_loop] in He.
    replace (i + len []) with i in Hx by (change (@len Z []) with 0; lia).
    unfold hash_index in Hx. rewrite Hx in He.
    apply fnv_loop_inj_h in He; [|done|apply fnv_step_u64..].
    by apply fnv_step_inj_b in He.
  - apply Forall_cons in Hb as [Ha Hb]. cbn [app fnv_loop] in He.
    apply IH in He; [done|done|apply fnv_step_u64|lia|]. rewrite len_cons in Hx.
    by replace (i + 1 + len x) with (i + (1 + len x)) by lia.
Qed.

(** The bytes under the hash field do not enter the hash. *)
Lemma fnv_loop_masked x b b' y i h :
  hash_index (i + len x) = true ->
  fnv_loop i (x ++ b :: y) h = fnv_loop i (x ++ b' :: y) h.
Proof.
  revert i h. induction x as [|a x IH]; intros i h Hx; cbn [app fnv_loop].
  - replace (i + len []) with i in Hx by (change (@len Z []) with 0; lia).
    unfold hash_index in Hx. by rewrite Hx.
  - apply IH. rewrite len_cons in Hx. by replace (i + 1 + len x) with (i + (1 + len x)) by lia.
Qed.

Lemma fnv_loop_app x y i h : fnv_loop i (x ++ y) h = fnv_loop (i + len x) y (fnv_loop i x h).
Proof.
  revert i h. induction x as [|a x IH]; intros i h; cbn [app fnv_loop].
  - by change (@len Z []) with 0; rewrite Z.add_0_r.
  - rewrite IH, len_cons. by replace (i + 1 + len x) with (i + (1 + len x)) by lia.
Qed.

Lemma fnv_loop_field bs bs' i h :
  len bs = len bs' -> (forall j, 0 <= j < len bs -> hash_index (i + j) = true) ->
  fnv_loop i bs h = fnv_loop i bs' h.
Proof.
  revert i h bs'. induction bs as [|b bs IH]; intros i h [|b' bs'] Hl Hf; cbn [fnv_loop]; try done.
  rewrite !len_cons in *. pose proof (len_nonneg bs).
  pose proof (Hf 0 ltac:(lia)) as H0. rewrite Z.add_0_r in H0. unfold hash_index in H0. rewrite H0.
  apply IH; [lia|]. intros j Hj. replace (i + 1 + j) with (i + (1 + j)) by lia. apply Hf. lia.
Qed.

(** Patching the hash field does not change the hash. *)
Lemma hash_patch x old bs y :
  len x = HASH_OFF -> len old = 8 -> len bs = 8 ->
  fnv1a64_with_zero_hash (x ++ old ++ y) = fnv1a64_with_zero_hash (x ++ bs ++ y).
Proof.
  intros Hx Ho Hb. unfold fnv1a64_with_zero_hash. rewrite !fnv_loop_app, Ho, Hb. f_equal.
  apply fnv_loop_field; [lia|]. intros j Hj. unfold hash_index. lia.
Qed.

Lemma hash_u64 bs : u64 (fnv1a64_with_zero_hash bs).
Proof.
  unfold fnv1a64_with_zero_hash. generalize 0 as i. assert (H : u64 FNV_OFFSET) by (vm_compute; split; discriminate).
  revert H. generalize FNV_OFFSET. induction bs as [|b bs IH]; intros h Hh i; cbn; [done|].
  apply IH, fnv_step_u64.
Qed.

(** ** Round trip *)

(** What an import of [s]'s export into [s0] leaves: [s], fully damaged, with
    no replies pending; what a checkpoint does not carry stays [s0]'s. *)
Definition restored (s s0 : Screen) : Screen :=
  s <| full_damage := true |> <| damage_row0 := 0 |> <| damage_row1 := 0 |>
    <| replies := [] |> <| discard_replies := false |>
    <| replies_dropped := replies_dropped s0 |> <| scrolled_off := scrolled_off s0 |>.

Definition header (off : Z) : list Z := MAGIC ++ put_u16 VERSION ++ put_u64 off.

Lemma len_header off : len (header off) = HASH_OFF.
Proof. unfold header, put_u16, put_u64. rewrite !len_app, !len_le_bytes. done. Qed.

Lemma patch_hash_eq x old bs y :
  len x = HASH_OFF -> len old = 8 -> patch_hash (x ++ old ++ y) bs = x ++ bs ++ y.
Proof.
  intros Hx Ho. unfold patch_hash, HASH_OFF, len in *. rewrite take_app_n by lia.
  rewrite (app_assoc x old), (drop_app_n _ (x ++ old)) by (rewrite length_app; lia). done.
Qed.

Lemma export_shape off s :
  export_checkpoint off s =
    header off ++ le_bytes 8 (fnv1a64_with_zero_hash (export_checkpoint off s))
    ++ checkpoint_payload s.
Proof.
  assert (He : export_checkpoint off s = patch_hash (header off ++ put_u64 0 ++ checkpoint_payload s)
    (le_bytes 8 (fnv1a64_with_zero_hash (header off ++ put_u64 0 ++ checkpoint_payload s)))).
  { unfold export_checkpoint, header. by rewrite <- !app_assoc. }
  rewrite patch_hash_eq in He by (apply len_header || apply len_le_bytes).
  rewrite He at 1. apply (f_equal (fun h => header off ++ le_bytes 8 h ++ checkpoint_payload s)).
  rewrite He. apply hash_patch; [apply len_header | apply len_le_bytes | apply len_le_bytes].
Qed.

Lemma len_export off s : len (export_checkpoint off s) = 22 + len (checkpoint_payload s).
Proof. rewrite export_shape, !len_app, len_header, len_le_bytes. unfold HASH_OFF. lia. Qed.

(** The fields of the header, cut out of a blob that starts with it. *)
Lemma header_fields off h y :
  u64 off -> u64 h ->
  let blob := header off ++ le_bytes 8 h ++ y in
  take 4 blob = MAGIC /\ le_val (take 2 (drop 4 blob)) = VERSION /\
  le_val (take 8 (drop 6 blob)) = off /\ le_val (take 8 (drop 14 blob)) = h /\
  drop 22 blob = y.
Proof.
  intros Ho Hh. cbn zeta. unfold header. rewrite <- !app_assoc.
  assert (Hv : length (put_u16 VERSION) = 2%nat) by apply length_le_bytes.
  assert (Ho8 : length (put_u64 off) = 8%nat) by apply length_le_bytes.
  assert (Hh8 : length (le_bytes 8 h) = 8%nat) by apply length_le_bytes.
  split_and!.
  - by rewrite take_app_n.
  - rewrite drop_app_n, take_app_n by done. done.
  - rewrite (app_assoc MAGIC), drop_app_n by (rewrite length_app, Hv; done).
    rewrite take_app_n by done. apply le_val_bytes. cbn. num.
  - rewrite (app_assoc MAGIC), (app_assoc (MAGIC ++ _)), drop_app_n
      by (rewrite !length_app, Hv, Ho8; done).
    rewrite take_app_n by done. apply le_val_bytes. cbn. num.
  - rewrite (app_assoc MAGIC), (app_assoc (MAGIC ++ _)), (app_assoc ((MAGIC ++ _) ++ _)).
    apply drop_app_n. rewrite !length_app, Hv, Ho8, Hh8. done.
Qed.

Lemma import_export_eq off s s0 :
  wf s -> u64 off -> import_checkpoint (export_checkpoint off s) s0 = Ok (off, restored s s0).
Proof.
  intros Hwf Ho. pose proof (hash_u64 (export_checkpoint off s)) as Hh.
  pose proof (header_fields off _ (checkpoint_payload s) Ho Hh) as Hf. cbn zeta in Hf.
  rewrite <- export_shape in Hf. destruct Hf as (Hm & Hv & Hoff & Hs & Hd).
  unfold import_checkpoint. rewrite Hm, Hv, Hoff, Hs, Hd, len_export.
  pose proof (len_nonneg (checkpoint_payload s)).
  rewrite (proj2 (Z.ltb_ge _ _)) by lia. rewrite bool_decide_eq_true_2 by done.
  rewrite !Z.eqb_refl. cbn [negb].
  pose proof Hwf as [Hcols Hrows Hlen Hcells Hcc Hcr Hreg _ _ Hpal (Hfg & Hbg & Hat)
    (Hsv & Hal) Hgrid _ (Hdr & Htr) Hclu _].
  unfold MAX_TAB_COLS in *.
  assert (Hcl : opt_ok cluster_u16 (open_cluster s)).
  { destruct (open_cluster s); [|done]. cbn in *. unfold cluster_ok in Hclu.
    unfold cluster_u16. num. }
  assert (Hu : u16 (cols s) /\ u16 (rows s) /\ u16 (cursor_col s) /\ u16 (cursor_row s) /\
    u16 (scroll_top s) /\ u16 (scroll_bottom s)) by num.
  destruct Hu as (? & ? & ? & ? & ? & ?). pose proof (checkpoint_flags_u32 s).
  unfold checkpoint_payload.
  take_part take_u16. take_part take_u16.
  rewrite (proj2 (orb_false_iff _ _)) by lia.
  rewrite (proj2 (Z.ltb_ge _ _)) by nia.
  do 5 take_part take_u16. take_part take_u32. do 2 take_part take_color.
  take_part take_palette. take_part take_u32.
  rewrite <- Hlen, take_cells_put by done. cbn [mbind result_bind].
  change (match saved_grid s with Some g => 1 :: concat (map put_cell g) | None => [0] end)
    with (put_grid (saved_grid s)).
  rewrite (take_grid_put (len (cells s))) by (by rewrite Hlen). cbn [mbind result_bind].
  take_part take_saved. take_part take_saved.
  rewrite <- (app_nil_r (put_open_cluster _)). take_part take_open_cluster.
  change (len []) with 0. cbn [Z.eqb negb]. do 2 f_equal.
  rewrite apply_flags_export.
  replace (Z.min (cursor_col s) (sat_sub (cols s) 1)) with (cursor_col s) by num.
  replace (Z.min (cursor_row s) (sat_sub (rows s) 1)) with (cursor_row s) by num.
  unfold restored. by destruct s, s0.
Qed.

(** ** Corruption *)

Definition stored_hash (bs : list Z) : Z := le_val (take 8 (drop 14 bs)).

Lemma import_ok_hash bs s0 :
  is_ok (import_checkpoint bs s0) = true -> stored_hash bs = fnv1a64_with_zero_hash bs /\ 22 <= len bs.
Proof.
  unfold import_checkpoint. destruct (Z.ltb_spec (len bs) 22); [done|].
  case_if; [done|]. case_if; [done|]. case_if; [done|]. unfold stored_hash. intros _. lia.
Qed.

Lemma hash_changed bs i b b' :
  bytes bs -> bs !! i = Some b -> u8 b' -> b <> b' -> hash_index (Z.of_nat i) = false ->
  fnv1a64_with_zero_hash bs <> fnv1a64_with_zero_hash (<[i := b']> bs).
Proof.
  intros Hbs Hi Hb' Hne Hh. pose proof (take_drop_middle _ _ _ Hi) as Hsplit.
  assert (Hlt : (i < length bs)%nat) by (by eapply lookup_lt_Some).
  rewrite (insert_take_drop _ _ _ Hlt). rewrite <- Hsplit at 1.
  apply fnv_loop_changed; [by rewrite Hsplit|done| |lia| |done].
  - vm_compute; split; discriminate.
  - rewrite Z.add_0_l. unfold len. rewrite length_take. by replace (i `min` length bs)%nat with i by lia.
Qed.

Lemma hash_masked bs i b' :
  (i < length bs)%nat -> hash_index (Z.of_nat i) = true ->
  fnv1a64_with_zero_hash bs = fnv1a64_with_zero_hash (<[i := b']> bs).
Proof.
  intros Hlt Hh. destruct (lookup_lt_is_Some_2 bs i Hlt) as [b Hi].
  pose proof (take_drop_middle _ _ _ Hi) as Hsplit.
  rewrite (insert_take_drop _ _ _ Hlt). rewrite <- Hsplit at 1.
  apply fnv_loop_masked. rewrite Z.add_0_l. unfold len. rewrite length_take.
  by replace (i `min` length bs)%nat with i by lia.
Qed.

Lemma le_val_inj l l' : bytes l -> bytes l' -> length l = length l' -> le_val l = le_val l' -> l = l'.
Proof.
  intros Hl Hl' Hlen He. rewrite <- (le_bytes_val l Hl), <- (le_bytes_val l' Hl').
  by rewrite Hlen, He.
Qed.

Lemma stored_unchanged bs i b' :
  hash_index (Z.of_nat i) = false -> stored_hash (<[i := b']> bs) = stored_hash bs.
Proof.
  unfold hash_index, HASH_OFF, stored_hash. intros Hh. do 1 f_equal.
  destruct (decide (i < 14)%nat).
  - by rewrite drop_insert_lt by lia.
  - rewrite drop_insert_ge by lia. by rewrite take_insert_ge by lia.
Qed.

Lemma stored_changed bs i b b' :
  bytes bs -> bs !! i = Some b -> u8 b' -> b <> b' -> hash_index (Z.of_nat i) = true ->
  stored_hash (<[i := b']> bs) <> stored_hash bs.
Proof.
  unfold hash_index, HASH_OFF, stored_hash. intros Hbs Hi Hb' Hne Hh He.
  apply le_val_inj in He.
  - apply Hne. assert (Hlt : (i < length bs)%nat) by (by eapply lookup_lt_Some).
    assert (Hl : take 8 (drop 14 (<[i:=b']> bs)) !! (i - 14)%nat = Some b').
    { rewrite lookup_take_lt, lookup_drop by lia. replace (14 + (i - 14))%nat with i by lia.
      by apply list_lookup_insert_eq. }
    rewrite He, lookup_take_lt, lookup_drop in Hl by lia.
    replace (14 + (i - 14))%nat with i in Hl by lia. congruence.
  - apply Forall_take, Forall_drop, Forall_insert; done.
  - by apply Forall_take, Forall_drop.
  - by rewrite !length_take, !length_drop, length_insert.
Qed.

Lemma corrupt_eq bs i b b' s0 :
  bytes bs -> is_ok (import_checkpoint bs s0) = true ->
  bs !! i = Some b -> u8 b' -> b <> b' ->
  is_ok (import_checkpoint (<[i := b']> bs) s0) = false.
Proof.
  intros Hbs Hok Hi Hb' Hne. apply not_true_is_false. intros Hok'.
  apply import_ok_hash in Hok as [Hh _]. apply import_ok_hash in Hok' as [Hh' _].
  destruct (hash_index (Z.of_nat i)) eqn:Hx.
  - apply (stored_changed bs i b b'); try done.
    rewrite Hh', Hh. symmetry. apply hash_masked; [by eapply lookup_lt_Some|done].
  - apply (hash_changed bs i b b'); try done. rewrite <- Hh, <- Hh'. by rewrite stored_unchanged.
Qed.

(** ** What an accepted blob satisfies *)

(** What a decoder promises on any input: what it accepts is in range, and it
    leaves bytes. *)
Class Sound {A : Type} (take : decoder A) (valid : A -> Prop) : Prop :=
  sound : forall rest a rest', bytes rest -> take rest = Ok (a, rest') -> valid a /\ bytes rest'.

Lemma bind_Ok {A B} (tk : decoder A) (valid : A -> Prop) (f : A * list Z -> result VtError B) rest b :
  Sound tk valid -> bytes rest -> (tk rest ≫= f) = Ok b ->
  exists a rest', valid a /\ bytes rest' /\ f (a, rest') = Ok b.
Proof.
  intros Hs Hb H. apply result_bind_Ok in H as ([a rest'] & Ht & Hf).
  destruct (Hs _ _ _ Hb Ht). eauto.
Qed.

(** Peel one decoder off an accepted blob. *)
Tactic Notation "peel" hyp(H) "as" ident(a) ident(r) ident(Ha) ident(Hr) :=
  let Hn := fresh in
  eapply bind_Ok in H; [|first [exact _ | fail 2]|eassumption];
  destruct H as (a & r & Ha & Hr & Hn); cbn beta iota in Hn; rename Hn into H.

Lemma take_le_sound n : Sound (take_le n) (fun v => 0 <= v < 256 ^ Z.of_nat n).
Proof.
  intros rest v rest' Hb. unfold take_le. case_if; [done|]. intros [= <- <-].
  split; [|by apply Forall_drop].
  pose proof (le_val_bound (take n rest) (Forall_take _ _ _ Hb)) as H.
  rewrite length_take in H. replace (n `min` length rest)%nat with n in H; [done|].
  unfold len in *. lia.
Qed.

#[export] Instance take_u16_sound : Sound take_u16 u16.
Proof. intros rest v rest' Hb [H ?]%take_le_sound; [|done]. cbn in H. split; [num|done]. Qed.
#[export] Instance take_u32_sound : Sound take_u32 u32.
Proof. intros rest v rest' Hb [H ?]%take_le_sound; [|done]. cbn in H. split; [num|done]. Qed.

#[export] Instance take_u8_sound : Sound take_u8 u8.
Proof.
  intros [|b rest] v rest' Hb; [done|]. intros [= <- <-]. by apply Forall_cons in Hb.
Qed.

#[export] Instance take_bool_sound : Sound take_bool (fun _ => True).
Proof. intros rest v rest' Hb H. unfold take_bool in H. peel H as b r Hv Hr. by simplify_eq. Qed.

#[export] Instance take_color_sound : Sound take_color color_ok.
Proof.
  intros rest v rest' Hb H. unfold take_color in H. peel H as tag r1 Ht Hr1.
  case_if_in H; [by simplify_eq| | |done].
  - peel H as i r2 Hi Hr2. by simplify_eq.
  - peel H as r r2 H1 Hr2. peel H as g r3 H2 Hr3. peel H as b r4 H3 Hr4. by simplify_eq.
Qed.

#[export] Instance take_rgb_sound : Sound take_rgb rgb_ok.
Proof.
  intros rest v rest' Hb H. unfold take_rgb in H.
  peel H as r r2 H1 Hr2. peel H as g r3 H2 Hr3. peel H as b r4 H3 Hr4. by simplify_eq.
Qed.

Lemma take_n_sound {A} (tk : decoder A) valid n :
  Sound tk valid -> Sound (take_n tk n) (fun l => length l = n /\ Forall valid l).
Proof.
  intros Hs. induction n as [|n IH]; intros rest l rest' Hb H; cbn in H; [by simplify_eq|].
  peel H as a r Ha Hr. eapply bind_Ok in H; [|exact IH|exact Hr].
  destruct H as (l' & r' & [Hl Hf] & Hr' & H). simplify_eq. split; [split; [done|by constructor]|done].
Qed.

#[export] Instance take_palette_sound : Sound take_palette palette_ok.
Proof.
  intros rest v rest' Hb H. unfold take_palette in H.
  eapply bind_Ok in H; [|apply take_n_sound, take_rgb_sound|exact Hb].
  destruct H as (a & r1 & [Hl Ha] & Hr1 & H). cbn beta iota in H.
  peel H as f r2 Hf Hr2. peel H as b r3 Hbg Hr3. peel H as c r4 Hc Hr4. by simplify_eq.
Qed.

#[export] Instance take_cell_sound : Sound take_cell cell_ok.
Proof.
  intros rest v rest' Hb H. unfold take_cell in H.
  peel H as cp r1 Hcp Hr1. peel H as a r2 Ha Hr2. peel H as f r3 Hf Hr3. peel H as b r4 Hbg Hr4.
  by simplify_eq.
Qed.

#[export] Instance take_saved_sound : Sound take_saved (opt_ok saved_ok).
Proof.
  intros rest v rest' Hb H. unfold take_saved in H. peel H as tag r1 Ht Hr1.
  case_if_in H; [by simplify_eq| |done].
  peel H as col r2 Hc Hr2. peel H as row r3 Hrow Hr3. peel H as w r4 Hw Hr4.
  peel H as f r5 Hf Hr5. peel H as b r6 Hbg Hr6. peel H as a r7 Ha Hr7. by simplify_eq.
Qed.

#[export] Instance take_cluster_sound : Sound take_open_cluster (opt_ok cluster_u16).
Proof.
  intros rest v rest' Hb H. unfold take_open_cluster in H. peel H as tag r1 Ht Hr1.
  case_if_in H; [by simplify_eq| |done].
  peel H as row r2 Hrow Hr2. peel H as col r3 Hc Hr3. peel H as l r4 Hl Hr4.
  peel H as z r5 Hz Hr5. peel H as ri r6 Hri Hr6. peel H as w r7 Hw Hr7. by simplify_eq.
Qed.

Lemma take_cells_sound n : 0 <= n -> Sound (take_cells n) (fun l => len l = n /\ Forall cell_ok l).
Proof.
  intros Hn rest l rest' Hb H. unfold take_cells in H.
  destruct (take_n_sound take_cell cell_ok (Z.to_nat n) _ rest l rest' Hb H) as [[Hl Hf] Hr].
  unfold len. split; [split; [lia|done]|done].
Qed.

Lemma take_grid_sound n :
  0 <= n -> Sound (take_grid n) (opt_ok (fun g => len g = n /\ Forall cell_ok g)).
Proof.
  intros Hn rest v rest' Hb H. unfold take_grid in H. peel H as tag r1 Ht Hr1.
  case_if_in H; [by simplify_eq| |done].
  eapply bind_Ok in H; [|by apply take_cells_sound|exact Hr1].
  destruct H as (g & r2 & Hg & Hr2 & H). by simplify_eq.
Qed.

(** What the blob itself does not establish. *)
Definition margins_ok (s : Screen) : Prop :=
  cols s <= MAX_TAB_COLS /\ scroll_top s <= scroll_bottom s /\ scroll_bottom s < rows s /\
  opt_ok (fun cl => oc_row cl < rows s /\ oc_col cl < cols s) (open_cluster s).

Lemma import_wf_eq bs s0 off s :
  bytes bs -> wf s0 -> import_checkpoint bs s0 = Ok (off, s) -> margins_ok s -> wf s /\ u64 off.
Proof.
  intros Hbs Hwf0 H. unfold import_checkpoint in H.
  destruct (Z.ltb_spec (len bs) 22) as [|Hlen]; [done|].
  do 3 (match type of H with context [if ?b then _ else _] => destruct b; [done|] end).
  assert (Hd : bytes (drop 22 bs)) by (by apply Forall_drop).
  peel H as nc r1 Hnc Hr1. peel H as nr r2 Hnr Hr2.
  destruct ((nc =? 0) || (nr =? 0)) eqn:Hz; [done|].
  destruct (u64_max <? nc * nr) eqn:Hov; [done|].
  peel H as cc r3 Hcc Hr3. peel H as cr r4 Hcr Hr4. peel H as tp r5 Htp Hr5.
  peel H as bt r6 Hbt Hr6. peel H as pa r7 Hpa Hr7. peel H as fl r8 Hfl Hr8.
  peel H as pf r9 Hpf Hr9. peel H as pb r10 Hpb Hr10. peel H as pal r11 Hpal Hr11.
  peel H as tr r12 Htr Hr12.
  assert (Hnn : 0 <= nc * nr) by num.
  eapply bind_Ok in H; [|by apply take_cells_sound|eassumption].
  destruct H as (cs & r13 & [Hcl Hcs] & Hr13 & H). cbn beta iota in H.
  eapply bind_Ok in H; [|by apply take_grid_sound|eassumption].
  destruct H as (g & r14 & Hg & Hr14 & H). cbn beta iota in H.
  peel H as sv r15 Hsv Hr15. peel H as al r16 Hal Hr16. peel H as cl r17 Hclu Hr17.
  destruct (negb (len r17 =? 0)); [done|]. injection H as <- <-.
  intros (Hm1 & Hm2 & Hm3 & Hm4). cbn in Hm1, Hm2, Hm3, Hm4.
  split.
  - pose proof Hwf0 as []. split; cbn; auto; try num.
    + split; [constructor|]. done.
    + destruct cl as [cl|]; [|done]. cbn in Hm4, Hclu. destruct Hclu as (? & ? & ? & ?).
      cbn. unfold cluster_ok. num.
  - pose proof (le_val_bound (take 8 (drop 6 bs))) as Hb.
    rewrite length_take, length_drop in Hb.
    replace (8 `min` (length bs - 6))%nat with 8%nat in Hb by (unfold len in Hlen; lia).
    unfold u64. change (256 ^ Z.of_nat 8) with (u64_max + 1) in Hb.
    assert (bytes (take 8 (drop 6 bs))) as Hbb by (by apply Forall_take, Forall_drop).
    specialize (Hb Hbb). lia.
Qed.
