(* ===== verification/Engine.v ===== *)
(** The emulator of crates/vt-engine/src/lib.rs: a parser and a screen. *)
From S2P Require Import Prelude VtTypes Utf8 Parser Screen Repaint Checkpoint.

Local Open Scope Z_scope.

Record VtEngine := mkEngine { parser : Parser; screen : Screen }.

#[export] Instance eta_engine : Eta VtEngine := fun e => mkEngine (parser e) (screen e).

Definition new (cols rows : Z) : result VtError VtEngine :=
  s ← Screen.new cols rows; Ok (mkEngine Parser.new s).

Definition color_at (col row : Z) (e : VtEngine) : option (option (Color * Color)) :=
  Screen.color_at col row (screen e).

Definition set_palette (p : Palette) (e : VtEngine) : VtEngine :=
  e <| screen := Screen.set_palette p (screen e) |>.

Definition take_replies (e : VtEngine) : list Z * VtEngine :=
  let '(r, s) := Screen.take_replies (screen e) in (r, e <| screen := s |>).

Definition take_scrolled_off (e : VtEngine) : option (list (list PodCell) * VtEngine) :=
  '(r, s) ← Screen.take_scrolled_off (screen e); Some (r, e <| screen := s |>).

Definition has_replies (e : VtEngine) : bool := Screen.has_replies (screen e).

Definition mode_state (e : VtEngine) : TerminalModeState := Screen.mode_state (screen e).

(** [TerminalEmulation for VtEngine] *)
Definition feed (bs : list Z) (e : VtEngine) : option VtEngine :=
  '(p, s) ← Parser.feed bs (parser e) (screen e); Some (mkEngine p s).

Definition resize (cols rows cell_w cell_h : Z) (e : VtEngine)
  : option (result VtError unit * VtEngine) :=
  '(r, s) ← Screen.resize cols rows (screen e); Some (r, e <| screen := s |>).

Definition snapshot (e : VtEngine) : option (PodGrid * VtEngine) :=
  '(g, s) ← Screen.snapshot (screen e); Some (g, e <| screen := s |>).

(** The parser is replaced before the screen's constructor can fail. *)
Definition reset (e : VtEngine) : result VtError unit * VtEngine :=
  let e1 := e <| parser := Parser.new |> in
  match Screen.new (cols (screen e)) (rows (screen e)) with
  | Ok s => (Ok (), e1 <| screen := s |>)
  | Err err => (Err err, e1)
  end.

Definition repaint_bytes (e : VtEngine) : option (list Z) := Repaint.repaint_bytes (screen e).

Definition resync_from_history (history : list Z) (e : VtEngine)
  : option (result VtError (list Z) * VtEngine) :=
  match reset e with
  | (Err err, e) => Some (Err err, e)
  | (Ok _, e) =>
      let e := e <| screen := set_discard_replies true (screen e) |> in
      e ← (if negb (len history =? 0) then feed history e else Some e);
      let e := e <| screen := set_discard_replies false (screen e) |> in
      r ← repaint_bytes e;
      Some (Ok (elit "[2J" ++ elit "[H" ++ r), e)
  end.

Definition export_checkpoint (ending_offset : Z) (e : VtEngine) : result VtError (list Z) :=
  if negb (is_idle (parser e)) then Err (Vt "incomplete parser")
  else Ok (Checkpoint.export_checkpoint ending_offset (screen e)).

Definition import_checkpoint (bs : list Z) (e : VtEngine) : result VtError Z * VtEngine :=
  match Checkpoint.import_checkpoint bs (screen e) with
  | Ok (offset, s) => (Ok offset, e <| screen := s |> <| parser := Parser.new |>)
  | Err err => (Err err, e)
  end.
