(* ===== verification/EngineFacts.v ===== *)
(** The emulator as a whole: no sequence of operations panics, snapshots show
    every change a feed made, checkpoints restore the screen. *)
From S2P Require Import Prelude VtTypes Utf8 Parser ParserFacts Screen Decimal ScreenFacts Repaint RepaintFacts Checkpoint CheckpointFacts Engine.

Local Open Scope Z_scope.

Definition engine_ok (e : VtEngine) : Prop :=
  parser_ok (parser e) /\ putback (parser e) = None /\ wf (screen e).

(** ** Operations as data *)

Inductive Op : Type :=
| OFeed (bs : list Z)
| OResize (cols rows cell_w cell_h : Z)
| OSnapshot
| OSetPalette (p : Palette)
| OTakeReplies
| OTakeScrolledOff
| OReset
| OResync (history : list Z)
| OExport (off : Z)
| OImport (bs : list Z).

(** Run one operation, dropping what it returns. *)
Definition run (op : Op) (e : VtEngine) : option VtEngine :=
  match op with
  | OFeed bs => feed bs e
  | OResize c r w h => snd <$> resize c r w h e
  | OSnapshot => snd <$> snapshot e
  | OSetPalette p => Some (set_palette p e)
  | OTakeReplies => Some (snd (take_replies e))
  | OTakeScrolledOff => snd <$> take_scrolled_off e
  | OReset => Some (snd (reset e))
  | OResync history => snd <$> resync_from_history history e
  | OExport off => Some e
  | OImport bs => Some (snd (import_checkpoint bs e))
  end.

(** Arguments in the ranges of their types; at most [MAX_TAB_COLS] columns; a
    checkpoint that is refused, or is no wider than that with its margins and its
    open cluster in its grid, as every exported one's are. *)
Definition op_ok (op : Op) : Prop :=
  match op with
  | OFeed bs | OResync bs => bytes bs
  | OResize c r _ _ => 0 <= c <= MAX_TAB_COLS /\ u16 r
  | OSetPalette p => palette_ok p
  | OImport bs => bytes bs /\
      forall s0 off s, Checkpoint.import_checkpoint bs s0 = Ok (off, s) -> margins_ok s
  | _ => True
  end.

Lemma new_ok c r e : 1 <= c <= MAX_TAB_COLS -> 1 <= r <= u16_max -> new c r = Ok e -> engine_ok e.
Proof.
  intros Hc Hr H. unfold new in H. apply result_bind_Ok in H as (s & Hs & [= <-]).
  split_and!; [apply parser_ok_new|done|by eapply new_wf].
Qed.

Lemma feed_safe bs e :
  engine_ok e -> bytes bs -> safe (feed bs e) (fun e' => engine_ok e' /\ good (screen e) (screen e')).
Proof.
  intros (Hp & Hpb & Hwf) Hbs. unfold feed.
  destruct (feed_safe_eq (good (screen e)) bs (parser e) (screen e) Hp Hpb Hbs)
    as ([p s] & Hf & [Hp' Hg] & Hpb'); [by apply good_refl|].
  rewrite Hf. apply safe_ret. cbn in *. split; [|done]. split_and!; [done..|apply Hg].
Qed.

Lemma set_palette_wf p s : wf s -> palette_ok p -> wf (Screen.set_palette p s).
Proof. intros [] ?; split; cbn; auto. Qed.

Lemma take_replies_wf s : wf s -> wf (snd (Screen.take_replies s)).
Proof. intros []; split; cbn; auto. split; [constructor|done]. Qed.

Lemma reset_ok e : engine_ok e -> engine_ok (snd (reset e)).
Proof.
  intros (Hp & Hpb & Hwf). pose proof (wf_cols _ Hwf). pose proof (wf_rows _ Hwf).
  unfold reset. destruct (Screen.new _ _) as [s|err] eqn:Hs; cbn.
  - split_and!; [apply parser_ok_new|done|]. by eapply new_wf.
  - split_and!; [apply parser_ok_new|done|done].
Qed.

Lemma discard_wf b s : wf s -> wf (set_discard_replies b s).
Proof. intros []; split; cbn; auto. Qed.

Lemma resync_safe history e :
  engine_ok e -> bytes history ->
  safe (resync_from_history history e) (fun r => engine_ok r.2 /\ is_ok r.1 = true).
Proof.
  intros He Hb. pose proof (reset_ok e He) as Hr. unfold resync_from_history.
  destruct (reset e) as [[[]|err] e1] eqn:Hreset; cbn in Hr.
  2: { unfold reset in Hreset. destruct He as (_ & _ & Hwf).
       pose proof (wf_cols _ Hwf). pose proof (wf_rows _ Hwf).
       unfold Screen.new in Hreset. case_if_in Hreset; [lia|done]. }
  set (e2 := e1 <| screen := _ |>).
  assert (H2 : engine_ok e2) by (destruct Hr as (? & ? & ?); split_and!; [done..|by apply discard_wf]).
  eapply safe_bind with (P := engine_ok).
  { apply safe_if; intros _; [|by apply safe_ret]. eapply safe_mono; [by apply feed_safe|].
    by intros e3 [? _]. }
  intros e3 H3. set (e4 := e3 <| screen := _ |>).
  assert (H4 : engine_ok e4) by (destruct H3 as (? & ? & ?); split_and!; [done..|by apply discard_wf]).
  safe_step repaint_bytes_safe as _; [apply H4|]. by apply safe_ret.
Qed.

Lemma import_ok bs e : engine_ok e -> op_ok (OImport bs) -> engine_ok (snd (import_checkpoint bs e)).
Proof.
  intros (Hp & Hpb & Hwf) [Hb Hm]. unfold import_checkpoint.
  destruct (Checkpoint.import_checkpoint bs (screen e)) as [[off s]|err] eqn:Hi; cbn; [|done].
  split_and!; [apply parser_ok_new|done|].
  by eapply (import_wf_eq bs (screen e) off s Hb Hwf Hi), Hm.
Qed.

Lemma run_ok op e : engine_ok e -> op_ok op -> safe (run op e) engine_ok.
Proof.
  intros He Hop. pose proof He as (Hp & Hpb & Hwf). destruct op as [bs|c r w h| |p| | | |h|off|bs]; cbn [run].
  - eapply safe_mono; [by apply feed_safe|]. by intros e' [? _].
  - destruct Hop as [Hc Hr]. unfold resize.
    destruct (resize_safe c r (screen e) Hwf Hc Hr) as ([res s] & Hs & Hw & _).
    rewrite Hs. apply safe_ret. by split_and!.
  - unfold snapshot. destruct (snapshot_safe (screen e) Hwf) as ([g s] & Hs & _ & Hw & _).
    rewrite Hs. apply safe_ret. by split_and!.
  - apply safe_ret. split_and!; [done..|]. by apply set_palette_wf.
  - apply safe_ret. split_and!; [done..|]. by apply take_replies_wf.
  - unfold take_scrolled_off.
    destruct (take_scrolled_off_safe (screen e) Hwf) as ([g s] & Hs & Hw & _).
    rewrite Hs. apply safe_ret. by split_and!.
  - apply safe_ret. by apply reset_ok.
  - destruct (resync_safe h e He Hop) as ([r e'] & Hs & Hok & _). rewrite Hs. by apply safe_ret.
  - by apply safe_ret.
  - apply safe_ret. by apply import_ok.
Qed.

(** C1. The emulator never panics within its bounds.  From [VtEngine::new] on any
    non-empty grid of at most 65528 columns, any sequence of operations (feeding
    arbitrary bytes, resizing to at most 65528 columns, snapshots, palette
    changes, draining replies and scrolled rows, resets, resyncs from arbitrary
    history, exports, and imports of bytes that are refused or hold at most 65528
    columns, ordered scroll margins inside their grid and an open cluster inside
    it) runs to its end with the parser and the screen well formed: every index
    in bounds and no machine integer out of its range.  The bounds are needed:
    on a wider grid a tab panics ([tab_overflow_iff]), and an import does not
    check its margins ([import_accepts_bad_margins]). *)
Theorem engine_never_panics (cols rows : Z) (e : VtEngine) (ops : list Op) :
  1 <= cols <= MAX_TAB_COLS -> 1 <= rows <= u16_max -> new cols rows = Ok e ->
  Forall op_ok ops -> safe (for_each ops run e) engine_ok.
Proof.
  intros Hc Hr Hnew Hops. pose proof (new_ok _ _ _ Hc Hr Hnew) as He.
  rewrite Forall_forall in Hops.
  apply for_each_inv; [done|]. intros op e' Hop He'. apply run_ok; [done|]. by apply Hops.
Qed.

Definition small_engine : VtEngine :=
  match new 4 3 with Ok e => e | Err _ => mkEngine Parser.new (mkScreen 0 0 [] 0 0 false false false
    false 0 0 0 0 vt_default Default Default 0 None None None false [] 0 false None 0
    false false false false false false false false []) end.

Definition demo_ops : list Op :=
  [ OFeed (elit "[2;3r" ++ lit "ab" ++ [0x0a; 0x0d] ++ elit "[5L" ++ elit "[6n");
    OResize 3 2 8 16; OSnapshot; OFeed [0xe2; 0x80]; OTakeReplies ].

Lemma engine_never_panics_witness :
  new 4 3 = Ok small_engine /\ Forall op_ok demo_ops /\ safe (for_each demo_ops run small_engine) engine_ok.
Proof.
  assert (Hb : Forall op_ok demo_ops).
  { unfold demo_ops. repeat (apply Forall_cons; split); cbn [op_ok].
    all: try (repeat constructor; discriminate). }
  split; [reflexivity|]. split; [exact Hb|].
  apply (engine_never_panics 4 3 small_engine demo_ops);
    [split; discriminate | split; discriminate | reflexivity | exact Hb].
Defined.

(** ** Snapshots *)

(** C3. Damage is complete: a host that keeps the previous snapshot and
    redraws only what the next one marks damaged shows the same picture.
    Between two snapshots around a feed of any bytes, the grid keeps its size
    and every cell that differs, codepoint, colours or attributes, lies in a
    row the second snapshot reports (or it reports full damage). *)
Theorem snapshot_damage_complete (e0 e1 e2 e3 : VtEngine) (g0 g1 : PodGrid) (bs : list Z) :
  engine_ok e0 -> bytes bs ->
  snapshot e0 = Some (g0, e1) -> feed bs e1 = Some e2 -> snapshot e2 = Some (g1, e3) ->
  pg_cols g1 = pg_cols g0 /\ pg_rows g1 = pg_rows g0 /\
  forall col row, 0 <= col < pg_cols g0 -> 0 <= row < pg_rows g0 ->
    pod_cell_at g1 col row <> pod_cell_at g0 col row ->
    pg_full_damage g1 = true \/ pg_damage_row0 g1 <= row <= pg_damage_row1 g1.
Proof.
  intros (Hp & Hpb & Hwf) Hbs H0 Hf H1. unfold snapshot in H0, H1.
  destruct (snapshot_safe (screen e0) Hwf)
    as ([g s1] & Hs & Hs1 & Hw1 & Hl & Hc & Hr & Hfd & Hd0 & Hd1 & Hg). cbn [fst snd] in *.
  rewrite Hs in H0. injection H0 as <- <-.
  assert (He1 : engine_ok (e0 <| screen := s1 |>)) by (by split_and!).
  destruct (feed_safe bs _ He1 Hbs) as (e' & Hf' & (_ & _ & Hwf2) & (_ & Ht)).
  rewrite Hf in Hf'. injection Hf' as <-. cbn [screen] in Ht.
  destruct (snapshot_safe (screen e2) Hwf2)
    as ([g' s3] & Hs' & _ & _ & Hl' & Hc' & Hr' & Hfd' & Hd0' & Hd1' & Hg'). cbn [fst snd] in *.
  rewrite Hs' in H1. injection H1 as <- <-.
  destruct Ht as (Hcc & Hrr & Hpal & _ & Hcell).
  cbn in Hcc, Hrr, Hpal, Hcell. rewrite Hs1 in Hcc, Hrr, Hpal, Hcell. cbn in Hcc, Hrr, Hpal, Hcell.
  split; [congruence|]. split; [congruence|]. intros col row Hcol Hrow Hne.
  rewrite Hfd', Hd0', Hd1'. rewrite Hc in Hcol. rewrite Hr in Hrow.
  destruct (Hcell col row Hcol Hrow) as [Heq|Hm]; [exfalso|exact Hm].
  apply Hne. unfold pod_cell_at. rewrite Hc, Hc', Hcc.
  case_if; [done|]. case_if; [done|]. rewrite Hg, Hg'.
  unfold cell_at, idx in Heq. cbn in Heq. rewrite Hcc in Heq. rewrite Heq.
  destruct (zget (cells (screen e0)) _) as [x|]; [|done]. cbn.
  unfold pod_cell, resolve. by rewrite Hpal.
Qed.

(** The engines of the witness. *)
Definition after_snapshot (e : VtEngine) : VtEngine :=
  match snapshot e with Some (_, e) => e | None => e end.
Definition grid_of (e : VtEngine) : PodGrid :=
  match snapshot e with Some (g, _) => g | None => mkPodGrid 0 0 0 0 false false 0 0 0 0 0 0 [] end.
Definition after_feed (bs : list Z) (e : VtEngine) : VtEngine :=
  match feed bs e with Some e => e | None => e end.

Lemma small_engine_ok : engine_ok small_engine.
Proof. apply (new_ok 4 3); [split; discriminate|split; discriminate|reflexivity]. Qed.

Lemma snapshot_damage_complete_witness :
  let e1 := after_snapshot small_engine in
  let e2 := after_feed (lit "ab") e1 in
  engine_ok small_engine /\ snapshot small_engine = Some (grid_of small_engine, e1) /\
  feed (lit "ab") e1 = Some e2 /\ snapshot e2 = Some (grid_of e2, after_snapshot e2) /\
  pg_damage_row1 (grid_of e2) = 0 /\
  (pg_cols (grid_of e2) = pg_cols (grid_of small_engine) /\
   pg_rows (grid_of e2) = pg_rows (grid_of small_engine) /\
   forall col row, 0 <= col < pg_cols (grid_of small_engine) ->
     0 <= row < pg_rows (grid_of small_engine) ->
     pod_cell_at (grid_of e2) col row <> pod_cell_at (grid_of small_engine) col row ->
     pg_full_damage (grid_of e2) = true \/
     pg_damage_row0 (grid_of e2) <= row <= pg_damage_row1 (grid_of e2)).
Proof.
  cbn zeta. split; [exact small_engine_ok|]. do 4 (split; [vm_compute; reflexivity|]).
  apply (snapshot_damage_complete small_engine (after_snapshot small_engine)
    (after_feed (lit "ab") (after_snapshot small_engine))
    (after_snapshot (after_feed (lit "ab") (after_snapshot small_engine)))
    (grid_of small_engine) (grid_of (after_feed (lit "ab") (after_snapshot small_engine))) (lit "ab")).
  - exact small_engine_ok.
  - repeat constructor; discriminate.
  - vm_compute; reflexivity.
  - vm_compute; reflexivity.
  - vm_compute; reflexivity.
Defined.

(** ** Checkpoints *)

(** C4. A checkpoint restores the screen: importing an export into any engine
    gives the exporting engine's offset and screen (grid, saved grid, cursor,
    pen, modes, margins, saved cursors, palette, open cluster), marked fully
    damaged, with no reply pending, and a fresh parser. *)
Theorem checkpoint_roundtrip (e e0 : VtEngine) (off : Z) (bs : list Z) :
  engine_ok e -> u64 off -> export_checkpoint off e = Ok bs ->
  import_checkpoint bs e0 =
    (Ok off, mkEngine Parser.new (restored (screen e) (screen e0))).
Proof.
  intros (_ & _ & Hwf) Hoff He. unfold export_checkpoint in He. case_if_in He; [done|].
  injection He as <-. unfold import_checkpoint. by rewrite import_export_eq.
Qed.

Definition blob_of (e : VtEngine) : list Z := Checkpoint.export_checkpoint 7 (screen e).

Lemma checkpoint_roundtrip_witness :
  let e := after_feed (elit "[31m" ++ lit "hi" ++ elit "[?1049h" ++ elit "7") small_engine in
  engine_ok e /\ export_checkpoint 7 e = Ok (blob_of e) /\
  import_checkpoint (blob_of e) small_engine =
    (Ok 7, mkEngine Parser.new (restored (screen e) (screen small_engine))).
Proof.
  cbn zeta. set (e := after_feed _ _).
  assert (He : engine_ok e).
  { destruct (feed_safe (elit "[31m" ++ lit "hi" ++ elit "[?1049h" ++ elit "7") small_engine)
      as (e' & Hf & Hok & _); [exact small_engine_ok | repeat constructor; discriminate |].
    subst e. unfold after_feed. rewrite Hf. exact Hok. }
  split; [exact He|]. split; [vm_compute; reflexivity|].
  apply (checkpoint_roundtrip e small_engine 7 (blob_of e)); [exact He|split; discriminate|].
  vm_compute; reflexivity.
Defined.

(** C6. A corrupted checkpoint is refused: changing any one byte of an accepted
    blob to any other value, in the magic, the version, the offset, the hash
    or the payload, makes the import fail and leaves the engine as it was. *)
Theorem checkpoint_corruption_refused (e : VtEngine) (bs : list Z) (i : nat) (b b' : Z) :
  bytes bs -> is_ok (fst (import_checkpoint bs e)) = true ->
  bs !! i = Some b -> u8 b' -> b <> b' ->
  is_ok (fst (import_checkpoint (<[i := b']> bs) e)) = false /\
  snd (import_checkpoint (<[i := b']> bs) e) = e.
Proof.
  intros Hbs Hok Hi Hb' Hne.
  assert (Hok' : is_ok (Checkpoint.import_checkpoint bs (screen e)) = true).
  { unfold import_checkpoint in Hok. by destruct (Checkpoint.import_checkpoint bs (screen e)) as [[]|]. }
  pose proof (corrupt_eq bs i b b' (screen e) Hbs Hok' Hi Hb' Hne) as Hbad.
  unfold import_checkpoint.
  by destruct (Checkpoint.import_checkpoint (<[i:=b']> bs) (screen e)) as [[]|].
Qed.

Lemma checkpoint_corruption_refused_witness :
  let bs := blob_of small_engine in
  bytes bs /\ is_ok (fst (import_checkpoint bs small_engine)) = true /\ bs !! 32%nat = Some 2 /\
  is_ok (fst (import_checkpoint (<[32%nat := 3]> bs) small_engine)) = false /\
  snd (import_checkpoint (<[32%nat := 3]> bs) small_engine) = small_engine.
Proof.
  cbn zeta. assert (Hb : bytes (blob_of small_engine)).
  { apply Forall_forall. intros x Hx.
    assert (Hall : forallb (fun z => (0 <=? z) && (z <=? 255)) (blob_of small_engine) = true)
      by (vm_compute; reflexivity).
    rewrite forallb_forall in Hall. apply list_elem_of_In in Hx. specialize (Hall x Hx). num. }
  split; [exact Hb|]. split; [vm_compute; reflexivity|]. split; [vm_compute; reflexivity|].
  apply (checkpoint_corruption_refused small_engine (blob_of small_engine) 32 2 3).
  - exact Hb.
  - vm_compute; reflexivity.
  - vm_compute; reflexivity.
  - split; discriminate.
  - discriminate.
Defined.

(** ** Limits *)

(** A checkpoint of a 2x2 grid whose bottom margin lies below the grid. *)
Definition bad_margins_blob : list Z :=
  match Screen.new 2 2 with
  | Ok s => Checkpoint.export_checkpoint 0 (s <| scroll_bottom := 9 |>)
  | Err _ => []
  end.

(** The import does not check the scroll margins it reads: a blob with the
    right magic, version and hash whose bottom margin lies outside its grid is
    accepted, and afterwards two line feeds and a letter make the emulator
    index outside its cells. *)
Theorem import_accepts_bad_margins :
  is_ok (fst (import_checkpoint bad_margins_blob small_engine)) = true /\
  feed ([0x0a; 0x0a] ++ lit "x") (snd (import_checkpoint bad_margins_blob small_engine)) = None.
Proof. vm_compute. split; reflexivity. Qed.

(** C39. A tab panics exactly in the columns from 65528 on: there the next tab
    stop does not fit the [u16] it is computed in, although a grid with those
    columns is accepted. *)
Theorem tab_overflow_iff (s : Screen) :
  0 <= cursor_col s -> screen_execute 0x09 s = None <-> 65528 <= cursor_col s.
Proof.
  intros Hc. unfold screen_execute. cbn [Z.eqb Pos.eqb]. unfold chk_add. cbn [clear_pending_wrap].
  change (cursor_col (clear_pending_wrap s <| open_cluster := None |>)) with (cursor_col s).
  destruct (Z.leb_spec (cursor_col s / 8 + 1) u16_max); cbn [mbind option_bind].
  - destruct (Z.leb_spec ((cursor_col s / 8 + 1) * 8) u16_max); cbn [mbind option_bind].
    + split; [done|]. Z.to_euclidean_division_equations; lia.
    + split; [|done]. intros _. Z.to_euclidean_division_equations; lia.
  - split; [|done]. intros _. Z.to_euclidean_division_equations; lia.
Qed.

Lemma tab_overflow_iff_witness :
  exists s, Screen.new 65535 1 = Ok s /\ 0 <= cursor_col (s <| cursor_col := 65530 |>) /\
    (screen_execute 0x09 (s <| cursor_col := 65530 |>) = None <->
     65528 <= cursor_col (s <| cursor_col := 65530 |>)).
Proof.
  eexists. split; [reflexivity|]. split; [discriminate|].
  apply (tab_overflow_iff (_ <| cursor_col := 65530 |>)). discriminate.
Defined.
