(* ===== verification/RepaintRound.v ===== *)
(** Redrawing a screen: the bytes of [repaint_bytes], fed to a blank engine of
    the same size, draw the same cells, cursor and cursor visibility, provided
    every cell holds what printing it again gives ([paintable]).  Where a screen
    or the engine that reads the bytes is not so, the examples at the end show
    what goes wrong. *)
From S2P Require Import Prelude VtTypes Utf8 Parser ParserFacts Width Screen Decimal CsiFacts ScreenFacts ScreenSpec Repaint RepaintFacts Engine EngineFacts.

Local Open Scope Z_scope.

(** ** What bytes say to an idle parser *)

(** From any idle parser the bytes make these calls and leave it idle. *)
Definition says (bs : list Z) (evs : list Event) : Prop :=
  forall p, idle_ok p -> exists p', idle_ok p' /\ traced (fun A HA a => @Parser.feed A HA bs p a) p' evs.

Lemma says_nil : says [] [].
Proof. intros p Hp. exists p. split; [done|]. apply (silent_nil p). apply Hp. Qed.

Lemma says_app bs bs' e e' : says bs e -> says bs' e' -> says (bs ++ bs') (e ++ e').
Proof.
  intros H H' p Hp. destruct (H p Hp) as (p1 & Hp1 & H1). destruct (H' p1 Hp1) as (p2 & Hp2 & H2).
  exists p2. split; [done|]. by eapply traced_app.
Qed.

Lemma says_csi m ps f :
  marker_ok m -> ps <> [] -> Forall u16 ps -> len ps <= MAX_PARAMS -> within 0x40 0x7e f = true ->
  says (csi_marked m ps f) [ECsi ps m false f].
Proof. intros Hm Hne Hps Hl Hf p Hp. by apply feed_csi_eq. Qed.

(** A control sequence without parameters. *)
Lemma says_csi_bare f : within 0x40 0x7e f = true -> says (elit "[" ++ [f]) [ECsi [] [] false f].
Proof.
  intros Hf p Hp. destruct (csi_intro p Hp) as (p1 & H1 & Hc & Hs).
  pose proof Hc as (Hok & Hu & Hpb & Hi & Hps & Hlen & Hin & _).
  exists (reset_seq (p1 <| state := Ground |>)). split.
  - split_and!; try done. split; [|by left]. apply seq_ok_reset. apply Hok.
  - eapply (traced_app _ _ _ _ _ [] _ H1). intros A HA a. unfold within in Hf.
    rewrite feed_cons by done. rewrite step_csi by done. unfold dispatch. rewrite Hs. unfold csi_entry. byte_range. cbn iota.
    unfold dispatch_csi. rewrite Hps, Hin, Hi. cbn [mbind option_bind]. unfold replay. cbn [for_each perform].
    destruct (csi [] [] false f a) as [a'|]; [|done]. cbn [mbind option_bind]. by rewrite feed_nil.
Qed.

Lemma says_char c : printable c = true -> says (encode_utf8 c) [EPrint c].
Proof. intros Hc p Hp. by apply feed_char. Qed.

Lemma says_c0 b : is_c0 b = true -> says [b] [EExecute b].
Proof.
  intros Hb p Hp. pose proof Hp as (Hok & Hg & [Hn _] & Hpb). exists p. split; [done|]. intros A HA a.
  rewrite feed_cons by done. rewrite step_ground by done. unfold ground. rewrite Hn, Hb. cbn [Z.ltb Z.compare].
  unfold replay. cbn [for_each perform]. destruct (execute b a) as [a'|]; [|done]. cbn [mbind option_bind].
  by rewrite feed_nil.
Qed.

(** ** The pen *)

Definition sgr (n : Z) : Event := ECsi [n] [] false (ch "m").
Definition attr_events (a : Z) : list Event :=
  (if has_attr a 1 then [sgr 1] else []) ++ (if has_attr a 2 then [sgr 4] else []) ++ (if has_attr a 4 then [sgr 7] else []).
Definition color_events (is_fg : bool) (c : Color) : list Event :=
  match c with Default => [] | _ => [ECsi (color_params is_fg c) [] false (ch "m")] end.
Definition pen_events (x : Cell) : list Event :=
  sgr 0 :: attr_events (attrs x) ++ color_events true (fg x) ++ color_events false (bg x).

Lemma says_sgr n : u16 n -> says (csi_seq [n] (ch "m")) [sgr n].
Proof. intros Hn. apply says_csi; [by left|done|by constructor|done|done]. Qed.

Lemma emit_attrs_eq o a : exists w, emit_attrs o a = o ++ w /\ says w (attr_events a).
Proof.
  exists ((if has_attr a 1 then elit "[1m" else []) ++ (if has_attr a 2 then elit "[4m" else [])
          ++ (if has_attr a 4 then elit "[7m" else [])). split.
  - unfold emit_attrs. repeat case_if; by rewrite ?app_nil_r, <- ?app_assoc.
  - unfold attr_events. apply says_app; [|apply says_app]; (case_if; [|apply says_nil]).
    + apply (says_sgr 1). num.
    + apply (says_sgr 4). num.
    + apply (says_sgr 7). num.
Qed.

Lemma says_color is_fg c : color_ok c -> says (color_seq is_fg c) (color_events is_fg c).
Proof.
  intros Hc. unfold color_seq, color_events.
  assert (c <> Default -> color_params is_fg c <> [] /\ Forall u16 (color_params is_fg c) /\ len (color_params is_fg c) <= MAX_PARAMS) as H.
  { intros Hd. destruct c as [|n|r g b]; [done| |]; cbn in Hc |- *.
    - repeat case_if; (split_and!; [done| |by vm_compute]); repeat constructor; destruct is_fg; num.
    - split_and!; [done| |by vm_compute]. repeat constructor; destruct is_fg; num. }
  destruct c; [apply says_nil| |]; (apply says_csi; [by left|..|done]; by apply H).
Qed.

Lemma perform_sgr ps (t : Screen) : ps <> [] -> perform (ECsi ps [] false (ch "m")) t = sgr_loop ps t.
Proof. intros Hps. by destruct ps. Qed.

Lemma sgr_color is_fg c t : color_ok c -> c <> Default -> sgr_loop (color_params is_fg c) t = Some (set_pen is_fg c t).
Proof.
  intros Hc Hd. destruct c as [|n|r g b]; [done| |]; cbn in Hc; unfold u8 in Hc; unfold color_params.
  - assert (Hm : Z.min n 255 = n) by num. destruct (Z.ltb_spec n 8); [|destruct (Z.ltb_spec n 16)]; cbn [sgr_loop].
    + rewrite (proj2 (orb_false_iff _ _)) by (destruct is_fg; num). unfold sgr_one, paint_indexed, chk_sub.
      destruct is_fg; byte_range; cbn [mbind option_bind];
        match goal with |- context [Z.min ?k 255] => replace (Z.min k 255) with n by num end; reflexivity.
    + rewrite (proj2 (orb_false_iff _ _)) by (destruct is_fg; num). unfold sgr_one, paint_indexed, chk_sub, chk_add.
      destruct is_fg; byte_range; cbn [mbind option_bind]; byte_range; cbn [mbind option_bind];
        match goal with |- context [Z.min ?k 255] => replace (Z.min k 255) with n by num end; reflexivity.
    + unfold paint_indexed. rewrite Hm. by destruct is_fg.
  - destruct Hc as (Hr & Hg & Hb). assert (Z.min r 255 = r /\ Z.min g 255 = g /\ Z.min b 255 = b) as (Er & Eg & Eb) by num.
    destruct is_fg; cbn [sgr_loop Z.eqb Pos.eqb orb]; by rewrite Er, Eg, Eb.
Qed.

Lemma replay_color is_fg c (t : Screen) : color_ok c -> 
  replay (color_events is_fg c) t = Some (match c with Default => t | _ => set_pen is_fg c t end).
Proof.
  intros Hc. unfold color_events. destruct c; [done| |]; unfold replay; cbn [for_each];
    (rewrite perform_sgr by (cbn; repeat case_if; done)); by rewrite sgr_color.
Qed.

(** The low bits of the attributes. *)
Lemma land_7 a bit : Z.land 7 bit = bit -> has_attr a bit = has_attr (Z.land a 7) bit.
Proof. intros Hb. unfold has_attr. by rewrite <- Z.land_assoc, Hb. Qed.

Lemma land_7_range a : 0 <= Z.land a 7 <= 7.
Proof. assert (Z.land a 7 = a mod 8) as -> by apply (Z.land_ones a 3 ltac:(lia)). pose proof (Z.mod_pos_bound a 8). lia. Qed.

Lemma replay_attrs a (t : Screen) : pen_attrs t = 0 -> replay (attr_events a) t = Some (t <| pen_attrs := Z.land a 7 |>).
Proof.
  intros Ht. unfold attr_events. rewrite !(land_7 a) by done. pose proof (land_7_range a) as Hr.
  generalize dependent (Z.land a 7). intros v Hv.
  assert (v = 0 \/ v = 1 \/ v = 2 \/ v = 3 \/ v = 4 \/ v = 5 \/ v = 6 \/ v = 7) as Hc by lia.
  destruct t. cbn in Ht. subst.
  repeat (destruct Hc as [-> | Hc]; [reflexivity|]). subst. reflexivity.
Qed.

Definition with_pen (x : Cell) (t : Screen) : Screen :=
  t <| pen_attrs := Z.land (attrs x) 7 |> <| pen_fg := fg x |> <| pen_bg := bg x |>.

Lemma replay_pen x t : color_ok (fg x) -> color_ok (bg x) -> replay (pen_events x) t = Some (with_pen x t).
Proof.
  intros Hf Hb. unfold pen_events. change (sgr 0 :: ?l) with ([sgr 0] ++ l). rewrite replay_app.
  assert (replay [sgr 0] t = Some (t <| pen_attrs := 0 |> <| pen_fg := Default |> <| pen_bg := Default |>)) as -> by reflexivity.
  cbn [mbind option_bind]. rewrite replay_app, replay_attrs by done. cbn [mbind option_bind].
  rewrite replay_app, replay_color by done. cbn [mbind option_bind]. rewrite replay_color by done.
  unfold with_pen. by destruct (fg x), (bg x).
Qed.

(** ** Cells that print as themselves *)

Definition char_ok (c : Z) : bool := printable c && negb (is_cluster_continuer c) && negb (is_regional_indicator c).
Definition narrow (x : Cell) : bool :=
  char_ok (codepoint x) && negb (is_wide (codepoint x)) && (attrs x =? Z.land (attrs x) 7).
Definition lead (x : Cell) : bool :=
  char_ok (codepoint x) && is_wide (codepoint x) && (attrs x =? Z.lor (Z.land (attrs x) 7) ATTR_WIDE_LEAD).
Definition tail_of (x : Cell) : Cell :=
  mkCell (codepoint x) (fg x) (bg x) (Z.lor (Z.land (attrs x) 7) ATTR_WIDE_TAIL).

(** A narrow character, the lead of a wide one with its tail after it in the
    row, or such a tail. *)
Definition paintable_at (s : Screen) (r c : Z) : bool :=
  match zget (cells s) (idx c r s) with
  | None => false
  | Some x =>
      narrow x
      || lead x && (c + 1 <? cols s) && bool_decide (zget (cells s) (idx c r s + 1) = Some (tail_of x))
      || (0 <? c) && match zget (cells s) (idx c r s - 1) with
                     | Some y => lead y && bool_decide (x = tail_of y)
                     | None => false
                     end
  end.
Definition paintable (s : Screen) : bool :=
  forallb (fun r => forallb (fun c => paintable_at s r c) (range 0 (cols s))) (range 0 (rows s)).

Lemma paintable_cell s r c : paintable s = true -> 0 <= r < rows s -> 0 <= c < cols s -> paintable_at s r c = true.
Proof.
  unfold paintable. rewrite forallb_forall. intros H Hr Hc.
  specialize (H r ltac:(apply list_elem_of_In, elem_of_range; lia)). rewrite forallb_forall in H.
  apply H, list_elem_of_In, elem_of_range. lia.
Qed.

(** The wide bits. *)
Lemma wide_bits v : 0 <= v <= 7 ->
  has_attr v ATTR_WIDE_TAIL = false /\ has_attr (Z.lor v ATTR_WIDE_LEAD) ATTR_WIDE_TAIL = false /\
  has_attr (Z.lor v ATTR_WIDE_TAIL) ATTR_WIDE_TAIL = true /\ Z.land (Z.lor v ATTR_WIDE_TAIL) 7 = v.
Proof.
  intros Hv. assert (v = 0 \/ v = 1 \/ v = 2 \/ v = 3 \/ v = 4 \/ v = 5 \/ v = 6 \/ v = 7) as Hc by lia.
  repeat (destruct Hc as [-> | Hc]; [by split_and!|]). subst. by split_and!.
Qed.

Lemma narrow_no_tail x : narrow x = true -> has_attr (attrs x) ATTR_WIDE_TAIL = false.
Proof.
  unfold narrow. intros [_ H%Z.eqb_eq]%andb_true_iff. rewrite H. apply wide_bits, land_7_range.
Qed.

Lemma lead_no_tail x : lead x = true -> has_attr (attrs x) ATTR_WIDE_TAIL = false.
Proof.
  unfold lead. intros [_ H%Z.eqb_eq]%andb_true_iff. rewrite H. apply wide_bits, land_7_range.
Qed.

Lemma tail_is_tail x : has_attr (attrs (tail_of x)) ATTR_WIDE_TAIL = true /\ Z.land (attrs (tail_of x)) 7 = Z.land (attrs x) 7.
Proof. split; apply wide_bits, land_7_range. Qed.

(** ** Drawing *)

(** [t] is [s] drawn up to column [k] of row [r], with a pen; the rest blank. *)
Record drawing (s : Screen) (r k : Z) (f b : Color) (a : Z) (t : Screen) : Prop := {
  dw_cols : cols t = cols s;
  dw_rows : rows t = rows s;
  dw_bottom : scroll_bottom t = rows s - 1;
  dw_autowrap : autowrap t = true;
  dw_len : len (cells t) = cols s * rows s;
  dw_cells : forall i, 0 <= i < cols s * rows s ->
    zget (cells t) i = if i <? r * cols s + k then zget (cells s) i else Some (blank Default);
  dw_row : cursor_row t = r;
  dw_col : k < cols s -> cursor_col t = k /\ pending_wrap t = false;
  dw_calm : match open_cluster t with Some cl => oc_after_zwj cl = false | None => True end;
  dw_pen : pen_fg t = f /\ pen_bg t = b /\ pen_attrs t = a;
  dw_alt : in_alt t = in_alt s;
  dw_visible : cursor_visible t = true;
}.

Lemma drawing_pen s r k f b a t x : drawing s r k f b a t -> drawing s r k (fg x) (bg x) (Z.land (attrs x) 7) (with_pen x t).
Proof. intros []. by split. Qed.

Lemma dirty_eq r (s : Screen) : exists a b, dirty r s = s <| damage_row0 := a |> <| damage_row1 := b |>.
Proof.
  unfold dirty. destruct (full_damage s); [exists (damage_row0 s), (damage_row1 s); by destruct s|].
  case_if; [by exists r, r|].
  destruct (r <? damage_row0 s); cbn; destruct (damage_row1 s <? r);
    [by exists r, r|by exists r, (damage_row1 s)|by exists (damage_row0 s), r|exists (damage_row0 s), (damage_row1 s); by destruct s].
Qed.

(** A blank under the character leaves nothing to repair. *)
Lemma smash_blank c r (t : Screen) : zget (cells t) (idx c r t) = Some (blank Default) -> smash_wide_at c r t = Some t.
Proof. intros H. unfold smash_wide_at. case_if; [done|]. rewrite H. reflexivity. Qed.

Section Draw.
Context (s : Screen) (Hwf : wf s) (r : Z) (Hr : 0 <= r < rows s).

Lemma pos_range k : 0 <= k < cols s -> 0 <= r * cols s + k < cols s * rows s.
Proof. destruct Hwf. intros. nia. Qed.

(** Moving on after a character of width [w] was put at column [k]. *)
Lemma advance_draws t k w f b a :
  1 <= cols s <= MAX_TAB_COLS -> 0 <= k -> 1 <= w -> k + w <= cols s ->
  cols t = cols s -> rows t = rows s -> scroll_bottom t = rows s - 1 -> autowrap t = true -> len (cells t) = cols s * rows s ->
  (forall i, 0 <= i < cols s * rows s ->
    zget (cells t) i = if i <? r * cols s + (k + w) then zget (cells s) i else Some (blank Default)) ->
  cursor_row t = r -> cursor_col t = k -> match open_cluster t with Some cl => oc_after_zwj cl = false | None => True end ->
  pen_fg t = f /\ pen_bg t = b /\ pen_attrs t = a -> in_alt t = in_alt s -> cursor_visible t = true ->
  drawing s r (k + w) f b a (advance_after_width w t).
Proof.
  intros Hcols Hk Hw Hkw Hc Hro Hsb Haw Hl Hcells Hrow Hcc Hcalm Hpen Ha Hv. unfold MAX_TAB_COLS in Hcols.
  unfold advance_after_width. rewrite Hcc, Hc. replace (sat_add u16_max k w) with (k + w) by num.
  destruct (Z.ltb_spec (k + w) (cols s)).
  - constructor; [exact Hc|exact Hro|exact Hsb|exact Haw|exact Hl|exact Hcells|exact Hrow|intros _; split; reflexivity|
      exact Hcalm|exact Hpen|exact Ha|exact Hv].
  - constructor; [exact Hc|exact Hro|exact Hsb|exact Haw|exact Hl|exact Hcells|exact Hrow|intros Hlt; lia|
      exact Hcalm|exact Hpen|exact Ha|exact Hv].
Qed.

(** Marking a row as damaged changes nothing that is drawn. *)
Lemma dirty_frame row t : cols (dirty row t) = cols t /\ rows (dirty row t) = rows t /\ scroll_bottom (dirty row t) = scroll_bottom t /\
  autowrap (dirty row t) = autowrap t /\ cells (dirty row t) = cells t /\ cursor_row (dirty row t) = cursor_row t /\
  cursor_col (dirty row t) = cursor_col t /\ open_cluster (dirty row t) = open_cluster t /\
  (pen_fg (dirty row t) = pen_fg t /\ pen_bg (dirty row t) = pen_bg t /\ pen_attrs (dirty row t) = pen_attrs t) /\
  in_alt (dirty row t) = in_alt t /\ cursor_visible (dirty row t) = cursor_visible t.
Proof. destruct (dirty_eq row t) as (a & b & ->). by split_and!. Qed.

(** The cells of a character put at position [n]. *)
Lemma put_cells t k n x w :
  n = r * cols s + k -> 0 <= k -> k + w <= cols s -> w = 1 \/ w = 2 -> len (cells t) = cols s * rows s ->
  (forall i, 0 <= i < cols s * rows s -> zget (cells t) i = if i <? n then zget (cells s) i else Some (blank Default)) ->
  zget (cells s) n = Some (x <| attrs := Z.lor (Z.land (attrs x) 7) (if w =? 2 then ATTR_WIDE_LEAD else 0) |>) ->
  (w = 2 -> zget (cells s) (n + 1) = Some (tail_of x)) ->
  exists cs cs', zset (cells t) n (x <| attrs := Z.lor (Z.land (attrs x) 7) (if w =? 2 then ATTR_WIDE_LEAD else 0) |>) = Some cs /\
    (if w =? 2 then zset cs (n + 1) (tail_of x) else Some cs) = Some cs' /\ len cs' = cols s * rows s /\
    forall i, 0 <= i < cols s * rows s -> zget cs' i = if i <? n + w then zget (cells s) i else Some (blank Default).
Proof.
  intros -> Hk Hkw Hw Hlen Hcells Hx Htail. pose proof (pos_range k ltac:(lia)) as Hn. set (n := r * cols s + k) in *.
  destruct (zset_ok (cells t) n (x <| attrs := Z.lor (Z.land (attrs x) 7) (if w =? 2 then ATTR_WIDE_LEAD else 0) |>))
    as (cs & E & Hl1 & Hg1); [lia|]. exists cs.
  assert (Hone : forall i, 0 <= i < cols s * rows s -> i <= n -> zget cs i = zget (cells s) i).
  { intros i Hi Hle. rewrite Hg1. destruct (Z.eqb_spec i n) as [-> |Hne]; [by rewrite Hx|].
    by rewrite Hcells, (proj2 (Z.ltb_lt _ _)) by lia. }
  assert (Hrest : forall i, 0 <= i < cols s * rows s -> n < i -> zget cs i = Some (blank Default)).
  { intros i Hi Hlt. rewrite Hg1, (proj2 (Z.eqb_neq _ _)) by lia. by rewrite Hcells, (proj2 (Z.ltb_ge _ _)) by lia. }
  destruct Hw as [-> | ->]; cbn [Z.eqb Pos.eqb] in *.
  - exists cs. split_and!; [done|done|lia|]. intros i Hi. case_if; [apply Hone; lia|apply Hrest; lia].
  - pose proof (pos_range (k + 1) ltac:(lia)) as Hn1.
    destruct (zset_ok cs (n + 1) (tail_of x)) as (cs' & E2 & Hl2 & Hg2); [lia|]. exists cs'. split_and!; [done|done|lia|].
    intros i Hi. rewrite Hg2. destruct (Z.eqb_spec i (n + 1)) as [-> |Hne].
    + rewrite (proj2 (Z.ltb_lt _ _)) by lia. by rewrite Htail.
    + case_if; [apply Hone; lia|apply Hrest; lia].
Qed.

(** Putting a character where only blanks are. *)
Lemma put_glyph_draws x k w t :
  drawing s r k (fg x) (bg x) (Z.land (attrs x) 7) t -> (codepoint x =? 0x200d) = false -> w = 1 \/ w = 2 ->
  0 <= k -> k + w <= cols s ->
  zget (cells s) (r * cols s + k) = Some (x <| attrs := Z.lor (Z.land (attrs x) 7) (if w =? 2 then ATTR_WIDE_LEAD else 0) |>) ->
  (w = 2 -> zget (cells s) (r * cols s + k + 1) = Some (tail_of x)) ->
  exists t', put_glyph (codepoint x) w t = Some t' /\ drawing s r (k + w) (fg x) (bg x) (Z.land (attrs x) 7) t'.
Proof.
  intros [Hc Hro Hsb Haw Hlen Hcells Hrow Hcol Hcalm (Hpf & Hpb & Hpa) Halt Hvis] Hz Hw Hk Hkw Hx Htail.
  pose proof (wf_cols _ Hwf) as Hcols. destruct (Hcol ltac:(lia)) as [Hcc _]. assert (Hw1 : 1 <= w) by lia.
  destruct (put_cells t k _ x w eq_refl Hk Hkw Hw Hlen Hcells Hx Htail) as (cs & cs' & E1 & E2 & Hl & Hg).
  assert (Hidx : forall j, idx j r t = r * cols s + j) by (intros j; unfold idx; by rewrite Hc).
  assert (Hblank : forall j, k <= j < cols s -> smash_wide_at j r t = Some t).
  { intros j Hj. apply smash_blank. rewrite Hidx, Hcells by (apply pos_range; lia). by rewrite (proj2 (Z.ltb_ge _ _)) by lia. }
  unfold put_glyph. rewrite Hrow, Hcc, Hblank by lia. cbn [mbind option_bind].
  assert (Hchk : chk_add u16_max k 1 = Some (k + 1)) by (unfold chk_add, MAX_TAB_COLS in *; case_if; [done|lia]).
  rewrite Hchk. cbn [mbind option_bind].
  assert ((if w =? 2 then smash_wide_at (k + 1) r t else Some t) = Some t) as ->.
  { destruct (w =? 2) eqn:E; [|done]. apply Hblank. lia. }
  cbn [mbind option_bind]. rewrite Hidx, Hpf, Hpb, Hpa.
  assert (Hl7 : Z.land (Z.land (attrs x) 7) 7 = Z.land (attrs x) 7) by (by rewrite <- Z.land_assoc). rewrite Hl7.
  change (mkCell (codepoint x) (fg x) (bg x) (Z.lor (Z.land (attrs x) 7) (if w =? 2 then ATTR_WIDE_LEAD else 0)))
    with (x <| attrs := Z.lor (Z.land (attrs x) 7) (if w =? 2 then ATTR_WIDE_LEAD else 0) |>).
  rewrite E1. cbn [mbind option_bind].
  assert (Hsecond : exists t1, (if w =? 2 then
         cs0 ← zset (cells (t <| cells := cs |>)) (idx (k + 1) r (t <| cells := cs |>))
                (mkCell (codepoint x) (pen_fg (t <| cells := cs |>)) (pen_bg (t <| cells := cs |>)) (Z.lor (Z.land (attrs x) 7) ATTR_WIDE_TAIL));
         Some (t <| cells := cs |> <| cells := cs0 |>)
       else Some (t <| cells := cs |>)) = Some t1 /\ t1 = t <| cells := cs' |>).
  { destruct (w =? 2); [|injection E2 as <-; by eexists].
    change (idx (k + 1) r (t <| cells := cs |>)) with (idx (k + 1) r t). rewrite Hidx.
    change (pen_fg (t <| cells := cs |>)) with (pen_fg t). change (pen_bg (t <| cells := cs |>)) with (pen_bg t).
    rewrite Hpf, Hpb. change (cells (t <| cells := cs |>)) with cs. rewrite Z.add_assoc.
    change (mkCell (codepoint x) (fg x) (bg x) (Z.lor (Z.land (attrs x) 7) ATTR_WIDE_TAIL)) with (tail_of x). rewrite E2. by eexists. }
  destruct Hsecond as (t1 & -> & Ht1). cbn [mbind option_bind].
  set (cl := mkCluster _ _ _ _ _ _). eexists. split; [reflexivity|].
  assert (H1 : cols t1 = cols t /\ rows t1 = rows t /\ scroll_bottom t1 = scroll_bottom t /\ autowrap t1 = autowrap t /\
    cells t1 = cs' /\ cursor_row t1 = cursor_row t /\ cursor_col t1 = cursor_col t /\ pen_fg t1 = pen_fg t /\ pen_bg t1 = pen_bg t /\
    pen_attrs t1 = pen_attrs t /\ in_alt t1 = in_alt t /\ cursor_visible t1 = cursor_visible t) by (rewrite Ht1; by split_and!).
  clear Ht1. destruct H1 as (A1 & A2 & A3 & A4 & A5 & A6 & A7 & A8 & A9 & A10 & A11 & A12).
  destruct (dirty_frame r (t1 <| open_cluster := Some cl |>)) as (B1 & B2 & B3 & B4 & B5 & B6 & B7 & B8 & (B9 & B10 & B11) & B12 & B13).
  set (t2 := dirty r (t1 <| open_cluster := Some cl |>)) in *. clearbody t2.
  apply advance_draws; [exact Hcols|exact Hk|exact Hw1|exact Hkw|..].
  - exact (eq_trans B1 (eq_trans A1 Hc)).
  - exact (eq_trans B2 (eq_trans A2 Hro)).
  - exact (eq_trans B3 (eq_trans A3 Hsb)).
  - exact (eq_trans B4 (eq_trans A4 Haw)).
  - rewrite B5. exact (eq_trans (f_equal len A5) Hl).
  - intros i Hi. rewrite B5. change (cells (t1 <| open_cluster := Some cl |>)) with (cells t1). rewrite A5, Z.add_assoc. by apply Hg.
  - exact (eq_trans B6 (eq_trans A6 Hrow)).
  - exact (eq_trans B7 (eq_trans A7 Hcc)).
  - rewrite B8. exact Hz.
  - split_and!; [exact (eq_trans B9 (eq_trans A8 Hpf))|exact (eq_trans B10 (eq_trans A9 Hpb))|exact (eq_trans B11 (eq_trans A10 Hpa))].
  - exact (eq_trans B12 (eq_trans A11 Halt)).
  - exact (eq_trans B13 (eq_trans A12 Hvis)).
Qed.

(** One character at the cursor. *)
Lemma write_char_plain c t w :
  cluster_width c = w -> should_append c t = false -> wrap_if_needed_width w t = Some t ->
  (cols t <? w) || (remaining_cols t <? w) = false -> write_char c t = put_glyph c w t.
Proof. intros Hw Ha Hwr Hb. unfold write_char. rewrite Ha, Hw, Hwr. cbn [mbind option_bind]. by rewrite Hb. Qed.

Lemma no_append c t :
  is_cluster_continuer c = false -> is_regional_indicator c = false ->
  match open_cluster t with Some cl => oc_after_zwj cl = false | None => True end -> should_append c t = false.
Proof. intros H1 H2 H. unfold should_append. destruct (open_cluster t) as [cl|]; [|done]. by rewrite H1, H, H2, andb_false_r. Qed.

Lemma no_wrap w t : pending_wrap t = false -> w <= remaining_cols t -> wrap_if_needed_width w t = Some t.
Proof. intros Hp Hw. unfold wrap_if_needed_width. by rewrite Hp, (proj2 (Z.ltb_ge _ _)) by lia. Qed.

Lemma continuer_joiner : is_cluster_continuer 0x200d = true.
Proof. by vm_compute. Qed.

Lemma not_joiner c : is_cluster_continuer c = false -> (c =? 0x200d) = false.
Proof.
  intros H. destruct (c =? 0x200d) eqn:E; [|reflexivity]. apply Z.eqb_eq in E. rewrite E, continuer_joiner in H. exact H.
Qed.

Lemma split3 (a b c : bool) : a && negb b && negb c = true -> a = true /\ b = false /\ c = false.
Proof. destruct a, b, c; cbn; try discriminate. auto. Qed.

Lemma char_ok_split c : char_ok c = true ->
  printable c = true /\ is_cluster_continuer c = false /\ is_regional_indicator c = false /\ (c =? 0x200d) = false.
Proof.
  intros H. destruct (split3 _ _ _ H) as (H1 & H2 & H3). exact (conj H1 (conj H2 (conj H3 (not_joiner c H2)))).
Qed.

Lemma width_of {c b} : is_wide c = b -> cluster_width c = if b then 2 else 1.
Proof. unfold cluster_width. by intros ->. Qed.

Lemma write_char_draws x k w t :
  cluster_width (codepoint x) = w ->
  drawing s r k (fg x) (bg x) (Z.land (attrs x) 7) t -> char_ok (codepoint x) = true ->
  0 <= k -> k + w <= cols s ->
  zget (cells s) (r * cols s + k) =
    Some (x <| attrs := Z.lor (Z.land (attrs x) 7) (if w =? 2 then ATTR_WIDE_LEAD else 0) |>) ->
  (w = 2 -> zget (cells s) (r * cols s + k + 1) = Some (tail_of x)) ->
  exists t', write_char (codepoint x) t = Some t' /\ drawing s r (k + w) (fg x) (bg x) (Z.land (attrs x) 7) t'.
Proof.
  intros Hcw Hd Hchar Hk Hkw Hx Htail. destruct (char_ok_split _ Hchar) as (_ & Hcont & Hri & Hz).
  pose proof (cluster_width_cases (codepoint x)) as Hw. rewrite Hcw in Hw.
  pose proof (dw_cols _ _ _ _ _ _ _ Hd) as Hc.
  destruct (dw_col _ _ _ _ _ _ _ Hd) as [Hcc Hpw]; [lia|].
  assert (Hrem : w <= remaining_cols t) by (unfold remaining_cols; rewrite Hc, Hcc; num).
  rewrite (write_char_plain _ t w Hcw (no_append _ _ Hcont Hri (dw_calm _ _ _ _ _ _ _ Hd)) (no_wrap _ _ Hpw Hrem)).
  - by apply put_glyph_draws.
  - rewrite Hc. apply orb_false_iff. split; apply Z.ltb_ge; lia.
Qed.

(** What the encoder has written so far draws [s] up to column [k] of the row. *)
Context (t0 : Screen) (Hpaint : paintable s = true).
Definition drawn (k : Z) (p : Pen) : Prop := exists evs t,
  says (out p) evs /\ replay evs t0 = Some t /\ drawing s r k (last_fg p) (last_bg p) (last_attrs p) t.

Lemma drawn_says k p w evs' k' f b a :
  drawn k p -> says w evs' ->
  (forall t, drawing s r k (last_fg p) (last_bg p) (last_attrs p) t -> exists t', replay evs' t = Some t' /\ drawing s r k' f b a t') ->
  drawn k' (mkPen (out p ++ w) f b a).
Proof.
  intros (evs & t & Hs & Ht & Hd) Hw Hstep. destruct (Hstep t Hd) as (t' & Ht' & Hd'). exists (evs ++ evs'), t'. split_and!.
  - by apply says_app.
  - by rewrite replay_app, Ht.
  - exact Hd'.
Qed.

Definition cell_of (c : Z) : option Cell := zget (cells s) (idx c r s).

Lemma cell_in c : 0 <= c < cols s -> exists x, cell_of c = Some x /\ cell_ok x.
Proof. by apply cell_at_safe. Qed.

Lemma paintable_cases c x : 0 <= c < cols s -> cell_of c = Some x ->
  narrow x = true \/ (lead x = true /\ c + 1 < cols s /\ cell_of (c + 1) = Some (tail_of x)) \/
  (0 < c /\ exists y, cell_of (c - 1) = Some y /\ lead y = true /\ x = tail_of y).
Proof.
  intros Hc Hx. pose proof (paintable_cell s r c Hpaint Hr Hc) as H. unfold paintable_at in H. unfold cell_of in *. rewrite Hx in H.
  rewrite !orb_true_iff, !andb_true_iff, bool_decide_eq_true in H. unfold idx in *.
  destruct H as [[H|[[Hl Hlt] Ht]]|[H0 Hy]]; [by left| |].
  - right; left. split_and!; [done|lia|]. by replace (r * cols s + (c + 1)) with (r * cols s + c + 1) by lia.
  - right; right. split; [lia|]. replace (r * cols s + (c - 1)) with (r * cols s + c - 1) by lia.
    destruct (zget (cells s) (r * cols s + c - 1)) as [y|] eqn:Ey; [|done]. exists y. split; [done|]. apply andb_true_iff in Hy as [Hl Ht]. by apply bool_decide_eq_true in Ht.
Qed.

(** Whether the cell at a column is the tail of a wide character already drawn. *)
Definition tl (c : Z) : Z :=
  if c <? cols s then match cell_of c with Some x => if has_attr (attrs x) ATTR_WIDE_TAIL then 1 else 0 | None => 0 end else 0.

Lemma lead_not_narrow x : lead x = true -> narrow x = false.
Proof. unfold lead, narrow. destruct (is_wide _); [by rewrite andb_false_r|by rewrite andb_false_r]. Qed.

Lemma tl_next c x : 0 <= c < cols s -> cell_of c = Some x -> tl (c + 1) = if lead x then 1 else 0.
Proof.
  intros Hc Hx. destruct (lead x) eqn:Hl.
  - destruct (paintable_cases c x Hc Hx) as [Hn|[(_ & Hlt & Ht)|(_ & y & _ & Hy & ->)]].
    + by rewrite lead_not_narrow in Hn.
    + unfold tl. rewrite (proj2 (Z.ltb_lt _ _)), Ht by lia. by rewrite (proj1 (tail_is_tail x)).
    + apply lead_no_tail in Hl. by rewrite (proj1 (tail_is_tail y)) in Hl.
  - unfold tl. destruct (Z.ltb_spec (c + 1) (cols s)); [|done]. destruct (cell_in (c + 1)) as (z & Hz & _); [lia|]. rewrite Hz.
    destruct (paintable_cases (c + 1) z) as [Hn|[(Hlz & _)|(_ & y & Hy & Hly & _)]]; [lia|done|..].
    + by rewrite narrow_no_tail.
    + by rewrite lead_no_tail.
    + replace (c + 1 - 1) with c in Hy by lia. congruence.
Qed.

Definition has_pen (x : Cell) (p : Pen) : Prop := last_fg p = fg x /\ last_bg p = bg x /\ last_attrs p = Z.land (attrs x) 7.
Definition cell_inv (c : Z) (p : Pen) : Prop :=
  drawn (c + tl c) p /\ (tl c = 1 -> forall x, cell_of c = Some x -> has_pen x p).

(** The pen part of a cell. *)
Definition set_pen_to (x : Cell) (p : Pen) : option Pen :=
  if negb (bool_decide (fg x = last_fg p)) || negb (bool_decide (bg x = last_bg p)) || negb (Z.land (attrs x) 7 =? last_attrs p) then
    let o := emit_attrs (out p ++ elit "[0m") (attrs x) in
    o ← emit_color o true (fg x);
    o ← emit_color o false (bg x);
    Some (mkPen o (fg x) (bg x) (Z.land (attrs x) 7))
  else Some p.

Lemma set_pen_keeps x p : has_pen x p -> set_pen_to x p = Some p.
Proof. intros (H1 & H2 & H3). unfold set_pen_to. rewrite H1, H2, H3, !bool_decide_eq_true_2, Z.eqb_refl by done. done. Qed.

Lemma set_pen_draws k x p : cell_ok x -> drawn k p -> exists p1, set_pen_to x p = Some p1 /\ drawn k p1 /\ has_pen x p1.
Proof.
  intros (_ & Hf & Hb & _) Hd. unfold set_pen_to.
  destruct (negb (bool_decide (fg x = last_fg p)) || negb (bool_decide (bg x = last_bg p)) || negb (Z.land (attrs x) 7 =? last_attrs p)) eqn:E.
  - destruct (emit_attrs_eq (out p ++ elit "[0m") (attrs x)) as (w & -> & Hw). rewrite !emit_color_eq by done.
    cbn [mbind option_bind]. rewrite emit_color_eq by done. cbn [mbind option_bind]. eexists. split; [done|]. split; [|done].
    rewrite <- !app_assoc. eapply drawn_says with (evs' := pen_events x); [done| |].
    + unfold pen_events. change (sgr 0 :: ?l) with ([sgr 0] ++ l). apply says_app; [by apply (says_sgr 0)|].
      apply says_app; [done|]. by apply says_app; apply says_color.
    + intros t Ht. exists (with_pen x t). split; [by apply replay_pen|by eapply drawing_pen].
  - exists p. split_and!; try done. apply orb_false_iff in E as [[E1 E2]%orb_false_iff E3].
    apply negb_false_iff, bool_decide_eq_true in E1, E2. apply negb_false_iff in E3. unfold has_pen. split_and!; [done..|lia].
Qed.

Lemma push_char_eq o c : printable c = true -> push_codepoint o c = o ++ encode_utf8 c.
Proof. unfold push_codepoint, char_from_u32, printable. by intros [[-> _]%andb_true_iff _]%andb_true_iff. Qed.

Lemma repaint_cell_eq c p x : cell_of c = Some x -> repaint_cell s r c p =
  (p ← set_pen_to x p;
   if has_attr (attrs x) ATTR_WIDE_TAIL then Some p else Some (p <| out := push_codepoint (out p) (codepoint x) |>)).
Proof. unfold cell_of, repaint_cell. by intros ->. Qed.

(** Printing the cell's character with its pen. *)
Lemma print_draws c x p w :
  0 <= c -> drawn c p -> has_pen x p -> char_ok (codepoint x) = true -> cluster_width (codepoint x) = w -> c + w <= cols s ->
  cell_of c = Some (x <| attrs := Z.lor (Z.land (attrs x) 7) (if w =? 2 then ATTR_WIDE_LEAD else 0) |>) ->
  (w = 2 -> cell_of (c + 1) = Some (tail_of x)) ->
  drawn (c + w) (p <| out := push_codepoint (out p) (codepoint x) |>).
Proof.
  intros Hc Hd (H1 & H2 & H3) Hok Hw Hle Hx Ht.
  assert (Hpr : printable (codepoint x) = true) by (unfold char_ok in Hok; rewrite !andb_true_iff in Hok; apply Hok).
  rewrite push_char_eq by done.
  replace (p <| out := out p ++ encode_utf8 (codepoint x) |>)
    with (mkPen (out p ++ encode_utf8 (codepoint x)) (fg x) (bg x) (Z.land (attrs x) 7)) by (rewrite <- H1, <- H2, <- H3; by destruct p).
  eapply drawn_says; [exact Hd|by apply says_char|]. rewrite H1, H2, H3. intros t Hdt.
  destruct (write_char_draws x c w t Hw Hdt Hok Hc Hle Hx) as (t' & E & Hd').
  { intros E2. rewrite <- Z.add_assoc. by apply Ht. }
  exists t'. split; [|done]. unfold replay. cbn [for_each perform]. change (print (codepoint x) t) with (write_char (codepoint x) t).
  by rewrite E.
Qed.

Lemma repaint_cell_draws c p : 0 <= c < cols s -> cell_inv c p -> safe (repaint_cell s r c p) (cell_inv (c + 1)).
Proof.
  intros Hc [Hd Hpen]. destruct (cell_in c Hc) as (x & Hx & Hok). pose proof (tl_next c x Hc Hx) as Hnext.
  rewrite (repaint_cell_eq _ _ x) by done.
  assert (Htl : tl c = if has_attr (attrs x) ATTR_WIDE_TAIL then 1 else 0) by (unfold tl; by rewrite (proj2 (Z.ltb_lt _ _)), Hx by lia).
  destruct (paintable_cases c x Hc Hx) as [Hn|[(Hl & Hlt & Ht)|(_ & y & _ & _ & ->)]].
  - rewrite (narrow_no_tail _ Hn) in *. rewrite Htl, Z.add_0_r in Hd.
    destruct (set_pen_draws _ x p Hok Hd) as (p1 & -> & Hd1 & Hp1). cbn [mbind option_bind]. apply safe_ret.
    assert (Hnl : lead x = false) by (destruct (lead x) eqn:E; [by rewrite lead_not_narrow in Hn|done]). rewrite Hnl in Hnext.
    split; [|by rewrite Hnext]. rewrite Hnext, Z.add_0_r. unfold narrow in Hn. rewrite !andb_true_iff, negb_true_iff in Hn.
    destruct Hn as [[Hch Hw] Ha].
    apply print_draws; [exact (proj1 Hc)|exact Hd1|exact Hp1|exact Hch|exact (width_of Hw)|clear -Hc; lia| |discriminate].
    rewrite Hx. cbn [Z.eqb Pos.eqb]. rewrite Z.lor_0_r. replace (Z.land (attrs x) 7) with (attrs x) by lia. by destruct x.
  - rewrite (lead_no_tail _ Hl) in *. rewrite Htl, Z.add_0_r in Hd.
    destruct (set_pen_draws _ x p Hok Hd) as (p1 & -> & Hd1 & Hp1). cbn [mbind option_bind]. apply safe_ret.
    rewrite Hl in Hnext. pose proof Hl as Hl'. unfold lead in Hl'. rewrite !andb_true_iff in Hl'. destruct Hl' as [[Hch Hw] Ha].
    split.
    + rewrite Hnext. replace (c + 1 + 1) with (c + 2) by lia. 
      apply print_draws; [exact (proj1 Hc)|exact Hd1|exact Hp1|exact Hch|exact (width_of Hw)|clear -Hlt; lia| |intros _; exact Ht].
      rewrite Hx. cbn [Z.eqb Pos.eqb]. replace (Z.lor (Z.land (attrs x) 7) ATTR_WIDE_LEAD) with (attrs x) by lia. by destruct x.
    + intros _ z Hz. rewrite Ht in Hz. injection Hz as <-. destruct Hp1 as (H1 & H2 & H3). split_and!; [exact H1|exact H2|].
      by rewrite (proj2 (tail_is_tail x)).
  - rewrite (proj1 (tail_is_tail y)) in *. rewrite Htl in Hd. rewrite set_pen_keeps by (by apply Hpen). cbn [mbind option_bind].
    apply safe_ret. assert (lead (tail_of y) = false) as Hnl.
    { destruct (lead (tail_of y)) eqn:E; [|done]. apply lead_no_tail in E. by rewrite (proj1 (tail_is_tail y)) in E. }
    rewrite Hnl in Hnext. split; [by rewrite Hnext, Z.add_0_r|by rewrite Hnext].
Qed.

(** ** Rows *)

(** The columns past the last one used are blank. *)
Lemma last_used_eq : safe (last_used s r) (fun last => 0 <= last <= cols s /\ forall c, last <= c < cols s -> cell_of c = Some (blank Default)).
Proof.
  pose proof (wf_cols _ Hwf) as Hcols. unfold MAX_TAB_COLS in Hcols. unfold last_used.
  apply (for_range _ (fun c last => 0 <= last <= c /\ forall c', last <= c' < c -> cell_of c' = Some (blank Default)) 0 (cols s) 0); [lia|split; lia|].
  intros c last Hc [Hl Hb]. destruct (cell_in c Hc) as (x & Hx & _). change (zget (cells s) (idx c r s)) with (cell_of c). rewrite Hx.
  cbn [mbind option_bind]. destruct (cell_is_blank x) eqn:E; cbn [negb].
  - apply safe_ret. split; [lia|]. intros c' Hc'. destruct (decide (c' = c)) as [-> |]; [|apply Hb; lia]. rewrite Hx. f_equal.
    unfold cell_is_blank in E. rewrite !andb_true_iff, !bool_decide_eq_true in E. destruct E as [[[E1 E2] E3] E4].
    destruct x; cbn in *. unfold blank. f_equal; lia || done.
  - unfold chk_add. case_if; [|lia]. apply safe_ret. split; lia.
Qed.

Definition row_end (p : Pen) : Prop := drawn (cols s) p.

Lemma rest_blank k f b a t : drawing s r k f b a t -> 0 <= k -> (forall c, k <= c < cols s -> cell_of c = Some (blank Default)) ->
  k < cols s \/ k = cols s -> drawing s r (cols s) f b a t.
Proof.
  intros [] Hk Hb Hle. constructor; try done; [|lia]. intros i Hi. rewrite dw_cells0 by done.
  destruct (Z.ltb_spec i (r * cols s + k)); [by rewrite (proj2 (Z.ltb_lt _ _)) by lia|].
  destruct (Z.ltb_spec i (r * cols s + cols s)); [|done]. specialize (Hb (i - r * cols s) ltac:(lia)). unfold cell_of, idx in Hb.
  replace (r * cols s + (i - r * cols s)) with i in Hb by lia. by rewrite Hb.
Qed.

Lemma cells_draw p : drawn 0 p ->
  safe (last ← last_used s r; for_each (range 0 last) (repaint_cell s r) p) row_end.
Proof.
  intros Hd. eapply safe_bind; [apply last_used_eq|]. intros last [Hl Hb].
  eapply safe_mono; [apply (for_range (repaint_cell s r) cell_inv 0 last p); [lia| |]|].
  - assert (tl 0 = 0) as Htl.
    { unfold tl. destruct (Z.ltb_spec 0 (cols s)); [|done]. destruct (cell_in 0) as (z & Hz & _); [lia|]. rewrite Hz.
      destruct (paintable_cases 0 z) as [Hn|[(Hlz & _)|(? & _)]]; [lia|done|by rewrite narrow_no_tail|by rewrite lead_no_tail|lia]. }
    split; [by rewrite Htl|by rewrite Htl].
  - intros c q Hc. apply repaint_cell_draws. lia.
  - intros q [(evs & t & H1 & H2 & H3) _]. exists evs, t. split_and!; [done..|].
    assert (tl last = 0) as Htl.
    { unfold tl. destruct (Z.ltb_spec last (cols s)); [|done]. by rewrite Hb by lia. }
    rewrite Htl, Z.add_0_r in H3. eapply rest_blank; [exact H3|lia|done|lia].
Qed.
End Draw.

(** ** The whole screen *)

Definition redrawn (s t : Screen) : Prop :=
  cells t = cells s /\ cols t = cols s /\ rows t = rows s /\ cursor_col t = cursor_col s /\ cursor_row t = cursor_row s /\
  cursor_visible t = cursor_visible s /\ in_alt t = in_alt s /\ pending_wrap t = false.

(** A screen that can be drawn on: it wraps, scrolls as a whole, erases to the
    default colour, shows the primary grid and the cursor.  Its cells, cursor and
    the rest of its pen are arbitrary. *)
Record ready_for (s t : Screen) : Prop := {
  rf_wf : wf t;
  rf_cols : cols t = cols s;
  rf_rows : rows t = rows s;
  rf_bottom : scroll_bottom t = rows s - 1;
  rf_autowrap : autowrap t = true;
  rf_pen : pen_bg t = Default;
  rf_alt : in_alt t = false;
  rf_visible : cursor_visible t = true;
}.

(** A ready screen, cleared, with the cursor at home. *)
Record cleared (s t : Screen) : Prop := {
  cd_cols : cols t = cols s;
  cd_rows : rows t = rows s;
  cd_bottom : scroll_bottom t = rows s - 1;
  cd_autowrap : autowrap t = true;
  cd_len : len (cells t) = cols s * rows s;
  cd_cells : forall i, 0 <= i < cols s * rows s -> zget (cells t) i = Some (blank Default);
  cd_row : cursor_row t = 0;
  cd_col : cursor_col t = 0 /\ pending_wrap t = false;
  cd_calm : open_cluster t = None;
  cd_pen : pen_bg t = Default;
  cd_alt : in_alt t = false;
  cd_visible : cursor_visible t = true;
}.

Definition clear_seq : list Z := elit "[2J" ++ elit "[H".
Definition clear_events : list Event := [ECsi [2] [] false (ch "J"); ECsi [] [] false (ch "H")].

Lemma says_clear : says clear_seq clear_events.
Proof.
  apply (says_app _ _ [_] [_]); [|by apply says_csi_bare]. apply (says_csi [] [2]); [by left|done|by repeat constructor|done|done].
Qed.

Lemma perform_erase (t : Screen) :
  perform (ECsi [2] [] false (ch "J")) t = (s ← erase_span 0 (len (cells t)) t; Some (s <| full_damage := true |>)).
Proof. reflexivity. Qed.

Lemma perform_home (t : Screen) : perform (ECsi [] [] false (ch "H")) t = Some (set_cursor 0 0 t).
Proof. reflexivity. Qed.

Lemma home_cleared s t :
  wf s -> cols t = cols s -> rows t = rows s -> scroll_bottom t = rows s - 1 -> autowrap t = true ->
  len (cells t) = cols s * rows s -> (forall i, 0 <= i < cols s * rows s -> zget (cells t) i = Some (blank Default)) ->
  pen_bg t = Default -> in_alt t = false -> cursor_visible t = true -> cleared s (set_cursor 0 0 t).
Proof.
  intros Hs Hc Hr Hsb Haw Hl Hcells Hp Ha Hv. pose proof (wf_cols _ Hs). pose proof (wf_rows _ Hs).
  constructor; [exact Hc|exact Hr|exact Hsb|exact Haw|exact Hl|exact Hcells| |split; [|reflexivity]|reflexivity|exact Hp|exact Ha|exact Hv].
  - change (Z.min 0 (last_row t) = 0). unfold last_row. num.
  - change (Z.min 0 (last_col t) = 0). unfold last_col. num.
Qed.

(** Erasing everything. *)
Lemma erase_all t : wf t -> exists t1, erase_span 0 (len (cells t)) t = Some t1 /\
  cols t1 = cols t /\ rows t1 = rows t /\ scroll_bottom t1 = scroll_bottom t /\ autowrap t1 = autowrap t /\
  pen_bg t1 = pen_bg t /\ in_alt t1 = in_alt t /\ cursor_visible t1 = cursor_visible t /\ len (cells t1) = len (cells t) /\
  forall i, 0 <= i < len (cells t) -> zget (cells t1) i = Some (blank (pen_bg t)).
Proof.
  intros Hwf. pose proof (len_nonneg (cells t)) as H0.
  destruct (erase_span_eq 0 (len (cells t)) t Hwf (Z.le_refl 0) H0) as (t1 & E & [(cs & a & b & Ht) Hcells]).
  pose proof (safe_inv _ _ _ (erase_span_good 0 (len (cells t)) t Hwf (Z.le_refl 0) H0) E) as [Hwf1 _].
  exists t1. assert (cols t1 = cols t) as Hc by (by rewrite Ht). assert (rows t1 = rows t) as Hr by (by rewrite Ht).
  split_and!; try (by rewrite Ht); try done.
  - rewrite (wf_len _ Hwf1), (wf_len _ Hwf), Hc, Hr. done.
  - intros i Hi. specialize (Hcells i Hi). by rewrite (proj2 (andb_true_iff _ _)) in Hcells by lia.
Qed.

Lemma clear_ready s t : wf s -> ready_for s t -> exists t', replay clear_events t = Some t' /\ cleared s t'.
Proof.
  intros Hs [Hwf Hc Hr Hsb Haw Hp Ha Hv]. pose proof (wf_len _ Hwf) as Hlen. rewrite Hc, Hr in Hlen.
  destruct (erase_all t Hwf) as (t1 & E & E1 & E2 & E3 & E4 & E5 & E6 & E7 & E8 & E9). rewrite Hp, Hlen in *.
  exists (set_cursor 0 0 (t1 <| full_damage := true |>)). split.
  - unfold replay, clear_events. cbn [for_each]. rewrite perform_erase, Hlen, E. done.
  - apply home_cleared; [exact Hs|exact (eq_trans E1 Hc)|exact (eq_trans E2 Hr)|exact (eq_trans E3 Hsb)|exact (eq_trans E4 Haw)|
      exact E8|exact E9|exact E5|exact (eq_trans E6 Ha)|exact (eq_trans E7 Hv)].
Qed.

(** The start: the alternate screen if [s] is on it, and the default pen. *)
Definition start_seq (s : Screen) : list Z := (if in_alt s then elit "[?1049h" else []) ++ elit "[0m".
Definition start_events (s : Screen) : list Event :=
  (if in_alt s then [ECsi [1049] [ch "?"] false (ch "h")] else []) ++ [sgr 0].

Lemma says_start s : says (start_seq s) (start_events s).
Proof.
  apply says_app; [|by apply (says_sgr 0)]. destruct (in_alt s); [|apply says_nil].
  apply (says_csi [ch "?"] [1049]); [|done|by repeat constructor|done|done]. right. exists (ch "?"). by split.
Qed.

Lemma start_draws s t : wf s -> cleared s t -> exists t', replay (start_events s) t = Some t' /\ drawing s 0 0 Default Default 0 t'.
Proof.
  intros Hs [Hc Hr Hsb Haw Hl Hcells Hrow [Hcol Hpw] Hcalm Hp Ha Hv]. pose proof (wf_cols _ Hs). pose proof (wf_rows _ Hs).
  unfold start_events. rewrite replay_app.
  assert (Hbase : forall t', cols t' = cols s -> rows t' = rows s -> scroll_bottom t' = rows s - 1 -> autowrap t' = true ->
    len (cells t') = cols s * rows s -> (forall i, 0 <= i < cols s * rows s -> zget (cells t') i = Some (blank Default)) ->
    cursor_row t' = 0 -> cursor_col t' = 0 -> pending_wrap t' = false -> open_cluster t' = None -> in_alt t' = in_alt s ->
    cursor_visible t' = true -> exists t2, replay [sgr 0] t' = Some t2 /\ drawing s 0 0 Default Default 0 t2).
  { intros t' H1 H2 H3 H4 H5 H6 H7 H8 H9 H10 H11 H12. eexists. split; [reflexivity|].
    constructor; [exact H1|exact H2|exact H3|exact H4|exact H5| |exact H7|intros _; exact (conj H8 H9)| |by split_and!|exact H11|exact H12].
    - intros i Hi. rewrite (proj2 (Z.ltb_ge _ _)) by lia. by apply H6.
    - cbn. by rewrite H10. }
  destruct (in_alt s) eqn:Es; cbn [replay for_each mbind option_bind]; [|apply Hbase; congruence || done].
  set (t1 := enter_alt true true t).
  change (perform (ECsi [1049] [ch "?"] false (ch "h")) t) with (Some t1). cbn [mbind option_bind].
  assert (Ht1 : t1 = (set_cursor 0 0 ((t <| saved_grid := Some (cells t) |> <| alt_cursor := Some (capture_cursor t) |>) <| cells := blank_grid t |>))
                  <| in_alt := true |> <| full_damage := true |>) by (subst t1; unfold enter_alt; rewrite Ha; done).
  apply Hbase; rewrite Ht1; try assumption; try reflexivity.
  - change (len (blank_grid t) = cols s * rows s). unfold blank_grid. rewrite len_replicate, Hc, Hr. nia.
  - intros i Hi. change (zget (blank_grid t) i = Some (blank Default)). unfold blank_grid. rewrite Hc, Hr, Hp, zget_replicate.
    by rewrite (proj2 (andb_true_iff _ _)) by nia.
  - change (Z.min 0 (sat_sub (rows t) 1) = 0). num.
  - change (Z.min 0 (sat_sub (cols t) 1) = 0). num.
Qed.

(** The end of a row that is not the last. *)
Definition newline_events : list Event := [EExecute 0x0d; EExecute 0x0a; sgr 0].

Lemma says_newline : says ([0x0d; 0x0a] ++ elit "[0m") newline_events.
Proof.
  apply (says_app _ _ [_; _] [_]); [|by apply (says_sgr 0)].
  apply (says_app [0x0d] [0x0a] [_] [_]); by apply says_c0.
Qed.

Lemma newline_draws s r f b a t : 0 <= r -> r + 1 < rows s -> rows s <= u16_max -> drawing s r (cols s) f b a t ->
  exists t', replay newline_events t = Some t' /\ (1 <= cols s -> drawing s (r + 1) 0 Default Default 0 t').
Proof.
  intros Hr Hlt Hmax [Hc Hro Hsb Haw Hl Hcells Hrow _ _ _ Ha Hv]. unfold replay, newline_events. cbn [for_each perform].
  set (t1 := (clear_pending_wrap t <| open_cluster := None |>) <| cursor_col := 0 |>).
  change (execute 13 t) with (Some t1). cbn [mbind option_bind].
  change (execute 10 t1) with (index (clear_pending_wrap t1 <| open_cluster := None |>)). unfold index.
  change (cursor_row (clear_pending_wrap t1 <| open_cluster := None |>)) with (cursor_row t).
  change (scroll_bottom (clear_pending_wrap t1 <| open_cluster := None |>)) with (scroll_bottom t).
  rewrite Hrow, Hsb, (proj2 (Z.ltb_lt _ _)) by lia. unfold chk_add. rewrite (proj2 (Z.leb_le _ _)) by lia.
  cbn [mbind option_bind]. eexists. split; [reflexivity|]. intros Hcols.
  constructor; [exact Hc|exact Hro|exact Hsb|exact Haw|exact Hl| |reflexivity|intros _; split; reflexivity|exact I|by split_and!|exact Ha|exact Hv].
  intros i Hi. replace ((r + 1) * cols s + 0) with (r * cols s + cols s) by lia. by apply Hcells.
Qed.

(** The end: the cursor is put in its place, and hidden if it was. *)
Definition end_seq (s : Screen) : list Z :=
  csi_seq [cursor_row s + 1; cursor_col s + 1] (ch "H") ++ (if cursor_visible s then [] else elit "[?25l").
Definition end_events (s : Screen) : list Event :=
  [ECsi [cursor_row s + 1; cursor_col s + 1] [] false (ch "H")]
  ++ (if cursor_visible s then [] else [ECsi [25] [ch "?"] false (ch "l")]).

Lemma says_end s : wf s -> says (end_seq s) (end_events s).
Proof.
  intros []. unfold MAX_TAB_COLS in *. apply says_app.
  - apply (says_csi []); [by left|done|repeat constructor; num|done|done].
  - destruct (cursor_visible s); [apply says_nil|]. apply (says_csi [ch "?"] [25]); [|done|by repeat constructor|done|done].
    right. exists (ch "?"). by split.
Qed.

Lemma csi_n_pos ps i v d : zget ps i = Some v -> 0 < v -> csi_n ps i d = v.
Proof. intros H Hv. unfold csi_n. rewrite H. by rewrite (proj2 (Z.eqb_neq _ _)) by lia. Qed.

Lemma end_redraws s f b a t : wf s -> drawing s (rows s - 1) (cols s) f b a t ->
  exists t', replay (end_events s) t = Some t' /\ redrawn s t'.
Proof.
  intros Hwf [Hc Hr Hsb Haw Hl Hcells Hrow _ _ _ Ha Hv]. pose proof Hwf as []. unfold MAX_TAB_COLS in *.
  unfold end_events. rewrite replay_app.
  set (t1 := set_cursor (cursor_row s) (cursor_col s) t).
  assert (replay [ECsi [cursor_row s + 1; cursor_col s + 1] [] false (ch "H")] t = Some t1) as ->.
  { unfold replay. cbn [for_each]. change (perform (ECsi ?ps [] false (ch "H")) t) with
      (Some (set_cursor (sat_sub (csi_n [cursor_row s + 1; cursor_col s + 1] 0 1) 1) (sat_sub (csi_n [cursor_row s + 1; cursor_col s + 1] 1 1) 1) t)).
    cbn [mbind option_bind]. rewrite (csi_n_pos _ 0 (cursor_row s + 1)), (csi_n_pos _ 1 (cursor_col s + 1)) by (reflexivity || lia).
    unfold sat_sub. subst t1. do 2 f_equal; num. }
  cbn [mbind option_bind].
  assert (Hcells' : cells t = cells s).
  { apply zget_ext; [lia|]. intros i Hi. rewrite Hcells by lia. case_if; [done|]. lia. }
  assert (Hrd : forall v, v = cursor_visible s -> redrawn s (t1 <| cursor_visible := v |>)).
  { intros v Hvv. unfold redrawn. split_and!; [exact Hcells'|exact Hc|exact Hr| | |exact Hvv|exact Ha|reflexivity].
    - change (Z.min (cursor_col s) (sat_sub (cols t) 1) = cursor_col s). num.
    - change (Z.min (cursor_row s) (sat_sub (rows t) 1) = cursor_row s). num. }
  destruct (cursor_visible s) eqn:Ev; (eexists; split; [reflexivity|]); [|by apply Hrd].
  specialize (Hrd true eq_refl). assert (t1 <| cursor_visible := true |> = t1) as E; [|by rewrite E in Hrd].
  assert (cursor_visible t1 = true) as Hv1 by exact Hv. revert Hv1. clear. by destruct t1; cbn; intros ->.
Qed.

(** ** The rows in turn *)

Definition rows_inv (s t0 : Screen) (r : Z) (p : Pen) : Prop :=
  if r <? rows s then drawn s r t0 0 p else drawn s (rows s - 1) t0 (cols s) p.

Lemma repaint_row_draws s t0 r p :
  wf s -> paintable s = true -> 0 <= r < rows s -> rows_inv s t0 r p -> safe (repaint_row s r p) (rows_inv s t0 (r + 1)).
Proof.
  intros Hs Hp Hr Hd. pose proof (wf_rows _ Hs). pose proof (wf_cols _ Hs). unfold rows_inv in Hd.
  rewrite (proj2 (Z.ltb_lt _ _)) in Hd by lia.
  destruct (cells_draw s Hs r Hr t0 Hp p Hd) as (q & E & Hq). unfold row_end in Hq.
  apply bind_Some in E as (last & E1 & E2). unfold repaint_row. rewrite E1. cbn [mbind option_bind]. rewrite E2. cbn [mbind option_bind].
  unfold chk_add. rewrite (proj2 (Z.leb_le _ _)) by num. cbn [mbind option_bind]. unfold rows_inv.
  destruct (Z.ltb_spec (r + 1) (rows s)); apply safe_ret.
  - destruct Hq as (evs & t & S1 & S2 & S3).
    destruct (newline_draws s r _ _ _ t ltac:(lia) ltac:(lia) ltac:(num) S3) as (t' & Ht' & Hd').
    exists (evs ++ newline_events), t'. split_and!; [exact (says_app _ _ _ _ S1 says_newline)|by rewrite replay_app, S2|apply Hd'; lia].
  - by replace (rows s - 1) with r by lia.
Qed.

(** The bytes of a repaint are the start, the rows and the end. *)
Lemma repaint_split s p : wf s ->
  for_each (range 0 (rows s)) (repaint_row s) (mkPen (start_seq s) Default Default 0) = Some p ->
  Repaint.repaint_bytes s = Some (out p ++ end_seq s).
Proof.
  intros Hs Hp. unfold Repaint.repaint_bytes. fold (start_seq s). rewrite Hp. cbn [mbind option_bind].
  destruct Hs as [Hc Hr _ _ Hcc Hcr]. unfold MAX_TAB_COLS in Hc.
  assert (sat_add u16_max (cursor_row s) 1 = cursor_row s + 1) as -> by num.
  assert (sat_add u16_max (cursor_col s) 1 = cursor_col s + 1) as -> by num.
  rewrite push_u16_eq by num. cbn [mbind option_bind]. rewrite push_u16_eq by num. cbn [mbind option_bind].
  unfold end_seq, csi_seq, csi_marked, join_params. destruct (cursor_visible s); cbn [negb]; by rewrite <- ?app_assoc, ?app_nil_r.
Qed.

(** Fed to a ready screen, the clearing and the repaint redraw the screen. *)
Lemma repaint_redraws s t :
  wf s -> paintable s = true -> ready_for s t ->
  exists bs evs t', Repaint.repaint_bytes s = Some bs /\ says (clear_seq ++ bs) evs /\ replay evs t = Some t' /\ redrawn s t'.
Proof.
  intros Hs Hp Ht. destruct (clear_ready s t Hs Ht) as (t1 & E1 & H1). destruct (start_draws s t1 Hs H1) as (t2 & E2 & H2).
  pose proof (wf_rows _ Hs) as Hrows.
  destruct (for_range (repaint_row s) (rows_inv s t1) 0 (rows s) (mkPen (start_seq s) Default Default 0)) as (p & E & Hd); [lia| | |].
  { unfold rows_inv. rewrite (proj2 (Z.ltb_lt _ _)) by lia. exists (start_events s), t2. split_and!; [apply says_start|exact E2|exact H2]. }
  { intros r q Hr. by apply repaint_row_draws. }
  unfold rows_inv in Hd. rewrite Z.ltb_irrefl in Hd. destruct Hd as (evs & t3 & S3 & E3 & H3).
  destruct (end_redraws s _ _ _ t3 Hs H3) as (t4 & E4 & H4).
  exists (out p ++ end_seq s), (clear_events ++ evs ++ end_events s), t4. split_and!.
  - by apply repaint_split.
  - apply says_app; [apply says_clear|]. apply says_app; [exact S3|by apply says_end].
  - rewrite !replay_app, E1. cbn [mbind option_bind]. rewrite replay_app, E3. exact E4.
  - exact H4.
Qed.

(** Same size, whole scroll region, wrapping, default background, primary
    grid, cursor shown. *)
Definition ready (s t : Screen) : bool :=
  (cols t =? cols s) && (rows t =? rows s) && (scroll_bottom t =? rows s - 1) && autowrap t
  && bool_decide (pen_bg t = Default) && negb (in_alt t) && cursor_visible t.

Lemma ready_spec s t : wf t -> ready s t = true -> ready_for s t.
Proof.
  unfold ready. rewrite !andb_true_iff, !Z.eqb_eq, bool_decide_eq_true, negb_true_iff.
  intros Hwf [[[[[[H1 H2] H3] H4] H5] H6] H7]. by constructor.
Qed.

(** C7. A resync redraws the screen.  The bytes [resync_from_history] answers, which
    clear the screen and repaint the one the history leads to, fed to any idle
    engine whose screen has the same size, wraps, scrolls as a whole, erases to
    the default colour and shows the primary grid and its cursor, give exactly
    the cells, cursor position, cursor visibility and choice of grid of the
    replayed one.  The replayed screen may hold any narrow characters and whole
    wide ones with any colours and attributes, on either grid, and nothing else
    (flags are not redrawn, [flag_shifts_row]).  An engine with a stale pen or
    region is not redrawn either ([stale_pen_fills], [stale_region_scrolls]). *)
Theorem resync_redraws (history bs : list Z) (e e1 e2 : VtEngine) :
  engine_ok e -> bytes history -> resync_from_history history e = Some (Ok bs, e1) -> paintable (screen e1) = true ->
  engine_ok e2 -> is_idle (parser e2) = true -> ready (screen e1) (screen e2) = true ->
  exists e3, feed bs e2 = Some e3 /\ redrawn (screen e1) (screen e3).
Proof.
  intros He Hh E Hp (Hp2 & _ & Hwf2) Hidle%(is_idle_ok _ Hp2) Hready%(ready_spec _ _ Hwf2).
  destruct (safe_inv _ _ _ (resync_safe history e He Hh) E) as [(_ & _ & Hwf) _]. cbn [snd] in Hwf.
  destruct (repaint_redraws _ _ Hwf Hp Hready) as (rs & evs & t' & Hrs & Hsays & Hreplay & Hredrawn).
  assert (bs = clear_seq ++ rs) as ->.
  { unfold resync_from_history in E. destruct (reset e) as [[u|err] e0]; [|done].
    apply bind_Some in E as (e' & _ & E). apply bind_Some in E as (r & Hr & [= <- <-]).
    unfold repaint_bytes in Hr. rewrite Hrs in Hr. injection Hr as <-. unfold clear_seq. by rewrite <- app_assoc. }
  destruct (Hsays _ Hidle) as (p' & _ & Htr). exists (mkEngine p' t'). split; [|exact Hredrawn].
  unfold feed. rewrite Htr, Hreplay. done.
Qed.

(** The history's replay on a new grid of the size, its resync bytes, and
    whether an engine that was given [first] has the same cells after them. *)
Definition resync_same (c r : Z) (first history : list Z) : option bool :=
  match new c r with
  | Err _ => None
  | Ok e =>
      '(res, e1) ← resync_from_history history e;
      e2 ← feed first e;
      match res with
      | Err _ => None
      | Ok bs => e3 ← feed bs e2; Some (bool_decide (cells (screen e3) = cells (screen e1)))
      end
  end.

Definition sample_history : list Z :=
  lit "a" ++ elit "[1;31m" ++ [0xe6; 0x97; 0xa5; 0xe6; 0x9c; 0xac] ++ lit "X" ++ [13; 10] ++ elit "[48;2;1;2;3m" ++ lit "bc" ++ elit "[1;3H".
Definition sample_engine : VtEngine :=
  match new 6 2 with Ok e => e | Err _ => small_engine end.

(** Flags: two regional indicators each. *)
Definition flag_us : list Z := [0xf0; 0x9f; 0x87; 0xba; 0xf0; 0x9f; 0x87; 0xb8].
Definition flag_jp : list Z := [0xf0; 0x9f; 0x87; 0xaf; 0xf0; 0x9f; 0x87; 0xb5].
Lemma sample_engine_ok : engine_ok sample_engine.
Proof. apply (new_ok 6 2); [unfold MAX_TAB_COLS; lia|num|reflexivity]. Qed.

(** The sample's screen holds wide characters, colours and blanks; the engine
    it is redrawn on holds other text. *)
Lemma sample_ready :
  match resync_from_history sample_history sample_engine, feed (lit "junk") sample_engine with
  | Some (Ok _, e1), Some e2 => paintable (screen e1) && (is_idle (parser e2) && ready (screen e1) (screen e2))
  | _, _ => false
  end = true.
Proof. vm_compute. reflexivity. Qed.

Lemma resync_redraws_witness :
  exists bs e1 e2 e3, resync_from_history sample_history sample_engine = Some (Ok bs, e1) /\
    feed (lit "junk") sample_engine = Some e2 /\ feed bs e2 = Some e3 /\ redrawn (screen e1) (screen e3).
Proof.
  pose proof sample_ready as H.
  destruct (feed_safe (lit "junk") sample_engine sample_engine_ok) as (e2 & E2 & Hok & _); [by repeat constructor|].
  destruct (resync_safe sample_history sample_engine sample_engine_ok) as ([[bs|err] e1] & E1 & _ & Hres); [by repeat constructor| |discriminate Hres].
  rewrite E2, E1 in H.
  apply andb_true_iff in H as [H1 [H2 H3]%andb_true_iff].
  destruct (resync_redraws sample_history bs sample_engine e1 e2 sample_engine_ok) as (e3 & E3 & H4);
    [by repeat constructor|exact E1|exact H1|exact Hok|exact H2|exact H3|].
  exists bs, e1, e2, e3. exact (conj E1 (conj E2 (conj E3 H4))).
Defined.

(** A flag occupies two columns; the repaint writes only its first half, which
    prints in one, so the rest of the row moves left. *)
Lemma flag_shifts_row : resync_same 6 2 [] (flag_us ++ lit "ab") = Some false.
Proof. vm_compute. reflexivity. Qed.

(** Two flags in a row are repainted as one. *)
Lemma flags_merge : resync_same 6 2 [] (flag_us ++ flag_jp) = Some false.
Proof. vm_compute. reflexivity. Qed.

(** The clearing uses the pen the receiving engine was left with. *)
Lemma stale_pen_fills : resync_same 6 2 (elit "[41m") sample_history = Some false.
Proof. vm_compute. reflexivity. Qed.

(** Nor is a scroll region of the receiving engine reset. *)
Lemma stale_region_scrolls : resync_same 6 3 (elit "[1;2r") (lit "a" ++ [13; 10] ++ lit "b" ++ [13; 10] ++ lit "c") = Some false.
Proof. vm_compute. reflexivity. Qed.
