(* ===== verification/Attach.v ===== *)
(** The attach protocol of crates/rill-attach/src/lib.rs: tag, little-endian
    length, payload; the codec of the frames and the incremental decoder of a
    byte stream. *)
From S2P Require Import Prelude.

Local Open Scope Z_scope.

Definition MAX_FRAME : Z := 4 * 1024 * 1024.
Definition PROTOCOL_VERSION : Z := 1.
Definition PROTOCOL_2 : Z := 2.
Definition ATTACH_FLAG_OBSERVE : Z := 1.

(** [rill_attach::Error]; [std::io::Error] is carried as its code. *)
Inductive AttachError : Type :=
| UnknownTag (t : Z)
| UnknownRefuse (r : Z)
| Truncated
| TooLarge (n : Z)
| AttachIo (code : Z).

#[export] Instance attach_error_eq_dec : EqDecision AttachError.
Proof. solve_decision. Defined.

Inductive Tag : Type :=
| TData | TCredit | TResize | TExit | TAttach | TRefused | TCheckpoint | TDelta | TResyncRequest.

(** [tag as u8] *)
Definition tag_u8 (t : Tag) : Z :=
  match t with
  | TData => 1 | TCredit => 2 | TResize => 3 | TExit => 4 | TAttach => 5 | TRefused => 6
  | TCheckpoint => 7 | TDelta => 8 | TResyncRequest => 9
  end.

Definition tag_from_u8 (v : Z) : result AttachError Tag :=
  if v =? 1 then Ok TData
  else if v =? 2 then Ok TCredit
  else if v =? 3 then Ok TResize
  else if v =? 4 then Ok TExit
  else if v =? 5 then Ok TAttach
  else if v =? 6 then Ok TRefused
  else if v =? 7 then Ok TCheckpoint
  else if v =? 8 then Ok TDelta
  else if v =? 9 then Ok TResyncRequest
  else Err (UnknownTag v).

Inductive RefuseReason : Type := AlreadyAttached | Invalid | ProtocolMismatch.

#[export] Instance refuse_eq_dec : EqDecision RefuseReason.
Proof. solve_decision. Defined.

Definition refuse_u8 (r : RefuseReason) : Z :=
  match r with AlreadyAttached => 1 | Invalid => 2 | ProtocolMismatch => 3 end.

Definition refuse_from_u8 (v : Z) : result AttachError RefuseReason :=
  if v =? 1 then Ok AlreadyAttached
  else if v =? 2 then Ok Invalid
  else if v =? 3 then Ok ProtocolMismatch
  else Err (UnknownRefuse v).

Inductive Frame : Type :=
| Data (bs : list Z)
| Credit (n : Z)
| Resize (cols rows px_w px_h : Z)
| Exit (status : Z)
| Attach (generation : Z) (session_id : option Z) (protocol : Z) (observe : bool)
| Refused (reason : RefuseReason)
| CheckpointFrame (ending_offset hash : Z) (blob : list Z)
| Delta (start_offset : Z) (bs : list Z)
| ResyncRequest.

#[export] Instance frame_eq_dec : EqDecision Frame.
Proof. solve_decision. Defined.

Definition frame_tag (f : Frame) : Tag :=
  match f with
  | Data _ => TData
  | Credit _ => TCredit
  | Resize _ _ _ _ => TResize
  | Exit _ => TExit
  | Attach _ _ _ _ => TAttach
  | Refused _ => TRefused
  | CheckpointFrame _ _ _ => TCheckpoint
  | Delta _ _ => TDelta
  | ResyncRequest => TResyncRequest
  end.

Definition is_warm_path (f : Frame) : bool :=
  match f with Data _ | Credit _ => true | _ => false end.

Definition protocol_supported (protocol : Z) : bool :=
  (protocol =? PROTOCOL_VERSION) || (protocol =? PROTOCOL_2).

Definition attach (generation : Z) (session_id : option Z) : Frame :=
  Attach generation session_id PROTOCOL_VERSION false.

(** The payload [encode] builds before it checks its length.  An [i32] is
    encoded as the [u32] it is congruent to. *)
Definition payload (f : Frame) : list Z :=
  match f with
  | Data b => b
  | Credit n => le_bytes 4 n
  | Resize c r w h => le_bytes 2 c ++ le_bytes 2 r ++ le_bytes 2 w ++ le_bytes 2 h
  | Exit status => le_bytes 4 (status mod 2 ^ 32)
  | Attach generation session_id protocol observe =>
      let extra := negb (protocol =? PROTOCOL_VERSION) || observe in
      let tail := if extra then [protocol; if observe then ATTACH_FLAG_OBSERVE else 0] else [] in
      le_bytes 8 generation ++
      match session_id with
      | Some id => le_bytes 8 id ++ tail
      | None => if extra then le_bytes 8 0 ++ tail else []
      end
  | Refused reason => [refuse_u8 reason]
  | CheckpointFrame off hash blob => le_bytes 8 off ++ le_bytes 8 hash ++ blob
  | Delta off bs => le_bytes 8 off ++ bs
  | ResyncRequest => []
  end.

Definition encode (f : Frame) : result AttachError (list Z) :=
  let p := payload f in
  if MAX_FRAME <? len p then Err (TooLarge (len p))
  else Ok (tag_u8 (frame_tag f) :: le_bytes 4 (len p) ++ p).

(** [read_u32], [read_u64]: the payload is exactly the integer. *)
Definition read_le (n : nat) (p : list Z) : result AttachError Z :=
  if len p =? Z.of_nat n then Ok (le_val p) else Err Truncated.

Definition read_u32 : list Z -> result AttachError Z := read_le 4.
Definition read_u64 : list Z -> result AttachError Z := read_le 8.

(** The [i32] of four bytes. *)
Definition read_i32 (p : list Z) : result AttachError Z :=
  v ← read_le 4 p; Ok (if v <? 2 ^ 31 then v else v - 2 ^ 32).

(** [payload[a..b]] of a payload whose length was tested. *)
Definition field (p : list Z) (a b : nat) : Z := le_val (take (b - a) (drop a p)).
Definition byte_at (p : list Z) (i : nat) : Z := default 0 (p !! i).

Definition decode (tag : Tag) (p : list Z) : result AttachError Frame :=
  match tag with
  | TData => Ok (Data p)
  | TCredit => n ← read_u32 p; Ok (Credit n)
  | TResize =>
      if negb (len p =? 8) then Err Truncated
      else Ok (Resize (field p 0 2) (field p 2 4) (field p 4 6) (field p 6 8))
  | TExit => status ← read_i32 p; Ok (Exit status)
  | TAttach =>
      if len p =? 8 then
        generation ← read_u64 p; Ok (Attach generation None PROTOCOL_VERSION false)
      else if len p =? 16 then
        Ok (Attach (field p 0 8) (Some (field p 8 16)) PROTOCOL_VERSION false)
      else if len p =? 18 then
        let raw_id := field p 8 16 in
        Ok (Attach (field p 0 8) (if raw_id =? 0 then None else Some raw_id) (byte_at p 16)
              (negb (Z.land (byte_at p 17) ATTACH_FLAG_OBSERVE =? 0)))
      else Err Truncated
  | TRefused =>
      if negb (len p =? 1) then Err Truncated
      else r ← refuse_from_u8 (byte_at p 0); Ok (Refused r)
  | TCheckpoint =>
      if len p <? 16 then Err Truncated
      else Ok (CheckpointFrame (field p 0 8) (field p 8 16) (drop 16 p))
  | TDelta =>
      if len p <? 8 then Err Truncated
      else Ok (Delta (field p 0 8) (drop 8 p))
  | TResyncRequest => if negb (len p =? 0) then Err Truncated else Ok ResyncRequest
  end.

(** ** The incremental decoder *)

Record Decoder := mkDecoder { buf : list Z }.

#[export] Instance decoder_eq_dec : EqDecision Decoder.
Proof. solve_decision. Defined.

Definition decoder_new : Decoder := mkDecoder [].

(** The loop of [Decoder::push].  The buffer is returned with the result: an
    error leaves in it what the code leaves.  [None] is running out of fuel. *)
Fixpoint push_loop (fuel : nat) (b : list Z) (frames : list Frame)
  : option (result AttachError (list Frame) * list Z) :=
  match fuel with
  | O => None
  | S fuel =>
      if len b <? 5 then Some (Ok frames, b)
      else
        match tag_from_u8 (byte_at b 0) with
        | Err e => Some (Err e, b)
        | Ok tag =>
            let n := field b 1 5 in
            if MAX_FRAME <? n then Some (Err (TooLarge n), b)
            else if len b <? 5 + n then
              if MAX_FRAME + 5 <? len b then Some (Err (TooLarge (len b)), b)
              else Some (Ok frames, b)
            else
              let p := take (Z.to_nat n) (drop 5 b) in
              let b := drop (5 + Z.to_nat n) b in
              match decode tag p with
              | Err e => Some (Err e, b)
              | Ok f => push_loop fuel b (frames ++ [f])
              end
        end
  end.

(** A frame takes at least five bytes, so the length of the buffer is enough
    ([push_terminates]). *)
Definition push (bs : list Z) (d : Decoder) : option (result AttachError (list Frame) * Decoder) :=
  let b := buf d ++ bs in
  '(r, b) ← push_loop (S (length b)) b [];
  Some (r, mkDecoder b).
