(* ===== verification/AttachFacts.v ===== *)
(** The attach protocol: every frame survives encoding and decoding, the
    decoder does not depend on how the stream is cut, and its buffer is
    bounded. *)
From S2P Require Import Prelude Attach.

Local Open Scope Z_scope.

(** ** Frames *)

(** Fields in the ranges of their types.  A named session 0 with a protocol
    other than 1 or with observe is the one frame the encoding cannot tell
    apart from the unnamed one. *)
Definition frame_ok (f : Frame) : Prop :=
  match f with
  | Data b => bytes b
  | Credit n => u32 n
  | Resize c r w h => u16 c /\ u16 r /\ u16 w /\ u16 h
  | Exit status => - 2 ^ 31 <= status < 2 ^ 31
  | Attach g sid p o =>
      u64 g /\ u8 p /\
      match sid with
      | Some id => u64 id /\ (negb (p =? PROTOCOL_VERSION) || o = true -> id <> 0)
      | None => True
      end
  | Refused _ => True
  | CheckpointFrame off h b => u64 off /\ u64 h /\ bytes b
  | Delta off b => u64 off /\ bytes b
  | ResyncRequest => True
  end.

(** The bytes of a frame; none of one that is too large. *)
Definition encoded (f : Frame) : list Z := match encode f with Ok bs => bs | Err _ => [] end.

Lemma tag_roundtrip t : tag_from_u8 (tag_u8 t) = Ok t.
Proof. by destruct t. Qed.

Lemma read_le_bytes n v : 0 <= v < 256 ^ Z.of_nat n -> read_le n (le_bytes n v) = Ok v.
Proof.
  intros Hv. unfold read_le. rewrite len_le_bytes, Z.eqb_refl. by rewrite le_val_bytes.
Qed.

(** A field that the encoder wrote between [x] and [y]. *)
Lemma field_app x y a b n v :
  length x = a -> (b - a)%nat = n -> 0 <= v < 256 ^ Z.of_nat n ->
  field (x ++ le_bytes n v ++ y) a b = v.
Proof.
  intros <- <- Hv. unfold field. rewrite drop_app_n by done.
  rewrite take_app_n by apply length_le_bytes. by apply le_val_bytes.
Qed.

Lemma field_head y b v :
  0 <= v < 256 ^ Z.of_nat b -> field (le_bytes b v ++ y) 0 b = v.
Proof. intros Hv. rewrite <- (app_nil_l (le_bytes b v ++ y)). apply field_app; [done|lia|done]. Qed.

Lemma len_8 v : len (le_bytes 8 v) = 8.
Proof. apply len_le_bytes. Qed.

Lemma le_range_16 z : u16 z -> 0 <= z < 256 ^ Z.of_nat 2.
Proof. cbn. num. Qed.
Lemma le_range_32 z : u32 z -> 0 <= z < 256 ^ Z.of_nat 4.
Proof. cbn. num. Qed.
Lemma le_range_64 z : u64 z -> 0 <= z < 256 ^ Z.of_nat 8.
Proof. change (256 ^ Z.of_nat 8) with (u64_max + 1). num. Qed.
#[local] Hint Resolve le_range_16 le_range_32 le_range_64 : core.

Lemma decode_resize c r w h :
  u16 c -> u16 r -> u16 w -> u16 h ->
  decode TResize (payload (Resize c r w h)) = Ok (Resize c r w h).
Proof.
  intros Hc Hr Hw Hh. cbn [payload decode]. rewrite !len_app, !len_le_bytes. cbn [negb].
  rewrite field_head by auto.
  rewrite (field_app (le_bytes 2 c) _ 2 4 2) by auto.
  rewrite (app_assoc (le_bytes 2 c)), (field_app (le_bytes 2 c ++ le_bytes 2 r) _ 4 6 2) by auto.
  rewrite <- (app_nil_r (le_bytes 2 h)), <- app_assoc, (app_assoc (le_bytes 2 r)),
    (app_assoc (le_bytes 2 c)),
    (field_app (le_bytes 2 c ++ le_bytes 2 r ++ le_bytes 2 w) [] 6 8 2) by auto.
  done.
Qed.

(** The 18-byte form: a session id, 0 for none, a protocol, the observe flag. *)
Lemma decode_attach_18 g id p (o : bool) :
  u64 g -> u64 id ->
  decode TAttach (le_bytes 8 g ++ le_bytes 8 id ++ [p; if o then ATTACH_FLAG_OBSERVE else 0])
    = Ok (Attach g (if id =? 0 then None else Some id) p o).
Proof.
  intros Hg Hid. unfold decode. set (tail := [p; _]). rewrite !len_app, !len_8.
  change (len tail) with 2. cbn [Z.add Z.eqb Pos.add Pos.succ Pos.eqb].
  rewrite field_head by auto. rewrite (field_app (le_bytes 8 g) tail 8 16 8) by auto.
  unfold byte_at. rewrite !(app_assoc (le_bytes 8 g)).
  rewrite !lookup_app_r by (rewrite length_app, !length_le_bytes; lia).
  rewrite length_app, !length_le_bytes. subst tail. cbn. by destruct o.
Qed.

Lemma decode_attach g sid p o :
  frame_ok (Attach g sid p o) -> decode TAttach (payload (Attach g sid p o)) = Ok (Attach g sid p o).
Proof.
  intros (Hg & Hp & Hs). cbn [payload].
  destruct (negb (p =? PROTOCOL_VERSION) || o) eqn:Hx.
  - destruct sid as [id|].
    + destruct Hs as [Hid Hne]. rewrite decode_attach_18 by done.
      specialize (Hne eq_refl). by rewrite (proj2 (Z.eqb_neq _ _)).
    + by rewrite decode_attach_18 by (done || num).
  - apply orb_false_iff in Hx as [Hpv ->]. apply negb_false_iff, Z.eqb_eq in Hpv. subst p.
    unfold decode. destruct sid as [id|].
    + destruct Hs as [Hid _].
      rewrite app_nil_r, len_app, !len_8. cbn [Z.add Z.eqb Pos.add Pos.succ Pos.eqb].
      rewrite field_head by auto. rewrite <- (app_nil_r (le_bytes 8 id)).
      by rewrite (field_app (le_bytes 8 g) [] 8 16 8) by auto.
    + rewrite app_nil_r, len_8. cbn [Z.eqb Pos.eqb]. unfold read_u64.
      by rewrite read_le_bytes by auto.
Qed.

Lemma decode_payload f : frame_ok f -> decode (frame_tag f) (payload f) = Ok f.
Proof.
  destruct f as [b|n|c r w h|st|g sid p o|r|off h b|off b|]; intros Hf.
  - done.
  - cbn in Hf. cbn [frame_tag payload decode]. unfold read_u32. by rewrite read_le_bytes by auto.
  - destruct Hf as (? & ? & ? & ?). by apply decode_resize.
  - cbn in Hf. cbn [frame_tag payload decode]. unfold read_i32. rewrite read_le_bytes.
    2: { change (256 ^ Z.of_nat 4) with (2 ^ 32). apply Z.mod_pos_bound. lia. }
    cbn [mbind result_bind]. do 2 f_equal. case_if; Z.to_euclidean_division_equations; lia.
  - by apply decode_attach.
  - by destruct r.
  - destruct Hf as (Ho & Hh & Hb). cbn [frame_tag payload decode].
    rewrite !len_app, !len_8. pose proof (len_nonneg b). rewrite (proj2 (Z.ltb_ge _ _)) by lia.
    rewrite field_head by auto. rewrite (field_app (le_bytes 8 off) b 8 16 8) by auto.
    by rewrite app_assoc, drop_app_n.
  - destruct Hf as (Ho & Hb). cbn [frame_tag payload decode].
    rewrite len_app, len_8. pose proof (len_nonneg b). rewrite (proj2 (Z.ltb_ge _ _)) by lia.
    rewrite field_head by auto. by rewrite drop_app_n.
  - done.
Qed.

(** ** The decoder's loop *)

(** One turn of the loop. *)
Lemma push_loop_S fuel b fs :
  push_loop (S fuel) b fs =
    if len b <? 5 then Some (Ok fs, b)
    else match tag_from_u8 (byte_at b 0) with
         | Err e => Some (Err e, b)
         | Ok tag =>
             let n := field b 1 5 in
             if MAX_FRAME <? n then Some (Err (TooLarge n), b)
             else if len b <? 5 + n then
               if MAX_FRAME + 5 <? len b then Some (Err (TooLarge (len b)), b) else Some (Ok fs, b)
             else match decode tag (take (Z.to_nat n) (drop 5 b)) with
                  | Err e => Some (Err e, drop (5 + Z.to_nat n) b)
                  | Ok f => push_loop fuel (drop (5 + Z.to_nat n) b) (fs ++ [f])
                  end
         end.
Proof. done. Qed.

Lemma field_nonneg b i j : bytes b -> 0 <= field b i j.
Proof. intros Hb. apply le_val_bound. by apply Forall_take, Forall_drop. Qed.

(** Enough fuel: more than the buffer's length. *)
Lemma push_loop_enough fuel b fs :
  bytes b -> (length b < fuel)%nat -> push_loop fuel b fs <> None.
Proof.
  revert b fs. induction fuel as [|fuel IH]; intros b fs Hb Hf; [lia|]. rewrite push_loop_S.
  destruct (Z.ltb_spec (len b) 5); [done|]. destruct (tag_from_u8 (byte_at b 0)) as [tag|]; [|done].
  cbn zeta. case_if; [done|]. case_if; [by case_if|].
  destruct (decode tag _) as [f|]; [|done].
  apply IH; [by apply Forall_drop|]. rewrite length_drop. unfold len in *. lia.
Qed.

Lemma push_loop_mono n m b fs r : push_loop n b fs = Some r -> (n <= m)%nat -> push_loop m b fs = Some r.
Proof.
  revert m b fs. induction n as [|n IH]; intros m b fs; [done|]. intros H Hm.
  destruct m as [|m]; [lia|]. rewrite push_loop_S in H |- *.
  destruct (len b <? 5); [done|]. destruct (tag_from_u8 (byte_at b 0)) as [tag|]; [|done].
  cbn zeta in *. case_if; [done|]. case_if; [done|].
  destruct (decode tag _) as [f|]; [|done]. apply IH; [done|lia].
Qed.

(** The loop's result, whatever fuel it took. *)
Definition drains (b : list Z) (fs : list Frame) (r : result AttachError (list Frame) * list Z) : Prop :=
  exists n, push_loop n b fs = Some r.

Lemma drains_det b fs r r' : drains b fs r -> drains b fs r' -> r = r'.
Proof.
  intros [n Hn] [m Hm]. apply (push_loop_mono _ (max n m)) in Hn; [|lia].
  apply (push_loop_mono _ (max n m)) in Hm; [|lia]. congruence.
Qed.

Lemma push_drains bs d r :
  bytes (buf d) -> bytes bs -> drains (buf d ++ bs) [] r ->
  push bs d = Some (r.1, mkDecoder r.2).
Proof.
  intros Hd Hb Hr. unfold push. cbn zeta.
  assert (Hall : bytes (buf d ++ bs)) by (by apply bytes_app).
  pose proof (push_loop_enough (S (length (buf d ++ bs))) (buf d ++ bs) [] Hall ltac:(lia)) as He.
  destruct (push_loop _ _ _) as [r'|] eqn:Hp; [|done].
  assert (r = r') as <- by (eapply drains_det; [done|by eexists]). by destruct r.
Qed.

Lemma push_some bs d :
  bytes (buf d) -> bytes bs ->
  exists r, drains (buf d ++ bs) [] r /\ push bs d = Some (r.1, mkDecoder r.2).
Proof.
  intros Hd Hb. assert (Hall : bytes (buf d ++ bs)) by (by apply bytes_app).
  pose proof (push_loop_enough (S (length (buf d ++ bs))) (buf d ++ bs) [] Hall ltac:(lia)) as He.
  destruct (push_loop _ _ _) as [r|] eqn:Hp; [|done]. exists r.
  assert (drains (buf d ++ bs) [] r) by (by eexists). split; [done|]. by apply push_drains.
Qed.

(** ** Bounds *)

(** The buffer left by a push that succeeded holds less than one frame. *)
Definition residual (b : list Z) : Prop := len b < MAX_FRAME + 5.

Lemma push_loop_residual n b fs fs' b' :
  bytes b -> push_loop n b fs = Some (Ok fs', b') -> residual b' /\ bytes b'.
Proof.
  revert b fs. induction n as [|n IH]; intros b fs Hb; [done|]. rewrite push_loop_S.
  destruct (Z.ltb_spec (len b) 5).
  { intros [= <- <-]. split; [|done]. unfold residual, MAX_FRAME. lia. }
  destruct (tag_from_u8 (byte_at b 0)) as [tag|]; [|done].
  cbn zeta. case_if; [done|]. case_if.
  { case_if; [done|]. intros [= <- <-]. split; [|done]. unfold residual. lia. }
  destruct (decode tag _) as [f|]; [|done]. apply IH. by apply Forall_drop.
Qed.

(** ** Cutting the stream *)

Lemma take_drop_app {A} n m (b c : list A) :
  (m + n <= length b)%nat -> take n (drop m (b ++ c)) = take n (drop m b).
Proof.
  intros H. rewrite drop_app_le by lia. apply take_app_le. rewrite length_drop. lia.
Qed.

Lemma field_app_l b c i j : (i <= j)%nat -> (j <= length b)%nat -> field (b ++ c) i j = field b i j.
Proof. intros Hi Hj. unfold field. by rewrite take_drop_app by lia. Qed.

Lemma byte_at_app b c i : (i < length b)%nat -> byte_at (b ++ c) i = byte_at b i.
Proof. intros. unfold byte_at. by rewrite lookup_app_l. Qed.

(** A loop that stopped for want of bytes goes on from what it left. *)
Lemma drains_app_ok n b c fs fs' b' r :
  bytes b -> push_loop n b fs = Some (Ok fs', b') -> drains (b' ++ c) fs' r -> drains (b ++ c) fs r.
Proof.
  revert b fs. induction n as [|n IH]; intros b fs Hb; [done|]. rewrite push_loop_S.
  destruct (Z.ltb_spec (len b) 5); [by intros [= <- <-]|].
  destruct (tag_from_u8 (byte_at b 0)) as [tag|] eqn:Ht; [|done].
  cbn zeta. destruct (MAX_FRAME <? field b 1 5) eqn:Hmax; [done|].
  destruct (Z.ltb_spec (len b) (5 + field b 1 5)) as [|Hfit].
  { case_if; [done|]. by intros [= <- <-]. }
  destruct (decode tag _) as [f|] eqn:Hd; [|done].
  pose proof (field_nonneg b 1 5 Hb) as Hn0. unfold len in *.
  intros Hp Hr. destruct (IH _ _ (Forall_drop _ _ _ Hb) Hp Hr) as [m Hm].
  exists (S m). rewrite push_loop_S. rewrite len_app. unfold len.
  rewrite (proj2 (Z.ltb_ge _ _)) by lia.
  rewrite byte_at_app, Ht by lia. cbn zeta. rewrite field_app_l, Hmax by lia.
  rewrite (proj2 (Z.ltb_ge _ _)) by lia.
  rewrite take_drop_app, Hd by lia. by rewrite drop_app_le by lia.
Qed.

(** A loop that failed fails the same way with more bytes behind. *)
Lemma drains_app_err n b c fs e b' :
  bytes b -> push_loop n b fs = Some (Err e, b') -> drains (b ++ c) fs (Err e, b' ++ c).
Proof.
  revert b fs. induction n as [|n IH]; intros b fs Hb; [done|]. rewrite push_loop_S.
  destruct (Z.ltb_spec (len b) 5); [done|]. unfold len in *.
  assert (Hlen : (5 <= length b)%nat) by lia.
  destruct (tag_from_u8 (byte_at b 0)) as [tag|e'] eqn:Ht; [cbn zeta|].
  2: { intros [= <- <-]. exists 1%nat. rewrite push_loop_S, len_app. unfold len.
       rewrite (proj2 (Z.ltb_ge _ _)) by lia. by rewrite byte_at_app, Ht by lia. }
  destruct (MAX_FRAME <? field b 1 5) eqn:Hmax.
  { intros [= <- <-]. exists 1%nat. rewrite push_loop_S, len_app. unfold len.
    rewrite (proj2 (Z.ltb_ge _ _)) by lia. rewrite byte_at_app, Ht by lia. cbn zeta.
    by rewrite field_app_l, Hmax by lia. }
  destruct (Z.ltb_spec (Z.of_nat (length b)) (5 + field b 1 5)) as [|Hfit].
  { case_if; [lia|done]. }
  pose proof (field_nonneg b 1 5 Hb) as Hn0.
  destruct (decode tag _) as [f|e'] eqn:Hd.
  - intros Hp. destruct (IH _ _ (Forall_drop _ _ _ Hb) Hp) as [m Hm].
    exists (S m). rewrite push_loop_S, len_app. unfold len. rewrite (proj2 (Z.ltb_ge _ _)) by lia.
    rewrite byte_at_app, Ht by lia. cbn zeta. rewrite field_app_l, Hmax by lia.
    rewrite (proj2 (Z.ltb_ge _ _)) by lia. rewrite take_drop_app, Hd by lia. by rewrite drop_app_le by lia.
  - intros [= <- <-]. exists 1%nat. rewrite push_loop_S, len_app. unfold len.
    rewrite (proj2 (Z.ltb_ge _ _)) by lia. rewrite byte_at_app, Ht by lia. cbn zeta.
    rewrite field_app_l, Hmax by lia. rewrite (proj2 (Z.ltb_ge _ _)) by lia.
    rewrite take_drop_app, Hd by lia. by rewrite drop_app_le by lia.
Qed.

(** The frames found so far are only a prefix of the result. *)
Definition prefixed (fs : list Frame) (r : result AttachError (list Frame) * list Z) :
    result AttachError (list Frame) * list Z :=
  (match r.1 with Ok l => Ok (fs ++ l) | Err e => Err e end, r.2).

Lemma push_loop_prefix n b fs fs' :
  push_loop n b (fs ++ fs') = prefixed fs <$> push_loop n b fs'.
Proof.
  revert b fs'. induction n as [|n IH]; intros b fs'; [done|]. rewrite !push_loop_S.
  case_if; [done|]. destruct (tag_from_u8 (byte_at b 0)) as [tag|]; [|done].
  cbn zeta. case_if; [done|]. case_if; [by case_if|].
  destruct (decode tag _) as [f|]; [|done]. by rewrite <- app_assoc, IH.
Qed.

Lemma drains_prefix b fs r : drains b [] r -> drains b fs (prefixed fs r).
Proof.
  intros [n Hn]. exists n. rewrite <- (app_nil_r fs) at 1. rewrite push_loop_prefix. by rewrite Hn.
Qed.

(** ** Streams of frames *)

(** One encoded frame at the front. *)
Lemma drains_frame f bs rest fs r :
  frame_ok f -> encode f = Ok bs -> drains rest (fs ++ [f]) r -> drains (bs ++ rest) fs r.
Proof.
  intros Hf He [n Hn]. unfold encode in He. cbn zeta in He. case_if_in He; [done|].
  assert (Hbs : bs = tag_u8 (frame_tag f) :: le_bytes 4 (len (payload f)) ++ payload f) by congruence.
  subst bs. exists (S n). rewrite push_loop_S.
  set (p := payload f) in *. pose proof (len_nonneg p) as Hp0. pose proof (len_nonneg rest).
  rewrite <- app_comm_cons, <- app_assoc.
  assert (Hl5 : forall y, len (tag_u8 (frame_tag f) :: le_bytes 4 (len p) ++ y) = 5 + len y)
    by (intros; rewrite len_cons, len_app, len_le_bytes; lia).
  rewrite Hl5, len_app. rewrite (proj2 (Z.ltb_ge _ _)) by lia.
  change (byte_at (tag_u8 (frame_tag f) :: le_bytes 4 (len p) ++ p ++ rest) 0) with (tag_u8 (frame_tag f)).
  rewrite tag_roundtrip.
  assert (Hfield : field (tag_u8 (frame_tag f) :: le_bytes 4 (len p) ++ p ++ rest) 1 5 = len p).
  { apply (field_app [tag_u8 (frame_tag f)] (p ++ rest) 1 5 4); [done|done|].
    apply le_range_32. unfold MAX_FRAME in *. num. }
  cbn zeta. rewrite Hfield.
  rewrite (proj2 (Z.ltb_ge MAX_FRAME _)) by lia. rewrite (proj2 (Z.ltb_ge _ _)) by lia.
  assert (Hd5 : drop 5 (tag_u8 (frame_tag f) :: le_bytes 4 (len p) ++ p ++ rest) = p ++ rest).
  { rewrite (app_comm_cons (le_bytes 4 (len p))). by apply drop_app_n. }
  rewrite <- drop_drop, Hd5. unfold len. rewrite Nat2Z.id.
  rewrite take_app_length, drop_app_length. subst p. by rewrite decode_payload.
Qed.

Lemma drains_frames fs bss fs0 :
  Forall frame_ok fs -> Forall2 (fun f bs => encode f = Ok bs) fs bss ->
  drains (concat bss) fs0 (Ok (fs0 ++ fs), []).
Proof.
  intros Hok H. revert fs0 Hok. induction H as [|f bs fs bss Hf _ IH]; intros fs0 Hok; cbn.
  - exists 1%nat. by rewrite app_nil_r.
  - apply Forall_cons in Hok as [Hf1 Hok]. eapply drains_frame; [done..|].
    replace (fs0 ++ f :: fs) with ((fs0 ++ [f]) ++ fs) by (by rewrite <- app_assoc). by apply IH.
Qed.

(** ** Pushes *)

(** Nothing more to take out. *)
Definition stuck (b : list Z) : Prop := drains b [] (Ok [], b).

Lemma push_loop_stuck n b fs fs' b' : push_loop n b fs = Some (Ok fs', b') -> stuck b'.
Proof.
  revert b fs. induction n as [|n IH]; intros b fs; [done|]. rewrite push_loop_S.
  destruct (len b <? 5) eqn:H5.
  { intros [= <- <-]. exists 1%nat. by rewrite push_loop_S, H5. }
  destruct (tag_from_u8 (byte_at b 0)) as [tag|] eqn:Ht; [|done].
  cbn zeta. destruct (MAX_FRAME <? field b 1 5) eqn:Hmax; [done|].
  destruct (len b <? 5 + field b 1 5) eqn:Hfit.
  { destruct (MAX_FRAME + 5 <? len b) eqn:Hbig; [done|].
    intros [= <- <-]. exists 1%nat. rewrite push_loop_S, H5, Ht. cbn zeta. by rewrite Hmax, Hfit, Hbig. }
  destruct (decode tag _) as [f|]; [|done]. apply IH.
Qed.

Lemma drains_some b fs : bytes b -> exists r, drains b fs r.
Proof.
  intros Hb. pose proof (push_loop_enough (S (length b)) b fs Hb ltac:(lia)) as He.
  destruct (push_loop _ _ _) as [r|] eqn:Hr; [|done]. exists r. by eexists.
Qed.

(** Pushing two pieces is pushing them at once. *)
Lemma push_split_eq a c d :
  bytes (buf d) -> bytes a -> bytes c ->
  push (a ++ c) d =
    '(r1, d1) ← push a d;
    match r1 with
    | Err e => Some (Err e, mkDecoder (buf d1 ++ c))
    | Ok l1 =>
        '(r2, d2) ← push c d1;
        Some (match r2 with Ok l2 => Ok (l1 ++ l2) | Err e => Err e end, d2)
    end.
Proof.
  intros Hd Ha Hc. destruct (push_some a d Hd Ha) as ([r1 b1] & [n Hn] & ->).
  cbn [mbind option_bind fst snd buf].
  assert (Hda : bytes (buf d ++ a)) by (by apply bytes_app).
  assert (Hac : bytes (a ++ c)) by (by apply bytes_app).
  destruct r1 as [l1|e].
  - destruct (push_loop_residual _ _ _ _ _ Hda Hn) as [_ Hb1].
    destruct (push_some c (mkDecoder b1) Hb1 Hc) as ([r2 b2] & Hr2 & ->).
    cbn [mbind option_bind fst snd buf] in *.
    apply (drains_prefix _ l1) in Hr2. eapply drains_app_ok in Hr2; [|exact Hda|exact Hn].
    rewrite <- app_assoc in Hr2.
    rewrite (push_drains (a ++ c) d _ Hd Hac Hr2). done.
  - apply (drains_app_err n _ c) in Hn; [|done]. rewrite <- app_assoc in Hn.
    by rewrite (push_drains (a ++ c) d _ Hd Hac Hn).
Qed.

(** ** The properties of the protocol *)

(** A receiver: pushes each chunk and collects the frames, stopping at an
    error. *)
Definition receive (chunks : list (list Z)) (d : Decoder) (got : list Frame)
  : option (Decoder * list Frame) :=
  for_each chunks (fun c '(d, got) =>
    '(r, d) ← push c d;
    match r with Ok l => Some (d, got ++ l) | Err _ => None end) (d, got).

Lemma receive_eq chunks d got fs :
  bytes (buf d) -> stuck (buf d) -> bytes (concat chunks) ->
  drains (buf d ++ concat chunks) got (Ok fs, []) ->
  receive chunks d got = Some (decoder_new, fs).
Proof.
  revert d got. unfold receive.
  induction chunks as [|c chunks IH]; intros d got Hd Hst Hb Hall; cbn [for_each concat] in *.
  - rewrite app_nil_r in Hall. apply (drains_prefix _ got) in Hst.
    pose proof (drains_det _ _ _ _ Hst Hall) as He. unfold prefixed in He. cbn in He.
    rewrite app_nil_r in He. destruct d as [b]. cbn in *. by simplify_eq.
  - apply bytes_app in Hb as [Hc Hb].
    destruct (push_some c d Hd Hc) as ([r b'] & [n Hn] & ->). cbn.
    assert (Hdc : bytes (buf d ++ c)) by (by apply bytes_app).
    rewrite app_assoc in Hall. destruct r as [l|e].
    + destruct (push_loop_residual _ _ _ _ _ Hdc Hn) as [_ Hb'].
      apply IH; [done|by eapply push_loop_stuck|done|]. cbn.
      destruct (drains_some (b' ++ concat chunks) (got ++ l)) as [r' Hr']; [by apply bytes_app|].
      assert (Hn' : push_loop n (buf d ++ c) got = Some (Ok (got ++ l), b')).
      { rewrite <- (app_nil_r got) at 1. rewrite push_loop_prefix, Hn. done. }
      pose proof (drains_app_ok _ _ _ _ _ _ _ Hdc Hn' Hr') as Hr2.
      by rewrite (drains_det _ _ _ _ Hall Hr2).
    + apply (drains_app_err n _ (concat chunks)) in Hn; [|done].
      apply (drains_prefix _ got) in Hn. by pose proof (drains_det _ _ _ _ Hall Hn).
Qed.

(** ** Frames sent

    The bytes of a sequence of frames. *)

Definition sends (fs : list Frame) (w : list Z) : Prop :=
  exists bss, Forall2 (fun f bs => encode f = Ok bs) fs bss /\ w = concat bss.
Lemma sends_snoc fs f w bs : sends fs w -> encode f = Ok bs -> sends (fs ++ [f]) (w ++ bs).
Proof.
  intros (bss & Hf & ->) He. exists (bss ++ [bs]). split; [by apply Forall2_app; [|constructor]|].
  rewrite concat_app. cbn. by rewrite app_nil_r.
Qed.

(** ** What a push takes out of the buffer *)

Definition data_len (f : Frame) : Z := match f with Data bs => len bs | _ => 0 end.

(** The least a frame takes on the wire. *)
Fixpoint weight (fs : list Frame) : Z :=
  match fs with [] => 0 | f :: fs => 5 + data_len f + weight fs end.

Lemma weight_app fs gs : weight (fs ++ gs) = weight fs + weight gs.
Proof. induction fs as [|f fs IH]; cbn; [lia|]. rewrite IH. lia. Qed.

Lemma weight_nonneg fs : 0 <= weight fs.
Proof. induction fs as [|f fs IH]; cbn; [lia|]. unfold data_len. destruct f; try lia. pose proof (len_nonneg bs). lia. Qed.

(** What a receiver relies on of a frame it decoded. *)
Definition rx_ok (f : Frame) : Prop :=
  match f with Data bs => bytes bs | Credit n => u32 n | _ => True end.

Lemma decode_rx tag p f : bytes p -> decode tag p = Ok f -> rx_ok f /\ data_len f <= len p.
Proof.
  intros Hp H. pose proof (len_nonneg p). destruct tag; cbn in H.
  - injection H as <-. by split.
  - unfold read_u32, read_le in H. destruct (len p =? Z.of_nat 4) eqn:Hl; cbn in H; [injection H as <-|done].
    split; [|done]. pose proof (le_val_bound p Hp) as Hv. apply Z.eqb_eq in Hl. unfold len in Hl.
    replace (length p) with 4%nat in Hv by lia. cbn in Hv. cbn. num.
  - case_if_in H; [done|]. injection H as <-. by split.
  - unfold read_i32, read_le in H. case_if_in H; cbn in H; [injection H as <-; cbn; by split|done].
  - unfold read_u64, read_le in H. repeat case_if_in H; cbn in H; try injection H as <-; cbn; try done; by split.
  - case_if_in H; [done|]. destruct (refuse_from_u8 _); [|done]. injection H as <-. by split.
  - case_if_in H; [done|]. injection H as <-. by split.
  - case_if_in H; [done|]. injection H as <-. by split.
  - case_if_in H; [done|]. injection H as <-. by split.
Qed.

Lemma push_loop_weight n b fs r b' :
  bytes b -> push_loop n b fs = Some (r, b') ->
  bytes b' /\ match r with
              | Ok fs' => exists new, fs' = fs ++ new /\ weight new + len b' <= len b /\ Forall rx_ok new
              | Err _ => len b' <= len b
              end.
Proof.
  revert b fs. induction n as [|n IH]; intros b fs Hb; [done|]. rewrite push_loop_S.
  assert (Hdone : forall l, bytes b /\ exists new, l = l ++ new /\ weight new + len b <= len b /\ Forall rx_ok new).
  { intros l. split; [done|]. exists []. rewrite app_nil_r. split_and!; [done|cbn; lia|constructor]. }
  case_if; [by intros [= <- <-]|]. destruct (tag_from_u8 (byte_at b 0)) as [tag|]; [|by intros [= <- <-]].
  cbn zeta. case_if; [by intros [= <- <-]|]. case_if; [case_if; by intros [= <- <-]|].
  pose proof (field_nonneg b 1 5 Hb) as Hn0.
  assert (Hdrop : bytes (drop (5 + Z.to_nat (field b 1 5)) b)) by by apply Forall_drop.
  assert (Htake : bytes (take (Z.to_nat (field b 1 5)) (drop 5 b))) by by apply Forall_take, Forall_drop.
  assert (Hld : len (drop (5 + Z.to_nat (field b 1 5)) b) = len b - 5 - field b 1 5) by (rewrite len_drop; lia).
  destruct (decode tag _) as [f|e] eqn:Hd; [|intros [= <- <-]; split; [done|rewrite len_drop; pose proof (len_nonneg b); lia]].
  intros H. apply IH in H as [Hb' H]; [|done]. split; [done|]. destruct r as [fs'|e]; [|lia].
  destruct H as (new & -> & Hw & Hrx). exists (f :: new).
  destruct (decode_rx _ _ _ Htake Hd) as [Hf Hdl]. rewrite len_take, len_drop in Hdl.
  rewrite <- app_assoc. split_and!; [done| |by constructor]. cbn [weight]. lia.
Qed.

Lemma push_rule bs d :
  bytes (buf d) -> bytes bs ->
  safe (push bs d) (fun '(r, d') => bytes (buf d') /\
    match r with
    | Ok fs => weight fs + len (buf d') <= len (buf d) + len bs /\ Forall rx_ok fs
    | Err _ => len (buf d') <= len (buf d) + len bs
    end).
Proof.
  intros Hd Hb. destruct (push_some bs d Hd Hb) as ([r b'] & [n Hn] & ->). apply safe_ret. cbn [fst snd buf].
  apply push_loop_weight in Hn as [Hb' H]; [|by apply bytes_app]. split; [done|].
  rewrite len_app in H. destruct r as [fs|e]; [|done]. by destruct H as (new & -> & ? & ?).
Qed.

(** C25. Frames survive the wire however it is cut.  Any sequence of frames
    with fields in range, encoded, concatenated and cut into chunks anywhere,
    comes out of a fresh decoder as exactly those frames in order: pushing the
    chunks one by one never fails and leaves no byte behind. *)
Theorem stream_roundtrip (fs : list Frame) (bss chunks : list (list Z)) :
  Forall frame_ok fs -> Forall2 (fun f bs => encode f = Ok bs) fs bss ->
  concat chunks = concat bss -> bytes (concat chunks) ->
  receive chunks decoder_new [] = Some (decoder_new, fs).
Proof.
  intros Hok Henc Hcut Hb. apply receive_eq; [constructor|by exists 1%nat|done|].
  cbn [buf decoder_new app]. rewrite Hcut. by apply (drains_frames fs bss []).
Qed.

Definition demo_frames : list Frame :=
  [ attach 3 (Some 42); Data [104; 105]; Exit (-1);
    Attach 4 None PROTOCOL_2 true; CheckpointFrame 7 9 [1; 2; 3]; ResyncRequest ].

Definition demo_wire : list (list Z) :=
  map (fun f => match encode f with Ok bs => bs | Err _ => [] end) demo_frames.

(** The same bytes, three at a time. *)
Fixpoint cut3 (n : nat) (l : list Z) : list (list Z) :=
  match n with O => [l] | S n => take 3 l :: cut3 n (drop 3 l) end.

Lemma stream_roundtrip_witness :
  Forall frame_ok demo_frames /\
  Forall2 (fun f bs => encode f = Ok bs) demo_frames demo_wire /\
  concat (cut3 20 (concat demo_wire)) = concat demo_wire /\
  receive (cut3 20 (concat demo_wire)) decoder_new [] = Some (decoder_new, demo_frames).
Proof.
  assert (H1 : Forall frame_ok demo_frames).
  { unfold demo_frames, attach. repeat (apply Forall_cons; split); cbn [frame_ok]; try apply Forall_nil.
    all: repeat split; try discriminate; try (repeat constructor; discriminate). }
  assert (H2 : Forall2 (fun f bs => encode f = Ok bs) demo_frames demo_wire)
    by (unfold demo_wire, demo_frames; cbn [map]; repeat constructor).
  assert (H3 : concat (cut3 20 (concat demo_wire)) = concat demo_wire) by (vm_compute; reflexivity).
  split; [exact H1|]. split; [exact H2|]. split; [exact H3|].
  apply (stream_roundtrip demo_frames demo_wire (cut3 20 (concat demo_wire)) H1 H2 H3).
  rewrite H3. vm_compute. repeat (apply Forall_cons; split); try apply Forall_nil; split; discriminate.
Defined.

(** The decoder does not depend on how its input is cut, on any bytes:
    pushing two pieces one after the other gives the frames, the error and the
    buffer that pushing them at once gives, an error of the first piece
    included. *)
Theorem push_split (a c : list Z) (d : Decoder) :
  bytes (buf d) -> bytes a -> bytes c ->
  push (a ++ c) d =
    '(r1, d1) ← push a d;
    match r1 with
    | Err e => Some (Err e, mkDecoder (buf d1 ++ c))
    | Ok l1 =>
        '(r2, d2) ← push c d1;
        Some (match r2 with Ok l2 => Ok (l1 ++ l2) | Err e => Err e end, d2)
    end.
Proof. apply push_split_eq. Qed.

Lemma push_split_witness :
  bytes (buf decoder_new) /\
  push ([2; 4; 0] ++ [0; 0; 5; 0; 0; 0; 99]) decoder_new =
    '(r1, d1) ← push [2; 4; 0] decoder_new;
    match r1 with
    | Err e => Some (Err e, mkDecoder (buf d1 ++ [0; 0; 5; 0; 0; 0; 99]))
    | Ok l1 =>
        '(r2, d2) ← push [0; 0; 5; 0; 0; 0; 99] d1;
        Some (match r2 with Ok l2 => Ok (l1 ++ l2) | Err e => Err e end, d2)
    end.
Proof.
  split; [constructor|].
  apply (push_split [2; 4; 0] [0; 0; 5; 0; 0; 0; 99] decoder_new);
    repeat constructor; discriminate.
Defined.

Lemma push_bounded_eq (bs : list Z) (d : Decoder) :
  bytes (buf d) -> bytes bs ->
  safe (push bs d) (fun r => is_ok r.1 = true -> len (buf r.2) < MAX_FRAME + 5 /\ stuck (buf r.2)).
Proof.
  intros Hd Hb. destruct (push_some bs d Hd Hb) as ([r b] & [n Hn] & ->).
  apply safe_ret. cbn. destruct r as [l|e]; [|done]. intros _.
  split; [|by eapply push_loop_stuck]. eapply push_loop_residual; [|exact Hn]. by apply bytes_app.
Qed.

(** The decoder is bounded and total: on any bytes the loop of [push]
    ends, and a push that succeeds leaves less than one maximal frame
    (MAX_FRAME + 5 bytes) in the buffer, whatever lengths the peer declares. *)
Theorem push_bounded (bs : list Z) (d : Decoder) :
  bytes (buf d) -> bytes bs ->
  safe (push bs d) (fun r => is_ok r.1 = true -> len (buf r.2) < MAX_FRAME + 5 /\ stuck (buf r.2)).
Proof. apply push_bounded_eq. Qed.

Lemma push_bounded_witness :
  bytes (buf decoder_new) /\
  safe (push [1; 255; 255; 63; 0; 7] decoder_new)
    (fun r => is_ok r.1 = true -> len (buf r.2) < MAX_FRAME + 5 /\ stuck (buf r.2)).
Proof.
  split; [constructor|].
  apply (push_bounded [1; 255; 255; 63; 0; 7] decoder_new); repeat constructor; discriminate.
Defined.
