(* ===== verification/Ring.v ===== *)
(** The kernel's errors, its bounded byte history and the checkpoint record a
    worker keeps: error.rs, ring.rs and checkpoint.rs of crates/rill-kernel.
    The history is specified by the whole stream it was given. *)
From S2P Require Import Prelude.

Local Open Scope Z_scope.

(** [rill_kernel::Error]; operating system errors are carried as codes. *)
Inductive KernelError : Type :=
| PtyError (what : string)
| SpawnError (code : Z)
| IoError (code : Z)
| Dead
| AttachRefused
| UnknownSession
| CwdUnreadable
| UnsupportedPlatform (what : string)
| UnknownNode
| IncompatibleCheckpoint
| CheckpointEvicted
| NoCheckpoint.

#[export] Instance kernel_error_eq_dec : EqDecision KernelError.
Proof. solve_decision. Defined.

(** ** The ring *)

Record ByteRing := mkRing {
  data : list Z;
  cap : Z;
  retained_base : Z;
  end_ : Z;
}.

#[export] Instance byte_ring_eta : Eta ByteRing :=
  fun r => mkRing (data r) (cap r) (retained_base r) (end_ r).
#[export] Instance byte_ring_eq_dec : EqDecision ByteRing.
Proof. solve_decision. Defined.

Definition ring_new (cap : Z) : ByteRing := mkRing [] (Z.max cap 1) 0 0.

Definition end_offset (r : ByteRing) : Z := end_ r.
Definition ring_snapshot (r : ByteRing) : list Z := data r.
Definition ring_len (r : ByteRing) : Z := len (data r).

(** [VecDeque::drain(..n)], which panics past the end. *)
Definition drain_front (n : Z) (l : list Z) : option (list Z) :=
  if n <=? len l then Some (drop (Z.to_nat n) l) else None.

Definition ring_append (bs : list Z) (r : ByteRing) : option ByteRing :=
  if len bs =? 0 then Some r
  else
    let r := r <| end_ := sat_add u64_max (end_ r) (len bs) |> in
    if cap r <=? len bs then
      tail ← slice bs (len bs - cap r) (len bs);
      let r := r <| data := tail |> in
      Some (r <| retained_base := sat_sub (end_ r) (len (data r)) |>)
    else
      let overflow := sat_sub (sat_add u64_max (len (data r)) (len bs)) (cap r) in
      kept ← (if 0 <? overflow then drain_front overflow (data r) else Some (data r));
      let r := r <| data := kept ++ bs |> in
      Some (r <| retained_base := sat_sub (end_ r) (len (data r)) |>).

(** [start - self.retained_base] is in [usize] and guarded by the test. *)
Definition deltas_after (start : Z) (r : ByteRing) : result KernelError (list Z) :=
  if start <? retained_base r then Err CheckpointEvicted
  else if end_ r <? start then Err CheckpointEvicted
  else
    let skip := start - retained_base r in
    Ok (drop (Z.to_nat skip) (data r)).

(** ** Stored checkpoints *)

Definition CHECKPOINT_FORMAT_VERSION : Z := 1.

Record StoredCheckpoint := mkStored {
  format_version : Z;
  ending_offset : Z;
  hash : Z;
  blob : list Z;
}.

#[export] Instance stored_checkpoint_eq_dec : EqDecision StoredCheckpoint.
Proof. solve_decision. Defined.

Definition stored_new (ending_offset hash : Z) (blob : list Z) : StoredCheckpoint :=
  mkStored CHECKPOINT_FORMAT_VERSION ending_offset hash blob.

Definition check_compatible (c : StoredCheckpoint) : result KernelError () :=
  if negb (format_version c =? CHECKPOINT_FORMAT_VERSION) then Err IncompatibleCheckpoint
  else Ok ().

(** ** Specification

    The abstract state is the whole stream; the ring is its last [cap] bytes
    with their absolute offsets. *)

Definition last_bytes (n : Z) (s : list Z) : list Z := drop (Z.to_nat (len s - n)) s.

Definition ring_of (cap : Z) (s : list Z) : ByteRing :=
  let d := last_bytes cap s in mkRing d cap (len s - len d) (len s).

(** What a reader of the stream is promised: every byte from [start] on, or a
    refusal when bytes it needs are gone or it is ahead of the stream. *)
Definition stream_after (cap : Z) (s : list Z) (start : Z) : result KernelError (list Z) :=
  if (len s - cap <=? start) && (start <=? len s) && (0 <=? start)
  then Ok (drop (Z.to_nat start) s) else Err CheckpointEvicted.

Fixpoint ring_appends (chunks : list (list Z)) (r : ByteRing) : option ByteRing :=
  match chunks with
  | [] => Some r
  | c :: chunks => r ← ring_append c r; ring_appends chunks r
  end.

Lemma len_last_bytes n s : 0 <= n -> len (last_bytes n s) = Z.min n (len s).
Proof. intros. unfold last_bytes. rewrite len_drop. pose proof (len_nonneg s). lia. Qed.

Lemma last_bytes_app_long n s bs : 0 <= n <= len bs -> last_bytes n (s ++ bs) = last_bytes n bs.
Proof.
  intros H. unfold last_bytes. rewrite len_app, drop_app_ge by (unfold len in *; lia).
  f_equal. unfold len in *. lia.
Qed.

Lemma last_bytes_app_short n s bs :
  0 <= n -> len bs <= n -> last_bytes n (s ++ bs) = last_bytes (n - len bs) s ++ bs.
Proof.
  intros Hn Hb. unfold last_bytes. rewrite len_app, drop_app_le by (unfold len in *; lia).
  do 2 f_equal. lia.
Qed.

Lemma last_bytes_last n m s : 0 <= m <= n -> last_bytes m (last_bytes n s) = last_bytes m s.
Proof.
  intros H. unfold last_bytes at 1. rewrite len_last_bytes by lia.
  unfold last_bytes. rewrite drop_drop. f_equal. pose proof (len_nonneg s). lia.
Qed.

(** One append refines appending to the stream. *)
Lemma ring_append_eq cap s bs :
  1 <= cap <= u64_max -> len s + len bs <= u64_max ->
  ring_append bs (ring_of cap s) = Some (ring_of cap (s ++ bs)).
Proof.
  intros Hc Hs. pose proof (len_nonneg bs) as Hb. pose proof (len_nonneg s) as Hs0.
  unfold ring_append. case_if.
  { destruct bs as [|b bs]; [by rewrite app_nil_r|]. rewrite len_cons in *.
    pose proof (len_nonneg bs). lia. }
  cbn [ring_of put Prelude.eta byte_ring_eta data Ring.cap retained_base end_].
  unfold sat_add. rewrite Z.min_l by lia. unfold ring_of. rewrite len_app. case_if.
  - unfold slice, in_range. rewrite !(proj2 (Z.leb_le _ _)) by lia. cbn.
    rewrite take_ge by (rewrite length_drop; unfold len in *; lia).
    fold (last_bytes cap bs). rewrite last_bytes_app_long by lia.
    unfold sat_sub. rewrite !len_last_bytes, Z.max_l by lia. done.
  - rewrite last_bytes_app_short, len_app by lia.
    assert (Hk : (if 0 <? sat_sub (Z.min (len (last_bytes cap s) + len bs) u64_max) cap
                  then drain_front (sat_sub (Z.min (len (last_bytes cap s) + len bs) u64_max) cap) (last_bytes cap s)
                  else Some (last_bytes cap s)) = Some (last_bytes (cap - len bs) s)).
    { rewrite len_last_bytes by lia. unfold sat_sub. rewrite (Z.min_l _ u64_max) by lia.
      case_if.
      - unfold drain_front. rewrite len_last_bytes by lia. rewrite (proj2 (Z.leb_le _ _)) by lia.
        f_equal. rewrite <- (last_bytes_last cap (cap - len bs) s) by lia.
        unfold last_bytes at 2. rewrite len_last_bytes by lia. f_equal. lia.
      - f_equal. rewrite <- (last_bytes_last cap (cap - len bs) s) by lia.
        unfold last_bytes at 2. rewrite len_last_bytes by lia.
        replace (Z.to_nat (Z.min cap (len s) - (cap - len bs))) with 0%nat by lia. by rewrite drop_0. }
    rewrite Hk. cbn. rewrite len_app, len_last_bytes by lia. unfold sat_sub.
    rewrite Z.max_l by lia. done.
Qed.

Lemma ring_appends_eq cap chunks s :
  1 <= cap <= u64_max -> len s + len (concat chunks) <= u64_max ->
  ring_appends chunks (ring_of cap s) = Some (ring_of cap (s ++ concat chunks)).
Proof.
  revert s. induction chunks as [|c chunks IH]; intros s Hc Hs; cbn [ring_appends concat].
  - by rewrite app_nil_r.
  - cbn [concat] in Hs. rewrite len_app in Hs. pose proof (len_nonneg (concat chunks)).
    rewrite ring_append_eq by lia. cbn. rewrite IH by (rewrite ?len_app; lia). by rewrite app_assoc.
Qed.

Lemma deltas_after_eq cap s start :
  1 <= cap -> 0 <= start -> deltas_after start (ring_of cap s) = stream_after cap s start.
Proof.
  intros Hc H0. unfold deltas_after, stream_after, ring_of.
  cbn [data retained_base end_]. rewrite len_last_bytes by lia. pose proof (len_nonneg s).
  destruct (Z.leb_spec (len s - cap) start); cbn [andb].
  - rewrite (proj2 (Z.ltb_ge _ _)) by lia. rewrite Z.ltb_antisym.
    destruct (Z.leb_spec start (len s)); cbn; [|done]. rewrite (proj2 (Z.leb_le 0 start)) by lia.
    f_equal. unfold last_bytes. rewrite drop_drop. f_equal. lia.
  - by rewrite (proj2 (Z.ltb_lt _ _)) by lia.
Qed.

(** C35. The history ring refines the stream it was given.  Appending any
    chunks to a new ring never panics; afterwards it holds the last [cap] bytes
    of everything appended, the end offset is the number of bytes ever
    appended, and reading from an absolute offset gives exactly the bytes of
    the stream after it, refused exactly when some of them were evicted or the
    offset is ahead of the stream. *)
Theorem ring_refines_stream (n start : Z) (chunks : list (list Z)) :
  0 <= n <= u64_max -> len (concat chunks) <= u64_max -> 0 <= start ->
  let s := concat chunks in
  safe (ring_appends chunks (ring_new n)) (fun r =>
    ring_snapshot r = last_bytes (Z.max n 1) s /\
    end_offset r = len s /\
    retained_base r + ring_len r = end_offset r /\
    ring_len r <= Z.max n 1 /\
    deltas_after start r = stream_after (Z.max n 1) s start).
Proof.
  intros Hn Hl Hs s.
  assert (E : ring_new n = ring_of (Z.max n 1) [])
    by (unfold ring_of, last_bytes; by rewrite drop_nil).
  rewrite E, ring_appends_eq by (rewrite ?len_nil; lia).
  cbn [app]. fold s. apply safe_ret. unfold ring_len, ring_snapshot, end_offset.
  rewrite deltas_after_eq by lia. cbn [ring_of data end_ retained_base].
  pose proof (len_nonneg s). rewrite len_last_bytes by lia. split_and!; try done; lia.
Qed.

Lemma ring_refines_stream_witness :
  0 <= 4 <= u64_max /\ len (concat [[1; 2]; [3]; [4; 5; 6]]) <= u64_max /\ 0 <= 3 /\
  safe (ring_appends [[1; 2]; [3]; [4; 5; 6]] (ring_new 4)) (fun r =>
    ring_snapshot r = last_bytes (Z.max 4 1) (concat [[1; 2]; [3]; [4; 5; 6]]) /\
    end_offset r = len (concat [[1; 2]; [3]; [4; 5; 6]]) /\
    retained_base r + ring_len r = end_offset r /\
    ring_len r <= Z.max 4 1 /\
    deltas_after 3 r = stream_after (Z.max 4 1) (concat [[1; 2]; [3]; [4; 5; 6]]) 3).
Proof.
  split; [lia|]. split; [vm_compute; discriminate|]. split; [lia|].
  apply (ring_refines_stream 4 3 [[1; 2]; [3]; [4; 5; 6]]); [lia|vm_compute; discriminate|lia].
Defined.

Example ring_evicts :
  (r ← ring_appends [[1; 2]; [3]; [4; 5; 6]] (ring_new 4);
   Some (ring_snapshot r, retained_base r, deltas_after 1 r, deltas_after 3 r)) =
  Some ([3; 4; 5; 6], 2, Err CheckpointEvicted, Ok [4; 5; 6]).
Proof. vm_compute. reflexivity. Qed.
