(* ===== verification/Transcript.v ===== *)
(** The semantic transcript of crates/rill-kernel/src/transcript.rs: events
    with an identity, a sequence number and, for terminal output, a byte range
    of one execution generation; and the ledger that accepts each event once,
    in order, up to a bound. *)
From S2P Require Import Prelude.

Local Open Scope Z_scope.

(** [EventId] is a non-empty string ([event_id_new]). *)
Abbreviation EventId := string (only parsing).

Inductive EventProvenance : Type :=
| Pty | StructuredInput | ShellMark | Process | ToolAdapter | Runtime.

#[export] Instance provenance_eq_dec : EqDecision EventProvenance.
Proof. solve_decision. Defined.

Inductive EventPayload : Type :=
| PTerminalOutput (range : Z * Z)
| PCommandSubmitted (command : string)
| PProcessExited (status : Z)
| PUnstructured (range : Z * Z)
| PDiscontinuity (range : Z * Z).

#[export] Instance payload_eq_dec : EqDecision EventPayload.
Proof. solve_decision. Defined.

Definition terminal_range (p : EventPayload) : option (Z * Z) :=
  match p with
  | PTerminalOutput r | PUnstructured r | PDiscontinuity r => Some r
  | PCommandSubmitted _ | PProcessExited _ => None
  end.

Record SemanticEvent := mkEvent {
  event_id : EventId;
  sequence : Z;
  execution_generation : Z;
  provenance : EventProvenance;
  event_payload : EventPayload;
}.

#[export] Instance semantic_event_eq_dec : EqDecision SemanticEvent.
Proof. solve_decision. Defined.

Inductive TranscriptError : Type :=
| EmptyEventId
| ConflictingEventId (id : EventId)
| OutOfOrderSequence (expected_after got : Z)
| GenerationMismatch (expected got : Z)
| InvalidTerminalRange (start end_ : Z)
| OverlappingTerminalRange (previous_end next_start : Z)
| UnauthorizedProvenance (p : EventProvenance) (payload : string)
| CapacityExceeded (max_events recovery_cursor : Z).

#[export] Instance transcript_error_eq_dec : EqDecision TranscriptError.
Proof. solve_decision. Defined.

Definition event_id_new (value : string) : result TranscriptError EventId :=
  if decide (value = EmptyString) then Err EmptyEventId else Ok value.

(** [SemanticEvent::new] *)
Definition semantic_event_new (id : EventId) (sequence generation : Z) (prov : EventProvenance)
    (payload : EventPayload) : result TranscriptError SemanticEvent :=
  let checked :=
    match terminal_range payload with
    | Some (start, end_) => if end_ <=? start then Err (InvalidTerminalRange start end_) else Ok ()
    | None => Ok ()
    end in
  _ ← checked;
  match payload with
  | PCommandSubmitted _ =>
      match prov with
      | StructuredInput | ShellMark => Ok (mkEvent id sequence generation prov payload)
      | _ => Err (UnauthorizedProvenance prov "command submitted"%string)
      end
  | PProcessExited _ =>
      if decide (prov = Process) then Ok (mkEvent id sequence generation prov payload)
      else Err (UnauthorizedProvenance prov "process exited"%string)
  | _ => Ok (mkEvent id sequence generation prov payload)
  end.

(** ** The ledger *)

Record TranscriptLedger := mkLedger {
  ledger_events : list SemanticEvent;
  by_id : gmap string Z;
  last_sequence : option Z;
  ledger_generation : option Z;
  last_terminal_end : option Z;
  max_events : Z;
}.

#[export] Instance ledger_eta : Eta TranscriptLedger := fun l =>
  mkLedger (ledger_events l) (by_id l) (last_sequence l) (ledger_generation l)
    (last_terminal_end l) (max_events l).

Definition with_max_events (n : Z) : TranscriptLedger :=
  mkLedger [] ∅ None None None (Z.max n 1).
Definition ledger_new : TranscriptLedger := with_max_events 4096.

(** The tests of [append] after the identity and capacity tests. *)
Definition order_check (e : SemanticEvent) (l : TranscriptLedger) : result TranscriptError () :=
  _ ← (match last_sequence l with
       | Some last => if sequence e <=? last then Err (OutOfOrderSequence last (sequence e)) else Ok ()
       | None => Ok ()
       end);
  match terminal_range (event_payload e) with
  | None => Ok ()
  | Some (start, _) =>
      _ ← (match ledger_generation l with
           | Some g =>
               if negb (execution_generation e =? g)
               then Err (GenerationMismatch g (execution_generation e)) else Ok ()
           | None => Ok ()
           end);
      match last_terminal_end l with
      | Some previous_end =>
          if start <? previous_end then Err (OverlappingTerminalRange previous_end start) else Ok ()
      | None => Ok ()
      end
  end.

Definition commit (e : SemanticEvent) (l : TranscriptLedger) : TranscriptLedger :=
  let l :=
    match terminal_range (event_payload e) with
    | Some (_, end_) =>
        l <| ledger_generation := Some (execution_generation e) |> <| last_terminal_end := Some end_ |>
    | None => l
    end in
  let l := l <| last_sequence := Some (sequence e) |> in
  let l := l <| by_id := <[event_id e := len (ledger_events l)]> (by_id l) |> in
  l <| ledger_events := ledger_events l ++ [e] |>.

(** [TranscriptLedger::append]; [None] is the out-of-range index of a stale
    [by_id] entry. *)
Definition ledger_append (e : SemanticEvent) (l : TranscriptLedger)
  : option (result TranscriptError () * TranscriptLedger) :=
  match by_id l !! event_id e with
  | Some index =>
      known ← zget (ledger_events l) index;
      if decide (known = e) then Some (Ok (), l)
      else Some (Err (ConflictingEventId (event_id e)), l)
  | None =>
      if max_events l <=? len (ledger_events l)
      then Some (Err (CapacityExceeded (max_events l) (default 0 (last_sequence l))), l)
      else
        match order_check e l with
        | Err err => Some (Err err, l)
        | Ok _ => Some (Ok (), commit e l)
        end
  end.

Fixpoint ledger_appends (es : list SemanticEvent) (l : TranscriptLedger) : option TranscriptLedger :=
  match es with
  | [] => Some l
  | e :: es => '(_, l) ← ledger_append e l; ledger_appends es l
  end.

(** ** Specification: a log

    The abstract state is the list of accepted events.  Which events may
    follow is stated over the whole log; the ledger decides it from four cached
    fields. *)

(** Terminal ranges follow each other within one generation. *)
Definition range_follows (a b : SemanticEvent) : Prop :=
  match terminal_range (event_payload a), terminal_range (event_payload b) with
  | Some (_, e1), Some (s2, _) => execution_generation a = execution_generation b /\ e1 <= s2
  | _, _ => True
  end.

#[export] Instance range_follows_dec a b : Decision (range_follows a b).
Proof.
  unfold range_follows. destruct (terminal_range (event_payload a)) as [[? ?]|],
    (terminal_range (event_payload b)) as [[? ?]|]; apply _.
Defined.

Definition precedes (a b : SemanticEvent) : Prop :=
  event_id a <> event_id b /\ sequence a < sequence b /\ range_follows a b.

#[export] Instance precedes_dec a b : Decision (precedes a b).
Proof. unfold precedes. apply _. Defined.

Definition admissible (max : Z) (log : list SemanticEvent) (e : SemanticEvent) : Prop :=
  len log < max /\ Forall (fun a => precedes a e) log.

#[export] Instance admissible_dec max log e : Decision (admissible max log e).
Proof. unfold admissible. apply _. Defined.

Definition log_record (max : Z) (log : list SemanticEvent) (e : SemanticEvent) : list SemanticEvent :=
  if decide (e ∈ log) then log else if decide (admissible max log e) then log ++ [e] else log.

(** An event the public constructor can make. *)
Definition event_valid (e : SemanticEvent) : Prop :=
  semantic_event_new (event_id e) (sequence e) (execution_generation e) (provenance e) (event_payload e)
  = Ok e.

Definition is_terminal (e : SemanticEvent) : Prop := terminal_range (event_payload e) <> None.

#[export] Instance is_terminal_dec e : Decision (is_terminal e).
Proof. unfold is_terminal. apply _. Defined.

Definition last_terminal (log : list SemanticEvent) : option SemanticEvent :=
  last (filter is_terminal log).

Definition terminal_end (e : SemanticEvent) : option Z := snd <$> terminal_range (event_payload e).

Record represents (max : Z) (log : list SemanticEvent) (l : TranscriptLedger) : Prop := {
  rep_events : ledger_events l = log;
  rep_ids : forall id i, by_id l !! id = Some i <-> exists e, zget log i = Some e /\ event_id e = id;
  rep_seq : last_sequence l = sequence <$> last log;
  rep_gen : ledger_generation l = execution_generation <$> last_terminal log;
  rep_end : last_terminal_end l = last_terminal log ≫= terminal_end;
  rep_max : max_events l = max;
  rep_sorted : StronglySorted precedes log;
  rep_valid : Forall event_valid log;
}.

(** ** The ledger implements the log *)

Lemma event_valid_range e s t :
  event_valid e -> terminal_range (event_payload e) = Some (s, t) -> s < t.
Proof.
  unfold event_valid, semantic_event_new. intros Hv Hr. rewrite Hr in Hv.
  destruct (Z.leb_spec t s); [discriminate|lia].
Qed.

Section Represented.
Context (max : Z) (log : list SemanticEvent) (l : TranscriptLedger).
Context (Hr : represents max log l).

Lemma last_terminal_Some z :
  last_terminal log = Some z -> z ∈ log /\ is_terminal z.
Proof.
  unfold last_terminal. intros Hz%last_Some_elem_of.
  by apply list_elem_of_filter in Hz as [? ?].
Qed.

(** The caches decide the order over the whole log. *)
Lemma cached_sequence e :
  (forall z, last log = Some z -> sequence z < sequence e) <->
  (forall a, a ∈ log -> sequence a < sequence e).
Proof.
  split; intros H a Ha; [|by eapply H, last_Some_elem_of].
  destruct (last log) as [z|] eqn:Hz.
  - specialize (H z eq_refl).
    destruct (sorted_before_last _ _ _ _ (rep_sorted _ _ _ Hr) Hz Ha) as [->|(_ & ? & _)]; lia.
  - apply last_None in Hz. rewrite Hz in Ha. by apply not_elem_of_nil in Ha.
Qed.

Lemma cached_range e :
  (forall z, last_terminal log = Some z -> range_follows z e) <->
  (forall a, a ∈ log -> range_follows a e).
Proof.
  split; intros H a Ha; [|by apply H, last_terminal_Some].
  unfold range_follows. destruct (terminal_range (event_payload a)) as [[s1 e1]|] eqn:Hra; [|done].
  destruct (terminal_range (event_payload e)) as [[s2 e2]|] eqn:Hre; [|done].
  assert (Hf : a ∈ filter is_terminal log) by (apply list_elem_of_filter; unfold is_terminal; by rewrite Hra).
  destruct (last_terminal log) as [z|] eqn:Hz.
  2: { unfold last_terminal in Hz. apply last_None in Hz. rewrite Hz in Hf. by apply not_elem_of_nil in Hf. }
  specialize (H z eq_refl). unfold range_follows in H. rewrite Hre in H.
  pose proof (sorted_before_last _ _ z a (sorted_filter _ is_terminal _ (rep_sorted _ _ _ Hr)) Hz Hf) as Hlast.
  apply last_terminal_Some in Hz as [Hin Ht]. unfold is_terminal in Ht.
  destruct (terminal_range (event_payload z)) as [[sz ez]|] eqn:Hrz; [|done].
  pose proof (proj1 (Forall_forall _ _) (rep_valid _ _ _ Hr) z Hin) as Hv.
  pose proof (event_valid_range z _ _ Hv Hrz).
  destruct Hlast as [->|(_ & _ & Hp)].
  - assert (ez = e1) by congruence. by subst.
  - unfold range_follows in Hp. rewrite Hra, Hrz in Hp. destruct H, Hp. split; [congruence|lia].
Qed.

Lemma order_check_iff e :
  order_check e l = Ok () <->
  (forall a, a ∈ log -> sequence a < sequence e) /\ (forall a, a ∈ log -> range_follows a e).
Proof.
  rewrite <- cached_sequence, <- cached_range. unfold order_check.
  rewrite (rep_seq _ _ _ Hr), (rep_gen _ _ _ Hr), (rep_end _ _ _ Hr).
  assert (Hs : (match sequence <$> last log with
       | Some last => if sequence e <=? last then Err (OutOfOrderSequence last (sequence e)) else Ok ()
       | None => Ok ()
       end = Ok () <-> forall z, last log = Some z -> sequence z < sequence e)).
  { destruct (last log) as [z|]; cbn; [|by split].
    case_if; split; try done; [intros H; specialize (H z eq_refl); lia|].
    intros _ ? [= <-]. lia. }
  assert (Ht : forall z, last_terminal log = Some z -> is_terminal z)
    by (intros z Hz; by apply last_terminal_Some).
  unfold is_terminal in Ht. unfold range_follows. rewrite result_bind_Ok.
  split; [intros ([] & H1 & H2)|intros [H1 H2]; exists ()]; (split; [by apply Hs|]); clear Hs H1.
  - intros z Hz. specialize (Ht z Hz). rewrite Hz in H2. cbn in H2. unfold terminal_end in H2.
    destruct (terminal_range (event_payload z)) as [[s1 e1]|]; [|done].
    destruct (terminal_range (event_payload e)) as [[s2 e2]|]; [|done]. cbn in H2.
    case_if_in H2; try discriminate. split; lia.
  - destruct (terminal_range (event_payload e)) as [[s2 e2]|]; [|done].
    destruct (last_terminal log) as [z|]; [|done]. specialize (Ht z eq_refl). specialize (H2 z eq_refl).
    cbn. unfold terminal_end. destruct (terminal_range (event_payload z)) as [[s1 e1]|]; [|done].
    destruct H2 as [-> H2]. rewrite Z.eqb_refl. cbn. by rewrite (proj2 (Z.ltb_ge _ _)) by lia.
Qed.
End Represented.

(** ** What appending does *)

Lemma represents_new n : represents (Z.max n 1) [] (with_max_events n).
Proof.
  split; try done; try by constructor. intros id i. cbn. rewrite lookup_empty.
  split; [done|intros (e & He & _); apply zget_Some in He; unfold len in He; cbn in He; lia].
Qed.

Section Append.
Context (max : Z) (log : list SemanticEvent) (l : TranscriptLedger).
Context (Hr : represents max log l).

Lemma known_iff e :
  by_id l !! event_id e = None <-> forall a, a ∈ log -> event_id a <> event_id e.
Proof.
  split.
  - intros Hn a [n Hn']%list_elem_of_lookup Ha.
    enough (by_id l !! event_id e = Some (Z.of_nat n)) by congruence.
    apply (rep_ids _ _ _ Hr). exists a. by rewrite zget_nth.
  - intros H. destruct (by_id l !! event_id e) as [i|] eqn:Hi; [|done].
    apply (rep_ids _ _ _ Hr) in Hi as (a & Ha & Hid). unfold zget in Ha.
    case_if_in Ha; [|done]. apply list_elem_of_lookup_2 in Ha. exfalso. by eapply H.
Qed.

Lemma order_iff_precedes e :
  by_id l !! event_id e = None ->
  (order_check e l = Ok () <-> Forall (fun a => precedes a e) log).
Proof.
  intros Hn. rewrite (order_check_iff _ _ _ Hr). rewrite known_iff in Hn.
  rewrite Forall_forall. unfold precedes. split; [intros [H1 H2] a Ha; auto|].
  intros H. split; intros a Ha; by apply H.
Qed.

Lemma last_terminal_snoc e :
  last_terminal (log ++ [e]) = if decide (is_terminal e) then Some e else last_terminal log.
Proof.
  unfold last_terminal. rewrite filter_app, filter_cons, filter_nil.
  case_decide; [apply last_snoc|by rewrite app_nil_r].
Qed.

Lemma represents_commit e :
  event_valid e -> by_id l !! event_id e = None -> Forall (fun a => precedes a e) log ->
  represents max (log ++ [e]) (commit e l).
Proof.
  intros Hv Hn Hp. pose proof Hr as [Ee Ei Es Eg Et Em Hs Hval].
  assert (Hc : commit e l =
    mkLedger (log ++ [e]) (<[event_id e := len log]> (by_id l)) (Some (sequence e))
      (if decide (is_terminal e) then Some (execution_generation e) else ledger_generation l)
      (if decide (is_terminal e) then terminal_end e else last_terminal_end l) max).
  { unfold commit, terminal_end. rewrite <- Ee, <- Em. case_decide as Ht; unfold is_terminal in Ht;
      destruct (terminal_range (event_payload e)) as [[? ?]|]; try done; by destruct Ht. }
  rewrite Hc. split; cbn [ledger_events by_id last_sequence ledger_generation last_terminal_end max_events].
  - done.
  - intros id i. rewrite zget_app. destruct (decide (id = event_id e)) as [->|Hne].
    + rewrite lookup_insert_eq. split.
      * intros [= <-]. exists e. rewrite Z.ltb_irrefl, Z.sub_diag. done.
      * intros (a & Ha & Hid). case_if_in Ha.
        -- exfalso. unfold zget in Ha. case_if_in Ha; [|done]. apply list_elem_of_lookup_2 in Ha.
           by eapply known_iff.
        -- apply zget_Some in Ha. change (len [e]) with 1 in Ha. f_equal. lia.
    + rewrite lookup_insert_ne, Ei by done. split; intros (a & Ha & Hid); exists a.
      * split; [|done]. by rewrite (proj2 (Z.ltb_lt _ _)) by (apply zget_Some in Ha; lia).
      * case_if_in Ha; [done|]. exfalso.
        pose proof (zget_Some _ _ _ Ha) as Hlt. change (len [e]) with 1 in Hlt.
        replace (i - len log) with 0 in Ha by lia. injection Ha as <-. by subst.
  - by rewrite last_snoc.
  - rewrite last_terminal_snoc. by case_decide.
  - rewrite last_terminal_snoc. by case_decide.
  - done.
  - by apply sorted_snoc.
  - apply Forall_app. auto.
Qed.

(** One append, whatever it is given: accepted exactly when it repeats an
    event of the log or may follow it. *)
Lemma ledger_append_eq e :
  event_valid e ->
  safe (ledger_append e l) (fun '(r, l') =>
    represents max (log_record max log e) l' /\
    (r = Ok () <-> e ∈ log \/ admissible max log e) /\
    (r <> Ok () \/ e ∈ log -> l' = l)).
Proof.
  intros Hv. unfold ledger_append, log_record.
  destruct (by_id l !! event_id e) as [i|] eqn:Hi.
  - pose proof (proj1 (rep_ids _ _ _ Hr _ _) Hi) as (a & Ha & Hid).
    rewrite (rep_events _ _ _ Hr), Ha. cbn.
    assert (Hin : a ∈ log)
      by (unfold zget in Ha; case_if_in Ha; [by apply list_elem_of_lookup_2 in Ha|done]).
    assert (Hna : ~ admissible max log e).
    { intros [_ Hp]. rewrite Forall_forall in Hp. by destruct (Hp a Hin) as [? _]. }
    destruct (decide (a = e)) as [->|Hne].
    + apply safe_ret. rewrite decide_True by done.
      split; [exact Hr|]. split; [|done]. split; [by left|done].
    + apply safe_ret.
      assert (Hnin : e ∉ log).
      { intros [j Hj]%list_elem_of_lookup. rewrite <- zget_nth in Hj.
        assert (by_id l !! event_id e = Some (Z.of_nat j)) by (apply (rep_ids _ _ _ Hr); eauto).
        assert (i = Z.of_nat j) by congruence. subst i. congruence. }
      rewrite !decide_False by done.
      split; [exact Hr|]. split; [|done]. split; [discriminate|intros [?|?]; done].
  - assert (Hnin : e ∉ log) by (intros He; by eapply known_iff).
    rewrite (decide_False (P := e ∈ log)) by done.
    rewrite (rep_max _ _ _ Hr), (rep_events _ _ _ Hr).
    destruct (Z.leb_spec max (len log)) as [Hcap|Hcap].
    + apply safe_ret. rewrite decide_False by (intros [? _]; lia).
      split; [exact Hr|]. split; [|done]. split; [discriminate|]. intros [?|[? _]]; [done|lia].
    + destruct (order_check e l) as [[]|err] eqn:Hc; apply safe_ret.
      * apply order_iff_precedes in Hc; [|done]. rewrite decide_True by done.
        split; [by apply represents_commit|]. split; [split; [by right|done]|]. by intros [?|?].
      * assert (~ admissible max log e).
        { intros [_ Hp]. apply order_iff_precedes in Hp; [|done]. congruence. }
        rewrite decide_False by done.
        split; [exact Hr|]. split; [|done]. split; [discriminate|intros [?|?]; done].
Qed.
End Append.

Lemma ledger_appends_eq max es log l :
  represents max log l -> Forall event_valid es ->
  safe (ledger_appends es l) (represents max (fold_left (log_record max) es log)).
Proof.
  intros Hr Hes. revert log l Hr. induction Hes as [|e es He Hes IH]; intros log l Hr; cbn; [by apply safe_ret|].
  eapply safe_bind; [by eapply ledger_append_eq|]. intros [r l'] (Hr' & _). by apply IH.
Qed.

Lemma log_record_len max log e : len log <= max -> len (log_record max log e) <= max.
Proof.
  intros H. unfold log_record. repeat case_decide; try done.
  rewrite len_app. change (len [e]) with 1. unfold admissible in *. lia.
Qed.

Lemma log_records_len max es log : len log <= max -> len (fold_left (log_record max) es log) <= max.
Proof. revert log. induction es as [|e es IH]; intros log H; cbn; [done|]. by apply IH, log_record_len. Qed.

(** C33. The ledger implements the log.  Appending any valid events to a fresh
    ledger never panics; what it holds is what recording them one by one in a
    plain list gives, repeated events ignored and inadmissible ones refused;
    the events it holds have distinct identities, strictly increasing sequence
    numbers and, where they are terminal, byte ranges of one generation that
    follow each other without overlap; and there are never more than the bound. *)
Theorem ledger_refines_log (n : Z) (es : list SemanticEvent) :
  Forall event_valid es ->
  safe (ledger_appends es (with_max_events n)) (fun l =>
    ledger_events l = fold_left (log_record (Z.max n 1)) es [] /\
    StronglySorted precedes (ledger_events l) /\
    len (ledger_events l) <= Z.max n 1).
Proof.
  intros Hes. eapply safe_mono; [apply (ledger_appends_eq (Z.max n 1) es []); [apply represents_new|done]|].
  intros l [E _ _ _ _ _ Hs _]. rewrite E.
  split; [done|]. split; [done|]. apply log_records_len. change (len (@nil SemanticEvent)) with 0. lia.
Qed.

(** One append is decided by the whole log.  On a ledger reached by any
    valid appends, an event is accepted exactly when it is already held or may
    follow every event held within the bound; a refusal leaves the ledger as it
    was, and so does repeating an event. *)
Theorem ledger_append_verdict (n : Z) (es : list SemanticEvent) (e : SemanticEvent) (l : TranscriptLedger) :
  Forall event_valid es -> event_valid e -> ledger_appends es (with_max_events n) = Some l ->
  safe (ledger_append e l) (fun '(r, l') =>
    (r = Ok () <-> e ∈ ledger_events l \/ admissible (Z.max n 1) (ledger_events l) e) /\
    (r <> Ok () \/ e ∈ ledger_events l -> l' = l)).
Proof.
  intros Hes He Hl.
  pose proof (safe_inv _ _ _ (ledger_appends_eq (Z.max n 1) es [] _ (represents_new n) Hes) Hl) as Hr.
  eapply safe_mono; [by apply (ledger_append_eq _ _ _ Hr)|]. intros [r l'] (_ & H1 & H2).
  by rewrite (rep_events _ _ _ Hr).
Qed.

Definition out_event (id : string) (seq gen s t : Z) : SemanticEvent :=
  mkEvent id seq gen Pty (PTerminalOutput (s, t)).

Definition demo_events : list SemanticEvent :=
  [ out_event "event-1" 1 1 10 20; out_event "event-1" 1 1 10 20;
    out_event "event-2" 2 1 19 30; mkEvent "exit" 3 9 Process (PProcessExited 0);
    out_event "event-3" 4 2 20 30; out_event "event-4" 4 1 20 30 ].

Lemma ledger_refines_log_witness :
  Forall event_valid demo_events /\
  safe (ledger_appends demo_events (with_max_events 8)) (fun l =>
    ledger_events l = fold_left (log_record (Z.max 8 1)) demo_events [] /\
    StronglySorted precedes (ledger_events l) /\
    len (ledger_events l) <= Z.max 8 1).
Proof.
  assert (H : Forall event_valid demo_events) by (repeat constructor).
  split; [exact H|]. apply (ledger_refines_log 8 demo_events H).
Defined.

Example demo_log :
  map event_id <$> (ledger_events <$> ledger_appends demo_events (with_max_events 8)) =
  Some ["event-1"; "exit"; "event-4"]%string.
Proof. vm_compute. reflexivity. Qed.

Lemma ledger_append_verdict_witness :
  exists l, Forall event_valid demo_events /\ event_valid (out_event "event-5" 5 1 30 31) /\
    ledger_appends demo_events (with_max_events 8) = Some l /\
  safe (ledger_append (out_event "event-5" 5 1 30 31) l) (fun '(r, l') =>
    (r = Ok () <-> out_event "event-5" 5 1 30 31 ∈ ledger_events l \/
       admissible (Z.max 8 1) (ledger_events l) (out_event "event-5" 5 1 30 31)) /\
    (r <> Ok () \/ out_event "event-5" 5 1 30 31 ∈ ledger_events l -> l' = l)).
Proof.
  assert (H : Forall event_valid demo_events) by (repeat constructor).
  assert (He : event_valid (out_event "event-5" 5 1 30 31)) by reflexivity.
  destruct (ledger_appends demo_events (with_max_events 8)) as [l|] eqn:El; [|vm_compute in El; discriminate].
  exists l. split; [exact H|]. split; [exact He|]. split; [reflexivity|].
  apply (ledger_append_verdict 8 demo_events (out_event "event-5" 5 1 30 31) l H He El).
Defined.
