(* ===== verification/Content.v ===== *)
(** The content timeline of crates/rill-kernel/src/content.rs: source ranges,
    retention policies, content events, the append-only timeline, the durable
    transcript and redacted exports.

    Texts are their UTF-8 bytes; identities are strings. *)
From S2P Require Import Prelude.

Local Open Scope Z_scope.

Inductive ContentError : Type :=
| DuplicateEventId (id : string)
| COutOfOrderSequence (event_id : string) (expected_after got : Z)
| CaptureDisabled
| RetentionLimitExceeded (limit attempted : Z)
| InvalidSourceRange (start end_ : Z)
| ReplayStateRequired
| IncompatibleReplayState
| AlternateScreenNotMaterialized.

#[export] Instance content_error_eq_dec : EqDecision ContentError.
Proof. solve_decision. Defined.

(** ** Source ranges and replay *)

Record SourceRange := mkSource {
  src_generation : Z;
  src_start : Z;
  src_end : Z;
  src_checkpoint_id : option string;
}.

#[export] Instance source_range_eq_dec : EqDecision SourceRange.
Proof. solve_decision. Defined.

Inductive ReplayState : Type :=
| StreamOrigin
| ReplayCheckpoint (checkpoint_id : string) (generation ending_offset : Z).

Definition source_range_new (generation start end_ : Z) (checkpoint_id : option string)
  : result ContentError SourceRange :=
  if end_ <=? start then Err (InvalidSourceRange start end_)
  else Ok (mkSource generation start end_ checkpoint_id).

Definition validate_replay (r : SourceRange) (state : ReplayState) : result ContentError () :=
  match state with
  | StreamOrigin => if src_start r =? 0 then Ok () else Err ReplayStateRequired
  | ReplayCheckpoint id generation ending_offset =>
      if bool_decide (src_checkpoint_id r = Some id) && (src_generation r =? generation)
         && (src_start r =? ending_offset)
      then Ok () else Err IncompatibleReplayState
  end.

(** ** Retention *)

Inductive RetentionMode : Type := Disabled | MemoryOnly | Durable.

#[export] Instance retention_mode_eq_dec : EqDecision RetentionMode.
Proof. solve_decision. Defined.

Record RetentionPolicy := mkPolicy { mode : RetentionMode; limit_bytes : option Z }.

#[export] Instance policy_eq_dec : EqDecision RetentionPolicy.
Proof. solve_decision. Defined.

Definition policy_disabled : RetentionPolicy := mkPolicy Disabled None.
Definition memory_only (limit : Z) : RetentionPolicy := mkPolicy MemoryOnly (Some limit).
Definition durable (limit : option Z) : RetentionPolicy := mkPolicy Durable limit.

Definition allows_capture (p : RetentionPolicy) : bool :=
  match mode p with Disabled => false | _ => true end.

Definition restrictive_wins (a b : RetentionPolicy) : RetentionPolicy :=
  match mode a, mode b with
  | Disabled, _ => a
  | _, Disabled => b
  | MemoryOnly, MemoryOnly =>
      mkPolicy MemoryOnly
        (Some (Z.min (default u64_max (limit_bytes a)) (default u64_max (limit_bytes b))))
  | MemoryOnly, Durable => a
  | Durable, MemoryOnly => b
  | Durable, Durable =>
      mkPolicy Durable
        (Some (Z.min (default u64_max (limit_bytes a)) (default u64_max (limit_bytes b))))
  end.

(** ** Events *)

Inductive ContentKind : Type :=
| TerminalInput | TerminalOutput | BackgroundOutput | AgentMessage | ToolCall | ToolResult
| Approval | Question | DiffResult | LifecycleEvent | Discontinuity | Truncation | Unstructured.

#[export] Instance content_kind_eq_dec : EqDecision ContentKind.
Proof. solve_decision. Defined.

Inductive EventAvailability : Type := Available | Truncated | Unavailable.
Inductive ScreenMode : Type := Primary | Alternate.

#[export] Instance screen_mode_eq_dec : EqDecision ScreenMode.
Proof. solve_decision. Defined.

Record ContentEvent := mkContent {
  ev_id : string;
  kind : ContentKind;
  ev_seq : Z;
  parent_event_id : option string;
  source_range : option (Z * Z);
  availability : EventAvailability;
  source : option SourceRange;
  materialized_text : option (list Z);
}.

Definition content_event_new (id : string) (k : ContentKind) (seq : Z) (parent : option string)
    (range : option (Z * Z)) : ContentEvent :=
  mkContent id k seq parent range Available None None.

Definition materialized_terminal_output (id : string) (seq : Z) (src : SourceRange) (text : list Z)
  : ContentEvent :=
  mkContent id TerminalOutput seq None (Some (src_start src, src_end src)) Available
    (Some src) (Some text).

Definition structured_terminal_input (id : string) (seq : Z) (text : list Z) : ContentEvent :=
  mkContent id TerminalInput seq None None Available None (Some text).

Definition truncated (id : string) (seq : Z) (range : Z * Z) : ContentEvent :=
  mkContent id Truncation seq None (Some range) Truncated None None.

Definition is_command_boundary (e : ContentEvent) : bool := bool_decide (kind e = TerminalInput).

Definition size_hint (e : ContentEvent) : Z :=
  let payload := match materialized_text e with Some text => len text | None => 0 end in
  sat_add u64_max payload
    (match source_range e with
     | Some (start, end_) => Z.max (sat_sub end_ start) 1
     | None => Z.of_nat (String.length (ev_id e)) + 16
     end).

(** ** Redacted exports *)

Record RedactionRule := mkRule { literal : list Z; replacement : list Z; version : list Z }.
Record RedactedExport := mkExport { text : list Z; rule_versions : list (list Z) }.

Fixpoint is_prefix (p s : list Z) : bool :=
  match p, s with
  | [], _ => true
  | _ :: _, [] => false
  | a :: p, b :: s => (a =? b) && is_prefix p s
  end.

(** [str::contains] *)
Fixpoint str_contains (s p : list Z) : bool :=
  is_prefix p s || match s with [] => false | _ :: s => str_contains s p end.

(** [str::replace] with a non-empty pattern: the matches from the left, not
    overlapping.  [skip] bytes of the current match are left out. *)
Fixpoint replace_from (skip : nat) (s p r : list Z) : list Z :=
  match s with
  | [] => []
  | b :: s' =>
      match skip with
      | S skip => replace_from skip s' p r
      | O =>
          if is_prefix p s then r ++ replace_from (pred (length p)) s' p r
          else b :: replace_from 0 s' p r
      end
  end.

(** The empty pattern matches at every character boundary and at the end. *)
Fixpoint replace_empty (s r : list Z) : list Z :=
  match s with
  | [] => r
  | b :: s => (if Z.land b 192 =? 128 then [b] else r ++ [b]) ++ replace_empty s r
  end.

Definition str_replace (s p r : list Z) : list Z :=
  match p with [] => replace_empty s r | _ :: _ => replace_from 0 s p r end.

Definition redact_one (acc : list Z * list (list Z)) (rule : RedactionRule) : list Z * list (list Z) :=
  let '(text, versions) := acc in
  if str_contains text (literal rule)
  then (str_replace text (literal rule) (replacement rule), versions ++ [version rule])
  else (text, versions).

Definition redacted_export (e : ContentEvent) (rules : list RedactionRule) : RedactedExport :=
  let '(text, versions) := fold_left redact_one rules (default [] (materialized_text e), []) in
  mkExport text versions.

(** ** The timeline *)

Record ContentTimeline := mkTimeline {
  events : list ContentEvent;
  ids : gset string;
  last_seq : option Z;
  bytes_used : Z;
  screen_mode : ScreenMode;
}.

#[export] Instance timeline_eta : Eta ContentTimeline := fun t =>
  mkTimeline (events t) (ids t) (last_seq t) (bytes_used t) (screen_mode t).

Definition timeline_new : ContentTimeline := mkTimeline [] ∅ None 0 Primary.

Definition accepts_terminal_materialization (t : ContentTimeline) : bool :=
  bool_decide (screen_mode t = Primary).

Definition set_screen_mode (m : ScreenMode) (t : ContentTimeline) : ContentTimeline :=
  t <| screen_mode := m |>.

Definition timeline_commit (e : ContentEvent) (t : ContentTimeline) : ContentTimeline :=
  let t := t <| ids := {[ev_id e]} ∪ ids t |> in
  let t := t <| last_seq := Some (ev_seq e) |> in
  let t := t <| bytes_used := sat_add u64_max (bytes_used t) (size_hint e) |> in
  t <| events := events t ++ [e] |>.

Definition timeline_append (e : ContentEvent) (t : ContentTimeline)
  : result ContentError () * ContentTimeline :=
  if bool_decide (kind e = TerminalOutput) && negb (accepts_terminal_materialization t)
  then (Err AlternateScreenNotMaterialized, t)
  else if bool_decide (ev_id e ∈ ids t) then (Err (DuplicateEventId (ev_id e)), t)
  else
    match last_seq t with
    | Some last =>
        if ev_seq e <=? last then (Err (COutOfOrderSequence (ev_id e) last (ev_seq e)), t)
        else (Ok (), timeline_commit e t)
    | None => (Ok (), timeline_commit e t)
    end.

Definition append_with_policy (p : RetentionPolicy) (e : ContentEvent) (t : ContentTimeline)
  : result ContentError () * ContentTimeline :=
  if negb (allows_capture p) then (Err CaptureDisabled, t)
  else
    match limit_bytes p with
    | Some limit =>
        let attempted := sat_add u64_max (bytes_used t) (size_hint e) in
        if limit <? attempted then (Err (RetentionLimitExceeded limit attempted), t)
        else timeline_append e t
    | None => timeline_append e t
    end.

Definition append_discontinuity (id : string) (seq start end_ : Z) :=
  timeline_append (content_event_new id Discontinuity seq None (Some (start, end_))).
Definition append_truncation (id : string) (seq start end_ : Z) :=
  timeline_append (truncated id seq (start, end_)).

Definition has_discontinuity (t : ContentTimeline) : bool :=
  existsb (fun e => bool_decide (kind e = Discontinuity)) (events t).
Definition has_truncation (t : ContentTimeline) : bool :=
  existsb (fun e => bool_decide (kind e = Truncation)) (events t).

(** ** The durable transcript *)

Inductive CaptureOutcome : Type := CaptureOff | Captured | LimitExceeded.

Record DurableTranscript := mkDurable {
  policy : RetentionPolicy;
  durable_events : list ContentEvent;
  durable_bytes : Z;
}.

Definition durable_disabled : DurableTranscript := mkDurable policy_disabled [] 0.

Definition capture (e : ContentEvent) (d : DurableTranscript) : CaptureOutcome * DurableTranscript :=
  if negb (allows_capture (policy d)) then (CaptureOff, d)
  else
    let attempted := sat_add u64_max (durable_bytes d) (size_hint e) in
    if (match limit_bytes (policy d) with Some limit => limit <? attempted | None => false end)
    then (LimitExceeded, d)
    else (Captured, mkDurable (policy d) (durable_events d ++ [e]) attempted).
