(* ===== verification/ContentFacts.v ===== *)
(** The content timeline: retention policies, the timeline against a plain
    log, replay ranges and redaction. *)
From S2P Require Import Prelude Content.

Local Open Scope Z_scope.

(** ** Retention policies *)

(** The byte test [append_with_policy] makes. *)
Definition policy_admits (p : RetentionPolicy) (attempted : Z) : bool :=
  allows_capture p &&
  match limit_bytes p with Some limit => attempted <=? limit | None => true end.

(** What the more restrictive of two policies should admit, except that a
    memory-only policy against a durable one decides alone. *)
Definition combined_admits (a b : RetentionPolicy) (n : Z) : bool :=
  match mode a, mode b with
  | MemoryOnly, Durable => policy_admits a n
  | Durable, MemoryOnly => policy_admits b n
  | _, _ => policy_admits a n && policy_admits b n
  end.

Definition stricter_mode (a b : RetentionMode) : RetentionMode :=
  match a, b with
  | Disabled, _ | _, Disabled => Disabled
  | MemoryOnly, _ | _, MemoryOnly => MemoryOnly
  | Durable, Durable => Durable
  end.

Definition limit_ok (p : RetentionPolicy) : Prop :=
  match limit_bytes p with Some n => u64 n | None => True end.

(** ** The timeline against a log *)

(** The log's abstract state: the events and the screen mode. *)
Definition ev_follows (a b : ContentEvent) : Prop := ev_id a <> ev_id b /\ ev_seq a < ev_seq b.

#[export] Instance ev_follows_dec a b : Decision (ev_follows a b).
Proof. unfold ev_follows. apply _. Defined.

Definition log_bytes (log : list ContentEvent) : Z := foldr (fun e n => size_hint e + n) 0 log.

Definition admits (m : ScreenMode) (log : list ContentEvent) (e : ContentEvent) : Prop :=
  (kind e = TerminalOutput -> m = Primary) /\ Forall (fun a => ev_follows a e) log.

#[export] Instance admits_dec m log e : Decision (admits m log e).
Proof. unfold admits. apply _. Defined.

Inductive TimelineOp : Type :=
| OpAppend (e : ContentEvent)
| OpPolicy (p : RetentionPolicy) (e : ContentEvent)
| OpMode (m : ScreenMode).

Definition timeline_step (t : ContentTimeline) (op : TimelineOp) : ContentTimeline :=
  match op with
  | OpAppend e => snd (timeline_append e t)
  | OpPolicy p e => snd (append_with_policy p e t)
  | OpMode m => set_screen_mode m t
  end.

Definition attempted_bytes (log : list ContentEvent) (e : ContentEvent) : Z :=
  Z.min (log_bytes log + size_hint e) u64_max.

Definition log_step (s : list ContentEvent * ScreenMode) (op : TimelineOp) : list ContentEvent * ScreenMode :=
  let '(log, m) := s in
  match op with
  | OpAppend e => (if decide (admits m log e) then log ++ [e] else log, m)
  | OpPolicy p e =>
      (if decide (policy_admits p (attempted_bytes log e) = true /\ admits m log e)
       then log ++ [e] else log, m)
  | OpMode m => (log, m)
  end.

Record shows (log : list ContentEvent) (m : ScreenMode) (t : ContentTimeline) : Prop := {
  sh_events : events t = log;
  sh_ids : forall x, x ∈ ids t <-> exists e, e ∈ log /\ ev_id e = x;
  sh_last : last_seq t = ev_seq <$> last log;
  sh_bytes : bytes_used t = Z.min (log_bytes log) u64_max;
  sh_mode : screen_mode t = m;
  sh_sorted : StronglySorted ev_follows log;
}.

Lemma size_hint_nonneg e : 0 <= size_hint e.
Proof.
  unfold size_hint. destruct (materialized_text e) as [x|]; [pose proof (len_nonneg x)|];
    destruct (source_range e) as [[s t]|]; cbn zeta; num.
Qed.

Lemma log_bytes_nonneg log : 0 <= log_bytes log.
Proof. unfold log_bytes. induction log as [|e log IH]; cbn [foldr]; [lia|]. pose proof (size_hint_nonneg e). lia. Qed.

Lemma log_bytes_snoc log e : log_bytes (log ++ [e]) = log_bytes log + size_hint e.
Proof. unfold log_bytes. induction log as [|a log IH]; cbn [foldr app]; lia. Qed.

Lemma sat_log_bytes log e :
  sat_add u64_max (Z.min (log_bytes log) u64_max) (size_hint e) = attempted_bytes log e.
Proof. unfold attempted_bytes. pose proof (size_hint_nonneg e). num. Qed.

Section Shown.
Context (log : list ContentEvent) (m : ScreenMode) (t : ContentTimeline).
Context (Hs : shows log m t).

Lemma fresh_iff x : x ∉ ids t <-> forall a, a ∈ log -> ev_id a <> x.
Proof. rewrite (sh_ids _ _ _ Hs). naive_solver. Qed.

Lemma last_seq_iff e :
  match last_seq t with Some z => z < ev_seq e | None => True end <->
  forall a, a ∈ log -> ev_seq a < ev_seq e.
Proof.
  rewrite (sh_last _ _ _ Hs). destruct (last log) as [z|] eqn:Hz; cbn.
  - split; [|intros H; by apply H, last_Some_elem_of].
    intros H a Ha. destruct (sorted_before_last _ _ _ _ (sh_sorted _ _ _ Hs) Hz Ha) as [->|[_ ?]]; lia.
  - apply last_None in Hz. subst. split; [|done]. intros _ a Ha. by apply not_elem_of_nil in Ha.
Qed.

Lemma shows_commit e :
  Forall (fun a => ev_follows a e) log -> shows (log ++ [e]) m (timeline_commit e t).
Proof.
  intros Hf. destruct Hs as [Ee Ei El Eb Em Hst].
  split; cbn; try done.
  - by rewrite Ee.
  - intros x. rewrite elem_of_union, elem_of_singleton, Ei. setoid_rewrite elem_of_app.
    setoid_rewrite list_elem_of_singleton. naive_solver.
  - by rewrite last_snoc.
  - rewrite Eb, sat_log_bytes, log_bytes_snoc. done.
  - by apply sorted_snoc.
Qed.

Lemma timeline_append_eq e :
  shows (if decide (admits m log e) then log ++ [e] else log) m (snd (timeline_append e t)) /\
  (fst (timeline_append e t) = Ok () <-> admits m log e) /\
  (fst (timeline_append e t) <> Ok () -> snd (timeline_append e t) = t).
Proof.
  unfold timeline_append, accepts_terminal_materialization. rewrite (sh_mode _ _ _ Hs).
  assert (Hno : forall err, ~ admits m log e ->
    shows (if decide (admits m log e) then log ++ [e] else log) m t /\
    (@Err ContentError () err = Ok () <-> admits m log e) /\ (@Err ContentError () err <> Ok () -> t = t)).
  { intros err Hn. rewrite decide_False by done. by split. }
  case_bool_decide as Hk; cbn [andb].
  1: case_bool_decide as Hm; cbn [negb]; [|apply Hno; intros [H _]; by apply Hm, H].
  all: case_bool_decide as Hid;
    [apply Hno; intros [_ H]; apply (sh_ids _ _ _ Hs) in Hid as (a & Ha & Hx);
     rewrite Forall_forall in H; by destruct (H a Ha)|].
  all: rewrite fresh_iff in Hid; pose proof (last_seq_iff e) as Hl.
  all: assert (Hyes : match last_seq t with Some z => z < ev_seq e | None => True end ->
         admits m log e) by
      (intros H; split; [done|]; apply Forall_forall; intros a Ha; split; [by apply Hid|by apply Hl]).
  all: assert (Hback : admits m log e ->
         match last_seq t with Some z => z < ev_seq e | None => True end) by
      (intros [_ H]; apply Hl; intros a Ha; rewrite Forall_forall in H; by apply H).
  all: destruct (last_seq t) as [z|]; [destruct (Z.leb_spec (ev_seq e) z)|];
    [apply Hno; intros H'; specialize (Hback H'); lia|..].
  all: rewrite decide_True by auto; split; [apply shows_commit; by apply Hyes|]; split; [|done];
    split; auto.
Qed.

Lemma append_with_policy_eq p e :
  shows (if decide (policy_admits p (attempted_bytes log e) = true /\ admits m log e)
         then log ++ [e] else log) m (snd (append_with_policy p e t)) /\
  (fst (append_with_policy p e t) = Ok () <->
     policy_admits p (attempted_bytes log e) = true /\ admits m log e) /\
  (fst (append_with_policy p e t) <> Ok () -> snd (append_with_policy p e t) = t).
Proof.
  unfold append_with_policy, policy_admits. rewrite (sh_bytes _ _ _ Hs), sat_log_bytes.
  destruct (timeline_append_eq e) as (H1 & H2 & H3).
  assert (Hlift : forall b, b = true ->
    shows (if decide (b = true /\ admits m log e) then log ++ [e] else log) m (snd (timeline_append e t)) /\
    (fst (timeline_append e t) = Ok () <-> b = true /\ admits m log e) /\
    (fst (timeline_append e t) <> Ok () -> snd (timeline_append e t) = t)).
  { intros b ->. split; [|split; [rewrite H2; tauto|done]].
    destruct (decide (admits m log e)) as [Ha|Ha]; [rewrite decide_True by done|rewrite decide_False by tauto];
      done. }
  assert (Hno : forall err b, b = false ->
    shows (if decide (b = true /\ admits m log e) then log ++ [e] else log) m t /\
    (@Err ContentError () err = Ok () <-> b = true /\ admits m log e) /\ (@Err ContentError () err <> Ok () -> t = t)).
  { intros err b ->. rewrite decide_False by (by intros [? _]). split; [done|]. split; [|done].
    split; [discriminate|by intros [? _]]. }
  destruct (allows_capture p); cbn [negb andb]; [|by apply Hno].
  destruct (limit_bytes p) as [limit|]; [|by apply Hlift].
  rewrite Z.ltb_antisym. destruct (Z.leb_spec (attempted_bytes log e) limit); cbn [negb];
    [by apply Hlift|by apply Hno].
Qed.
End Shown.

Lemma timeline_step_eq log m t op :
  shows log m t -> shows (fst (log_step (log, m) op)) (snd (log_step (log, m) op)) (timeline_step t op).
Proof.
  intros Hs. destruct op as [e|p e|m']; cbn.
  - by apply timeline_append_eq.
  - by apply append_with_policy_eq.
  - destruct Hs. by split.
Qed.

Lemma timeline_run_eq ops log m t :
  shows log m t ->
  shows (fst (fold_left log_step ops (log, m))) (snd (fold_left log_step ops (log, m)))
    (fold_left timeline_step ops t).
Proof.
  revert log m t. induction ops as [|op ops IH]; intros log m t Hs; cbn [fold_left]; [done|].
  rewrite (surjective_pairing (log_step (log, m) op)). by apply IH, timeline_step_eq.
Qed.

Lemma shows_new : shows [] Primary timeline_new.
Proof.
  split; try done; [|constructor]. intros x. cbn. rewrite elem_of_empty. split; [done|].
  intros (e & He & _). by apply not_elem_of_nil in He.
Qed.

(** Every append is made under a policy bounded by [L]. *)
Definition bounded_by (L : Z) (op : TimelineOp) : Prop :=
  match op with
  | OpAppend _ => False
  | OpPolicy p _ => exists limit, limit_bytes p = Some limit /\ limit <= L
  | OpMode _ => True
  end.

Lemma log_bounded L ops log m :
  0 <= L < u64_max -> Forall (bounded_by L) ops -> log_bytes log <= L ->
  log_bytes (fst (fold_left log_step ops (log, m))) <= L.
Proof.
  intros HL Hops. revert log m. induction Hops as [|op ops Hop Hops IH]; intros log m Hl; cbn [fold_left]; [done|].
  rewrite (surjective_pairing (log_step (log, m) op)). apply IH.
  destruct op as [e|p e|m']; cbn [log_step fst bounded_by] in *; [done| |done].
  destruct Hop as (limit & Hlim & Hle). case_decide as Hd; [|done].
  destruct Hd as [Hp _]. unfold policy_admits in Hp. rewrite Hlim in Hp. unfold attempted_bytes in Hp.
  rewrite log_bytes_snoc. lia.
Qed.

(** ** Redaction *)

Definition disjoint_bytes (r p : list Z) : Prop := forall b, b ∈ r -> b ∉ p.

Lemma disjoint_bytes_dec r p : bool_decide (Forall (fun b => b ∉ p) r) = true -> disjoint_bytes r p.
Proof. intros H%bool_decide_eq_true. by rewrite Forall_forall in H. Qed.

Section Redaction.
Context (r : list Z) (Hr : r <> []).

(** What survives a replacement was in the text before it: a word that shares
    no byte with the replacement cannot be made by it. *)
Lemma prefix_through p q s :
  disjoint_bytes r q -> is_prefix q (replace_from 0 s p r) = true -> is_prefix q s = true.
Proof.
  revert s. induction q as [|a q IH]; intros s Hd Hq; [done|].
  destruct s as [|b s]; [done|]. cbn [replace_from] in Hq. destruct (is_prefix p (b :: s)).
  - destruct r as [|c r']; [done|]. cbn in Hq. apply andb_prop in Hq as [Hc _].
    apply Z.eqb_eq in Hc as ->. exfalso. apply (Hd c); left.
  - cbn in Hq |- *. apply andb_prop in Hq as [-> Hq]. cbn. apply IH; [|done].
    intros x Hx Hin. apply (Hd x Hx). by right.
Qed.

Lemma contains_app_disjoint q t :
  q <> [] -> disjoint_bytes r q -> str_contains (r ++ t) q = str_contains t q.
Proof using.
  clear Hr. intros Hq. induction r as [|c r' IH]; intros Hd; [done|]. cbn [app str_contains].
  destruct q as [|a q]; [done|]. cbn [is_prefix]. destruct (Z.eqb_spec a c) as [->|_].
  - exfalso. apply (Hd c); left.
  - apply IH. intros x Hx. apply Hd. by right.
Qed.

Lemma contains_through p q s k :
  q <> [] -> disjoint_bytes r q ->
  str_contains (replace_from k s p r) q = true -> str_contains s q = true.
Proof.
  intros Hq Hd. revert k. induction s as [|b s IH]; intros k Hc; [done|].
  cbn [replace_from] in Hc. cbn [str_contains]. apply orb_true_iff.
  destruct k as [|k]; [|right; by eapply IH].
  destruct (is_prefix p (b :: s)) eqn:Hp.
  - rewrite contains_app_disjoint in Hc by done. right. by eapply IH.
  - cbn [str_contains] in Hc. apply orb_true_iff in Hc as [Hc|Hc]; [left|right; by eapply IH].
    apply (prefix_through p); [done|]. cbn [replace_from]. by rewrite Hp.
Qed.

Lemma replace_removes p s k :
  p <> [] -> disjoint_bytes r p -> str_contains (replace_from k s p r) p = false.
Proof.
  intros Hp Hd. revert k. induction s as [|b s IH]; intros k; cbn [replace_from]; [by destruct p|].
  destruct k as [|k]; [|done]. destruct (is_prefix p (b :: s)) eqn:Hpre.
  - by rewrite contains_app_disjoint.
  - cbn [str_contains]. rewrite IH, orb_false_r. apply not_true_iff_false. intros Hc.
    enough (is_prefix p (b :: s) = true) by congruence.
    apply (prefix_through p); [done|]. cbn [replace_from]. by rewrite Hpre.
Qed.
End Redaction.

(** The rules replace each literal by a marker that shares no byte with any
    literal. *)
Definition rules_ok (rules : list RedactionRule) : Prop :=
  forall a b, a ∈ rules -> b ∈ rules ->
    literal a <> [] /\ replacement b <> [] /\ disjoint_bytes (replacement b) (literal a).

Lemma redact_one_text text vs rule :
  fst (redact_one (text, vs) rule) =
  if str_contains text (literal rule) then str_replace text (literal rule) (replacement rule) else text.
Proof. cbn. by destruct (str_contains text (literal rule)). Qed.

Lemma str_replace_from s p r : p <> [] -> str_replace s p r = replace_from 0 s p r.
Proof. by destruct p. Qed.

Lemma redact_fold rules seen text vs :
  rules_ok (seen ++ rules) ->
  (forall a, a ∈ seen -> str_contains text (literal a) = false) ->
  forall a, a ∈ seen ++ rules -> str_contains (fst (fold_left redact_one rules (text, vs))) (literal a) = false.
Proof.
  revert seen text vs. induction rules as [|rule rules IH]; intros seen text vs Hok Hdone a Ha.
  { rewrite app_nil_r in Ha. by apply Hdone. }
  cbn [fold_left]. rewrite (surjective_pairing (redact_one (text, vs) rule)), redact_one_text.
  rewrite cons_middle, app_assoc in Ha, Hok. apply (IH (seen ++ [rule])); [done| |done].
  assert (Hin : rule ∈ (seen ++ [rule]) ++ rules) by (rewrite !elem_of_app; left; right; by left).
  intros b Hb. destruct (Hok b rule) as (Hne & Hrep & Hdis); [rewrite elem_of_app; by left|done|].
  destruct (Hok rule rule Hin Hin) as (Hne' & _ & Hdis').
  apply elem_of_app in Hb as [Hb| ->%list_elem_of_singleton].
  - specialize (Hdone b Hb). destruct (str_contains text (literal rule)); [|done].
    rewrite str_replace_from by done. apply not_true_iff_false. intros Hc.
    apply contains_through in Hc; [congruence|done..].
  - destruct (str_contains text (literal rule)) eqn:Hc; [|done].
    rewrite str_replace_from by done. by apply replace_removes.
Qed.

Lemma redact_absent rules text vs :
  (forall a, a ∈ rules -> str_contains text (literal a) = false) ->
  fold_left redact_one rules (text, vs) = (text, vs).
Proof.
  induction rules as [|rule rules IH]; intros H; cbn [fold_left]; [done|]. cbn [redact_one].
  rewrite H by left. apply IH. intros a Ha. apply H. by right.
Qed.

(** ** Properties *)

(** C34. The timeline implements a log.  After any operations from a new
    timeline - appends with or without a policy, mode changes - its events are
    those a plain list would have taken: the first of each identity, in
    strictly increasing sequence, terminal output only while the primary screen
    is shown, and under a policy only within its byte limit.  The byte count is
    exactly the total size of those events, capped at the largest u64, so where
    every append is made under a policy of at most [L] bytes it never passes
    [L]. *)
Theorem timeline_refines_log (ops : list TimelineOp) :
  let t := fold_left timeline_step ops timeline_new in
  let '(log, m) := fold_left log_step ops ([], Primary) in
  events t = log /\ screen_mode t = m /\ StronglySorted ev_follows log /\
  bytes_used t = Z.min (log_bytes log) u64_max /\
  (forall L, 0 <= L < u64_max -> Forall (bounded_by L) ops -> bytes_used t <= L).
Proof.
  pose proof (timeline_run_eq ops [] Primary timeline_new shows_new) as H.
  pose proof (fun L H1 H2 => log_bounded L ops [] Primary H1 H2) as Hb.
  destruct (fold_left log_step ops ([], Primary)) as [log m]. cbn [fst snd] in H, Hb.
  destruct H as [E _ _ Eb Em Hst]. cbn zeta. split_and!; try done.
  intros L HL Hops. rewrite Eb. specialize (Hb L HL Hops ltac:(cbn; lia)). lia.
Qed.

Definition demo_ops : list TimelineOp :=
  [ OpPolicy (memory_only 40) (content_event_new "evt-1" TerminalOutput 1 None (Some (0, 8)));
    OpPolicy (memory_only 40) (content_event_new "evt-1" TerminalOutput 2 None (Some (8, 16)));
    OpMode Alternate;
    OpPolicy (memory_only 40) (content_event_new "evt-2" TerminalOutput 3 None (Some (8, 16)));
    OpPolicy (durable (Some 40)) (structured_terminal_input "in" 4 (lit "ls"));
    OpPolicy (memory_only 40) (content_event_new "evt-3" TerminalInput 5 None (Some (8, 99))) ].

Example demo_timeline :
  map ev_id (events (fold_left timeline_step demo_ops timeline_new)) = ["evt-1"; "in"]%string /\
  bytes_used (fold_left timeline_step demo_ops timeline_new) = 28.
Proof. split; reflexivity. Qed.

(** One append is decided by the events held.  On a timeline reached by
    any operations, an append under a policy succeeds exactly when the policy
    captures, the byte count with the event stays within its limit, the
    identity is new, the sequence number is above every one held and terminal
    output meets the primary screen; every refusal leaves the timeline as it
    was. *)
Theorem append_verdict (ops : list TimelineOp) (p : RetentionPolicy) (e : ContentEvent) :
  let t := fold_left timeline_step ops timeline_new in
  (fst (append_with_policy p e t) = Ok () <->
     policy_admits p (Z.min (log_bytes (events t) + size_hint e) u64_max) = true /\
     (kind e = TerminalOutput -> screen_mode t = Primary) /\
     Forall (fun a => ev_follows a e) (events t)) /\
  (fst (append_with_policy p e t) <> Ok () -> snd (append_with_policy p e t) = t).
Proof.
  intros t. pose proof (timeline_run_eq ops [] Primary timeline_new shows_new) as H. fold t in H.
  destruct (append_with_policy_eq _ _ _ H p e) as (_ & H1 & H2).
  rewrite (sh_mode _ _ _ H), (sh_events _ _ _ H). by split.
Qed.

(** Redaction removes what it is asked to.  Where every rule replaces a
    non-empty literal by a non-empty marker sharing no byte with any literal,
    the exported text contains none of the literals, whatever the order of the
    rules and however the literals overlap; and a text without any of them is
    exported as it is, with no rule reported. *)
Theorem redaction_removes_literals (e : ContentEvent) (rules : list RedactionRule) :
  rules_ok rules ->
  let text0 := default [] (materialized_text e) in
  (forall a, a ∈ rules -> str_contains (text (redacted_export e rules)) (literal a) = false) /\
  ((forall a, a ∈ rules -> str_contains text0 (literal a) = false) ->
   redacted_export e rules = mkExport text0 []).
Proof.
  intros Hok text0. unfold redacted_export. fold text0. split.
  - intros a Ha.
    pose proof (redact_fold rules [] text0 [] Hok ltac:(by intros ? ?%not_elem_of_nil) a Ha) as H.
    by destruct (fold_left redact_one rules (text0, [])).
  - intros H. by rewrite redact_absent.
Qed.

Definition demo_rules : list RedactionRule :=
  [ mkRule (lit "hunter2") (lit "[#]") (lit "v1"); mkRule (lit "token") (lit "<*>") (lit "v2") ].
Definition demo_event : ContentEvent :=
  structured_terminal_input "in" 1 (lit "login hunter2 tokentoken hunterhunter2").

Lemma redaction_removes_literals_witness :
  rules_ok demo_rules /\
  let text0 := default [] (materialized_text demo_event) in
  (forall a, a ∈ demo_rules -> str_contains (text (redacted_export demo_event demo_rules)) (literal a) = false) /\
  ((forall a, a ∈ demo_rules -> str_contains text0 (literal a) = false) ->
   redacted_export demo_event demo_rules = mkExport text0 []).
Proof.
  assert (H : rules_ok demo_rules).
  { intros a b Ha Hb. unfold demo_rules in Ha, Hb.
    apply elem_of_cons in Ha as [->| ->%list_elem_of_singleton];
      apply elem_of_cons in Hb as [->| ->%list_elem_of_singleton];
      (split; [discriminate|]; split; [discriminate|]);
      apply disjoint_bytes_dec; vm_compute; reflexivity. }
  split; [exact H|]. apply (redaction_removes_literals demo_event demo_rules H).
Defined.

(** How two retention policies combine.  The mode is always the stricter
    one and capture is off if either is.  For the same mode the byte limits
    combine: what the combination admits, both admit and conversely.  Against a
    durable policy a memory-only one decides alone.  The verdicts do not depend
    on the order of two policies or on how three are grouped. *)
Theorem restrictive_wins_exact (a b c : RetentionPolicy) (n : Z) :
  limit_ok a -> limit_ok b -> limit_ok c -> u64 n ->
  mode (restrictive_wins a b) = stricter_mode (mode a) (mode b) /\
  policy_admits (restrictive_wins a b) n = combined_admits a b n /\
  policy_admits (restrictive_wins a b) n = policy_admits (restrictive_wins b a) n /\
  policy_admits (restrictive_wins (restrictive_wins a b) c) n =
    policy_admits (restrictive_wins a (restrictive_wins b c)) n.
Proof.
  destruct a as [ma la], b as [mb lb], c as [mc lc]. unfold limit_ok. cbn [limit_bytes].
  intros Ha Hb Hc Hn.
  unfold restrictive_wins, combined_admits, policy_admits, allows_capture, stricter_mode.
  destruct ma, mb, mc; cbn [mode limit_bytes andb default]; split_and!; try done;
    destruct la as [la|], lb as [lb|], lc as [lc|]; cbn [default from_option id]; num.
Qed.

Lemma restrictive_wins_exact_witness :
  limit_ok (memory_only 12) /\ limit_ok (durable None) /\ limit_ok (memory_only 7) /\ u64 9 /\
  mode (restrictive_wins (memory_only 12) (durable None)) = stricter_mode MemoryOnly Durable /\
  policy_admits (restrictive_wins (memory_only 12) (durable None)) 9 = combined_admits (memory_only 12) (durable None) 9 /\
  policy_admits (restrictive_wins (memory_only 12) (durable None)) 9 = policy_admits (restrictive_wins (durable None) (memory_only 12)) 9 /\
  policy_admits (restrictive_wins (restrictive_wins (memory_only 12) (durable None)) (memory_only 7)) 9 =
    policy_admits (restrictive_wins (memory_only 12) (restrictive_wins (durable None) (memory_only 7))) 9.
Proof.
  assert (H1 : limit_ok (memory_only 12)) by (cbn; num).
  assert (H2 : limit_ok (durable None)) by exact I.
  assert (H3 : limit_ok (memory_only 7)) by (cbn; num).
  assert (H4 : u64 9) by num.
  split; [exact H1|]. split; [exact H2|]. split; [exact H3|]. split; [exact H4|].
  apply (restrictive_wins_exact (memory_only 12) (durable None) (memory_only 7) 9 H1 H2 H3 H4).
Defined.

(** The durable policy's limit is lost where a memory-only one meets it. *)
Lemma mixed_modes_lose_limit :
  policy_admits (durable (Some 10)) 500 = false /\
  policy_admits (restrictive_wins (memory_only 1000) (durable (Some 10))) 500 = true.
Proof. split; reflexivity. Qed.

(** ** Replay ranges and the durable transcript *)

Lemma validate_replay_iff r state :
  validate_replay r state = Ok () <->
  match state with
  | StreamOrigin => src_start r = 0
  | ReplayCheckpoint id gen off =>
      src_checkpoint_id r = Some id /\ src_generation r = gen /\ src_start r = off
  end.
Proof.
  unfold validate_replay. destruct state as [|id gen off].
  - destruct (Z.eqb_spec (src_start r) 0); by split.
  - destruct (_ && _ && _) eqn:E; [|split; [done|intros (H1 & H2 & H3)]].
    + apply andb_prop in E as [[E1%bool_decide_eq_true E2%Z.eqb_eq]%andb_prop E3%Z.eqb_eq]. by split.
    + by rewrite bool_decide_eq_true_2, (proj2 (Z.eqb_eq _ _) H2), (proj2 (Z.eqb_eq _ _) H3) in E.
Qed.

Lemma capture_bounded e d limit :
  limit_bytes (policy d) = Some limit -> durable_bytes d <= limit ->
  durable_bytes (snd (capture e d)) <= limit.
Proof.
  intros Hl Hd. unfold capture. destruct (allows_capture (policy d)); [|done]. cbn [negb].
  rewrite Hl. cbn zeta. case_if; cbn; lia.
Qed.
