(* ===== verification/Session.v ===== *)
(** One terminal session of crates/rill-kernel/src/session.rs: the PTY, the
    byte history, credit, attachment, the input lease and the journal.

    The PTY is an interface ([PtyOps]): the operating system behind
    crates/rill-kernel/src/pty.rs.  The clock is an argument: [now] is what
    [Instant::now()] gives, [grace] what [lease_grace()] gives.  Operations run
    in a monad over the session's state whose [None] is a panic and whose value
    is the [Result] of the code; the state survives an error, as in the code. *)
From S2P Require Import Prelude Effect Attach Ring.

Local Open Scope Z_scope.

(** The kernel's operations fail with its error type. *)
Abbreviation SE := (ST KernelError).

(** ** The PTY *)

Record Winsize := mkWinsize { cols : Z; rows : Z; px_w : Z; px_h : Z }.

#[export] Instance winsize_eq_dec : EqDecision Winsize.
Proof. solve_decision. Defined.

(** The operations of [Pty] a session uses; each may fail and changes the
    operating system's state. *)
Class PtyOps (P : Type) := {
  pty_write_all : list Z -> P -> result KernelError () * P;
  pty_read : Z -> P -> result KernelError (list Z) * P;
  pty_set_winsize : Winsize -> P -> result KernelError () * P;
  pty_try_wait : P -> result KernelError (option Z) * P;
  pty_terminate : P -> result KernelError () * P;
  pty_fg_cwd : P -> result KernelError string;
  pty_child_id : P -> Z;
}.

(** [read] fills at most the buffer it is given, with bytes: read(2). *)
Class PtyLaws (P : Type) `{!PtyOps P} : Prop := {
  pty_read_fits : forall n p bs p', 0 <= n -> pty_read n p = (Ok bs, p') -> len bs <= n /\ bytes bs;
}.

(** ** The session *)

Inductive IoEvent : Type :=
| PtyWrite (n : Z)
| PtyRead (n : Z)
| JWinsize (w : Winsize)
| ChildExit (status : Z).

Inductive InputDelivery : Type := Pending | Dispatched | Unknown.

Definition RING_CAP : Z := 4 * 1024 * 1024.
Definition READ_BUF : Z := 64 * 1024.
Definition JOURNAL_CAP : Z := 4096.

Record Session (P : Type) := mkSession {
  pty : P;
  ephemeral : bool;
  ring : ByteRing;
  attach_generation : option Z;
  credit : Z;
  outbound : list Frame;
  pending_input : list (list Z);
  child_exit : option Z;
  exit_delivered : bool;
  resync_pending : bool;
  resync_count : Z;
  stalled_reads : Z;
  bytes_delivered : Z;
  journal : list (Z * IoEvent);
  seq : Z;
  size : Winsize;
  last_cwd : option string;
  last_delivery : InputDelivery;
  observers : Z;
  terminated : bool;
  checkpoint : option StoredCheckpoint;
  lease_generation : Z;
  lease_nonce : Z;
  lease_until : option Z;
}.
Arguments mkSession {P}.
Arguments pty {P}. Arguments ephemeral {P}. Arguments ring {P}. Arguments attach_generation {P}.
Arguments credit {P}. Arguments outbound {P}. Arguments pending_input {P}. Arguments child_exit {P}.
Arguments exit_delivered {P}. Arguments resync_pending {P}. Arguments resync_count {P}.
Arguments stalled_reads {P}. Arguments bytes_delivered {P}. Arguments journal {P}. Arguments seq {P}.
Arguments size {P}. Arguments last_cwd {P}. Arguments last_delivery {P}. Arguments observers {P}.
Arguments terminated {P}. Arguments checkpoint {P}. Arguments lease_generation {P}.
Arguments lease_nonce {P}. Arguments lease_until {P}.

#[export] Instance session_eta {P} : Eta (Session P) := fun s =>
  mkSession (pty s) (ephemeral s) (ring s) (attach_generation s) (credit s) (outbound s)
    (pending_input s) (child_exit s) (exit_delivered s) (resync_pending s) (resync_count s)
    (stalled_reads s) (bytes_delivered s) (journal s) (seq s) (size s) (last_cwd s)
    (last_delivery s) (observers s) (terminated s) (checkpoint s) (lease_generation s)
    (lease_nonce s) (lease_until s).

(** [spawn_configured], given the PTY it spawned. *)
Definition spawn_configured {P} (p : P) (sz : Winsize) (eph : bool) : Session P :=
  mkSession p eph (ring_new RING_CAP) None 0 [] [] None false false 0 0 0 [] 0 sz None
    Unknown 0 false None 0 0 None.

Definition child_pid {P} `{!PtyOps P} (s : Session P) : Z := pty_child_id (pty s).
Definition attached {P} (s : Session P) : bool := bool_decide (attach_generation s <> None).
Definition child_alive {P} (s : Session P) : bool := bool_decide (child_exit s = None).
Definition has_listeners {P} (s : Session P) : bool :=
  bool_decide (attach_generation s <> None) || (0 <? observers s).

Section SessionOps.
Context {P : Type} `{!PtyOps P}.

Definition on_pty {A} (f : P -> result KernelError A * P) : SE (Session P) A := fun s =>
  let '(r, p) := f (pty s) in Some (r, s <| pty := p |>).

(** [self.seq += 1] panics past the end of u64. *)
Definition record (event : IoEvent) : SE (Session P) () := fun s =>
  q ← chk_add u64_max (seq s) 1;
  let s := s <| seq := q |> in
  let s := if len (journal s) =? JOURNAL_CAP then s <| journal := drop 1 (journal s) |> else s in
  Some (Ok (), s <| journal := journal s ++ [(q, event)] |>).

Definition enqueue_outbound (f : Frame) (s : Session P) : Session P :=
  s <| outbound := outbound s ++ [f] |>.

Definition pop_outbound (s : Session P) : option Frame * Session P :=
  match outbound s with
  | [] => (None, s)
  | f :: rest => (Some f, s <| outbound := rest |>)
  end.

Definition take_resync_history (s : Session P) : option (list Z) * Session P :=
  if negb (resync_pending s) then (None, s)
  else
    let s := s <| resync_pending := false |> in
    let s := s <| resync_count := sat_add u32_max (resync_count s) 1 |> in
    (Some (ring_snapshot (ring s)), s).

Definition install_checkpoint (rec : StoredCheckpoint) : SE (Session P) () :=
  _ ← of_result (check_compatible rec);
  modify (fun s => s <| checkpoint := Some rec |>).

Definition recovery (s : Session P) : result KernelError (StoredCheckpoint * list Z) :=
  match checkpoint s with
  | None => Err NoCheckpoint
  | Some cp => deltas ← deltas_after (ending_offset cp) (ring s); Ok (cp, deltas)
  end.

Definition terminate : SE (Session P) () := fun s =>
  if terminated s then Some (Ok (), s)
  else on_pty pty_terminate (s <| terminated := true |>).

Definition cwd : SE (Session P) string := fun s =>
  match pty_fg_cwd (pty s) with
  | Ok path => Some (Ok path, s <| last_cwd := Some path |>)
  | Err e => Some (Err e, s)
  end.

Definition release_observer (s : Session P) : Session P :=
  s <| observers := sat_sub (observers s) 1 |>.

(** ** Lifecycle *)

Definition poll_child : SE (Session P) bool := fun s =>
  match child_exit s with
  | Some _ => Some (Ok false, s)
  | None =>
      (o ← on_pty pty_try_wait;
       match o with
       | None => mret false
       | Some status =>
           _ ← modify (fun s => s <| child_exit := Some status |>);
           _ ← record (ChildExit status);
           _ ← modify (fun s =>
                 if has_listeners s
                 then enqueue_outbound (Exit status) s <| exit_delivered := true |> else s);
           mret true
       end) s
  end.

Definition is_data (f : Frame) : bool := match f with Data _ => true | _ => false end.

Definition detach (s : Session P) : Session P :=
  let s := s <| attach_generation := None |> in
  let s := s <| credit := 0 |> in
  let s := if ephemeral s then s <| pty := snd (pty_terminate (pty s)) |> else s in
  let s :=
    if bool_decide (pending_input s <> [])
    then s <| last_delivery := Unknown |> <| pending_input := [] |> else s in
  s <| outbound := List.filter (fun f => negb (is_data f)) (outbound s) |>.

(** ** The input lease *)

Definition take_input_lease (now grace nonce : Z) (s : Session P) : Session P :=
  let s := s <| lease_generation := sat_add u64_max (lease_generation s) 1 |> in
  let s := if lease_generation s =? 0 then s <| lease_generation := 1 |> else s in
  let s := s <| lease_nonce := nonce |> in
  s <| lease_until := Some (now + grace) |>.

Definition expire_input_lease_if_due (now : Z) (s : Session P) : Session P :=
  let due := match lease_until s with Some t => t <=? now | None => false end in
  if negb due then s
  else s <| lease_nonce := 0 |> <| lease_until := None |>.

Definition lease_blocks_input (now : Z) : SE (Session P) bool :=
  _ ← modify (expire_input_lease_if_due now);
  gets (fun s => (0 <? lease_generation s) && (lease_nonce s =? 0)).

(** ** Inbound frames *)

(** [flush_input]: one write per queued buffer; a failed write leaves the
    later buffers queued. *)
Fixpoint flush_loop (bufs : list (list Z)) : SE (Session P) () :=
  match bufs with
  | [] => mret ()
  | buf :: rest =>
      _ ← modify (fun s => s <| pending_input := rest |>);
      _ ← on_pty (pty_write_all buf);
      _ ← record (PtyWrite (len buf));
      _ ← modify (fun s => s <| last_delivery := Dispatched |>);
      flush_loop rest
  end.
Definition flush_input : SE (Session P) () := fun s => flush_loop (pending_input s) s.

Definition on_attach (now grace generation : Z) (observe : bool) (s : Session P) : Session P :=
  if observe then s <| observers := sat_add u32_max (observers s) 1 |>
  else if bool_decide (attach_generation s <> None)
  then enqueue_outbound (Refused AlreadyAttached) s
  else
    let s := s <| attach_generation := Some generation |> in
    let s := s <| resync_pending := true |> in
    let s := take_input_lease now grace generation s in
    match child_exit s with
    | Some status => enqueue_outbound (Exit status) s <| exit_delivered := true |>
    | None => s
    end.

Definition on_resize (now : Z) (w : Winsize) : SE (Session P) () :=
  blocked ← lease_blocks_input now;
  if blocked : bool then mret ()
  else
    _ ← flush_input;
    _ ← modify (fun s => s <| size := w |>);
    _ ← on_pty (pty_set_winsize w);
    record (JWinsize w).

Definition on_data (now : Z) (bs : list Z) : SE (Session P) () := fun s =>
  if bool_decide (child_exit s <> None) then Some (Err Dead, s)
  else
    (blocked ← lease_blocks_input now;
     if blocked : bool then mret ()
     else
       _ ← modify (fun s => s <| last_delivery := Pending |>);
       _ ← modify (fun s => s <| pending_input := pending_input s ++ [bs] |>);
       flush_input) s.

Definition on_frame (now grace : Z) (f : Frame) : SE (Session P) () :=
  match f with
  | Attach generation _ _ observe => modify (on_attach now grace generation observe)
  | Credit n => modify (fun s => s <| credit := sat_add u64_max (credit s) n |>)
  | Resize c r w h => on_resize now (mkWinsize c r w h)
  | Data bs => on_data now bs
  | Exit _ | Refused _ | CheckpointFrame _ _ _ | Delta _ _ | ResyncRequest => mret ()
  end.

(** The clock is read once before and once inside [on_frame]. *)
Definition input_with_lease (now now' grace nonce : Z) (bs : list Z) : SE (Session P) () :=
  _ ← modify (expire_input_lease_if_due now);
  refused ← gets (fun s => (lease_nonce s =? 0) || negb (lease_nonce s =? nonce));
  if refused : bool then mret () else on_frame now' grace (Data bs).

(** ** Reading the PTY *)

Definition note_stalled_read (s : Session P) : Session P :=
  s <| stalled_reads := sat_add u64_max (stalled_reads s) 1 |>.

Definition ring_push (bs : list Z) : SE (Session P) () := fun s =>
  r ← ring_append bs (ring s); Some (Ok (), s <| ring := r |>).

Definition drain_pty_at_most (max : option Z) : SE (Session P) (option (list Z)) := fun s =>
  match child_exit s with
  | Some _ => Some (Ok None, s)
  | None =>
      let cap := Z.min (default READ_BUF max) READ_BUF in
      if cap =? 0 then Some (Ok None, note_stalled_read s)
      else
        (buf ← on_pty (pty_read cap);
         if len buf =? 0 then mret None
         else
           _ ← ring_push buf;
           _ ← modify (fun s => s <| bytes_delivered := sat_add u64_max (bytes_delivered s) (len buf) |>);
           _ ← record (PtyRead (len buf));
           mret (Some buf)) s
  end.
Definition drain_pty : SE (Session P) (option (list Z)) := drain_pty_at_most None.

(** [self.credit -= got] panics below zero. *)
Definition spend_credit (n : Z) : SE (Session P) () := fun s =>
  c ← chk_sub (credit s) n; Some (Ok (), s <| credit := c |>).

Definition on_pty_readable : SE (Session P) Z := fun s =>
  if credit s =? 0 then Some (Ok 0, note_stalled_read s)
  else
    let n := Z.min (credit s) READ_BUF in
    (buf ← on_pty (pty_read n);
     if len buf =? 0 then mret 0
     else
       _ ← ring_push buf;
       _ ← spend_credit (len buf);
       _ ← modify (fun s => s <| bytes_delivered := sat_add u64_max (bytes_delivered s) (len buf) |>);
       _ ← record (PtyRead (len buf));
       _ ← modify (fun s => if has_listeners s then enqueue_outbound (Data buf) s else s);
       mret (len buf)) s.
End SessionOps.

(** ** What the journal may claim (journal.rs) *)

Inductive TerminalOutcome : Type :=
| Running (child_pid : Z)
| HostTerminated
| Missing
| Exited (status : Z).

Definition reconcile_execution (recorded_pid : option Z) (worker_live shutdown_marker : bool)
  : TerminalOutcome :=
  if shutdown_marker && negb worker_live then HostTerminated
  else if worker_live then
    match recorded_pid with Some child_pid => Running child_pid | None => Missing end
  else if bool_decide (recorded_pid <> None) then Missing
  else HostTerminated.
