(* ===== verification/SessionFacts.v ===== *)
(** A session over a PTY that keeps a trace: its history, its credit, what its
    clients receive, and what reaches the child. *)
From S2P Require Import Prelude Effect Attach Ring Session.

Local Open Scope Z_scope.

(** ** A traced PTY

    Any PTY can be made to record what a session does with it: the bytes it
    was asked to write, the bytes it gave, the sizes it was set to. *)

Inductive PtyEvent : Type :=
| TWrite (bs : list Z)
| TRead (bs : list Z)
| TWinsize (w : Winsize).

#[export] Instance pty_event_eq_dec : EqDecision PtyEvent.
Proof. solve_decision. Defined.

Definition traced_read {P} `{!PtyOps P} (n : Z) (pt : P * list PtyEvent) :=
  let '(r, p) := pty_read n (fst pt) in
  (r, (p, snd pt ++ match r with Ok bs => [TRead bs] | Err _ => [] end)).

#[export] Instance traced_ops {P} `{!PtyOps P} : PtyOps (P * list PtyEvent) := {
  pty_write_all := fun bs pt =>
    let '(r, p) := pty_write_all bs (fst pt) in (r, (p, snd pt ++ [TWrite bs]));
  pty_read := traced_read;
  pty_set_winsize := fun w pt =>
    let '(r, p) := pty_set_winsize w (fst pt) in (r, (p, snd pt ++ [TWinsize w]));
  pty_try_wait := fun pt => let '(r, p) := pty_try_wait (fst pt) in (r, (p, snd pt));
  pty_terminate := fun pt => let '(r, p) := pty_terminate (fst pt) in (r, (p, snd pt));
  pty_fg_cwd := fun pt => pty_fg_cwd (fst pt);
  pty_child_id := fun pt => pty_child_id (fst pt);
}.

#[export] Instance traced_laws {P} `{!PtyOps P, !PtyLaws P} : PtyLaws (P * list PtyEvent).
Proof.
  split. intros n [p tr] bs [p' tr'] Hn. cbn. unfold traced_read. cbn.
  destruct (pty_read n p) as [r q] eqn:E. intros [= -> <- _]. by apply (pty_read_fits n p bs q).
Qed.

Definition reads (tr : list PtyEvent) : list Z :=
  concat (map (fun e => match e with TRead bs => bs | _ => [] end) tr).

Definition data_bytes (fs : list Frame) : list Z :=
  concat (map (fun f => match f with Data bs => bs | _ => [] end) fs).

Lemma reads_app t u : reads (t ++ u) = reads t ++ reads u.
Proof. unfold reads. by rewrite map_app, concat_app. Qed.

Lemma data_bytes_app t u : data_bytes (t ++ u) = data_bytes t ++ data_bytes u.
Proof. unfold data_bytes. by rewrite map_app, concat_app. Qed.

Lemma data_bytes_snoc fs f : is_data f = false -> data_bytes (fs ++ [f]) = data_bytes fs.
Proof. intros H. rewrite data_bytes_app. destruct f; try done; cbn; by rewrite app_nil_r. Qed.

Lemma data_bytes_filter fs : data_bytes (List.filter (fun f => negb (is_data f)) fs) = [].
Proof. induction fs as [|f fs IH]; [done|]. cbn. destruct f; cbn; exact IH. Qed.

(** ** The world of a session: the session and what its clients have seen *)

Section World.
Context {P : Type} `{!PtyOps P, !PtyLaws P}.
Abbreviation S := (Session (P * list PtyEvent)).

Record World := mkWorld {
  sess : S;
  (** frames taken by the writer's connection since it attached *)
  since_attach : list Frame;
  (** terminal bytes taken by clients since the last detach *)
  data_sent : list Z;
  (** bytes read from the PTY for listening clients since the last detach *)
  data_read : list Z;
  granted : Z;
  spent : Z;
}.

Inductive Step : Type :=
| WFrame (now grace : Z) (f : Frame)
| WInput (now now' grace nonce : Z) (bs : list Z)
| WReadable
| WDrain (max : option Z)
| WPoll
| WDetach
| WPop
| WResync
| WReleaseObserver
| WTerminate
| WCheckpoint (rec : StoredCheckpoint)
| WCwd.

Definition step_ok (o : Step) : Prop :=
  match o with
  | WFrame _ _ (Credit n) => u32 n
  | WDrain (Some max) => 0 <= max
  | _ => True
  end.

(** Errors are values; the daemon goes on with the state they leave. *)
Definition run_se {A} (m : SE S A) (w : World) : option World :=
  '(_, s) ← m (sess w); Some (mkWorld s (since_attach w) (data_sent w) (data_read w) (granted w) (spent w)).

Definition with_sess (s : S) (w : World) : World :=
  mkWorld s (since_attach w) (data_sent w) (data_read w) (granted w) (spent w).

Definition fresh_reads (s s' : S) : list Z :=
  drop (length (reads (snd (pty s)))) (reads (snd (pty s'))).

Definition world_step (o : Step) (w : World) : option World :=
  let s := sess w in
  match o with
  | WFrame now grace f =>
      '(_, s') ← on_frame now grace f s;
      let w' := with_sess s' w in
      match f with
      | Attach _ _ _ false =>
          if attached s then Some w'
          else Some (mkWorld s' [] (data_sent w) (data_read w) (granted w) (spent w))
      | Credit n => Some (mkWorld s' (since_attach w) (data_sent w) (data_read w) (granted w + n) (spent w))
      | _ => Some w'
      end
  | WInput now now' grace nonce bs => run_se (input_with_lease now now' grace nonce bs) w
  | WReadable =>
      '(_, s') ← on_pty_readable s;
      let new := fresh_reads s s' in
      Some (mkWorld s' (since_attach w) (data_sent w)
              (if has_listeners s then data_read w ++ new else data_read w)
              (granted w) (spent w + len new))
  | WDrain max => run_se (drain_pty_at_most max) w
  | WPoll => run_se poll_child w
  | WDetach => Some (mkWorld (detach s) [] [] [] 0 0)
  | WPop =>
      let '(f, s') := pop_outbound s in
      match f with
      | None => Some (with_sess s' w)
      | Some f => Some (mkWorld s' (since_attach w ++ [f]) (data_sent w ++ data_bytes [f]) (data_read w)
                          (granted w) (spent w))
      end
  | WResync => Some (with_sess (snd (take_resync_history s)) w)
  | WReleaseObserver => Some (with_sess (release_observer s) w)
  | WTerminate => run_se terminate w
  | WCheckpoint rec => run_se (install_checkpoint rec) w
  | WCwd => run_se cwd w
  end.

Fixpoint world_run (os : list Step) (w : World) : option World :=
  match os with
  | [] => Some w
  | o :: os => w ← world_step o w; world_run os w
  end.

Definition world_new (p : P) (sz : Winsize) (eph : bool) : World :=
  mkWorld (spawn_configured (p, []) sz eph) [] [] [] 0 0.

(** ** The invariant after [k] steps *)

(** What reading, writing and the journal keep. *)
Record history_ok (k : Z) (s : S) : Prop := {
  ho_ring : ring s = ring_of RING_CAP (reads (snd (pty s)));
  ho_reads : len (reads (snd (pty s))) <= READ_BUF * k;
  ho_delivered : bytes_delivered s = len (reads (snd (pty s)));
  ho_seq : 0 <= seq s /\ seq s + len (pending_input s) <= k;
  ho_journal : len (journal s) <= JOURNAL_CAP;
  ho_credit : 0 <= credit s <= u64_max;
  ho_bytes : bytes (reads (snd (pty s)));
}.

(** What clients are owed. *)
Record clients_ok (w : World) : Prop := {
  co_data : data_sent w ++ data_bytes (outbound (sess w)) = data_read w;
  co_credit : spent w + credit (sess w) <= granted w;
  co_exit : forall st, attached (sess w) = true -> child_exit (sess w) = Some st ->
    Exit st ∈ since_attach w ++ outbound (sess w);
}.

Definition MAX_STEPS : Z := 2 ^ 48 - 1.

(** ** Rules for the session's primitives *)

(** A step that reads nothing and tells clients nothing. *)
Record quiet (s s' : S) : Prop := {
  qu_ring : ring s' = ring s;
  qu_delivered : bytes_delivered s' = bytes_delivered s;
  qu_reads : reads (snd (pty s')) = reads (snd (pty s));
  qu_credit : credit s' = credit s;
  qu_outbound : outbound s' = outbound s;
  qu_attach : attach_generation s' = attach_generation s;
  qu_child : child_exit s' = child_exit s;
}.

#[local] Instance quiet_preorder : PreOrder quiet.
Proof.
  split; [by split|]. intros s1 s2 s3 [] []. split; congruence.
Qed.

(** What a quiet step may do to the counters: at most [n] more records. *)
Record counts (n : Z) (s s' : S) : Prop := {
  cn_seq : 0 <= seq s';
  cn_total : seq s' + len (pending_input s') <= seq s + len (pending_input s) + n;
  cn_journal : len (journal s') <= JOURNAL_CAP;
}.

Definition counters_ok (s : S) : Prop := 0 <= seq s /\ len (journal s) <= JOURNAL_CAP.

Lemma record_rule ev s (Q : result KernelError () * S -> Prop) :
  counters_ok s -> seq s < u64_max ->
  (forall j, len j <= JOURNAL_CAP -> Q (Ok (), s <| seq := seq s + 1 |> <| journal := j |>)) ->
  safe (record ev s) Q.
Proof.
  intros [Hs Hj] Hlt HQ. unfold record, chk_add. rewrite (proj2 (Z.leb_le _ _)) by lia.
  cbn -[len app]. destruct (Z.eqb_spec (len (journal s)) JOURNAL_CAP) as [E|E]; apply safe_ret;
    apply HQ; rewrite len_app; change (len [(seq s + 1, ev)]) with 1.
  - cbn -[len drop]. rewrite len_drop. unfold JOURNAL_CAP in *. lia.
  - cbn -[len]. unfold JOURNAL_CAP in *. lia.
Qed.

Lemma flush_loop_eq bufs s :
  pending_input s = bufs -> counters_ok s -> seq s + len bufs <= u64_max ->
  safe (flush_loop bufs s) (fun '(r, s') =>
    quiet s s' /\ counts 0 s s' /\ size s' = size s /\
    exists n, snd (pty s') = snd (pty s) ++ map TWrite (take n bufs) /\
      (r = Ok () -> (length bufs <= n)%nat /\ pending_input s' = [])).
Proof.
  revert s. induction bufs as [|buf rest IH]; intros s Hp Hc Hu; cbn [flush_loop].
  { apply safe_ret. split; [done|]. split; [destruct Hc; split; lia || done|]. split; [done|].
    exists 0%nat. rewrite app_nil_r. done. }
  rewrite len_cons in Hu. pose proof (len_nonneg rest) as Hn.
  apply se_bind_rule, safe_ret. cbn [fst snd]. apply se_bind_rule. unfold on_pty at 1.
  destruct (pty s) as [p tr] eqn:Ep. cbn -[flush_loop record len app]. rewrite Ep. cbn -[flush_loop record len app].
  destruct (pty_write_all buf p) as [r q]. apply safe_ret. cbn -[flush_loop record len app].
  assert (Htr : forall t, reads (t ++ [TWrite buf]) = reads t)
    by (intros; rewrite reads_app; cbn; by rewrite app_nil_r).
  destruct Hc as [Hs0 Hj]. destruct r as [[]|e].
  2: { split; [split; cbn -[reads]; rewrite ?Ep; cbn -[reads]; rewrite ?Htr; done|].
       split; [split; cbn -[len]; rewrite ?Hp, ?len_cons; lia || done|].
       split; [done|]. exists 1%nat. done. }
  apply se_bind_rule.
  apply record_rule; [split; cbn -[len]; lia|cbn; lia|]. intros j Hjl. cbn -[flush_loop len].
  apply se_bind_rule, safe_ret. cbn -[flush_loop len].
  eapply safe_mono; [apply IH; cbn -[len]; [done|split; cbn -[len]; lia|lia]|].
  intros [r s'] (Hq & [H1 H2 H3] & Hsz & n & Ht & Hr). split; [|split; [|split]].
  - etransitivity; [|exact Hq]. split; cbn -[reads]; rewrite ?Ep; cbn -[reads]; rewrite ?Htr; done.
  - cbn -[len] in H2. split; rewrite ?Hp, ?len_cons; lia || done.
  - done.
  - exists (Datatypes.S n). cbn -[len] in Ht. rewrite Ht. cbn. rewrite <- app_assoc. split; [done|].
    intros E. destruct (Hr E) as [H4 H5]. split; [lia|done].
Qed.

(** ** Input and geometry *)

Definition trace (s : S) : list PtyEvent := snd (pty s).

Definition blocked (now : Z) (s : S) : bool :=
  let s := expire_input_lease_if_due now s in
  (0 <? lease_generation s) && (lease_nonce s =? 0).

Lemma expire_quiet now s :
  let s' := expire_input_lease_if_due now s in
  quiet s s' /\ pty s' = pty s /\ pending_input s' = pending_input s /\ size s' = size s /\
  seq s' = seq s /\ journal s' = journal s.
Proof.
  unfold expire_input_lease_if_due. destruct (lease_until s) as [t|]; [destruct (t <=? now)|]; cbn [negb];
    (split; [split; done|done]).
Qed.

(** Room for one more record after everything queued. *)
Definition room (s : S) : Prop :=
  counters_ok s /\ seq s + len (pending_input s) + 1 <= u64_max.

Lemma on_resize_eq now w s :
  room s ->
  safe (on_resize now w s) (fun '(r, s') =>
    quiet s s' /\ counts 1 s s' /\
    (blocked now s = true -> trace s' = trace s /\ size s' = size s /\ pending_input s' = pending_input s) /\
    (blocked now s = false ->
      (exists n, trace s' = trace s ++ map TWrite (take n (pending_input s)) /\ size s' = size s /\ r <> Ok ()) \/
      trace s' = trace s ++ map TWrite (pending_input s) ++ [TWinsize w] /\ pending_input s' = [] /\ size s' = w)).
Proof.
  intros [Hc Hroom]. unfold on_resize, lease_blocks_input, blocked.
  destruct (expire_quiet now s) as (Hq & Hp & Hpe & Hsz & Hsq & Hj).
  set (s1 := expire_input_lease_if_due now s) in *. destruct Hc as [Hs Hjl].
  apply se_bind_rule, se_bind_rule, safe_ret. cbn [fst snd]. apply safe_ret. cbn [fst snd]. fold s1.
  destruct ((0 <? lease_generation s1) && (lease_nonce s1 =? 0)) eqn:Eb.
  { apply safe_ret. split; [done|]. split; [split; rewrite ?Hsq, ?Hpe, ?Hj; lia || done|].
    split; [|discriminate]. intros _. unfold trace. by rewrite Hp. }
  apply se_bind_rule. unfold flush_input.
  eapply safe_mono; [apply (flush_loop_eq (pending_input s1) s1 eq_refl);
    [split; rewrite ?Hsq, ?Hj; done|rewrite Hsq, Hpe; lia]|].
  intros [r s2] (Hq2 & [H1 H2 H3] & Hsz2 & n & Ht & Hr). cbn [fst snd]. rewrite Hp, Hpe in Ht.
  rewrite Hsq, Hpe in H2. assert (Hq' : quiet s s2) by (by etransitivity).
  destruct r as [[]|e].
  2: { split; [done|]. split; [split; lia || done|]. split; [discriminate|]. intros _. left. exists n.
       rewrite Hsz2, Hsz. unfold trace. by rewrite Ht. }
  destruct (Hr eq_refl) as [Hn Hp2]. rewrite Hpe in Hn. rewrite take_ge in Ht by done.
  apply se_bind_rule, safe_ret. cbn [fst snd]. apply se_bind_rule. unfold on_pty.
  cbn -[record len]. destruct (pty s2) as [p2 tr2] eqn:Ep2. cbn [fst snd].
  destruct (pty_set_winsize w p2) as [r q]. cbn -[record len]. cbn in Ht.
  assert (Hq3 : forall s3, ring s3 = ring s2 -> bytes_delivered s3 = bytes_delivered s2 ->
    snd (pty s3) = tr2 ++ [TWinsize w] -> credit s3 = credit s2 -> outbound s3 = outbound s2 ->
    attach_generation s3 = attach_generation s2 -> child_exit s3 = child_exit s2 -> quiet s s3).
  { intros s3 E1 E2 E3 E4 E5 E6 E7. etransitivity; [exact Hq'|]. split; try done.
    rewrite E3, Ep2, reads_app. cbn. by rewrite app_nil_r. }
  rewrite Hp2 in H2. change (len []) with 0 in H2. pose proof (len_nonneg (pending_input s)).
  destruct r as [[]|e]; apply safe_ret; cbn -[record len].
  - apply record_rule; [split; cbn -[len]; done|cbn; lia|]. intros j Hjl'.
    split; [apply Hq3; done|]. split; [split; cbn -[len]; rewrite ?Hp2; change (len []) with 0; lia|].
    split; [discriminate|]. intros _. right. unfold trace. cbn. rewrite Ht, <- app_assoc. done.
  - split; [apply Hq3; done|]. split; [split; cbn -[len]; rewrite ?Hp2; change (len []) with 0; lia || done|].
    split; [discriminate|]. intros _. right. unfold trace. cbn. rewrite Ht, <- app_assoc. done.
Qed.

Lemma on_data_eq now bs s :
  room s ->
  safe (on_data now bs s) (fun '(r, s') =>
    quiet s s' /\ counts 1 s s' /\ size s' = size s /\
    (child_exit s <> None -> r = Err Dead /\ s' = s) /\
    (blocked now s = true -> trace s' = trace s) /\
    (child_exit s = None -> blocked now s = false ->
      exists n, trace s' = trace s ++ map TWrite (take n (pending_input s ++ [bs])) /\
        (r = Ok () -> trace s' = trace s ++ map TWrite (pending_input s ++ [bs]) /\ pending_input s' = []))).
Proof.
  intros [Hc Hroom]. unfold on_data, lease_blocks_input, blocked.
  destruct (expire_quiet now s) as (Hq & Hp & Hpe & Hsz & Hsq & Hj). destruct Hc as [Hs Hjl].
  case_bool_decide as Hdead.
  { apply safe_ret. split; [done|]. split; [split; lia || done|]. repeat split; try done. }
  set (s1 := expire_input_lease_if_due now s) in *.
  apply se_bind_rule, se_bind_rule, safe_ret. cbn [fst snd]. apply safe_ret. cbn [fst snd]. fold s1.
  destruct ((0 <? lease_generation s1) && (lease_nonce s1 =? 0)) eqn:Eb.
  { apply safe_ret. split; [done|]. split; [split; rewrite ?Hsq, ?Hpe, ?Hj; lia || done|].
    split; [done|]. split; [done|]. split; [|discriminate]. intros _. unfold trace. by rewrite Hp. }
  apply se_bind_rule, safe_ret. cbn [fst snd]. apply se_bind_rule, safe_ret. cbn [fst snd].
  unfold flush_input.
  set (s2 := s1 <| last_delivery := Pending |> <| pending_input := pending_input (s1 <| last_delivery := Pending |>) ++ [bs] |>).
  assert (E2 : pending_input s2 = pending_input s ++ [bs]) by (cbn -[app]; by rewrite Hpe).
  assert (Hl : len (pending_input s2) = len (pending_input s) + 1) by (rewrite E2, len_app; done).
  assert (Hq2 : quiet s s2) by (etransitivity; [exact Hq|]; by split).
  assert (Esq : seq s2 = seq s) by (cbn; done).
  assert (Ept : trace s2 = trace s) by (unfold trace; cbn; by rewrite Hp).
  eapply safe_mono; [apply (flush_loop_eq (pending_input s2) s2 eq_refl);
    [split; [rewrite Esq; done|cbn -[len]; rewrite Hj; done]|rewrite Esq, Hl; lia]|].
  intros [r s3] (Hq3 & [H1 H2 H3] & Hsz3 & n & Ht & Hr). rewrite Esq, Hl in H2. rewrite E2 in Ht, Hr.
  split; [by etransitivity|]. split; [split; lia || done|]. split; [rewrite Hsz3; cbn; done|].
  split; [done|]. split; [discriminate|]. intros _ _. exists n.
  unfold trace in *. rewrite Ht, Ept. split; [done|].
  intros Er. destruct (Hr Er) as [Hn Hp3]. by rewrite take_ge by done.
Qed.

(** ** Every step keeps the invariant *)

Definition inv (k : Z) (w : World) : Prop := history_ok k (sess w) /\ clients_ok w.

Lemma room_of k s : history_ok k s -> k < MAX_STEPS -> room s.
Proof.
  intros [] Hk. unfold MAX_STEPS in Hk. split; [split; [lia|done]|]. lia.
Qed.

Lemma history_quiet k s s' :
  quiet s s' -> counts 1 s s' -> history_ok k s -> history_ok (k + 1) s'.
Proof.
  intros [] [] []. split; rewrite ?qu_ring0, ?qu_delivered0, ?qu_reads0, ?qu_credit0; try done.
  - unfold READ_BUF in *. lia.
  - lia.
Qed.

Lemma clients_quiet s' w : quiet (sess w) s' -> clients_ok w -> clients_ok (with_sess s' w).
Proof.
  intros [] []. split; cbn; unfold attached in *; rewrite ?qu_outbound0, ?qu_credit0, ?qu_attach0, ?qu_child0; done.
Qed.

Lemma inv_quiet k w s' :
  quiet (sess w) s' -> counts 1 (sess w) s' -> inv k w -> inv (k + 1) (with_sess s' w).
Proof. intros Hq Hc [H1 H2]. split; [by eapply history_quiet|by apply clients_quiet]. Qed.

Lemma run_se_rule {A} (m : SE S A) w (Q : World -> Prop) :
  safe (m (sess w)) (fun '(_, s') => Q (with_sess s' w)) -> safe (run_se m w) Q.
Proof. intros ([r s'] & E & H). unfold run_se. rewrite E. by apply safe_ret. Qed.

(** A step that only changes what the invariant does not mention. *)
Lemma counts_same s s' :
  seq s' = seq s -> pending_input s' = pending_input s -> journal s' = journal s ->
  counters_ok s -> counts 1 s s'.
Proof. intros E1 E2 E3 [H1 H2]. split; rewrite ?E1, ?E2, ?E3; lia || done. Qed.

Lemma counters_of k s : history_ok k s -> counters_ok s.
Proof. intros []. split; [lia|done]. Qed.

Lemma history_same k s s' :
  history_ok k s -> ring s' = ring s -> bytes_delivered s' = bytes_delivered s -> pty s' = pty s ->
  seq s' = seq s -> len (pending_input s') <= len (pending_input s) -> journal s' = journal s ->
  0 <= credit s' <= u64_max -> history_ok (k + 1) s'.
Proof.
  intros [] E1 E2 E3 E4 E5 E6 Hc. split; rewrite ?E1, ?E2, ?E3, ?E4, ?E6; try done.
  - unfold READ_BUF in *. lia.
  - lia.
Qed.

(** Nothing but the lease. *)
Record lease_only (s s' : S) : Prop := {
  lo_pty : pty s' = pty s;
  lo_ring : ring s' = ring s;
  lo_delivered : bytes_delivered s' = bytes_delivered s;
  lo_credit : credit s' = credit s;
  lo_outbound : outbound s' = outbound s;
  lo_pending : pending_input s' = pending_input s;
  lo_attach : attach_generation s' = attach_generation s;
  lo_child : child_exit s' = child_exit s;
  lo_seq : seq s' = seq s;
  lo_journal : journal s' = journal s;
}.

Lemma lease_only_intro now grace nonce s : lease_only s (take_input_lease now grace nonce s).
Proof.
  unfold take_input_lease. cbv zeta. destruct (_ =? 0); split; reflexivity.
Qed.

(** The writer attaches: the lease is taken and a child's death replayed. *)
Lemma attach_fresh k w now grace generation :
  history_ok k (sess w) -> clients_ok w ->
  let s1 := sess w <| attach_generation := Some generation |> <| resync_pending := true |> in
  let x := take_input_lease now grace generation s1 in
  let s' := match child_exit x with
            | Some status => enqueue_outbound (Exit status) x <| exit_delivered := true |>
            | None => x
            end in
  inv (k + 1) (mkWorld s' [] (data_sent w) (data_read w) (granted w) (spent w)).
Proof.
  intros Hh [C1 C2 C3] s1 x.
  assert (H1 : history_ok k s1) by (destruct Hh; split; done).
  assert (E1 : outbound s1 = outbound (sess w)) by reflexivity.
  assert (E2 : credit s1 = credit (sess w)) by reflexivity.
  pose proof (lease_only_intro now grace generation s1) as Hl. fold x in Hl. clearbody x s1.
  destruct Hl as [L1 L2 L3 L4 L5 L6 L7 L8 L9 L10].
  assert (Hx : history_ok (k + 1) x).
  { eapply history_same; [exact H1|done..|by rewrite L6|done|]. rewrite L4. apply (ho_credit _ _ H1). }
  destruct (child_exit x) as [st|] eqn:Ex.
  - split; [destruct Hx; split; done|]. split; cbn -[data_bytes]; rewrite ?L5, ?L4, ?E1, ?E2.
    + by rewrite data_bytes_snoc.
    + done.
    + intros st' _ Hst. rewrite Ex in Hst. injection Hst as <-. apply elem_of_app. right. by left.
  - split; [done|]. split; cbn -[data_bytes]; rewrite ?L5, ?L4, ?E1, ?E2; [done|done|].
    intros st _ Hst. congruence.
Qed.

Lemma attach_inv k w now grace generation observe sid pr :
  inv k w ->
  safe (world_step (WFrame now grace (Attach generation sid pr observe)) w) (inv (k + 1)).
Proof.
  intros [Hh Hco]. pose proof Hco as [C1 C2 C3]. cbn [world_step on_frame]. unfold modify. cbn [mbind option_bind].
  assert (Hcr : 0 <= credit (sess w) <= u64_max) by apply (ho_credit _ _ Hh).
  destruct observe; [|destruct (attached (sess w)) eqn:Ea; unfold attached in Ea]; apply safe_ret.
  - split; [|split; done]. eapply history_same; try done.
  - unfold on_attach. rewrite Ea. split; [eapply history_same; try done|].
    split; cbn -[data_bytes].
    + by rewrite data_bytes_snoc.
    + done.
    + intros st H1 H2. rewrite app_assoc. apply elem_of_app. left. by apply C3.
  - unfold on_attach. rewrite Ea. by apply attach_fresh.
Qed.

Lemma frame_inv k w now grace f :
  inv k w -> k < MAX_STEPS -> step_ok (WFrame now grace f) ->
  safe (world_step (WFrame now grace f) w) (inv (k + 1)).
Proof.
  intros Hi Hk Hok. pose proof Hi as [Hh Hco].
  pose proof (room_of _ _ Hh Hk) as Hroom. pose proof (counters_of _ _ Hh) as Hc.
  assert (Hnop : inv (k + 1) (with_sess (sess w) w)) by (apply inv_quiet; [done|by apply counts_same|done]).
  destruct f as [bs|n|c r pw ph|st|generation sid pr ob|rr|off h bl|off bs|];
    try (apply safe_ret; exact Hnop); [| | |by apply attach_inv].
  - destruct (on_data_eq now bs (sess w) Hroom) as ([r s'] & E & Hq & Hct & _).
    cbn [world_step on_frame]. rewrite E. apply safe_ret. by apply inv_quiet.
  - cbn [step_ok] in Hok. cbn [world_step on_frame]. unfold modify. cbn [mbind option_bind]. apply safe_ret.
    destruct Hco as [C1 C2 C3]. pose proof (ho_credit _ _ Hh).
    split; [eapply history_same; try done|split; try done]; cbn; num.
  - destruct (on_resize_eq now (mkWinsize c r pw ph) (sess w) Hroom) as ([x s'] & E & Hq & Hct & _).
    cbn [world_step on_frame]. rewrite E. apply safe_ret. by apply inv_quiet.
Qed.

Lemma input_inv k w now now' grace nonce bs :
  inv k w -> k < MAX_STEPS -> safe (world_step (WInput now now' grace nonce bs) w) (inv (k + 1)).
Proof.
  intros Hi Hk. pose proof Hi as [Hh Hco].
  pose proof (room_of _ _ Hh Hk) as [[R1 R2] R3].
  apply run_se_rule. unfold input_with_lease. apply se_bind_rule, safe_ret. cbn [fst snd].
  destruct (expire_quiet now (sess w)) as (Hq & Hp & Hpe & Hsz & Hsq & Hj).
  set (s1 := expire_input_lease_if_due now (sess w)) in *. clearbody s1.
  apply se_bind_rule, safe_ret. cbn [fst snd].
  destruct (_ || _).
  - apply safe_ret. apply inv_quiet; [done| |done]. apply counts_same; done.
  - cbn [on_frame]. assert (Hroom : room s1) by (split; [split; rewrite ?Hsq, ?Hj; done|rewrite Hsq, Hpe; lia]).
    eapply safe_mono; [by apply on_data_eq|]. intros [r s'] (Hq2 & [H1 H2 H3] & _).
    apply inv_quiet; [by etransitivity| |done]. rewrite Hsq, Hpe in H2. split; done.
Qed.

(** One read of at most [n] bytes: an error, nothing, or bytes. *)
Lemma traced_read_cases n (s : S) :
  0 <= n ->
  exists q, (exists e, on_pty (pty_read n) s = Some (Err e, s <| pty := (q, trace s) |>)) \/
  (exists bs, on_pty (pty_read n) s = Some (Ok bs, s <| pty := (q, trace s ++ [TRead bs]) |>) /\ len bs <= n /\ bytes bs).
Proof.
  intros Hn. unfold on_pty, trace. destruct (pty s) as [p tr] eqn:Ep. cbn. unfold traced_read. cbn.
  destruct (pty_read n p) as [[bs|e] q] eqn:Er; exists q.
  - right. exists bs. split; [done|]. by apply (pty_read_fits n p bs q).
  - left. exists e. by rewrite app_nil_r.
Qed.

(** What a read that gave bytes does to the counters. *)
Lemma history_read k s bs s' :
  history_ok k s -> k < MAX_STEPS -> len bs <= READ_BUF -> bytes bs ->
  ring s' = ring_of RING_CAP (reads (trace s) ++ bs) ->
  trace s' = trace s ++ [TRead bs] -> bytes_delivered s' = len (reads (trace s)) + len bs ->
  seq s' = seq s + 1 -> pending_input s' = pending_input s -> len (journal s') <= JOURNAL_CAP ->
  0 <= credit s' <= u64_max -> history_ok (k + 1) s'.
Proof.
  intros [] Hk Hb Hby E1 E2 E3 E4 E5 E6 E7. unfold trace in *.
  assert (Er : reads (snd (pty s')) = reads (snd (pty s)) ++ bs)
    by (rewrite E2, reads_app; cbn; by rewrite app_nil_r).
  split; rewrite ?Er, ?len_app; try done; try (by apply bytes_app); unfold READ_BUF in *; try lia; rewrite ?E4, ?E5; lia.
Qed.

Lemma ring_push_eq k bs (s t : S) :
  history_ok k s -> k < MAX_STEPS -> len bs <= READ_BUF -> ring t = ring s ->
  ring_push bs t = Some (Ok (), t <| ring := ring_of RING_CAP (reads (trace s) ++ bs) |>).
Proof.
  intros Hh Hk Hb Ht. pose proof (ho_reads _ _ Hh). unfold ring_push. rewrite Ht, (ho_ring _ _ Hh).
  unfold trace. rewrite ring_append_eq by (unfold RING_CAP, READ_BUF, MAX_STEPS in *; lia). done.
Qed.

Lemma nonempty_bytes (bs : list Z) : (len bs =? 0) = true -> bs = [].
Proof. destruct bs as [|b bs]; [done|]. rewrite len_cons. pose proof (len_nonneg bs). lia. Qed.

Lemma quiet_pty (s : S) q ev :
  reads ev = [] -> quiet s (s <| pty := (q, trace s ++ ev) |>).
Proof. intros H. split; try done. cbn -[reads]. unfold trace. by rewrite reads_app, H, app_nil_r. Qed.

Lemma drain_inv k w max :
  inv k w -> k < MAX_STEPS -> step_ok (WDrain max) -> safe (world_step (WDrain max) w) (inv (k + 1)).
Proof.
  intros Hi Hk Hok. pose proof Hi as [Hh Hco]. pose proof (counters_of _ _ Hh) as Hc.
  apply run_se_rule. unfold drain_pty_at_most. destruct (child_exit (sess w)) as [st|] eqn:Ech.
  { apply safe_ret. apply inv_quiet; [done|by apply counts_same|done]. }
  cbn zeta. destruct (_ =? 0).
  { apply safe_ret. apply inv_quiet; [by split|by apply counts_same|done]. }
  set (n := Z.min _ _). assert (Hn : 0 <= n <= READ_BUF)
    by (unfold n; destruct max; cbn in *; unfold READ_BUF in *; lia). clearbody n.
  apply se_bind_rule. destruct (traced_read_cases n (sess w) ltac:(lia)) as (q & [(e & E)|(bs & E & Hb & Hby)]); rewrite E;
    apply safe_ret; cbn [fst snd].
  { apply inv_quiet; [|by apply counts_same|done]. rewrite <- (app_nil_r (trace (sess w))). by apply quiet_pty. }
  destruct (len bs =? 0) eqn:Hz.
  { apply safe_ret. apply nonempty_bytes in Hz. subst. apply inv_quiet; [by apply quiet_pty|by apply counts_same|done]. }
  apply se_bind_rule. rewrite (ring_push_eq k bs (sess w)) by (done || lia). apply safe_ret. cbn [fst snd].
  apply se_bind_rule, safe_ret. cbn [fst snd]. apply se_bind_rule.
  destruct Hc as [Hc1 Hc2]. pose proof (ho_seq _ _ Hh) as [_ Hsq]. pose proof (len_nonneg (pending_input (sess w))).
  apply record_rule; [split; done|cbn -[len]; unfold MAX_STEPS in *; lia|]. intros j Hj. cbn [fst snd].
  apply safe_ret. destruct Hco as [C1 C2 C3]. split; [|split; done].
  eapply (history_read k (sess w) bs); try done; [lia| |apply (ho_credit _ _ Hh)].
  cbn -[len]. rewrite (ho_delivered _ _ Hh). pose proof (ho_reads _ _ Hh). pose proof (len_nonneg bs).
  unfold trace, sat_add, READ_BUF, MAX_STEPS in *. lia.
Qed.

Lemma fresh_reads_app (s : S) s' bs :
  reads (trace s') = reads (trace s) ++ bs -> fresh_reads s s' = bs.
Proof. unfold fresh_reads, trace. intros ->. apply drop_app_length. Qed.

Definition after_read (w : World) (s' : S) : World :=
  mkWorld s' (since_attach w) (data_sent w)
    (if has_listeners (sess w) then data_read w ++ fresh_reads (sess w) s' else data_read w)
    (granted w) (spent w + len (fresh_reads (sess w) s')).

Lemma after_read_quiet k w s' :
  inv k w -> quiet (sess w) s' -> counts 1 (sess w) s' -> inv (k + 1) (after_read w s').
Proof.
  intros Hi H1 H2. unfold after_read.
  rewrite (fresh_reads_app _ s' []) by (rewrite app_nil_r; apply (qu_reads _ _ H1)).
  destruct (inv_quiet k w s' H1 H2 Hi) as [G1 [G2 G3 G4]]. split; [done|]. cbn -[data_bytes] in *.
  split; cbn -[data_bytes len]; [destruct (has_listeners _); rewrite ?app_nil_r; done|..|done].
  change (len []) with 0. lia.
Qed.

(** The bytes of a read are owed to the listeners there are. *)
Lemma after_read_bytes k w s' bs :
  clients_ok w -> history_ok k s' -> reads (trace s') = reads (trace (sess w)) ++ bs ->
  credit s' = credit (sess w) - len bs -> outbound s' = outbound (sess w) ->
  attached s' = attached (sess w) -> child_exit s' = child_exit (sess w) ->
  inv k (after_read w (if has_listeners (sess w) then enqueue_outbound (Data bs) s' else s')).
Proof.
  intros [C1 C2 C3] Hs' Hrd Hcr' Hout Hat Hex. unfold after_read. destruct (has_listeners (sess w)).
  - rewrite (fresh_reads_app _ _ bs) by exact Hrd.
    split; [destruct Hs'; split; done|]. split; cbn -[data_bytes len]; rewrite ?Hout.
    + rewrite data_bytes_app, app_assoc, C1. cbn. by rewrite app_nil_r.
    + rewrite Hcr'. lia.
    + intros st H1 H2. rewrite app_assoc. apply elem_of_app. left. apply C3; [by rewrite <- Hat|by rewrite <- Hex].
  - rewrite (fresh_reads_app _ _ bs) by exact Hrd.
    split; [done|]. split; cbn -[data_bytes len]; rewrite ?Hout; [done|rewrite Hcr'; lia|].
    intros st H1 H2. apply C3; [by rewrite <- Hat|by rewrite <- Hex].
Qed.

Lemma readable_inv k w :
  inv k w -> k < MAX_STEPS -> safe (world_step WReadable w) (inv (k + 1)).
Proof.
  intros Hi Hk. pose proof Hi as [Hh [C1 C2 C3]]. pose proof (counters_of _ _ Hh) as Hc.
  pose proof (ho_credit _ _ Hh) as Hcr. cbn [world_step].
  enough (Hs : safe (on_pty_readable (sess w)) (fun '(_, s') => inv (k + 1) (after_read w s')))
    by (destruct Hs as ([r s'] & E & H); rewrite E; by apply safe_ret).
  pose proof (fun s' => after_read_quiet k w s' Hi) as Hq.
  unfold on_pty_readable. destruct (credit (sess w) =? 0) eqn:Hz.
  { apply safe_ret. apply Hq; [by split|by apply counts_same]. }
  cbn zeta. set (n := Z.min _ _). assert (Hn : 0 <= n <= READ_BUF /\ n <= credit (sess w))
    by (unfold n, READ_BUF; lia). clearbody n.
  apply se_bind_rule.
  destruct (traced_read_cases n (sess w) ltac:(lia)) as (q & [(e & E)|(bs & E & Hb & Hby)]); rewrite E;
    apply safe_ret; cbn [fst snd].
  { apply Hq; [|by apply counts_same]. rewrite <- (app_nil_r (trace (sess w))). by apply quiet_pty. }
  destruct (len bs =? 0) eqn:Hz'.
  { apply safe_ret. apply nonempty_bytes in Hz'. subst. apply Hq; [by apply quiet_pty|by apply counts_same]. }
  apply se_bind_rule. rewrite (ring_push_eq k bs (sess w)) by (done || lia). apply safe_ret. cbn [fst snd].
  apply se_bind_rule. unfold spend_credit, chk_sub.
  match goal with |- context [credit ?t] => change (credit t) with (credit (sess w)) end.
  rewrite (proj2 (Z.leb_le _ _)) by lia. apply safe_ret. cbn [fst snd].
  apply se_bind_rule, safe_ret. cbn [fst snd]. apply se_bind_rule.
  destruct Hc as [Hc1 Hc2]. pose proof (ho_seq _ _ Hh) as [_ Hsq]. pose proof (len_nonneg (pending_input (sess w))).
  apply record_rule; [split; done|cbn -[len]; unfold MAX_STEPS in *; lia|]. intros j Hj. cbn [fst snd].
  apply se_bind_rule, safe_ret. cbn [fst snd]. apply safe_ret. pose proof (len_nonneg bs) as Hbs.
  match goal with |- inv _ (after_read _ (if has_listeners ?t then _ else _)) =>
    change (has_listeners t) with (has_listeners (sess w)); set (s' := t) end.
  assert (Hrd : reads (trace s') = reads (trace (sess w)) ++ bs)
    by (unfold s', trace; cbn -[reads]; rewrite reads_app; cbn; by rewrite app_nil_r).
  apply after_read_bytes; try done.
  eapply (history_read k (sess w) bs); try done; [lia| |cbn -[len]; lia].
  cbn -[len]. rewrite (ho_delivered _ _ Hh). pose proof (ho_reads _ _ Hh).
  unfold trace, sat_add, READ_BUF, MAX_STEPS in *. lia.
Qed.

Lemma poll_inv k w : inv k w -> k < MAX_STEPS -> safe (world_step WPoll w) (inv (k + 1)).
Proof.
  intros Hi Hk. pose proof Hi as [Hh [C1 C2 C3]]. pose proof (counters_of _ _ Hh) as Hc.
  apply run_se_rule. unfold poll_child. destruct (child_exit (sess w)) as [st|] eqn:Ech.
  { apply safe_ret. apply inv_quiet; [done|by apply counts_same|done]. }
  apply se_bind_rule. unfold on_pty at 1. destruct (pty (sess w)) as [p tr] eqn:Ep. cbn -[record len data_bytes].
  destruct (pty_try_wait p) as [r q]. apply safe_ret. cbn [fst snd].
  assert (Hq : quiet (sess w) (sess w <| pty := (q, tr) |>)) by (split; try done; cbn; by rewrite Ep).
  destruct r as [[st|]|e]; [|apply safe_ret|]; [|apply inv_quiet; [done|by apply counts_same|done]..].
  - apply se_bind_rule, safe_ret. cbn [fst snd]. apply se_bind_rule.
    destruct Hc as [Hc1 Hc2]. pose proof (ho_seq _ _ Hh) as [_ Hsq]. pose proof (len_nonneg (pending_input (sess w))).
    apply record_rule; [split; done|cbn -[len]; unfold MAX_STEPS in *; lia|]. intros j Hj. cbn [fst snd].
    apply se_bind_rule, safe_ret. cbn [fst snd]. apply safe_ret.
    match goal with |- inv _ (with_sess (if has_listeners ?t then _ else _) w) =>
      change (has_listeners t) with (has_listeners (sess w)); set (s' := t) end.
    assert (Hs' : history_ok (k + 1) s').
    { destruct Hh. rewrite Ep in *. cbn [snd] in *.
      split; cbn -[len reads]; try done; unfold READ_BUF in *; lia. }
    destruct (has_listeners (sess w)) eqn:Hl.
    + split; [destruct Hs'; split; done|]. split; cbn -[data_bytes]; [by rewrite data_bytes_snoc|done|].
      intros st' _ [= <-]. rewrite !elem_of_app. right. right. by left.
    + split; [done|]. split; cbn -[data_bytes]; [done|done|].
      intros st' Ha _. unfold has_listeners in Hl. unfold attached in Ha. cbn in Ha.
      apply orb_false_iff in Hl as [Hl _]. congruence.
Qed.

Lemma detach_fields (s : S) :
  let s' := detach s in
  ring s' = ring s /\ bytes_delivered s' = bytes_delivered s /\ reads (trace s') = reads (trace s) /\
  credit s' = 0 /\ outbound s' = List.filter (fun f => negb (is_data f)) (outbound s) /\
  attach_generation s' = None /\ seq s' = seq s /\ journal s' = journal s /\ pending_input s' = [].
Proof.
  assert (E : forall t : S, reads (trace (t <| pty := snd (pty_terminate (pty t)) |>)) = reads (trace t)).
  { intros t. unfold trace. cbn -[reads]. destruct (pty t) as [p tr]. cbn -[reads]. by destruct (pty_terminate p). }
  unfold detach. cbv zeta.
  set (s1 := s <| attach_generation := None |> <| credit := 0 |>).
  assert (E1 : trace s1 = trace s) by reflexivity.
  destruct (ephemeral s1); case_bool_decide as Hx; split_and!; try reflexivity.
  all: first [exact (E s1) | reflexivity | exact Hx].
Qed.

Lemma detach_inv k w : inv k w -> inv (k + 1) (mkWorld (detach (sess w)) [] [] [] 0 0).
Proof.
  intros [Hh _]. pose proof (detach_fields (sess w)) as (E1 & E2 & E3 & E4 & E5 & E6 & E7 & E8 & E9).
  destruct Hh. unfold trace in *. pose proof (len_nonneg (pending_input (sess w))).
  split; cbn [sess].
  - split; rewrite ?E1, ?E2, ?E3, ?E4, ?E7, ?E8, ?E9; try done; [unfold READ_BUF in *; lia|].
    change (len []) with 0. lia.
  - split; cbn -[data_bytes detach]; rewrite ?E5, ?E4; [by rewrite data_bytes_filter|done|].
    intros st Ha _. unfold attached in Ha. by rewrite E6 in Ha.
Qed.

Lemma pop_inv k w : inv k w -> safe (world_step WPop w) (inv (k + 1)).
Proof.
  intros Hi. pose proof Hi as [Hh [C1 C2 C3]]. pose proof (counters_of _ _ Hh) as Hc.
  cbn [world_step]. unfold pop_outbound. destruct (outbound (sess w)) as [|f rest] eqn:Eo; apply safe_ret.
  { apply inv_quiet; [done|by apply counts_same|done]. }
  split; [eapply history_same; try done; apply (ho_credit _ _ Hh)|].
  split; cbn -[data_bytes].
  - rewrite <- C1. change (f :: rest) with ([f] ++ rest). by rewrite data_bytes_app, app_assoc.
  - done.
  - intros st Ha He. rewrite <- app_assoc. by apply C3.
Qed.

Lemma step_inv k w o :
  inv k w -> k < MAX_STEPS -> step_ok o -> safe (world_step o w) (inv (k + 1)).
Proof.
  intros Hi Hk Hok. pose proof Hi as [Hh Hco]. pose proof (counters_of _ _ Hh) as Hc.
  destruct o as [now grace f|now now' grace nonce bs| |max| | | | | | |rec|].
  - by apply frame_inv.
  - by apply input_inv.
  - by apply readable_inv.
  - by apply drain_inv.
  - by apply poll_inv.
  - apply safe_ret. by apply detach_inv.
  - by apply pop_inv.
  - apply safe_ret. unfold take_resync_history. destruct (resync_pending (sess w)); cbn [negb snd];
      (apply inv_quiet; [by split|by apply counts_same|done]).
  - apply safe_ret. apply inv_quiet; [by split|by apply counts_same|done].
  - apply run_se_rule. unfold terminate. destruct (terminated (sess w)).
    { apply safe_ret. apply inv_quiet; [done|by apply counts_same|done]. }
    unfold on_pty. cbn -[reads]. destruct (pty (sess w)) as [p tr] eqn:Ep. cbn -[reads].
    destruct (pty_terminate p) as [r q]. apply safe_ret.
    apply inv_quiet; [|by apply counts_same|done]. split; try done. cbn. by rewrite Ep.
  - apply run_se_rule. unfold install_checkpoint. apply se_bind_rule. unfold of_result.
    destruct (check_compatible rec) as [[]|e]; apply safe_ret; cbn [fst snd]; [apply safe_ret|];
      (apply inv_quiet; [by split|by apply counts_same|done]).
  - apply run_se_rule. unfold cwd. destruct (pty_fg_cwd (pty (sess w))); apply safe_ret;
      (apply inv_quiet; [by split|by apply counts_same|done]).
Qed.

Lemma world_run_inv k os w :
  inv k w -> k + len os <= MAX_STEPS -> Forall step_ok os ->
  safe (world_run os w) (inv (k + len os)).
Proof.
  revert k w. induction os as [|o os IH]; intros k w Hi Hk Hok; cbn [world_run].
  { rewrite Z.add_0_r. by apply safe_ret. }
  rewrite len_cons in *. pose proof (len_nonneg os). apply Forall_cons in Hok as [Ho Hok].
  eapply safe_bind; [apply (step_inv k); [done|lia|done]|]. intros w' Hi'. cbn beta in Hi'.
  replace (k + (1 + len os)) with (k + 1 + len os) by lia. apply IH; [done|lia|done].
Qed.

Lemma world_new_inv p sz eph : inv 0 (world_new p sz eph).
Proof.
  assert (E : ring_new RING_CAP = ring_of RING_CAP []) by (vm_compute; reflexivity).
  split; split; cbn; try done; try (unfold len; cbn; lia). constructor.
Qed.

Lemma reach_inv p sz eph os :
  len os <= MAX_STEPS -> Forall step_ok os ->
  safe (world_run os (world_new p sz eph)) (inv (len os)).
Proof. intros Hl Hok. apply (world_run_inv 0); [apply world_new_inv|lia|done]. Qed.

(** An attach with generation 0 takes the lease with nonce 0, which stands for
    no lease: the writer's input and resizes are dropped from then on. *)
Lemma attach_zero_blocks (now now' grace : Z) (s : S) :
  attach_generation s = None -> 0 <= lease_generation s < u64_max ->
  blocked now' (on_attach now grace 0 false s) = true.
Proof.
  intros Ha Hg. unfold on_attach. rewrite bool_decide_eq_false_2 by (rewrite Ha; by intros []).
  unfold take_input_lease, sat_add. cbv zeta.
  set (s1 := s <| attach_generation := Some 0 |> <| resync_pending := true |>).
  change (lease_generation s1) with (lease_generation s). rewrite Z.min_l by lia.
  rewrite (proj2 (Z.eqb_neq _ _)) by (cbn; lia).
  unfold blocked, expire_input_lease_if_due. destruct (child_exit _) as [st|]; cbn;
    case_if; cbn; rewrite ?Z.eqb_refl, ?andb_true_r; apply Z.ltb_lt; lia.
Qed.
End World.

(** ** Properties *)

(** C15. A session keeps exactly what its child wrote.  Over any PTY, after any
    steps from a new session - frames, leased input, reads, polls, detaches,
    drains, up to 2^48 - 1 of them - no operation has panicked: no counter
    overflowed, credit never went below zero, the journal stayed within its
    cap.  The history is the last 4 MiB of everything the PTY gave, at absolute
    offsets; the byte count is exact; and recovery from an installed checkpoint
    gives exactly the bytes of the stream after it, or refuses when some of them
    are gone. *)
Theorem session_history {P} `{!PtyOps P, !PtyLaws P} (p : P) (sz : Winsize) (eph : bool) (os : list Step) :
  len os <= MAX_STEPS -> Forall step_ok os ->
  safe (world_run os (world_new p sz eph)) (fun w =>
    let s := sess w in
    let s_all := reads (trace s) in
    ring s = ring_of RING_CAP s_all /\ bytes_delivered s = len s_all /\
    len (journal s) <= JOURNAL_CAP /\ 0 <= credit s <= u64_max /\
    (forall cp, checkpoint s = Some cp -> 0 <= ending_offset cp ->
      recovery s = (deltas ← stream_after RING_CAP s_all (ending_offset cp); Ok (cp, deltas)))).
Proof.
  intros Hl Hok. eapply safe_mono; [by apply reach_inv|]. intros w [[H1 _ H2 _ H3 H4] _]. cbn zeta.
  split_and!; try done; try lia. intros cp Hcp H0. unfold recovery, trace. rewrite Hcp, H1.
  by rewrite deltas_after_eq by (done || (unfold RING_CAP; lia)).
Qed.

(** C16. Clients lose nothing and are never overrun.  After any steps from a
    new session, the terminal bytes clients have taken followed by those still
    queued are exactly the bytes read from the PTY for them since the last
    detach, in order; what was read and the credit left never exceed the credit
    granted; and once the child's death is observed, an attached writer has been
    sent its exit status or has it queued, whether the child died before or
    after it attached. *)
Theorem session_delivers {P} `{!PtyOps P, !PtyLaws P} (p : P) (sz : Winsize) (eph : bool) (os : list Step) :
  len os <= MAX_STEPS -> Forall step_ok os ->
  safe (world_run os (world_new p sz eph)) (fun w =>
    data_sent w ++ data_bytes (outbound (sess w)) = data_read w /\
    spent w + credit (sess w) <= granted w /\
    (forall st, attached (sess w) = true -> child_exit (sess w) = Some st ->
      Exit st ∈ since_attach w ++ outbound (sess w))).
Proof.
  intros Hl Hok. eapply safe_mono; [by apply reach_inv|]. by intros w [_ [H1 H2 H3]].
Qed.

(** C36. Geometry never overtakes input, and a lost lease stops both.  With the
    lease in force a resize writes every queued buffer in order before it sets
    the new size, and sets nothing if a write fails; a data frame is written
    after everything queued before it; to a dead child it is refused.  Without
    the lease neither touches the PTY. *)
Theorem input_before_geometry {P} `{!PtyOps P} (now : Z) (w : Winsize) (bs : list Z)
    (s : Session (P * list PtyEvent)) :
  room s ->
  safe (on_resize now w s) (fun '(r, s') =>
    (blocked now s = true -> trace s' = trace s /\ size s' = size s) /\
    (blocked now s = false ->
      (exists n, trace s' = trace s ++ map TWrite (take n (pending_input s)) /\ size s' = size s /\ r <> Ok ()) \/
      trace s' = trace s ++ map TWrite (pending_input s) ++ [TWinsize w] /\ size s' = w)) /\
  safe (on_data now bs s) (fun '(r, s') =>
    (child_exit s <> None -> r = Err Dead /\ s' = s) /\
    (blocked now s = true -> trace s' = trace s) /\
    (r = Ok () -> child_exit s = None -> blocked now s = false ->
      trace s' = trace s ++ map TWrite (pending_input s ++ [bs]) /\ pending_input s' = [])).
Proof.
  intros Hr. split.
  - eapply safe_mono; [by apply on_resize_eq|]. intros [r s'] (_ & _ & H1 & H2). split.
    + intros Hb. by destruct (H1 Hb) as (? & ? & _).
    + intros Hb. destruct (H2 Hb) as [?|(? & _ & ?)]; [by left|by right].
  - eapply safe_mono; [by apply on_data_eq|]. intros [r s'] (_ & _ & _ & H1 & H2 & H3).
    split; [done|]. split; [done|]. intros Hok Hc Hb. by destruct (H3 Hc Hb) as (n & _ & H4); apply H4.
Qed.

(** ** A PTY to try them on: a child that writes a given text and exits *)

#[export] Instance script_ops : PtyOps (list Z) := {
  pty_write_all := fun _ p => (Ok (), p);
  pty_read := fun n p => (Ok (map (fun b => b mod 256) (take (Z.to_nat n) p)), drop (Z.to_nat n) p);
  pty_set_winsize := fun _ p => (Ok (), p);
  pty_try_wait := fun p => (Ok (match p with [] => Some 0 | _ => None end), p);
  pty_terminate := fun p => (Ok (), []);
  pty_fg_cwd := fun _ => Err CwdUnreadable;
  pty_child_id := fun _ => 4242;
}.

#[export] Instance script_laws : PtyLaws (list Z).
Proof.
  split. intros n p bs p' Hn [= <- _]. split.
  - unfold len. rewrite length_map, length_take. lia.
  - unfold bytes. rewrite Forall_map. apply Forall_forall. intros b _. cbn.
    pose proof (Z.mod_pos_bound b 256 ltac:(lia)). num.
Qed.

Definition demo_size : Winsize := mkWinsize 80 24 640 384.
Definition demo_steps : list Step :=
  [ WFrame 0 100 (Attach 7 None 1 false); WFrame 1 100 (Credit 3); WReadable;
    WFrame 2 100 (Data (lit "ls")); WFrame 3 100 (Resize 100 30 0 0); WPop; WReadable;
    WFrame 4 100 (Credit 9); WReadable; WPoll;
    WCheckpoint (stored_new 2 0 []); WFrame 200 100 (Data (lit "late")) ].

Lemma demo_steps_ok : Forall step_ok demo_steps.
Proof. repeat constructor; cbn; num. Qed.

Example demo_run :
  (w ← world_run demo_steps (world_new (lit "hello") demo_size false);
   Some (trace (sess w), outbound (sess w), snd <$> (match recovery (sess w) with Ok r => Some r | Err _ => None end)))
  = Some ([TRead (lit "hel"); TWrite (lit "ls"); TWinsize (mkWinsize 100 30 0 0); TRead (lit "lo")],
          [Data (lit "lo"); Exit 0], Some (lit "llo")).
Proof. vm_compute. reflexivity. Qed.

Lemma session_history_witness :
  len demo_steps <= MAX_STEPS /\ Forall step_ok demo_steps /\
  safe (world_run demo_steps (world_new (lit "hello") demo_size false)) (fun w =>
    let s := sess w in
    let s_all := reads (trace s) in
    ring s = ring_of RING_CAP s_all /\ bytes_delivered s = len s_all /\
    len (journal s) <= JOURNAL_CAP /\ 0 <= credit s <= u64_max /\
    (forall cp, checkpoint s = Some cp -> 0 <= ending_offset cp ->
      recovery s = (deltas ← stream_after RING_CAP s_all (ending_offset cp); Ok (cp, deltas)))).
Proof.
  assert (H : len demo_steps <= MAX_STEPS) by (vm_compute; discriminate).
  split; [exact H|]. split; [exact demo_steps_ok|].
  apply (session_history (lit "hello") demo_size false demo_steps H demo_steps_ok).
Defined.

Lemma session_delivers_witness :
  len demo_steps <= MAX_STEPS /\ Forall step_ok demo_steps /\
  safe (world_run demo_steps (world_new (lit "hello") demo_size false)) (fun w =>
    data_sent w ++ data_bytes (outbound (sess w)) = data_read w /\
    spent w + credit (sess w) <= granted w /\
    (forall st, attached (sess w) = true -> child_exit (sess w) = Some st ->
      Exit st ∈ since_attach w ++ outbound (sess w))).
Proof.
  assert (H : len demo_steps <= MAX_STEPS) by (vm_compute; discriminate).
  split; [exact H|]. split; [exact demo_steps_ok|].
  apply (session_delivers (lit "hello") demo_size false demo_steps H demo_steps_ok).
Defined.

Definition demo_session : Session (list Z * list PtyEvent) :=
  spawn_configured (lit "hello", []) demo_size false <| pending_input := [lit "a"; lit "b"] |>.

Lemma input_before_geometry_witness :
  room demo_session /\
  safe (on_resize 5 (mkWinsize 90 20 0 0) demo_session) (fun '(r, s') =>
    (blocked 5 demo_session = true -> trace s' = trace demo_session /\ size s' = size demo_session) /\
    (blocked 5 demo_session = false ->
      (exists n, trace s' = trace demo_session ++ map TWrite (take n (pending_input demo_session)) /\
         size s' = size demo_session /\ r <> Ok ()) \/
      trace s' = trace demo_session ++ map TWrite (pending_input demo_session) ++ [TWinsize (mkWinsize 90 20 0 0)] /\
      size s' = mkWinsize 90 20 0 0)) /\
  safe (on_data 5 (lit "c") demo_session) (fun '(r, s') =>
    (child_exit demo_session <> None -> r = Err Dead /\ s' = demo_session) /\
    (blocked 5 demo_session = true -> trace s' = trace demo_session) /\
    (r = Ok () -> child_exit demo_session = None -> blocked 5 demo_session = false ->
      trace s' = trace demo_session ++ map TWrite (pending_input demo_session ++ [lit "c"]) /\ pending_input s' = [])).
Proof.
  assert (H : room demo_session) by (split; [split|]; vm_compute; discriminate).
  split; [exact H|]. apply (input_before_geometry 5 (mkWinsize 90 20 0 0) (lit "c") demo_session H).
Defined.

(** ** Journal claims *)

(** A running child is claimed only for a recorded pid of a live worker. *)
Lemma running_iff pid live marker c :
  reconcile_execution pid live marker = Running c <-> pid = Some c /\ live = true.
Proof. unfold reconcile_execution. destruct live, marker, pid; cbn; naive_solver. Qed.
