(* ===== verification/Pty.v ===== *)
(** The kernel's PTY, crates/rill-kernel/src/pty.rs (the Darwin build): creating
    one with its child, writing, reading, polling, the window size, the working
    directory of the foreground process and the intentional teardown.

    The operating system is an interface, [PtySys]: one operation for each call
    into libc or std's process module, over a state [W] that belongs to it.  A
    call that fails gives its errno.  [Libc] holds the platform's constants.
    Where Rust drops a descriptor's owner the model closes the descriptor: on
    every way out ([scoped]) or when an error leaves before the owner is moved
    ([guarded]).  The fuel of a loop is an argument; [None] is a panic, or fuel
    that ran out. *)
From S2P Require Import Prelude Effect Attach Ring Session.

Local Open Scope Z_scope.

(** ** The platform *)

Class Libc := {
  POLLIN : Z; POLLOUT : Z; POLLERR : Z; POLLHUP : Z;
  EINTR : Z; EAGAIN : Z;
  SIGKILL : Z;
  O_NONBLOCK : Z;
  ICANON : Z; ECHO : Z; ECHOE : Z; ECHOK : Z; ISIG : Z;
  IXON : Z; ICRNL : Z; INLCR : Z; ISTRIP : Z; IGNCR : Z;
  OPOST : Z;
  VMIN : Z; VTIME : Z;
}.

(** [libc::pollfd], [libc::termios] and [libc::winsize]. *)
Record PollFd := mkPollFd { pfd_fd : Z; pfd_events : Z; pfd_revents : Z }.
Record Termios := mkTermios { c_iflag : Z; c_oflag : Z; c_cflag : Z; c_lflag : Z; c_cc : list Z }.
Record LibcWinsize := mkLibcWinsize { ws_row : Z; ws_col : Z; ws_xpixel : Z; ws_ypixel : Z }.

#[export] Instance eta_pollfd : Eta PollFd := fun p => mkPollFd (pfd_fd p) (pfd_events p) (pfd_revents p).
#[export] Instance eta_termios : Eta Termios := fun t =>
  mkTermios (c_iflag t) (c_oflag t) (c_cflag t) (c_lflag t) (c_cc t).

Inductive Discipline : Type := Interactive | Raw.

#[export] Instance discipline_eq_dec : EqDecision Discipline.
Proof. solve_decision. Defined.

(** What [Command] is told: the program, its arguments, its three descriptors,
    the variables added to its environment, and the calls between fork and exec. *)
Inductive PreExec : Type := Setsid | ControllingTty (fd : Z).
Record SpawnRequest := mkSpawn {
  sp_program : list Z;
  sp_args : list (list Z);
  sp_stdin : Z; sp_stdout : Z; sp_stderr : Z;
  sp_env : list (list Z * list Z);
  sp_pre_exec : list PreExec;
}.

(** The calls.  An answer [Err] is an errno; a call whose errno is not looked at
    answers whether it succeeded. *)
Class PtySys (W : Type) := {
  sys_posix_openpt : W -> result Z Z * W;
  sys_grantpt : Z -> W -> bool * W;
  sys_unlockpt : Z -> W -> bool * W;
  sys_ptsname : Z -> W -> option (list Z);
  sys_open : list Z -> W -> result Z Z * W;
  sys_dup : Z -> W -> result Z Z * W;
  sys_close : Z -> W -> W;
  sys_getfl : Z -> W -> option Z;
  sys_setfl : Z -> Z -> W -> bool * W;
  sys_tcgetattr : Z -> W -> option Termios;
  sys_tcsetattr : Z -> Termios -> W -> bool * W;
  sys_set_winsize : Z -> LibcWinsize -> W -> bool * W;
  sys_get_winsize : Z -> W -> option LibcWinsize;
  sys_spawn : SpawnRequest -> W -> result Z Z * W;
  sys_try_wait : Z -> W -> result Z (option Z) * W;
  sys_kill : Z -> Z -> W -> W;
  sys_poll : list PollFd -> Z -> W -> result Z (Z * list Z) * W;
  sys_write : Z -> list Z -> W -> result Z Z * W;
  sys_read : Z -> Z -> W -> result Z (list Z) * W;
  sys_now : W -> Z * W;
  sys_sleep : Z -> W -> W;
  sys_tcgetpgrp : Z -> W -> Z;
  sys_vnode_path : Z -> W -> Z * list Z;
}.

(** read(2) fills at most the buffer, write(2) takes at most what it is given; a
    termios has the control characters the platform names. *)
Class PtySysLaws (W : Type) `{!PtySys W, !Libc} : Prop := {
  sys_read_fits : forall fd n w bs w', 0 <= n -> sys_read fd n w = (Ok bs, w') -> len bs <= n /\ bytes bs;
  sys_write_fits : forall fd bs w n w', sys_write fd bs w = (Ok n, w') -> 0 <= n <= len bs;
  sys_termios_cc : forall fd w t, sys_tcgetattr fd w = Some t ->
    0 <= VMIN < len (c_cc t) /\ 0 <= VTIME < len (c_cc t);
}.

(** Time does not run backwards, and a nap is at least as long as asked. *)
Class PtyClock (W : Type) `{!PtySys W} := {
  clock : W -> Z;
  clock_now : forall w, fst (sys_now w) = clock w /\ clock w <= clock (snd (sys_now w));
  clock_nap : forall d w, clock w + d <= clock (sys_sleep d w);
  clock_wait : forall pid w, clock w <= clock (snd (sys_try_wait pid w));
  clock_kill : forall pid signal w, clock w <= clock (sys_kill pid signal w);
  clock_open : forall name w, clock w <= clock (snd (sys_open name w));
  clock_close : forall fd w, clock w <= clock (sys_close fd w);
}.

(** A descriptor that is written to does not stall for ever: polls that do not
    find it writable and writes that take nothing are finitely many. *)
Class PtyFair (W : Type) `{!PtySys W, !Libc} := {
  stalls : W -> nat;
  stalls_now : forall w, (stalls (snd (sys_now w)) <= stalls w)%nat;
  stalls_poll : forall fd w r w', sys_poll [mkPollFd fd POLLOUT 0] 20 w = (r, w') ->
    (stalls w' <= stalls w)%nat /\
    (match r with
     | Ok (rc, revents) => (0 <? rc) && negb (Z.land (default 0 (head revents)) (Z.lor POLLOUT (Z.lor POLLHUP POLLERR)) =? 0)
     | Err e => negb (e =? EINTR)
     end = false -> (stalls w' < stalls w)%nat);
  stalls_write : forall fd bs w r w', sys_write fd bs w = (r, w') ->
    (stalls w' <= stalls w)%nat /\
    (match r with Ok n => n = 0 /\ bs <> [] | Err _ => True end -> (stalls w' < stalls w)%nat);
}.

(** Times are in nanoseconds. *)
Definition MILLISECOND : Z := 1000000.
Definition SECOND : Z := 1000 * MILLISECOND.

Record Pty (W : Type) := mkPty { master : Z; child : Z; reaped : option Z; os : W }.
Arguments mkPty {W}. Arguments master {W}. Arguments child {W}. Arguments reaped {W}. Arguments os {W}.

#[export] Instance eta_pty {W} : Eta (Pty W) := fun p => mkPty (master p) (child p) (reaped p) (os p).

Section Calls.
Context {W : Type} `{!PtySys W, !Libc}.

Abbreviation SW := (ST KernelError W).

(** A call that answers a value or an errno; one that succeeds or not. *)
Definition call {A} (f : W -> result Z A * W) (error : Z -> KernelError) : SW A := fun w =>
  let '(r, w) := f w in Some (match r with Ok a => Ok a | Err e => Err (error e) end, w).
Definition ensure (f : W -> bool * W) (what : string) : SW () := fun w =>
  let '(ok, w) := f w in Some (if ok : bool then Ok () else Err (PtyError what), w).
Definition ask {A} (f : W -> option A) (error : KernelError) : SW A := fun w =>
  Some (match f w with Some a => Ok a | None => Err error end, w).

Definition close_fd (fd : Z) : SW () := modify (sys_close fd).

(** The owner of [fd] goes out of scope when an error leaves [m]. *)
Definition guarded {A} (fd : Z) (m : SW A) : SW A := fun w =>
  match m w with
  | Some (Err e, w) => Some (Err e, sys_close fd w)
  | r => r
  end.

(** *** Polling *)

(** The events asked for, a hang-up or an error. *)
Definition wait_fd (fd events timeout_ms : Z) : SW bool := fun w =>
  let '(r, w) := sys_poll [mkPollFd fd events 0] timeout_ms w in
  Some (match r with
        | Err e => if e =? EINTR then Ok false else Err (IoError e)
        | Ok (rc, revents) =>
            Ok ((0 <? rc) && negb (Z.land (default 0 (head revents)) (Z.lor events (Z.lor POLLHUP POLLERR)) =? 0))
        end, w).

(** *** Creating a PTY *)

Definition openpty : SW (Z * Z) :=
  m ← call sys_posix_openpt (fun _ => PtyError "posix_openpt");
  guarded m (
    _ ← ensure (sys_grantpt m) "grantpt";
    _ ← ensure (sys_unlockpt m) "unlockpt";
    name ← ask (sys_ptsname m) (PtyError "ptsname");
    s ← call (sys_open name) (fun _ => PtyError "open slave");
    mret (m, s)).

Definition set_nonblocking (fd : Z) : SW () :=
  flags ← ask (sys_getfl fd) (PtyError "fcntl get");
  ensure (sys_setfl fd (Z.lor flags O_NONBLOCK)) "fcntl set".

(** The termios of the raw discipline; [c_cc] is indexed, which panics past its end. *)
Definition raw_termios (t : Termios) : option Termios :=
  cc ← zset (c_cc t) VMIN 1;
  cc ← zset cc VTIME 0;
  Some (t <| c_lflag := Z.ldiff (c_lflag t) (Z.lor ICANON (Z.lor ECHO (Z.lor ECHOE (Z.lor ECHOK ISIG)))) |>
          <| c_iflag := Z.ldiff (c_iflag t) (Z.lor IXON (Z.lor ICRNL (Z.lor INLCR (Z.lor ISTRIP IGNCR)))) |>
          <| c_oflag := Z.ldiff (c_oflag t) OPOST |>
          <| c_cc := cc |>).

Definition set_raw (fd : Z) : SW () :=
  t ← ask (sys_tcgetattr fd) (PtyError "tcgetattr");
  t ← of_option (raw_termios t);
  ensure (sys_tcsetattr fd t) "tcsetattr".

Definition set_winsize (fd : Z) (size : Winsize) : SW () :=
  ensure (sys_set_winsize fd (mkLibcWinsize (rows size) (cols size) (px_w size) (px_h size))) "TIOCSWINSZ".

Definition get_winsize (fd : Z) : SW Winsize :=
  ws ← ask (sys_get_winsize fd) (PtyError "TIOCGWINSZ");
  mret (mkWinsize (ws_col ws) (ws_row ws) (ws_xpixel ws) (ws_ypixel ws)).

Definition try_clone (fd : Z) : SW Z := call (sys_dup fd) SpawnError.

Definition spawn_request (shell : list Z) (args : list (list Z)) (stdin stdout stderr : Z) : SpawnRequest :=
  mkSpawn shell args stdin stdout stderr [(lit "TERM", lit "xterm-256color"); (lit "RILL_INSIDE", lit "1")]
    [Setsid; ControllingTty 0].

(** On success the slave is dropped first, then the command with its copies. *)
Definition spawn_with (shell : list Z) (args : list (list Z)) (size : Winsize) (discipline : Discipline) : SW (Z * Z) :=
  '(m, s) ← openpty;
  guarded m (guarded s (
    _ ← set_nonblocking m;
    _ ← set_winsize m size;
    _ ← (if decide (discipline = Raw) then set_raw s else mret ());
    slave_in ← try_clone s;
    guarded slave_in (
      slave_out ← try_clone s;
      guarded slave_out (
        slave_err ← try_clone s;
        guarded slave_err (
          child ← call (sys_spawn (spawn_request shell args slave_in slave_out slave_err)) SpawnError;
          _ ← close_fd s;
          _ ← close_fd slave_in;
          _ ← close_fd slave_out;
          _ ← close_fd slave_err;
          mret (m, child)))))).

(** [Pty::spawn_with], with the state of the system in the PTY. *)
Definition pty_spawn (shell : list Z) (args : list (list Z)) (size : Winsize) (discipline : Discipline) (w : W)
  : option (result KernelError (Pty W) * W) :=
  '(r, w) ← spawn_with shell args size discipline w;
  Some (match r with Ok (m, c) => Ok (mkPty m c None w) | Err e => Err e end, w).

(** *** The working directory *)

(** The bytes up to the first zero; none when there is no zero or nothing before it. *)
Definition vnode_end (flat : list Z) : nat :=
  match list_find (fun b => b = 0) flat with Some (i, _) => i | None => O end.
Definition vnode_cwd (pid : Z) : SW (list Z) := fun w =>
  let '(n, flat) := sys_vnode_path pid w in
  Some (if n <=? 0 then Err CwdUnreadable
        else match vnode_end flat with O => Err CwdUnreadable | S _ as e => Ok (take e flat) end, w).
End Calls.

Section Pty.
Context {W : Type} `{!PtySys W, !Libc}.

Abbreviation SP := (ST KernelError (Pty W)).

Definition sys {A} (f : ST KernelError W A) : SP A := fun p =>
  '(r, w) ← f (os p); Some (r, p <| os := w |>).
Definition attempt {A} (f : W -> result Z A * W) : SP (result Z A) := fun p =>
  let '(r, w) := f (os p) in Some (Ok r, p <| os := w |>).
Definition now : SP Z := fun p => let '(t, w) := sys_now (os p) in Some (Ok t, p <| os := w |>).

Definition child_id (p : Pty W) : Z := child p.

(** A status is asked for once; then it is remembered. *)
Definition try_wait : SP (option Z) := fun p =>
  match reaped p with
  | Some st => Some (Ok (Some st), p)
  | None =>
      '(r, p) ← sys (call (sys_try_wait (child p)) IoError) p;
      Some (match r with
            | Ok (Some st) => (Ok (Some st), p <| reaped := Some st |>)
            | Ok None => (Ok None, p)
            | Err e => (Err e, p)
            end)
  end.

Definition WRITE_TIMEOUT : Z := 2 * SECOND.
Definition usize_max : Z := u64_max.

(** The loop of [write_all], started at time [start]. *)
Fixpoint write_loop (fuel : nat) (bs : list Z) (written start : Z) : SP () :=
  match fuel with
  | O => panic
  | S fuel =>
      if written <? len bs then
        fd ← gets master;
        ready ← sys (wait_fd fd POLLOUT 20);
        if (ready : bool) then
          rest ← of_option (slice bs written (len bs));
          r ← attempt (sys_write fd rest);
          match r with
          | Ok n => written ← of_option (chk_add usize_max written n); write_loop fuel bs written start
          | Err e =>
              if (e =? EAGAIN) || (e =? EINTR) then write_loop fuel bs written start
              else fail (IoError e)
          end
        else
          t ← now;
          if WRITE_TIMEOUT <? sat_sub t start then fail (PtyError "write timeout")
          else write_loop fuel bs written start
      else mret ()
  end.

Definition write_all (fuel : nat) (bs : list Z) : SP () :=
  start ← now; write_loop fuel bs 0 start.

(** Nothing to read is an empty read. *)
Definition read (n : Z) : SP (list Z) :=
  fd ← gets master;
  ready ← sys (wait_fd fd POLLIN 0);
  if (ready : bool) then
    r ← attempt (sys_read fd n);
    match r with
    | Ok bs => mret bs
    | Err e => if (e =? EAGAIN) || (e =? EINTR) then mret [] else fail (IoError e)
    end
  else mret [].

Definition i32_max : Z := 2147483647.
(** [timeout] in milliseconds. *)
Definition wait_readable (timeout : Z) : SP bool :=
  fd ← gets master; sys (wait_fd fd POLLIN (Z.min timeout i32_max)).

Definition master_pollfd (events : Z) (p : Pty W) : PollFd := mkPollFd (master p) events 0.

(** Whether the master is readable, and the callers' descriptors with what poll
    found; an interrupted poll leaves them as they were. *)
Definition poll_with_extras (extras : list PollFd) (timeout_ms : Z) : SP (bool * list PollFd) := fun p =>
  let '(r, w) := sys_poll (master_pollfd POLLIN p :: extras) timeout_ms (os p) in
  let p := p <| os := w |> in
  Some (match r with
        | Err e => if e =? EINTR then Ok (false, extras) else Err (IoError e)
        | Ok (_, revents) =>
            Ok (negb (Z.land (default 0 (head revents)) (Z.lor POLLIN (Z.lor POLLHUP POLLERR)) =? 0),
                zip_with (fun e r => e <| pfd_revents := r |>) extras (tail revents))
        end, p).

Definition pty_resize (size : Winsize) : SP () := fd ← gets master; sys (set_winsize fd size).
Definition winsize : SP Winsize := fd ← gets master; sys (get_winsize fd).

Definition fg_cwd : SP (list Z) :=
  fd ← gets master;
  fg ← gets (fun p => sys_tcgetpgrp fd (os p));
  if fg <=? 0 then fail CwdUnreadable else sys (vnode_cwd fg).

(** *** Teardown *)

Definition as_i32 (x : Z) : Z := if i32_max <? x then x - 4294967296 else x.
(** Negation panics on the least number. *)
Definition chk_neg (x : Z) : option Z := if x =? -2147483648 then None else Some (- x).

Definition TERMINATE_WAIT : Z := 2 * SECOND.
Definition TERMINATE_NAP : Z := 10 * MILLISECOND.

Fixpoint terminate_loop (fuel : nat) (deadline : Z) : SP () :=
  match fuel with
  | O => panic
  | S fuel =>
      c ← gets child;
      st ← sys (call (sys_try_wait c) IoError);
      match st with
      | Some st => modify (fun p => p <| reaped := Some st |>)
      | None =>
          t ← now;
          if deadline <=? t then fail (PtyError "terminate wait timed out")
          else
            _ ← modify (fun p => p <| os := sys_sleep TERMINATE_NAP (os p) |>);
            terminate_loop fuel deadline
      end
  end.

(** The binding [_closed] holds the old master until the function returns. *)
Definition dropping {A} (fd : Z) (m : SP A) : SP A := fun p =>
  '(r, p) ← m p; Some (r, p <| os := sys_close fd (os p) |>).

Definition terminate (fuel : nat) : SP () :=
  done ← gets (fun p => bool_decide (reaped p <> None));
  if (done : bool) then mret ()
  else
    pid ← gets (fun p => as_i32 (child p));
    group ← of_option (chk_neg pid);
    _ ← modify (fun p => p <| os := sys_kill group SIGKILL (os p) |>);
    _ ← modify (fun p => p <| os := sys_kill pid SIGKILL (os p) |>);
    null ← sys (call (sys_open (lit "/dev/null")) IoError);
    closed ← gets master;
    _ ← modify (fun p => p <| master := null |>);
    dropping closed (
      t ← now;
      terminate_loop fuel (t + TERMINATE_WAIT)).
End Pty.
