(* ===== verification/PtyFacts.v ===== *)
(** The kernel's PTY: descriptors are neither leaked nor closed twice, a write
    hands over exactly its bytes, the teardown is bounded, and the whole is an
    instance of the interface the session is proved against. *)
From S2P Require Import Prelude Effect Attach Ring Session Pty.
From stdpp Require Import gmultiset.

Local Open Scope Z_scope.

(** ** A system that remembers *)

Inductive SysEvent : Type :=
| EvOpen (fd : Z)
| EvClose (fd : Z)
| EvWrite (fd : Z) (bs : list Z)
| EvKill (pid signal : Z)
| EvWait (pid : Z)
| EvSpawn (request : SpawnRequest) (child : Z).

Definition opened (r : result Z Z) : list SysEvent := match r with Ok fd => [EvOpen fd] | Err _ => [] end.

(** Every call as before; those that matter here are written down. *)
#[export] Instance traced_sys {W} `{!PtySys W} : PtySys (W * list SysEvent) := {|
  sys_posix_openpt '(w, tr) := let '(r, w) := sys_posix_openpt w in (r, (w, tr ++ opened r));
  sys_grantpt fd '(w, tr) := let '(r, w) := sys_grantpt fd w in (r, (w, tr));
  sys_unlockpt fd '(w, tr) := let '(r, w) := sys_unlockpt fd w in (r, (w, tr));
  sys_ptsname fd '(w, tr) := sys_ptsname fd w;
  sys_open name '(w, tr) := let '(r, w) := sys_open name w in (r, (w, tr ++ opened r));
  sys_dup fd '(w, tr) := let '(r, w) := sys_dup fd w in (r, (w, tr ++ opened r));
  sys_close fd '(w, tr) := (sys_close fd w, tr ++ [EvClose fd]);
  sys_getfl fd '(w, tr) := sys_getfl fd w;
  sys_setfl fd flags '(w, tr) := let '(r, w) := sys_setfl fd flags w in (r, (w, tr));
  sys_tcgetattr fd '(w, tr) := sys_tcgetattr fd w;
  sys_tcsetattr fd t '(w, tr) := let '(r, w) := sys_tcsetattr fd t w in (r, (w, tr));
  sys_set_winsize fd ws '(w, tr) := let '(r, w) := sys_set_winsize fd ws w in (r, (w, tr));
  sys_get_winsize fd '(w, tr) := sys_get_winsize fd w;
  sys_spawn req '(w, tr) :=
    let '(r, w) := sys_spawn req w in (r, (w, tr ++ match r with Ok c => [EvSpawn req c] | Err _ => [] end));
  sys_try_wait pid '(w, tr) := let '(r, w) := sys_try_wait pid w in (r, (w, tr ++ [EvWait pid]));
  sys_kill pid signal '(w, tr) := (sys_kill pid signal w, tr ++ [EvKill pid signal]);
  sys_poll fds ms '(w, tr) := let '(r, w) := sys_poll fds ms w in (r, (w, tr));
  sys_write fd bs '(w, tr) :=
    let '(r, w) := sys_write fd bs w in
    (r, (w, tr ++ match r with Ok n => [EvWrite fd (take (Z.to_nat n) bs)] | Err _ => [] end));
  sys_read fd n '(w, tr) := let '(r, w) := sys_read fd n w in (r, (w, tr));
  sys_now '(w, tr) := let '(r, w) := sys_now w in (r, (w, tr));
  sys_sleep d '(w, tr) := (sys_sleep d w, tr);
  sys_tcgetpgrp fd '(w, tr) := sys_tcgetpgrp fd w;
  sys_vnode_path pid '(w, tr) := sys_vnode_path pid w;
|}.

Section Traced.
Context {W : Type} `{!PtySys W, !Libc}.

#[export] Instance traced_sys_laws `{!PtySysLaws W} : PtySysLaws (W * list SysEvent).
Proof.
  split.
  - intros fd n [w tr] bs [w' tr'] Hn. cbn. destruct (sys_read fd n w) as [r w1] eqn:E. intros [= -> -> _]. by eapply sys_read_fits.
  - intros fd bs [w tr] n [w' tr']. cbn. destruct (sys_write fd bs w) as [r w1] eqn:E. intros [= -> -> _]. by eapply sys_write_fits.
  - intros fd [w tr] t. cbn. apply sys_termios_cc.
Qed.

#[export] Instance traced_clock `{!PtyClock W} : PtyClock (W * list SysEvent).
Proof.
  refine {| clock := fun '(w, _) => clock w |}.
  - intros [w tr]. cbn. pose proof (clock_now w). by destruct (sys_now w).
  - intros d [w tr]. apply clock_nap.
  - intros pid [w tr]. cbn. pose proof (clock_wait pid w). by destruct (sys_try_wait pid w).
  - intros pid signal [w tr]. apply clock_kill.
  - intros name [w tr]. cbn. pose proof (clock_open name w). by destruct (sys_open name w).
  - intros fd [w tr]. apply clock_close.
Defined.

#[export] Instance traced_fair `{!PtyFair W} : PtyFair (W * list SysEvent).
Proof.
  refine {| stalls := fun '(w, _) => stalls w |}.
  - intros [w tr]. cbn. pose proof (stalls_now w). by destruct (sys_now w).
  - intros fd [w tr] r [w' tr']. cbn. destruct (sys_poll _ _ w) as [r1 w1] eqn:E. intros [= <- <- _]. by apply (stalls_poll _ _ _ _ E).
  - intros fd bs [w tr] r [w' tr']. cbn. destruct (sys_write fd bs w) as [r1 w1] eqn:E. intros [= <- <- _]. by apply (stalls_write _ _ _ _ _ E).
Defined.
End Traced.

(** ** Descriptors *)

(** The descriptors open after a trace; closing one that is not is a fault. *)
Definition held_step (h : option (gmultiset Z)) (e : SysEvent) : option (gmultiset Z) :=
  h ← h;
  match e with
  | EvOpen fd => Some ({[+ fd +]} ⊎ h)
  | EvClose fd => if bool_decide (fd ∈ h) then Some (h ∖ {[+ fd +]}) else None
  | _ => Some h
  end.
Definition held (tr : list SysEvent) : option (gmultiset Z) := fold_left held_step tr (Some ∅).

Lemma held_app tr evs : held (tr ++ evs) = fold_left held_step evs (held tr).
Proof. apply fold_left_app. Qed.

Lemma held_snoc tr e : held (tr ++ [e]) = held_step (held tr) e.
Proof. by rewrite held_app. Qed.

Lemma held_open tr fd P X : held tr = Some (P ⊎ X) -> held (tr ++ [EvOpen fd]) = Some ({[+ fd +]} ⊎ P ⊎ X).
Proof. intros Hh. rewrite held_snoc, Hh. unfold held_step. cbn [mbind option_bind]. f_equal. multiset_solver. Qed.

Lemma held_close tr fd P X : held tr = Some ({[+ fd +]} ⊎ P ⊎ X) -> held (tr ++ [EvClose fd]) = Some (P ⊎ X).
Proof.
  intros Hh. rewrite held_snoc, Hh. unfold held_step. cbn [mbind option_bind].
  rewrite bool_decide_eq_true_2 by multiset_solver. f_equal. multiset_solver.
Qed.

Section Descriptors.
Context {W : Type} `{!PtySys W, !Libc, !PtySysLaws W}.
Abbreviation TW := (W * list SysEvent)%type.
Abbreviation TM := (ST KernelError TW).

(** From the descriptors [P] and any others [m] does not panic, and holds [Q]
    of its result, or [E] after an error, and the same others. *)
Definition flows {A} (m : TM A) (P : gmultiset Z) (Q : A -> gmultiset Z) (E : gmultiset Z) : Prop :=
  forall X w tr, held tr = Some (P ⊎ X) ->
    safe (m (w, tr)) (fun '(r, (_, tr')) => held tr' = Some (match r with Ok a => Q a | Err _ => E end ⊎ X)).

Lemma flows_bind {A B} (m : TM A) (f : A -> TM B) P Q R E :
  flows m P Q E -> (forall a, flows (f a) (Q a) R E) -> flows (m ≫= f) P R E.
Proof.
  intros Hm Hf X w tr Hh. apply se_bind_rule. eapply safe_mono; [by apply Hm|]. intros [[a|e] [w' tr']] Hq; [by apply Hf|done].
Qed.

Lemma flows_ret {A} (a : A) P Q E : Q a = P -> flows (mret a) P Q E.
Proof. intros <- X w tr Hh. by apply safe_ret. Qed.

(** The owner of [fd] closes it on the way out with an error. *)
Lemma flows_guarded {A} (fd : Z) (m : TM A) P Q E :
  flows m P Q ({[+ fd +]} ⊎ E) -> flows (guarded fd m) P Q E.
Proof.
  intros Hm X w tr Hh. destruct (Hm X w tr Hh) as ([r [w' tr']] & Hr & Hq). unfold guarded. rewrite Hr.
  destruct r as [a|e]; apply safe_ret; [done|]. by apply held_close.
Qed.

Lemma flows_close fd P Q E : P = {[+ fd +]} ⊎ Q -> flows (close_fd fd) P (fun _ => Q) E.
Proof. intros -> X w tr Hh. apply safe_ret. by apply held_close. Qed.

(** Calls that answer a new descriptor. *)
Lemma flows_open (f : TW -> result Z Z * TW) error P E :
  (forall w tr, exists r w', f (w, tr) = (r, (w', tr ++ opened r))) -> P = E ->
  flows (call f error) P (fun fd => {[+ fd +]} ⊎ P) E.
Proof.
  intros Hf <- X w tr Hh. unfold call. destruct (Hf w tr) as ([fd|e] & w' & ->); apply safe_ret; [by apply held_open|].
  cbn. by rewrite app_nil_r.
Qed.

(** Calls that open and close nothing. *)
Definition quiet {A} (m : TM A) : Prop := forall w tr, exists r w', m (w, tr) = Some (r, (w', tr)).

Lemma flows_quiet {A} (m : TM A) P E : quiet m -> P = E -> flows m P (fun _ => P) E.
Proof. intros Hm <- X w tr Hh. destruct (Hm w tr) as (r & w' & ->). apply safe_ret. by destruct r. Qed.

Lemma quiet_bind {A B} (m : TM A) (f : A -> TM B) : quiet m -> (forall a, quiet (f a)) -> quiet (m ≫= f).
Proof.
  intros Hm Hf w tr. unfold mbind, se_bind. destruct (Hm w tr) as ([a|e] & w' & ->); [apply Hf|by eexists _, _].
Qed.

Lemma quiet_ret {A} (a : A) : quiet (mret a).
Proof. intros w tr. by eexists _, _. Qed.

Lemma quiet_ask {A} (f : TW -> option A) error : quiet (ask f error).
Proof. intros w tr. by eexists _, _. Qed.

Lemma quiet_ensure (f : TW -> bool * TW) what : (forall w tr, exists b w', f (w, tr) = (b, (w', tr))) -> quiet (ensure f what).
Proof. intros Hf w tr. unfold ensure. destruct (Hf w tr) as (b & w' & ->). by eexists _, _. Qed.

(** A traced call is the call and its events. *)
Ltac untraced := intros; cbn; match goal with |- context [let '(_, _) := ?x in _] => destruct x end; by eexists _, _.

Lemma quiet_nonblocking fd : quiet (set_nonblocking fd).
Proof. apply quiet_bind; [apply quiet_ask|]. intros flags. apply quiet_ensure. untraced. Qed.

Lemma quiet_winsize fd size : quiet (set_winsize fd size).
Proof. apply quiet_ensure. untraced. Qed.

Lemma raw_termios_some fd w t : sys_tcgetattr fd w = Some t -> is_Some (raw_termios t).
Proof.
  intros [Hmin Htime]%sys_termios_cc. unfold raw_termios. destruct (zset_ok (c_cc t) VMIN 1 Hmin) as (cc & -> & Hl & _).
  cbn [mbind option_bind]. destruct (zset_ok cc VTIME 0) as (cc' & -> & _); [lia|]. by eexists.
Qed.

Lemma quiet_raw fd : quiet (set_raw fd).
Proof.
  intros w tr. unfold set_raw, mbind, se_bind, ask. cbn [sys_tcgetattr traced_sys]. pose proof (raw_termios_some fd w) as Hraw.
  destruct (sys_tcgetattr fd w) as [t|]; [|by eexists _, _]. destruct (Hraw t eq_refl) as [t' ->]. unfold of_option, mret, se_ret.
  apply quiet_ensure. untraced.
Qed.

Lemma flows_spawn req error P E : P = E -> flows (call (sys_spawn req) error) P (fun _ => P) E.
Proof.
  intros <- X w tr Hh. unfold call. cbn. destruct (sys_spawn req w) as [[c|e] w']; apply safe_ret; [|by rewrite app_nil_r].
  by rewrite held_snoc, Hh.
Qed.

Ltac opens := apply flows_open; [untraced|].

Lemma openpty_flows : flows openpty ∅ (fun '(m, s) => {[+ m +]} ⊎ {[+ s +]}) ∅.
Proof.
  unfold openpty. eapply flows_bind; [opens; done|]. intros m. apply flows_guarded.
  eapply flows_bind; [apply flows_quiet; [apply quiet_ensure; untraced|done]|]. intros [].
  eapply flows_bind; [apply flows_quiet; [apply quiet_ensure; untraced|done]|]. intros [].
  eapply flows_bind; [apply flows_quiet; [apply quiet_ask|done]|]. intros name.
  eapply flows_bind; [opens; done|]. intros s. apply flows_ret. multiset_solver.
Qed.

(** The descriptors after a spawn: the master, or nothing. *)
Lemma spawn_flows shell args size discipline :
  flows (spawn_with shell args size discipline) ∅ (fun '(m, _) => {[+ m +]}) ∅.
Proof.
  unfold spawn_with. eapply flows_bind; [apply openpty_flows|]. intros [m s]. apply flows_guarded, flows_guarded.
  eapply flows_bind; [apply flows_quiet; [apply quiet_nonblocking|multiset_solver]|]. intros [].
  eapply flows_bind; [apply flows_quiet; [apply quiet_winsize|multiset_solver]|]. intros [].
  eapply flows_bind; [apply flows_quiet; [case_decide; [apply quiet_raw|apply quiet_ret]|multiset_solver]|]. intros [].
  eapply flows_bind; [opens; multiset_solver|]. intros slave_in. apply flows_guarded.
  eapply flows_bind; [opens; multiset_solver|]. intros slave_out. apply flows_guarded.
  eapply flows_bind; [opens; multiset_solver|]. intros slave_err. apply flows_guarded.
  eapply flows_bind; [apply flows_spawn; multiset_solver|]. intros c.
  eapply flows_bind; [apply (flows_close _ _ ({[+ m +]} ⊎ {[+ slave_in +]} ⊎ {[+ slave_out +]} ⊎ {[+ slave_err +]})); multiset_solver|]. intros [].
  eapply flows_bind; [apply (flows_close _ _ ({[+ m +]} ⊎ {[+ slave_out +]} ⊎ {[+ slave_err +]})); multiset_solver|]. intros [].
  eapply flows_bind; [apply (flows_close _ _ ({[+ m +]} ⊎ {[+ slave_err +]})); multiset_solver|]. intros [].
  eapply flows_bind; [apply (flows_close _ _ {[+ m +]}); multiset_solver|]. intros []. by apply flows_ret.
Qed.

(** C11. Creating a PTY leaks no descriptor and closes none twice.  On every path, an
    error at any step included, it does not panic; when it fails exactly the
    descriptors open before are open after it, and when it succeeds the master's
    besides: the slave and the three copies the child got are closed. *)
Theorem spawn_keeps_descriptors (shell : list Z) (args : list (list Z)) (size : Winsize) (discipline : Discipline)
    (w : W) (tr : list SysEvent) (X : gmultiset Z) (Hheld : held tr = Some X) :
  exists r w' tr', spawn_with shell args size discipline (w, tr) = Some (r, (w', tr')) /\
    held tr' = Some (match r with Ok (m, _) => {[+ m +]} ⊎ X | Err _ => X end).
Proof.
  destruct (spawn_flows shell args size discipline X w tr) as ([r [w' tr']] & E & Hh).
  { rewrite Hheld. f_equal. multiset_solver. }
  exists r, w', tr'. split; [exact E|]. rewrite Hh. f_equal. destruct r as [[m c]|e]; multiset_solver.
Qed.
End Descriptors.

(** ** Writing *)

Definition data (evs : list SysEvent) : list Z := concat (map (fun e => match e with EvWrite _ bs => bs | _ => [] end) evs).
Definition writes_to (fd : Z) (evs : list SysEvent) : Prop := Forall (fun e => exists bs, e = EvWrite fd bs) evs.

Section Writing.
Context {W : Type} `{!PtySys W, !Libc, !PtySysLaws W, !PtyFair W}.
Abbreviation TP := (Pty (W * list SysEvent)).
Implicit Types (p : TP) (bs : list Z).

(** [p'] is [p] after events on the system. *)
Record after (p p' : TP) (evs : list SysEvent) : Prop := {
  af_master : master p' = master p;
  af_child : child p' = child p;
  af_reaped : reaped p' = reaped p;
  af_trace : snd (os p') = snd (os p) ++ evs;
}.

Lemma after_refl p : after p p [].
Proof. constructor; try done. by rewrite app_nil_r. Qed.

Lemma after_trans p p1 p2 e1 e2 : after p p1 e1 -> after p1 p2 e2 -> after p p2 (e1 ++ e2).
Proof. intros [] []. constructor; try congruence. by rewrite app_assoc, <- af_trace0. Qed.

(** What a write that began at [written] answers when it has taken [k] bytes. *)
Definition wrote_upto bs (written : Z) p (rp : result KernelError () * TP) : Prop :=
  exists evs k, after p (snd rp) evs /\ writes_to (master p) evs /\ written <= k <= len bs /\
    data evs = take (Z.to_nat (k - written)) (drop (Z.to_nat written) bs) /\
    match fst rp with Ok _ => k = len bs | Err _ => k < len bs end.

Lemma now_eq p : exists t p1, now p = Some (Ok t, p1) /\ after p p1 [] /\ (stalls (os p1) <= stalls (os p))%nat.
Proof.
  unfold now. pose proof (stalls_now (os p)) as Hs. destruct (os p) as [w tr] eqn:Ep. cbn in *. destruct (sys_now w) as [t w1].
  eexists _, _. split; [reflexivity|]. split; [|exact Hs]. constructor; try done. cbn. by rewrite Ep, app_nil_r.
Qed.

(** Waiting for room. *)
Lemma wait_out_eq p ms : ms = 20 ->
  exists r p1, sys (wait_fd (master p) POLLOUT ms) p = Some (r, p1) /\ after p p1 [] /\
    (stalls (os p1) <= stalls (os p))%nat /\ (r = Ok false -> (stalls (os p1) < stalls (os p))%nat).
Proof.
  intros ->. unfold sys, wait_fd. pose proof (fun r w' => stalls_poll (master p) (os p) r w') as Hs.
  destruct (sys_poll _ 20 (os p)) as [r w] eqn:E. specialize (Hs r w eq_refl) as [Hle Hlt]. cbn [mbind option_bind].
  eexists _, _. split; [reflexivity|]. split.
  { constructor; try done. cbn. rewrite app_nil_r. destruct (os p) as [w0 tr]. cbn in E.
    destruct (sys_poll _ 20 w0) as [r1 w1]. by injection E as _ <-. }
  split; [exact Hle|]. intros Hr. apply Hlt. destruct r as [[rc revents]|e]; [by injection Hr|].
  by destruct (e =? EINTR).
Qed.

Lemma rest_of bs written : 0 <= written <= len bs ->
  slice bs written (len bs) = Some (drop (Z.to_nat written) bs) /\ len (drop (Z.to_nat written) bs) = len bs - written.
Proof.
  intros Hw. destruct (slice_some bs written (len bs)) as [x Hx]; [lia..|]. pose proof Hx as (Hd & Hl & _)%slice_drop.
  assert (drop (Z.to_nat (len bs)) bs = []) as Hnil by (apply drop_ge; unfold len; lia).
  rewrite Hnil, app_nil_r in Hd. rewrite Hx, Hd. by split.
Qed.

(** One write. *)
Lemma attempt_write_eq p rest : rest <> [] ->
  exists r p1 evs, attempt (sys_write (master p) rest) p = Some (Ok r, p1) /\ after p p1 evs /\ writes_to (master p) evs /\
    (stalls (os p1) <= stalls (os p))%nat /\
    match r with
    | Ok n => 0 <= n <= len rest /\ data evs = take (Z.to_nat n) rest /\ (n = 0 -> (stalls (os p1) < stalls (os p))%nat)
    | Err _ => evs = [] /\ (stalls (os p1) < stalls (os p))%nat
    end.
Proof.
  intros Hne. unfold attempt. pose proof (fun r w' => stalls_write (master p) rest (os p) r w') as Hs.
  pose proof (fun n w' => sys_write_fits (master p) rest (os p) n w') as Hf.
  destruct (sys_write (master p) rest (os p)) as [r w] eqn:E. specialize (Hs r w eq_refl) as [Hle Hlt].
  destruct (os p) as [w0 tr] eqn:Ep. cbn in E. destruct (sys_write (master p) rest w0) as [r1 w1]. injection E as -> <-.
  exists r, (p <| os := (w1, tr ++ match r with Ok n => [EvWrite (master p) (take (Z.to_nat n) rest)] | Err _ => [] end) |>).
  eexists. split; [reflexivity|]. split; [constructor; try done; cbn; by rewrite Ep|].
  destruct r as [n|e]; split_and!; try done.
  - apply Forall_singleton. by eexists.
  - by eapply Hf.
  - by eapply Hf.
  - cbn. by rewrite app_nil_r.
  - intros Hz. by apply Hlt.
  - by apply Forall_nil.
  - by apply Hlt.
Qed.

Lemma pty_write_loop_eq bs start fuel p written :
  len bs <= usize_max -> 0 <= written <= len bs -> (Z.to_nat (len bs - written) + stalls (os p) < fuel)%nat ->
  safe (write_loop fuel bs written start p) (wrote_upto bs written p).
Proof.
  intros Hmax. revert p written. induction fuel as [|fuel IH]; intros p written Hw Hf; [lia|]. cbn [write_loop].
  destruct (Z.ltb_spec written (len bs)) as [Hlt|Hge].
  2: { apply safe_ret. exists [], written. split_and!; try lia; [apply after_refl|by apply Forall_nil|by rewrite Z.sub_diag|cbn; lia]. }
  (* after some events that wrote [n] bytes the loop goes on *)
  assert (Hon : forall p1 evs n, after p p1 evs -> writes_to (master p) evs -> 0 <= n <= len bs - written ->
    data evs = take (Z.to_nat n) (drop (Z.to_nat written) bs) -> (stalls (os p1) <= stalls (os p))%nat ->
    (n = 0 -> (stalls (os p1) < stalls (os p))%nat) ->
    safe (write_loop fuel bs (written + n) start p1) (wrote_upto bs written p)).
  { intros p1 evs n Ha Hwr Hn Hd Hs Hz. eapply safe_mono; [apply IH; [lia|destruct (decide (n = 0)) as [-> |]; [specialize (Hz eq_refl); lia|lia]]|].
    intros [r p2] (evs2 & k & Ha2 & Hwr2 & Hk & Hd2 & Hr). exists (evs ++ evs2), k. split_and!; try lia.
    - by eapply after_trans.
    - apply Forall_app. split; [done|]. by rewrite (af_master _ _ _ Ha) in Hwr2.
    - unfold data in *. rewrite map_app, concat_app, Hd, Hd2.
      replace (Z.to_nat (k - written)) with (Z.to_nat n + Z.to_nat (k - (written + n)))%nat by lia. rewrite <- take_take_drop, drop_drop.
      do 3 f_equal. lia.
    - done. }
  apply se_bind_rule, safe_ret. cbn [fst snd].
  apply se_bind_rule. destruct (wait_out_eq p 20 eq_refl) as (r & p1 & E & Ha & Hs & Hr). rewrite E. apply safe_ret. cbn [fst snd].
  destruct r as [[]|e].
  - destruct (rest_of bs written Hw) as [Hrest Hl]. rewrite Hrest. apply se_bind_rule, safe_ret. cbn [fst snd].
    rewrite <- (af_master _ _ _ Ha). apply se_bind_rule.
    destruct (attempt_write_eq p1 (drop (Z.to_nat written) bs)) as (r & p2 & evs & E2 & Ha2 & Hwr & Hs2 & Hn).
    { intros Hnil. rewrite Hnil in Hl. change (len (@nil Z)) with 0 in Hl. lia. }
    rewrite E2. apply safe_ret. cbn [fst snd].
    pose proof (after_trans _ _ _ _ _ Ha Ha2) as Hap. rewrite (af_master _ _ _ Ha) in Hwr. cbn [app] in Hap.
    destruct r as [n|e].
    + destruct Hn as (Hn & Hd & Hz). rewrite Hl in Hn. apply se_bind_rule.
      assert (chk_add usize_max written n = Some (written + n)) as -> by (unfold chk_add; case_if; [done|lia]).
      apply safe_ret. cbn [fst snd]. apply (Hon p2 evs n); try done; [lia|intros H0; specialize (Hz H0); lia].
    + destruct Hn as [-> Hz]. case_if.
      * replace written with (written + 0) at 1 by lia. apply (Hon p2 [] 0); try done; lia.
      * apply safe_ret. exists [], written. split_and!; try done; try lia; by rewrite Z.sub_diag.
  - specialize (Hr eq_refl). apply se_bind_rule. destruct (now_eq p1) as (t & p2 & E2 & Ha2 & Hs2). rewrite E2.
    apply safe_ret. cbn [fst snd]. pose proof (after_trans _ _ _ _ _ Ha Ha2) as Hap. cbn [app] in Hap. case_if.
    + apply safe_ret. exists [], written. split_and!; try done; try lia; [by apply Forall_nil|by rewrite Z.sub_diag].
    + replace written with (written + 0) at 1 by lia. apply (Hon p2 [] 0); try done; try lia; by apply Forall_nil.
  - exists [], written. split_and!; try done; try lia; [by apply Forall_nil|by rewrite Z.sub_diag].
Qed.

Lemma write_all_eq (bs : list Z) (p : TP) : len bs <= usize_max ->
  exists r p' evs k, write_all (S (length bs + stalls (os p))) bs p = Some (r, p') /\
    after p p' evs /\ writes_to (master p) evs /\ 0 <= k <= len bs /\ data evs = take (Z.to_nat k) bs /\
    match r with Ok _ => k = len bs | Err _ => k < len bs end.
Proof.
  intros Hlen. unfold write_all, mbind, se_bind. destruct (now_eq p) as (t & p1 & -> & Ha & Hs).
  destruct (pty_write_loop_eq bs t (S (length bs + stalls (os p))) p1 0) as ([r p2] & E & evs & k & Hap & Hwr & Hk & Hd & Hr);
    [done|pose proof (len_nonneg bs); lia|unfold len; lia|].
  exists r, p2, evs, k. rewrite (af_master _ _ _ Ha) in Hwr. rewrite Z.sub_0_r in Hd. split_and!; try done; try lia.
  exact (after_trans _ _ _ _ _ Ha Hap).
Qed.

(** C13. A write takes exactly what it is given.  On a descriptor that does not stall
    for ever [write_all] returns, without a panic; it has handed the master, and
    nothing else, the bytes in order and each once: all of them when it succeeds,
    a proper prefix when it fails. *)
Theorem write_all_exact (bs : list Z) (p : TP) (Hlen : len bs <= usize_max) :
  exists r p' evs k, write_all (S (length bs + stalls (os p))) bs p = Some (r, p') /\
    after p p' evs /\ writes_to (master p) evs /\ 0 <= k <= len bs /\ data evs = take (Z.to_nat k) bs /\
    match r with Ok _ => k = len bs | Err _ => k < len bs end.
Proof. by apply write_all_eq. Qed.
End Writing.

(** ** Teardown *)

Definition TERMINATE_ROUNDS : nat := 201.

Section Teardown.
Context {W : Type} `{!PtySys W, !Libc, !PtyClock W}.
Abbreviation TP := (Pty (W * list SysEvent)).
Implicit Types p : TP.

(** How waiting for the child may end. *)
Definition waited (deadline : Z) p (rp : result KernelError () * TP) : Prop :=
  master (snd rp) = master p /\ child (snd rp) = child p /\
  match fst rp with
  | Ok _ => exists st, reaped (snd rp) = Some st
  | Err (PtyError _) => reaped (snd rp) = reaped p /\ deadline <= clock (os (snd rp))
  | Err _ => reaped (snd rp) = reaped p
  end.

Lemma wait_eq p : exists r p1, sys (call (sys_try_wait (child p)) IoError) p = Some (r, p1) /\
  master p1 = master p /\ child p1 = child p /\ reaped p1 = reaped p /\ snd (os p1) = snd (os p) ++ [EvWait (child p)] /\
  clock (os p) <= clock (os p1) /\ forall s, r <> Err (PtyError s).
Proof.
  unfold sys, call. pose proof (clock_wait (child p) (os p)) as Hc. destruct (os p) as [w tr] eqn:Ep. cbn in *.
  destruct (sys_try_wait (child p) w) as [r w1]. eexists _, _. split; [reflexivity|]. split_and!; try done. by destruct r.
Qed.

Lemma time_eq p : exists p1, now p = Some (Ok (clock (os p)), p1) /\
  master p1 = master p /\ child p1 = child p /\ reaped p1 = reaped p /\ snd (os p1) = snd (os p) /\ clock (os p) <= clock (os p1).
Proof.
  unfold now. pose proof (clock_now (os p)) as [Ht Hc]. destruct (os p) as [w tr] eqn:Ep. cbn in *. destruct (sys_now w) as [t w1].
  cbn in *. subst. eexists. split; [reflexivity|]. by split_and!.
Qed.

Definition ended (n : nat) (deadline : Z) p (rp : result KernelError () * TP) : Prop :=
  waited deadline p rp /\ exists k, (k <= n)%nat /\ snd (os (snd rp)) = snd (os p) ++ replicate k (EvWait (child p)).

(** One round, for any way [rest] of going on after the nap. *)
Lemma terminate_round fuel deadline p (n : nat) :
  (forall p1, master p1 = master p -> child p1 = child p -> reaped p1 = reaped p ->
     snd (os p1) = snd (os p) ++ [EvWait (child p)] -> clock (os p) < deadline -> clock (os p) + TERMINATE_NAP <= clock (os p1) ->
     safe (terminate_loop fuel deadline p1) (ended n deadline p1)) ->
  safe (terminate_loop (S fuel) deadline p) (ended (S n) deadline p).
Proof.
  intros Hgo. cbn [terminate_loop]. apply se_bind_rule, safe_ret. cbn [fst snd]. apply se_bind_rule.
  destruct (wait_eq p) as (r & p1 & E & Hm & Hc & Hre & Htr & Hcl & Hne). rewrite E. apply safe_ret. cbn [fst snd].
  assert (Hone : snd (os p1) = snd (os p) ++ replicate 1 (EvWait (child p))) by done.
  destruct r as [[st|]|e].
  - apply safe_ret. split; [split_and!; try done; by eexists|]. exists 1%nat. split; [lia|done].
  - apply se_bind_rule. destruct (time_eq p1) as (p2 & E2 & Hm2 & Hc2 & Hre2 & Htr2 & Hcl2). rewrite E2. apply safe_ret. cbn [fst snd].
    destruct (Z.leb_spec deadline (clock (os p1))) as [Hle|Hgt].
    + apply safe_ret. split; [split_and!; cbn [fst snd]; try congruence; split; [congruence|lia]|]. exists 1%nat. split; [lia|cbn [snd]; congruence].
    + apply se_bind_rule, safe_ret. cbn [fst snd]. set (p3 := p2 <| os := _ |>). pose proof (clock_nap TERMINATE_NAP (os p2)) as Hn.
      assert (Htr3 : snd (os p3) = snd (os p2)) by (cbn; by destruct (os p2)).
      eapply safe_mono; [apply (Hgo p3); [exact (eq_trans Hm2 Hm)|exact (eq_trans Hc2 Hc)|exact (eq_trans Hre2 Hre)|rewrite Htr3; congruence|lia|]|].
      { change (os p3) with (sys_sleep TERMINATE_NAP (os p2)). lia. }
      intros [r p'] [(A1 & A2 & A3) (k & Hk & Htr')]. cbn [fst snd] in A1, A2, A3, Htr'. change (master p3) with (master p2) in A1. change (child p3) with (child p2) in A2, Htr'.
      change (reaped p3) with (reaped p2) in A3. split; [split_and!; cbn [fst snd]; try congruence|].
      * rewrite Hre2, Hre in A3. exact A3.
      * exists (S k). split; [lia|]. cbn [snd]. rewrite Htr', Htr3, Htr2, Htr, Hc2, Hc. by rewrite <- app_assoc.
  - split; [split_and!; [done..|destruct e; try done; by destruct (Hne what)]|]. exists 1%nat. split; [lia|done].
Qed.

Lemma terminate_loop_eq fuel deadline p : deadline <= clock (os p) + Z.of_nat fuel * TERMINATE_NAP ->
  safe (terminate_loop (S fuel) deadline p) (ended (S fuel) deadline p).
Proof.
  revert p. induction fuel as [|fuel IH]; intros p Hd; apply terminate_round; intros p1 _ _ _ _ Hlt Hn; [lia|]. apply IH. lia.
Qed.

(** Waiting with the old master held until the end. *)
Lemma wait_and_drop old p : exists r p' n,
  dropping old (t ← now; terminate_loop TERMINATE_ROUNDS (t + TERMINATE_WAIT)) p = Some (r, p') /\
  master p' = master p /\ child p' = child p /\ (n <= TERMINATE_ROUNDS)%nat /\
  snd (os p') = snd (os p) ++ replicate n (EvWait (child p)) ++ [EvClose old] /\
  match r with
  | Ok _ => is_Some (reaped p')
  | Err (PtyError _) => reaped p' = reaped p /\ clock (os p) + TERMINATE_WAIT <= clock (os p')
  | Err _ => reaped p' = reaped p
  end.
Proof.
  unfold dropping, mbind at 2, se_bind. destruct (time_eq p) as (p1 & -> & Hm & Hc & Hre & Htr & Hcl).
  destruct (terminate_loop_eq 200 (clock (os p) + TERMINATE_WAIT) p1) as ([r p2] & E & (Hm2 & Hc2 & Hr) & n & Hn & Htr2).
  { unfold TERMINATE_WAIT, TERMINATE_NAP, SECOND. lia. }
  unfold TERMINATE_ROUNDS. rewrite E. cbn [mbind option_bind]. cbn [fst snd] in *.
  pose proof (clock_close old (os p2)) as Hcl2.
  exists r, (p2 <| os := sys_close old (os p2) |>), n. split; [reflexivity|]. split; [exact (eq_trans Hm2 Hm)|]. split; [exact (eq_trans Hc2 Hc)|].
  split; [exact Hn|]. split.
  - assert (snd (sys_close old (os p2)) = snd (os p2) ++ [EvClose old]) as Hx by (by destruct (os p2)).
    change (snd (sys_close old (os p2)) = snd (os p) ++ replicate n (EvWait (child p)) ++ [EvClose old]).
    by rewrite Hx, Htr2, Htr, Hc, <- app_assoc.
  - change (reaped (p2 <| os := sys_close old (os p2) |>)) with (reaped p2).
    change (os (p2 <| os := sys_close old (os p2) |>)) with (sys_close old (os p2)). rewrite Hre in Hr.
    destruct r as [u|[]]; try done. destruct Hr. split; [done|lia].
Qed.

(** What the teardown leaves in the trace before it waits. *)
Definition kills (pid : Z) : list SysEvent := [EvKill (- pid) SIGKILL; EvKill pid SIGKILL].

Lemma terminate_eq (p : TP) : 0 <= child p <= u32_max -> child p <> 2147483648 ->
  exists r p', terminate TERMINATE_ROUNDS p = Some (r, p') /\ child p' = child p /\
    match reaped p with
    | Some _ => r = Ok () /\ p' = p
    | None =>
        (exists e, r = Err (IoError e) /\ master p' = master p /\ snd (os p') = snd (os p) ++ kills (as_i32 (child p))) \/
        (exists null n, (n <= TERMINATE_ROUNDS)%nat /\ master p' = null /\
           snd (os p') = snd (os p) ++ kills (as_i32 (child p)) ++ [EvOpen null] ++ replicate n (EvWait (child p)) ++ [EvClose (master p)] /\
           match r with
           | Ok _ => is_Some (reaped p')
           | Err (PtyError _) => reaped p' = None /\ clock (os p) + TERMINATE_WAIT <= clock (os p')
           | Err _ => reaped p' = None
           end)
    end.
Proof.
  intros Hpid Hmin.
  unfold terminate. destruct (reaped p) as [st|] eqn:Er.
  { exists (Ok ()), p. split_and!; try done. unfold mbind, se_bind, gets. by rewrite Er. }
  assert (Hg : chk_neg (as_i32 (child p)) = Some (- as_i32 (child p))).
  { unfold chk_neg. rewrite (proj2 (Z.eqb_neq _ _)); [done|]. unfold as_i32, i32_max. case_if; lia. }
  unfold mbind, se_bind, gets, modify. rewrite Er. rewrite bool_decide_eq_false_2 by (intros Hx; by apply Hx). rewrite Hg. cbn [of_option mret se_ret].
  set (w1 := sys_kill (as_i32 (child p)) SIGKILL (sys_kill (- as_i32 (child p)) SIGKILL (os p))).
  change (sys_kill (as_i32 (child p)) SIGKILL (os (p <| os := sys_kill (- as_i32 (child p)) SIGKILL (os p) |>))) with w1.
  set (p1 := p <| os := _ |> <| os := w1 |>).
  assert (Ht1 : snd w1 = snd (os p) ++ kills (as_i32 (child p))) by (unfold w1; destruct (os p); cbn; by rewrite <- app_assoc).
  assert (Hc1 : clock (os p) <= clock w1).
  { unfold w1. etransitivity; [apply (clock_kill (- as_i32 (child p)) SIGKILL)|apply clock_kill]. }
  unfold sys at 1, call at 1. change (os p1) with w1. pose proof (clock_open (lit "/dev/null") w1) as Hc2.
  destruct (sys_open (lit "/dev/null") w1) as [[null|e] w2] eqn:Eo; cbn [snd mbind option_bind] in *.
  - destruct (wait_and_drop (master p) (p1 <| os := w2 |> <| master := null |>)) as (r & p' & n & E & Hm & Hc & Hn & Htr & Hr).
    exists r, p'. split; [exact E|]. split; [exact Hc|]. right. exists null, n. split; [exact Hn|]. split; [exact Hm|]. split.
    + assert (snd w2 = snd w1 ++ [EvOpen null]) as Ht2.
      { destruct w1 as [u tr]. cbn in Eo. destruct (sys_open _ u) as [r1 u1]. by injection Eo as -> <-. }
      change (snd (os (p1 <| os := w2 |> <| master := null |>))) with (snd w2) in Htr.
      change (child (p1 <| os := w2 |> <| master := null |>)) with (child p) in Htr.
      by rewrite Htr, Ht2, Ht1, <- !app_assoc.
    + change (reaped (p1 <| os := w2 |> <| master := null |>)) with (reaped p) in Hr.
      change (os (p1 <| os := w2 |> <| master := null |>)) with w2 in Hr. rewrite Er in Hr.
      destruct r as [u'|[]]; try done. destruct Hr. split; [done|lia].
  - exists (Err (IoError e)), (p1 <| os := w2 |>). split; [done|]. split; [done|]. left. exists e. split_and!; try done.
    change (snd w2 = snd (os p) ++ kills (as_i32 (child p))). rewrite <- Ht1. destruct w1 as [u tr]. cbn in Eo.
    destruct (sys_open _ u) as [r1 u1]. injection Eo as -> <-. cbn. by rewrite app_nil_r.
Qed.

(** C12. The teardown ends within 201 rounds of waiting.  A child already reaped is
    left alone.  Otherwise its process group is killed, then the child; when
    /dev/null opens it takes the master's place, the child is waited for, and
    only then the old master is closed, once.  Success means the status is
    known; a time-out, that two seconds have passed. *)
Theorem terminate_bounded (p : TP) (Hpid : 0 <= child p <= u32_max) (Hmin : child p <> 2147483648) :
  exists r p', terminate TERMINATE_ROUNDS p = Some (r, p') /\ child p' = child p /\
    match reaped p with
    | Some _ => r = Ok () /\ p' = p
    | None =>
        (exists e, r = Err (IoError e) /\ master p' = master p /\ snd (os p') = snd (os p) ++ kills (as_i32 (child p))) \/
        (exists null n, (n <= TERMINATE_ROUNDS)%nat /\ master p' = null /\
           snd (os p') = snd (os p) ++ kills (as_i32 (child p)) ++ [EvOpen null] ++ replicate n (EvWait (child p)) ++ [EvClose (master p)] /\
           match r with
           | Ok _ => is_Some (reaped p')
           | Err (PtyError _) => reaped p' = None /\ clock (os p) + TERMINATE_WAIT <= clock (os p')
           | Err _ => reaped p' = None
           end)
    end.
Proof. by apply terminate_eq. Qed.
End Teardown.

(** ** The session's interface *)

(** A partial operation known to answer. *)
Definition total {S A} (m : ST KernelError S A) (s : S) : result KernelError A * S :=
  match m s with Some rs => rs | None => (Err Dead, s) end.

Definition string_of (bs : list Z) : string :=
  String.string_of_list_ascii (map (fun b => Ascii.ascii_of_N (Z.to_N b)) bs).

Section Implements.
Context {W : Type} `{!PtySys W, !Libc, !PtySysLaws W, !PtyClock W, !PtyFair W}.

#[export] Instance os_pty : PtyOps (Pty W) := {|
  pty_write_all bs p := total (write_all (Datatypes.S (length bs + stalls (os p))) bs) p;
  pty_read n := total (read n);
  pty_set_winsize size := total (pty_resize size);
  pty_try_wait := total try_wait;
  pty_terminate := total (terminate TERMINATE_ROUNDS);
  pty_fg_cwd p := match fst (total fg_cwd p) with Ok bs => Ok (string_of bs) | Err e => Err e end;
  pty_child_id := child_id;
|}.

Lemma read_eq (n : Z) (p : Pty W) : exists r p', read n p = Some (r, p') /\
  (0 <= n -> match r with Ok bs => len bs <= n /\ bytes bs | Err _ => True end).
Proof.
  assert (Hnil : 0 <= n -> len (@nil Z) <= n /\ bytes []) by (intros Hn; split; [done|by constructor]).
  unfold read, mbind, se_bind, gets, sys, wait_fd. destruct (sys_poll _ 0 (os p)) as [[[rc revents]|e] w]; cbn [mbind option_bind].
  - destruct ((0 <? rc) && _); cbn iota; [|by eexists _, _]. unfold attempt. cbn [os].
    destruct (sys_read (master p) n w) as [[bs|e] w'] eqn:E; cbn -[sys_read] in *; rewrite E.
    + eexists _, _. split; [reflexivity|]. intros Hn. by eapply sys_read_fits.
    + destruct ((e =? EAGAIN) || (e =? EINTR)); by eexists _, _.
  - destruct (e =? EINTR); by eexists _, _.
Qed.

#[export] Instance os_pty_laws : PtyLaws (Pty W).
Proof.
  split. intros n p bs p' Hn. destruct (read_eq n p) as (r & p1 & E & Hr). cbn. unfold total. rewrite E.
  intros [= -> _]. by apply Hr.
Qed.
End Implements.

(** The session's PTY is this one: each operation of the interface is the code's,
    which answers; and reads stay within their buffer. *)
Lemma os_pty_faithful {W} `{!PtySys W, !Libc, !PtySysLaws W, !PtyClock W, !PtyFair W}
    (p : Pty (W * list SysEvent)) (bs : list Z) (n : Z) (size : Winsize) :
  len bs <= usize_max -> 0 <= child p <= u32_max -> child p <> 2147483648 ->
  write_all (Datatypes.S (length bs + stalls (os p))) bs p = Some (pty_write_all bs p) /\
  read n p = Some (pty_read n p) /\ pty_resize size p = Some (pty_set_winsize size p) /\
  try_wait p = Some (pty_try_wait p) /\ terminate TERMINATE_ROUNDS p = Some (pty_terminate p).
Proof.
  intros Hl Hc Hm. cbn [pty_write_all pty_read pty_set_winsize pty_try_wait pty_terminate os_pty]. unfold total. split_and!.
  - destruct (write_all_eq bs p Hl) as (r & p' & _ & _ & E & _). by rewrite E.
  - destruct (read_eq n p) as (r & p' & E & _). by rewrite E.
  - unfold pty_resize, mbind, se_bind, gets, sys, set_winsize, ensure. by destruct (sys_set_winsize _ _ (os p)).
  - unfold try_wait, sys, call. destruct (reaped p); [done|]. by destruct (sys_try_wait (child p) (os p)) as [[[]|] ].
  - destruct (terminate_eq p Hc Hm) as (r & p' & E & _). by rewrite E.
Qed.

(** ** Examples *)

(** Darwin's constants. *)
#[export] Instance darwin : Libc := {|
  POLLIN := 1; POLLOUT := 4; POLLERR := 8; POLLHUP := 16; EINTR := 4; EAGAIN := 35; SIGKILL := 9; O_NONBLOCK := 4;
  ICANON := 0x100; ECHO := 8; ECHOE := 2; ECHOK := 4; ISIG := 0x80;
  IXON := 0x200; ICRNL := 0x100; INLCR := 0x40; ISTRIP := 0x20; IGNCR := 0x80; OPOST := 1; VMIN := 16; VTIME := 17;
|}.

(** A system that is its clock: descriptors are always ready, three bytes are
    taken at a time, the child is gone after 30 ms; a copy of a descriptor does
    not open when [dups] says so. *)
Definition demo_sys (dups : Z -> bool) : PtySys Z := {|
  sys_posix_openpt w := (Ok 3, w); sys_grantpt _ w := (true, w); sys_unlockpt _ w := (true, w);
  sys_ptsname _ _ := Some (lit "/dev/ttys001"); sys_open name w := (Ok (if bool_decide (name = lit "/dev/null") then 9 else 4), w);
  sys_dup fd w := if dups w then (Ok (5 + w), w + 1) else (Err 24, w); sys_close _ w := w;
  sys_getfl _ _ := Some 2; sys_setfl _ _ w := (true, w);
  sys_tcgetattr _ _ := Some (mkTermios 0x2b02 3 0x4b00 0x5cb (replicate 20 0)); sys_tcsetattr _ _ w := (true, w);
  sys_set_winsize _ _ w := (true, w); sys_get_winsize _ _ := Some (mkLibcWinsize 24 80 0 0);
  sys_spawn _ w := (Ok 501, w); sys_try_wait _ w := (Ok (if 30 * MILLISECOND <=? w then Some 9 else None), w); sys_kill _ _ w := w;
  sys_poll fds _ w := (Ok (1, map pfd_events fds), w); sys_write _ bs w := (Ok (Z.min 3 (len bs)), w);
  sys_read _ n w := (Ok (if 0 <? n then [65] else []), w); sys_now w := (w, w); sys_sleep d w := w + d;
  sys_tcgetpgrp _ _ := 501; sys_vnode_path _ _ := (1024, lit "/tmp" ++ [0]);
|}.
#[local] Instance ready_sys : PtySys Z := demo_sys (fun _ => true).

#[local] Instance ready_laws : PtySysLaws Z.
Proof.
  split.
  - intros fd n w bs w' Hn. cbn. intros [= <- _]. destruct (Z.ltb_spec 0 n); (split; [unfold len; cbn; lia|by repeat constructor]).
  - intros fd bs w n w'. cbn. intros [= <- _]. pose proof (len_nonneg bs). lia.
  - intros fd w t. cbn. intros [= <-]. by split.
Qed.

#[local] Instance ready_clock : PtyClock Z.
Proof. refine {| clock := fun w => w |}; intros; cbn; lia. Defined.

#[local] Instance ready_fair : PtyFair Z.
Proof.
  refine {| stalls := fun _ => O |}.
  - done.
  - intros fd w r w'. cbn. intros [= <- <-]. split; [done|]. by vm_compute.
  - intros fd bs w r w'. cbn. intros [= <- <-]. split; [done|]. intros [Hz Hne]. destruct bs; [done|].
    pose proof (len_nonneg bs). rewrite len_cons in Hz. lia.
Defined.

Definition demo_pty : Pty (Z * list SysEvent) := mkPty 3 501 None (0, [EvOpen 3]).

(** Spawning where copies open, and where the third one does not. *)
Definition two_copies : PtySys Z := demo_sys (fun w => w <? 2).
Definition spawn_demo (sys : PtySys Z) : option (result KernelError (Z * Z) * (Z * list SysEvent)) :=
  @spawn_with _ (@traced_sys Z sys) _ (lit "/bin/zsh") [] (mkWinsize 80 24 640 384) Raw (0, []).

Lemma spawn_keeps_descriptors_witness :
  (exists r w tr, spawn_demo ready_sys = Some (r, (w, tr)) /\
     held tr = Some (match r with Ok (m, _) => {[+ m +]} ⊎ ∅ | Err _ => ∅ end)) /\
  (match spawn_demo ready_sys, spawn_demo two_copies with
   | Some (Ok (m, c), (_, tr)), Some (Err e, (_, tr')) => (m, c, e, tr') = (3, 501, SpawnError 24,
       [EvOpen 3; EvOpen 4; EvOpen 5; EvOpen 6; EvClose 6; EvClose 5; EvClose 4; EvClose 3])
   | _, _ => False
   end).
Proof.
  split; [|by vm_compute].
  destruct (spawn_keeps_descriptors (lit "/bin/zsh") [] (mkWinsize 80 24 640 384) Raw 0 [] ∅ eq_refl) as (r & w & tr & E & H).
  by exists r, w, tr.
Defined.

Lemma write_all_exact_witness :
  len (lit "printf hello") <= usize_max /\
  exists p' evs, write_all 13 (lit "printf hello") demo_pty = Some (Ok (), p') /\ writes_to 3 evs /\
    os p' = (0, [EvOpen 3] ++ evs) /\ data evs = lit "printf hello".
Proof.
  split; [by vm_compute|].
  destruct (write_all_exact (lit "printf hello") demo_pty) as (r & p' & evs & k & E & Ha & Hw & Hk & Hd & Hr); [by vm_compute|].
  assert (Er : write_all 13 (lit "printf hello") demo_pty = Some (Ok (), mkPty 3 501 None (0, [EvOpen 3;
    EvWrite 3 (lit "pri"); EvWrite 3 (lit "ntf"); EvWrite 3 (lit " he"); EvWrite 3 (lit "llo")]))) by (by vm_compute).
  change (S (length (lit "printf hello") + stalls (os demo_pty))) with 13%nat in E. rewrite Er in E. injection E as <- <-.
  eexists _, evs. split; [exact Er|]. split; [exact Hw|]. subst k. split.
  - exact (f_equal (pair 0) (af_trace _ _ _ Ha)).
  - rewrite Hd. by vm_compute.
Defined.

Lemma terminate_bounded_witness :
  (0 <= child demo_pty <= u32_max /\ child demo_pty <> 2147483648) /\
  exists r p', terminate TERMINATE_ROUNDS demo_pty = Some (r, p') /\ child p' = 501 /\
    (r, snd (os p')) = (Ok (), [EvOpen 3; EvKill (-501) 9; EvKill 501 9; EvOpen 9; EvWait 501; EvWait 501; EvWait 501; EvWait 501; EvClose 3]).
Proof.
  split; [by vm_compute|].
  destruct (terminate_bounded demo_pty) as (r & p' & E & Hc & H); [by vm_compute|by vm_compute|].
  exists r, p'. split; [exact E|]. split; [exact Hc|]. revert E. vm_compute. by intros [= <- <-].
Defined.

(** A master that polls writable while each write answers EAGAIN keeps
    [write_all] turning for ever: the two seconds are only looked at when the
    poll says the master is not writable. *)
Definition refusing : PtySys Z := {|
  sys_posix_openpt := sys_posix_openpt; sys_grantpt := sys_grantpt; sys_unlockpt := sys_unlockpt; sys_ptsname := sys_ptsname;
  sys_open := sys_open; sys_dup := sys_dup; sys_close := sys_close; sys_getfl := sys_getfl; sys_setfl := sys_setfl;
  sys_tcgetattr := sys_tcgetattr; sys_tcsetattr := sys_tcsetattr; sys_set_winsize := sys_set_winsize;
  sys_get_winsize := sys_get_winsize; sys_spawn := sys_spawn; sys_try_wait := sys_try_wait; sys_kill := sys_kill;
  sys_poll := sys_poll; sys_write _ _ w := (Err EAGAIN, w + SECOND); sys_read := sys_read; sys_now := sys_now;
  sys_sleep := sys_sleep; sys_tcgetpgrp := sys_tcgetpgrp; sys_vnode_path := sys_vnode_path;
|}.

Lemma write_spins fuel w : @write_all _ refusing _ fuel (lit "x") (mkPty 3 501 None w) = None.
Proof.
  unfold write_all, mbind, se_bind, now. cbn -[write_loop]. change (Z : Type) with Z.
  assert (forall start v, @write_loop _ refusing _ fuel (lit "x") 0 start (mkPty 3 501 None v) = None) as Hl; [|apply Hl].
  intros start. induction fuel as [|fuel IH]; intros v; [done|]. exact (IH (v + SECOND)).
Qed.
