(* ===== verification/Kernel.v ===== *)
(** The kernel's session graph, crates/rill-kernel/src/kernel.rs: the leaves
    (one [Session] each), the container tree over them, and the log of graph
    events.  A leaf is spawned outside the model: the operations that spawn one
    take the session, or the error, that spawning gave. *)
From stdpp Require Import sorting.
From S2P Require Import Prelude Effect Attach Ring Session.

Local Open Scope Z_scope.

(** [SessionId] and [NodeId] are the u64 they wrap. *)
Abbreviation SessionId := Z (only parsing).
Abbreviation NodeId := Z (only parsing).

Inductive GraphEventKind : Type := GSpawn | GAttach | GTerminate | GExit.

#[export] Instance graph_event_kind_eq_dec : EqDecision GraphEventKind.
Proof. solve_decision. Defined.

Record GraphEvent := mkGraphEvent { ge_id : Z; ge_session : SessionId; ge_kind : GraphEventKind }.

#[export] Instance graph_event_eq_dec : EqDecision GraphEvent.
Proof. solve_decision. Defined.

Inductive NodeKind : Type := Workspace | Group | Tab | Split.

#[export] Instance node_kind_eq_dec : EqDecision NodeKind.
Proof. solve_decision. Defined.

Inductive NodeChild : Type :=
| ChNode (n : NodeId)
| ChLeaf (s : SessionId).

#[export] Instance node_child_eq_dec : EqDecision NodeChild.
Proof. solve_decision. Defined.

Record ContainerNode := mkNode { n_kind : NodeKind; n_parent : option NodeId; n_children : list NodeChild }.

#[export] Instance container_node_eta : Eta ContainerNode :=
  fun n => mkNode (n_kind n) (n_parent n) (n_children n).
#[export] Instance container_node_eq_dec : EqDecision ContainerNode.
Proof. solve_decision. Defined.

Record ContainerSnapshot := mkSnapshot {
  cs_id : NodeId; cs_kind : NodeKind; cs_parent : option NodeId; cs_children : list NodeChild
}.

Record LeafLayout := mkLayout {
  ll_id : SessionId; ll_cols : Z; ll_rows : Z; ll_child_pid : Z; ll_cwd : option string
}.

Record Kernel (P : Type) := mkKernel {
  next : Z;
  leaves : gmap Z (Session P);
  kevents : list GraphEvent;
  next_event : Z;
  nodes : gmap Z ContainerNode;
  next_node : Z;
}.
Arguments mkKernel {P}. Arguments next {P}. Arguments leaves {P}. Arguments kevents {P}.
Arguments next_event {P}. Arguments nodes {P}. Arguments next_node {P}.

#[export] Instance kernel_eta {P} : Eta (Kernel P) := fun k =>
  mkKernel (next k) (leaves k) (kevents k) (next_event k) (nodes k) (next_node k).

Definition kernel_new {P} : Kernel P := mkKernel 1 ∅ [] 1 ∅ 1.

(** [x.checked_add(1).unwrap_or(1)] on a u64. *)
Definition next_id (n : Z) : Z := if n =? u64_max then 1 else n + 1.

(** The loop of [allocate_id] and [allocate_node_id]: the first free id from
    [n] on and the counter after it.  [None] is running out of fuel; the number
    of ids taken plus one is enough ([alloc_loop_enough]). *)
Fixpoint alloc_loop {V} (fuel : nat) (m : gmap Z V) (n : Z) : option (Z * Z) :=
  match fuel with
  | O => None
  | S fuel => if bool_decide (m !! n = None) then Some (n, next_id n) else alloc_loop fuel m (next_id n)
  end.
Definition alloc_id {V} (m : gmap Z V) (n : Z) : option (Z * Z) := alloc_loop (S (base.size m)) m n.

Definition is_node (n : NodeId) (c : NodeChild) : bool := bool_decide (c = ChNode n).
Definition drop_child (n : NodeId) (cn : ContainerNode) : ContainerNode :=
  cn <| n_children := List.filter (fun c => negb (is_node n c)) (n_children cn) |>.
Definition push_child (c : NodeChild) (cn : ContainerNode) : ContainerNode :=
  cn <| n_children := n_children cn ++ [c] |>.

Definition child_nodes (cs : list NodeChild) : list NodeId :=
  omap (fun c => match c with ChNode n => Some n | ChLeaf _ => None end) cs.
Definition child_leaves (cs : list NodeChild) : list SessionId :=
  omap (fun c => match c with ChLeaf s => Some s | ChNode _ => None end) cs.

(** The loop of [collect_subtree]: [frontier] is popped from its end, and each
    child is pushed on both lists.  [None] is running out of fuel: the loop of
    the code does not end on a cycle. *)
Fixpoint collect_loop (fuel : nat) (m : gmap Z ContainerNode) (out frontier : list NodeId)
  : option (list NodeId) :=
  match fuel with
  | O => None
  | S fuel =>
      match last frontier with
      | None => Some out
      | Some id =>
          let frontier := take (pred (length frontier)) frontier in
          match m !! id with
          | None => collect_loop fuel m out frontier
          | Some n =>
              let cs := child_nodes (n_children n) in
              collect_loop fuel m (out ++ cs) (frontier ++ cs)
          end
      end
  end.

Section KernelOps.
Context {P : Type} `{!PtyOps P}.
Abbreviation K := (Kernel P).

Definition create_node (kind : NodeKind) (parent : option NodeId) : SE K NodeId := fun k =>
  if match parent with Some p => bool_decide (nodes k !! p = None) | None => false end
  then Some (Err UnknownNode, k)
  else
    '(id, nn) ← alloc_id (nodes k) (next_node k);
    let k := k <| next_node := nn |> in
    let k := k <| nodes := <[id := mkNode kind parent []]> (nodes k) |> in
    match parent with
    | None => Some (Ok id, k)
    | Some p =>
        match nodes k !! p with
        | Some pn => Some (Ok id, k <| nodes := <[p := push_child (ChNode id) pn]> (nodes k) |>)
        | None => Some (Err UnknownNode, k <| nodes := delete id (nodes k) |>)
        end
    end.

Definition attach_leaf (node : NodeId) (leaf : SessionId) : SE K () := fun k =>
  if bool_decide (leaves k !! leaf = None) then Some (Err UnknownSession, k)
  else
    match nodes k !! node with
    | None => Some (Err UnknownNode, k)
    | Some n => Some (Ok (), k <| nodes := <[node := push_child (ChLeaf leaf) n]> (nodes k) |>)
    end.

(** [if let Some(x) = self.nodes.get_mut(&id) { f(x) }] *)
Definition update_node (id : option NodeId) (f : ContainerNode -> ContainerNode)
    (m : gmap Z ContainerNode) : gmap Z ContainerNode :=
  match id with
  | None => m
  | Some id => match m !! id with Some n => <[id := f n]> m | None => m end
  end.

Definition reparent_node (node : NodeId) (new_parent : option NodeId) : SE K () := fun k =>
  if bool_decide (nodes k !! node = None) then Some (Err UnknownNode, k)
  else if match new_parent with
          | Some p => bool_decide (nodes k !! p = None) || (p =? node)
          | None => false
          end
  then Some (Err UnknownNode, k)
  else
    let old_parent := nodes k !! node ≫= n_parent in
    let m := update_node old_parent (drop_child node) (nodes k) in
    let m := update_node new_parent (push_child (ChNode node)) m in
    match m !! node with
    | Some n => Some (Ok (), k <| nodes := <[node := n <| n_parent := new_parent |>]> m |>)
    | None => Some (Err UnknownNode, k <| nodes := m |>)
    end.

Definition collect_subtree (fuel : nat) (root : NodeId) (k : K) : option (result KernelError (list NodeId)) :=
  if bool_decide (nodes k !! root = None) then Some (Err UnknownNode)
  else out ← collect_loop fuel (nodes k) [root] [root]; Some (Ok out).

Definition leaves_in (subtree : list NodeId) (k : K) : list SessionId :=
  subtree ≫= fun id => match nodes k !! id with Some n => child_leaves (n_children n) | None => [] end.

Definition remove_subtree (subtree : list NodeId) (root : NodeId) (k : K) : K :=
  let root_parent := nodes k !! root ≫= n_parent in
  let m := update_node root_parent (drop_child root) (nodes k) in
  k <| nodes := fold_left (fun m id => delete id m) subtree m |>.

(** [self.next_event] saturates. *)
Definition record_event (session : SessionId) (kind : GraphEventKind) (k : K) : K :=
  let id := next_event k in
  let k := k <| next_event := sat_add u64_max (next_event k) 1 |> in
  k <| kevents := kevents k ++ [mkGraphEvent id session kind] |>.

(** Run a session's operation in place; the session keeps what the operation
    left, an error included. *)
Definition on_leaf {A} (id : SessionId) (m : SE (Session P) A) : SE K A := fun k =>
  match leaves k !! id with
  | None => Some (Err UnknownSession, k)
  | Some s =>
      '(r, s) ← m s;
      Some (r, k <| leaves := <[id := s]> (leaves k) |>)
  end.

Definition kernel_terminate (id : SessionId) : SE K () := fun k =>
  match leaves k !! id with
  | None => Some (Err UnknownSession, k)
  | Some s =>
      if terminated s then Some (Ok (), k)
      else
        (_ ← on_leaf id Session.terminate;
         modify (record_event id GTerminate)) k
  end.

Fixpoint terminate_all (ids : list SessionId) : SE K () :=
  match ids with
  | [] => mret ()
  | id :: ids => _ ← kernel_terminate id; terminate_all ids
  end.

Definition close_node (fuel : nat) (node : NodeId) : SE K () := fun k =>
  r ← collect_subtree fuel node k;
  match r with
  | Err e => Some (Err e, k)
  | Ok subtree =>
      (_ ← terminate_all (leaves_in subtree k);
       modify (remove_subtree subtree node)) k
  end.

Definition sorted_keys {V} (m : gmap Z V) : list Z := merge_sort Z.le (map fst (map_to_list m)).

Definition container_snapshot (k : K) : list ContainerSnapshot :=
  omap (fun id => n ← nodes k !! id; Some (mkSnapshot id (n_kind n) (n_parent n) (n_children n)))
    (sorted_keys (nodes k)).

Definition spawn_leaf_with (spawned : result KernelError (Session P)) : SE K SessionId := fun k =>
  match spawned with
  | Err e => Some (Err e, k)
  | Ok session =>
      '(id, n) ← alloc_id (leaves k) (next k);
      let k := k <| next := n |> in
      let k := k <| leaves := <[id := session]> (leaves k) |> in
      Some (Ok id, record_event id GSpawn k)
  end.

Definition reap (now : Z) (id : SessionId) : SE K () :=
  exited ← on_leaf id (_ ← modify (expire_input_lease_if_due now); poll_child);
  if exited : bool then modify (record_event id GExit) else mret ().

Definition is_writer_attach (f : Frame) : bool :=
  match f with Attach _ _ _ false => true | _ => false end.

Definition leaf_attached (id : SessionId) (k : K) : bool :=
  match leaves k !! id with Some s => attached s | None => false end.

Definition kernel_on_frame (now grace : Z) (id : SessionId) (f : Frame) : SE K () := fun k =>
  let was := leaf_attached id k in
  (_ ← on_leaf id (on_frame now grace f);
   now_attached ← gets (leaf_attached id);
   if is_writer_attach f && negb was && (now_attached : bool)
   then modify (record_event id GAttach) else mret ()) k.

Definition kernel_cwd (id : SessionId) : SE K string := on_leaf id Session.cwd.

Definition leaf_layout (id : SessionId) (s : Session P) : option (LeafLayout * Session P) :=
  '(r, s') ← Session.cwd s;
  Some (mkLayout id (cols (size s)) (rows (size s)) (child_pid s)
          (match r with Ok path => Some path | Err _ => None end), s').

Fixpoint layout_loop (ids : list SessionId) (acc : list LeafLayout) (k : K) : option (list LeafLayout * K) :=
  match ids with
  | [] => Some (acc, k)
  | id :: ids =>
      match leaves k !! id with
      | None => layout_loop ids acc k
      | Some s =>
          '(row, s) ← leaf_layout id s;
          layout_loop ids (acc ++ [row]) (k <| leaves := <[id := s]> (leaves k) |>)
      end
  end.

Definition layout_snapshot (k : K) : option (list LeafLayout * K) :=
  layout_loop (sorted_keys (leaves k)) [] k.
End KernelOps.
