(* ===== verification/Forest.v ===== *)
(** The container tree of the kernel: forests as parent and child functions,
    the changes an operation makes to one, and the search of a subtree. *)
From stdpp Require Import relations.
From S2P Require Import Prelude Kernel.

Local Open Scope Z_scope.

(** ** Adding an edge to a relation *)

Section AddEdge.
Context {A : Type} (R R' : relation A) (a b : A).
Context (HR : forall x y, R' x y <-> R x y \/ x = a /\ y = b).

Lemma tc_add_edge x y : tc R' x y -> tc R x y \/ rtc R x a /\ rtc R b y.
Proof.
  induction 1 as [x y H|x y z H _ IH]; apply HR in H as [H|[-> ->]].
  - left. by constructor.
  - right. split; constructor.
  - destruct IH as [IH|[IH1 IH2]]; [left; by eapply tc_l|right; split; [by eapply rtc_l|done]].
  - right. destruct IH as [IH|[IH1 IH2]]; (split; [constructor|]); [by apply tc_rtc|done].
Qed.

Lemma acyclic_add_edge :
  (forall x, ~ tc R x x) -> ~ rtc R b a -> forall x, ~ tc R' x x.
Proof.
  intros Hac Hn x Hx. apply tc_add_edge in Hx as [Hx|[H1 H2]]; [by eapply Hac|].
  apply Hn. by etransitivity.
Qed.
End AddEdge.

(** ** Forests *)

Definition edge (par : Z -> option Z) (x y : Z) : Prop := par y = Some x.

(** Every node is a child exactly of its parent, once, and no node is its own
    ancestor. *)
Record forest (par : Z -> option Z) (kids : Z -> list Z) : Prop := {
  f_edge : forall x y, y ∈ kids x <-> par y = Some x;
  f_once : forall x, NoDup (kids x);
  f_acyclic : forall x, ~ tc (edge par) x x;
}.

Lemma forest_ext par par' kids kids' :
  (forall x, par' x = par x) -> (forall x, kids' x = kids x) -> forest par kids -> forest par' kids'.
Proof.
  intros Hp Hk [H1 H2 H3]. split.
  - intros x y. by rewrite Hp, Hk.
  - intros x. by rewrite Hk.
  - intros x Hx. apply (H3 x). eapply tc_congruence with (f := fun x => x); [|exact Hx].
    unfold edge. intros a b. by rewrite Hp.
Qed.

Section ForestOps.
Context (par : Z -> option Z) (kids : Z -> list Z) (Hf : forest par kids).

Lemma edge_sub (par' : Z -> option Z) :
  (forall x y, edge par' x y -> edge par x y) -> forall x, ~ tc (edge par') x x.
Proof.
  intros H x Hx. apply (f_acyclic _ _ Hf x). eapply tc_congruence with (f := fun x => x); [|exact Hx]. auto.
Qed.

Lemma forest_detach c :
  forest (fun y => if decide (y = c) then None else par y) (fun x => filter (fun y => y <> c) (kids x)).
Proof.
  split.
  - intros x y. rewrite list_elem_of_filter, (f_edge _ _ Hf). case_decide; naive_solver.
  - intros x. apply NoDup_filter, Hf.
  - apply edge_sub. unfold edge. intros x y. by case_decide.
Qed.

Lemma forest_attach c p :
  par c = None -> ~ rtc (edge par) c p ->
  forest (fun y => if decide (y = c) then Some p else par y)
         (fun x => if decide (x = p) then kids x ++ [c] else kids x).
Proof.
  intros Hc Hn. split.
  - intros x y. destruct (decide (x = p)) as [->|Hx].
    + rewrite elem_of_app, list_elem_of_singleton, (f_edge _ _ Hf). case_decide; subst; naive_solver.
    + rewrite (f_edge _ _ Hf). case_decide; subst; naive_solver.
  - intros x. case_decide; [|apply Hf]. apply NoDup_app. split; [apply Hf|]. split; [|by apply NoDup_singleton].
    intros y Hy ->%list_elem_of_singleton. apply (f_edge _ _ Hf) in Hy. congruence.
  - apply (acyclic_add_edge (edge par) _ p c); [|apply Hf|done].
    intros x y. unfold edge. case_decide; subst; naive_solver.
Qed.

(** Removing a set closed under children whose roots have no parent outside. *)
Lemma forest_delete (D : Z -> Prop) `{!forall x, Decision (D x)} :
  (forall x y, edge par x y -> (D x <-> D y)) ->
  forest (fun y => if decide (D y) then None else par y) (fun x => if decide (D x) then [] else kids x).
Proof.
  intros HD. split.
  - intros x y. pose proof (HD x y) as Hxy. unfold edge in Hxy.
    destruct (decide (D x)), (decide (D y)); rewrite ?elem_of_nil, ?(f_edge _ _ Hf); naive_solver.
  - intros x. case_decide; [constructor|apply Hf].
  - apply edge_sub. unfold edge. intros x y. by case_decide.
Qed.

Lemma descendants_closed c x y : par c = None -> edge par x y -> (rtc (edge par) c x <-> rtc (edge par) c y).
Proof.
  intros Hc Hxy. split; [intros; by eapply rtc_r|].
  intros H. apply rtc_inv_r in H as [<-|(z & Hz & Hzy)]; [unfold edge in Hxy; congruence|].
  unfold edge in *. congruence.
Qed.
End ForestOps.

(** ** The forest of a container map *)

Definition par (m : gmap Z ContainerNode) (y : Z) : option Z := m !! y ≫= n_parent.
Definition kids (m : gmap Z ContainerNode) (x : Z) : list Z :=
  match m !! x with Some n => child_nodes (n_children n) | None => [] end.
Abbreviation forest_of m := (forest (par m) (kids m)).
Abbreviation below m := (rtc (edge (par m))).

Lemma filter_id_in (P : Z -> Prop) `{!forall x, Decision (P x)} (l : list Z) : (forall y, y ∈ l -> P y) -> filter P l = l.
Proof.
  induction l as [|y l IH]; intros Hl; [done|]. rewrite filter_cons, decide_True by (apply Hl; left).
  f_equal. apply IH. intros z Hz. apply Hl. by right.
Qed.

Lemma child_nodes_app cs ds : child_nodes (cs ++ ds) = child_nodes cs ++ child_nodes ds.
Proof. unfold child_nodes. by rewrite omap_app. Qed.

Lemma child_nodes_drop c n :
  child_nodes (n_children (drop_child c n)) = filter (fun y => y <> c) (child_nodes (n_children n)).
Proof.
  cbn. induction (n_children n) as [|d cs IH]; [done|]. unfold is_node in *. cbn.
  destruct d as [y|s]; case_bool_decide as E; cbn; rewrite ?filter_cons; try done.
  - injection E as ->. rewrite decide_False by (intros H; by apply H). done.
  - rewrite decide_True by (intros ->; by apply E). cbn. by rewrite IH.
Qed.

Lemma update_node_lookup id f m x :
  update_node id f m !! x = if decide (id = Some x) then f <$> m !! x else m !! x.
Proof.
  unfold update_node. destruct id as [i|]; [|done]. destruct (m !! i) as [n|] eqn:E.
  - rewrite lookup_insert. destruct (decide (i = x)) as [->|Hne].
    + by rewrite decide_True, E.
    + rewrite decide_False by congruence. done.
  - case_decide as H; [|done]. injection H as ->. by rewrite E.
Qed.

Lemma parent_in_map m c p : forest_of m -> par m c = Some p -> exists n, m !! p = Some n.
Proof.
  intros Hf Hp. apply (f_edge _ _ Hf) in Hp. unfold kids in Hp.
  destruct (m !! p); [by eexists|]. by apply not_elem_of_nil in Hp.
Qed.

Lemma par_self m c : forest_of m -> par m c <> Some c.
Proof. intros Hf H. apply (f_acyclic _ _ Hf c). by constructor. Qed.

Lemma below_in_map m c x : forest_of m -> is_Some (m !! c) -> below m c x -> is_Some (m !! x).
Proof.
  intros Hf Hc H. apply rtc_inv_r in H as [<-|(z & _ & Hz)]; [done|].
  unfold edge, par in Hz. destruct (m !! x); [by eexists|done].
Qed.

(** A fresh node without a parent. *)
Lemma forest_fresh m id kind :
  m !! id = None -> forest_of m -> forest_of (<[id := mkNode kind None []]> m).
Proof.
  intros Hid. apply forest_ext; intros x; unfold par, kids; rewrite lookup_insert;
    case_decide; subst; rewrite ?Hid; done.
Qed.

(** The node [c] cut from its parent. *)
Definition cut (c : Z) (n : ContainerNode) (m : gmap Z ContainerNode) : gmap Z ContainerNode :=
  <[c := n <| n_parent := None |>]> (update_node (n_parent n) (drop_child c) m).

Lemma forest_cut m c n : m !! c = Some n -> forest_of m -> forest_of (cut c n m).
Proof.
  intros Hc Hf. eapply forest_ext; [..|exact (forest_detach _ _ Hf c)]; intros x; unfold cut.
  - unfold par. rewrite lookup_insert. destruct (decide (c = x)) as [->|Hne]; [by rewrite decide_True|].
    rewrite (decide_False (P := x = c)) by congruence. rewrite update_node_lookup.
    case_decide; [|done]. by destruct (m !! x).
  - assert (Hno : forall z, par m c <> Some z -> filter (fun y => y <> c) (kids m z) = kids m z).
    { intros z Hz. apply filter_id_in. intros y Hy ->.
      by apply (f_edge _ _ Hf) in Hy. }
    assert (Hpc : par m c = n_parent n) by (unfold par; by rewrite Hc).
    unfold kids at 1. rewrite lookup_insert. destruct (decide (c = x)) as [->|Hne].
    + cbn. rewrite Hno by (by apply par_self). unfold kids. by rewrite Hc.
    + rewrite update_node_lookup. case_decide as Hp.
      * unfold kids. destruct (m !! x) as [nx|]; cbn [fmap option_fmap option_map]; [|done].
        apply child_nodes_drop.
      * rewrite Hno by congruence. done.
Qed.

(** The parentless node [c] put under [p]. *)
Definition graft (c p : Z) (n : ContainerNode) (m : gmap Z ContainerNode) : gmap Z ContainerNode :=
  <[c := n <| n_parent := Some p |>]> (update_node (Some p) (push_child (ChNode c)) m).

Lemma forest_graft m c p n :
  m !! c = Some n -> n_parent n = None -> is_Some (m !! p) -> ~ below m c p ->
  forest_of m -> forest_of (graft c p n m).
Proof.
  intros Hc Hpn [np Hp] Hn Hf.
  assert (Hcp : c <> p) by (intros ->; by apply Hn).
  eapply forest_ext; [..|exact (forest_attach _ _ Hf c p ltac:(by unfold par; rewrite Hc) Hn)];
    intros x; unfold graft.
  - unfold par. rewrite lookup_insert. destruct (decide (c = x)) as [->|Hne]; [by rewrite decide_True|].
    rewrite (decide_False (P := x = c)) by congruence. rewrite update_node_lookup.
    case_decide; [|done]. by destruct (m !! x).
  - unfold kids. rewrite lookup_insert. destruct (decide (c = x)) as [->|Hne].
    + rewrite decide_False by done. by rewrite Hc.
    + rewrite update_node_lookup. destruct (decide (x = p)) as [->|Hxp].
      * rewrite decide_True, Hp by done. cbn. by rewrite child_nodes_app.
      * by rewrite decide_False by congruence.
Qed.

(** ** Removing a subtree *)

Lemma fold_delete_lookup (l : list Z) (m : gmap Z ContainerNode) x :
  fold_left (fun m id => delete id m) l m !! x = if decide (x ∈ l) then None else m !! x.
Proof.
  revert m. induction l as [|y l IH]; intros m; cbn [fold_left]; [by rewrite decide_False by apply not_elem_of_nil|].
  rewrite IH, lookup_delete. destruct (decide (x ∈ l)), (decide (y = x)); subst;
    repeat case_decide; set_solver.
Qed.

(** What [remove_subtree] leaves of the map. *)
Definition pruned (subtree : list Z) (root : Z) (m : gmap Z ContainerNode) : gmap Z ContainerNode :=
  fold_left (fun m id => delete id m) subtree (update_node (par m root) (drop_child root) m).

Lemma cut_below m c n x : m !! c = Some n -> forest_of m -> (below (cut c n m) c x <-> below m c x).
Proof.
  intros Hc Hf.
  assert (E : forall y, par (cut c n m) y = if decide (y = c) then None else par m y).
  { intros y. unfold cut, par. rewrite lookup_insert. destruct (decide (c = y)) as [->|Hne]; [by rewrite decide_True|].
    rewrite (decide_False (P := y = c)) by congruence. rewrite update_node_lookup.
    case_decide; [|done]. by destruct (m !! y). }
  assert (Hno : forall a, below m c a -> par m c <> Some a).
  { intros a Ha Hp. apply (f_acyclic _ _ Hf c). eapply tc_rtc_l; [exact Ha|]. by constructor. }
  split; intros H.
  - induction H as [|a b d Hab _ IH]; [done|]. eapply rtc_l; [|exact IH]. unfold edge in *. rewrite E in Hab.
    by case_decide.
  - revert x H. apply rtc_ind_r; [done|]. intros b d Hcb Hbd IH. eapply rtc_r; [exact IH|].
    unfold edge in *. rewrite E. rewrite decide_False; [done|]. intros ->. by eapply Hno.
Qed.

Lemma forest_pruned m c subtree :
  is_Some (m !! c) -> forest_of m -> (forall x, x ∈ subtree <-> below m c x) -> forest_of (pruned subtree c m).
Proof.
  intros [n Hc] Hf Hsub. pose proof (forest_cut _ _ _ Hc Hf) as Hf'.
  assert (Hpar : par (cut c n m) c = None) by (unfold cut, par; by rewrite lookup_insert_eq).
  eapply forest_ext; [..|apply (forest_delete _ _ Hf' (fun x => x ∈ subtree))].
  3: { intros x y Hxy. rewrite !Hsub, <- !(cut_below _ _ _ _ Hc Hf). by apply descendants_closed. }
  all: intros x; assert (Hcs : c ∈ subtree) by (by apply Hsub); assert (Hpc : par m c = n_parent n) by (unfold par; by rewrite Hc).
  all: unfold par at 1 || unfold kids at 1; unfold pruned; rewrite fold_delete_lookup; case_decide as Hx; [done|];
    unfold cut; rewrite Hpc; unfold par, kids; rewrite lookup_insert_ne by (intros <-; done); done.
Qed.

(** ** The search ends and finds the subtree *)

(** [visited] are the nodes popped so far. *)
Record searching (m : gmap Z ContainerNode) (root : Z) (visited frontier out : list Z) : Prop := {
  se_out : out ≡ₚ visited ++ frontier;
  se_once : NoDup (visited ++ frontier);
  se_below : forall x, x ∈ visited ++ frontier -> below m root x;
  se_from : forall x, x ∈ visited ++ frontier -> x = root \/ exists p, p ∈ visited /\ edge (par m) p x;
  se_root : root ∈ visited ++ frontier;
  se_closed : forall x y, x ∈ visited -> edge (par m) x y -> y ∈ visited ++ frontier;
}.

Lemma searching_step m root visited f out id n :
  forest_of m -> m !! id = Some n ->
  searching m root visited (f ++ [id]) out ->
  let cs := child_nodes (n_children n) in
  searching m root (visited ++ [id]) (f ++ cs) (out ++ cs).
Proof.
  intros Hf Hn [H1 H2 H3 H4 H5 H6] cs.
  assert (Hk : forall y, y ∈ cs <-> edge (par m) id y).
  { intros y. unfold edge. rewrite <- (f_edge _ _ Hf). unfold kids. by rewrite Hn. }
  assert (Hp : (visited ++ [id]) ++ f ++ cs ≡ₚ (visited ++ f ++ [id]) ++ cs) by solve_Permutation.
  assert (Hid : id ∈ visited ++ f ++ [id]) by set_solver.
  assert (Hnv : id ∉ visited) by (intros Hv; apply NoDup_app in H2 as (_ & H & _); by apply (H id Hv), elem_of_app; right; left).
  split.
  - by rewrite Hp, H1.
  - rewrite Hp. apply NoDup_app. split; [done|]. split.
    + intros y Hy Hc%Hk. destruct (H4 y Hy) as [->|(p & Hpv & Hpy)].
      * apply (f_acyclic _ _ Hf root). eapply tc_rtc_l; [by apply (H3 id)|]. by constructor.
      * unfold edge in *. assert (p = id) by congruence. by subst.
    + pose proof (f_once _ _ Hf id) as Ho. unfold kids in Ho. by rewrite Hn in Ho.
  - intros x. rewrite Hp, elem_of_app. intros [Hx|Hx%Hk]; [auto|]. eapply rtc_r; [by apply (H3 id)|done].
  - intros x. rewrite Hp, elem_of_app. intros [Hx|Hx%Hk].
    + destruct (H4 x Hx) as [?|(p & ? & ?)]; [by left|]. right. exists p. set_solver.
    + right. exists id. set_solver.
  - rewrite Hp. set_solver.
  - intros x y Hx Hxy. rewrite Hp. apply elem_of_app in Hx as [Hx| ->%list_elem_of_singleton].
    + apply elem_of_app. left. by eapply H6.
    + apply elem_of_app. right. by apply Hk.
Qed.

Lemma nodup_dom (m : gmap Z ContainerNode) (l : list Z) :
  NoDup l -> (forall x, x ∈ l -> is_Some (m !! x)) -> (length l <= base.size m)%nat.
Proof.
  intros Hn Hl. rewrite <- size_dom, <- (size_list_to_set (C := gset Z) l Hn).
  apply subseteq_size. intros x. rewrite elem_of_list_to_set, elem_of_dom. auto.
Qed.

Lemma collect_loop_eq fuel m root visited frontier out :
  forest_of m -> is_Some (m !! root) -> searching m root visited frontier out ->
  (base.size m < length visited + fuel)%nat ->
  safe (collect_loop fuel m out frontier) (fun l => NoDup l /\ forall x, x ∈ l <-> below m root x).
Proof.
  intros Hf Hroot. revert visited frontier out. induction fuel as [|fuel IH]; intros visited frontier out Hs Hfuel.
  - exfalso. destruct Hs as [_ H2 H3 _ _ _].
    assert (Hl : (length (visited ++ frontier) <= base.size m)%nat)
      by (apply nodup_dom; [done|]; intros x Hx; by eapply below_in_map, H3).
    rewrite length_app in Hl. lia.
  - cbn [collect_loop]. destruct (last frontier) as [id|] eqn:Hl.
    + apply last_Some in Hl as [f ->].
      assert (Hin : is_Some (m !! id)) by (eapply below_in_map; [done..|]; apply (se_below _ _ _ _ _ Hs); set_solver).
      destruct Hin as [n Hn]. rewrite Hn.
      replace (take (pred (length (f ++ [id]))) (f ++ [id])) with f
        by (rewrite length_app; cbn; rewrite Nat.add_1_r; cbn; by rewrite take_app_length).
      apply (IH (visited ++ [id])); [by apply searching_step|]. rewrite length_app. cbn. lia.
    + apply last_None in Hl. subst. apply safe_ret. destruct Hs as [H1 H2 H3 _ H5 H6].
      rewrite app_nil_r in *. split; [by rewrite H1|]. intros x. rewrite H1. split; [auto|].
      revert x. apply rtc_ind_r; [done|]. intros y z Hy Hyz IHx. by eapply H6.
Qed.

Lemma collect_subtree_eq {P} (k : Kernel P) root :
  forest_of (nodes k) -> is_Some (nodes k !! root) ->
  safe (collect_subtree (S (base.size (nodes k))) root k) (fun r =>
    exists l, r = Ok l /\ NoDup l /\ forall x, x ∈ l <-> below (nodes k) root x).
Proof.
  intros Hf Hr. unfold collect_subtree. rewrite bool_decide_eq_false_2 by (destruct Hr as [? ->]; done).
  eapply safe_bind; [apply (collect_loop_eq _ _ root [] [root] [root]); [done|done| |cbn; lia]|].
  - split; cbn.
    + done.
    + by apply NoDup_singleton.
    + intros x Hx%list_elem_of_singleton. subst. constructor.
    + intros x Hx%list_elem_of_singleton. by left.
    + by left.
    + intros x y Hx. by apply not_elem_of_nil in Hx.
  - intros l [H1 H2]. apply safe_ret. by exists l.
Qed.

(** ** Leaf references *)

Definition refs (m : gmap Z ContainerNode) (x : Z) : list Z :=
  match m !! x with Some n => child_leaves (n_children n) | None => [] end.

Lemma child_leaves_drop c n : child_leaves (n_children (drop_child c n)) = child_leaves (n_children n).
Proof.
  cbn. induction (n_children n) as [|d cs IH]; [done|]. cbn. unfold is_node in *.
  destruct d as [y|s]; case_bool_decide; cbn; rewrite ?IH; done.
Qed.

Lemma child_leaves_app cs ds : child_leaves (cs ++ ds) = child_leaves cs ++ child_leaves ds.
Proof. unfold child_leaves. by rewrite omap_app. Qed.

Lemma refs_update id f m x :
  (forall n, child_leaves (n_children (f n)) = child_leaves (n_children n)) ->
  refs (update_node id f m) x = refs m x.
Proof.
  intros Hf. unfold refs. rewrite update_node_lookup. case_decide; [|done].
  destruct (m !! x); cbn; [apply Hf|done].
Qed.

Lemma refs_insert c n n' m x :
  m !! c = Some n -> child_leaves (n_children n') = child_leaves (n_children n) ->
  refs (<[c := n']> m) x = refs m x.
Proof.
  intros Hc E. unfold refs. rewrite lookup_insert. case_decide; [subst; by rewrite Hc|done].
Qed.

Lemma refs_cut c n m x : m !! c = Some n -> refs (cut c n m) x = refs m x.
Proof.
  intros Hc. unfold cut.
  assert (exists n', update_node (n_parent n) (drop_child c) m !! c = Some n' /\
            child_leaves (n_children n') = child_leaves (n_children n)) as (n' & Hn' & E).
  { rewrite update_node_lookup, Hc. case_decide; eexists; (split; [done|]); [apply child_leaves_drop|done]. }
  rewrite (refs_insert c n') by (cbn; done). apply refs_update, child_leaves_drop.
Qed.

Lemma refs_graft c p n m x : m !! c = Some n -> c <> p -> refs (graft c p n m) x = refs m x.
Proof.
  intros Hc Hne. unfold graft. rewrite (refs_insert c n); [|by rewrite update_node_lookup, decide_False by congruence|done].
  apply refs_update. intros n'. cbn. rewrite child_leaves_app. apply app_nil_r.
Qed.

Lemma refs_pruned subtree root m x s : s ∈ refs (pruned subtree root m) x -> s ∈ refs m x.
Proof.
  unfold pruned. intros H. rewrite <- (refs_update (par m root) (drop_child root) m x) by apply child_leaves_drop.
  unfold refs in *. rewrite fold_delete_lookup in H. case_decide; [by apply not_elem_of_nil in H|done].
Qed.

(** ** The maps the operations build *)

Lemma create_map m id p pn kind :
  m !! id = None -> m !! p = Some pn ->
  <[p := push_child (ChNode id) pn]> (<[id := mkNode kind (Some p) []]> m) =
  graft id p (mkNode kind None []) (<[id := mkNode kind None []]> m).
Proof.
  intros Hid Hp. assert (Hne : p <> id) by congruence. apply map_eq. intros x. unfold graft.
  rewrite !lookup_insert, update_node_lookup, !lookup_insert.
  destruct (decide (p = x)) as [->|Hx].
  - rewrite !(decide_False (P := id = x)) by congruence. by rewrite decide_True, Hp by done.
  - destruct (decide (id = x)) as [->|Hi]; [done|]. by rewrite decide_False by congruence.
Qed.

Lemma forest_create m id p pn kind :
  m !! id = None -> m !! p = Some pn -> forest_of m ->
  forest_of (<[p := push_child (ChNode id) pn]> (<[id := mkNode kind (Some p) []]> m)).
Proof.
  intros Hid Hp Hf. rewrite create_map by done. pose proof (forest_fresh _ _ kind Hid Hf) as Hf'.
  apply forest_graft; [by rewrite lookup_insert_eq|done| |  |done].
  - rewrite lookup_insert_ne by congruence. by eexists.
  - intros H. apply rtc_inv in H as [->|(z & Hz & _)]; [congruence|].
    unfold edge in Hz. apply (f_edge _ _ Hf') in Hz. unfold kids in Hz. rewrite lookup_insert_eq in Hz.
    by apply not_elem_of_nil in Hz.
Qed.

Definition moved (c : Z) (p : option Z) (n : ContainerNode) (m : gmap Z ContainerNode) : gmap Z ContainerNode :=
  match p with
  | None => cut c n m
  | Some p => graft c p (n <| n_parent := None |>) (cut c n m)
  end.

Lemma reparent_map m c p n :
  m !! c = Some n -> n_parent n <> Some c -> p <> Some c ->
  <[c := n <| n_parent := p |>]>
    (update_node p (push_child (ChNode c)) (update_node (n_parent n) (drop_child c) m)) = moved c p n m.
Proof.
  intros Hc Ho Hp. destruct p as [p|]; [|done]. apply map_eq. intros x. unfold moved, graft, cut.
  rewrite !lookup_insert. destruct (decide (c = x)) as [->|Hx]; [done|].
  rewrite !update_node_lookup. rewrite lookup_insert_ne by done. by rewrite update_node_lookup.
Qed.

Lemma cut_self c n m : cut c n m !! c = Some (n <| n_parent := None |>).
Proof. unfold cut. by rewrite lookup_insert_eq. Qed.

Lemma cut_some c n m x : m !! c = Some n -> (is_Some (cut c n m !! x) <-> is_Some (m !! x)).
Proof.
  intros Hc. unfold cut. rewrite lookup_insert. case_decide as E; [subst; rewrite Hc; split; by eexists|].
  rewrite update_node_lookup. case_decide; [|done]. by destruct (m !! x); cbn; split; intros [? ?]; try done; eexists.
Qed.

Lemma forest_moved m c p n :
  m !! c = Some n -> (forall q, p = Some q -> is_Some (m !! q) /\ ~ below m c q) ->
  forest_of m -> forest_of (moved c p n m).
Proof.
  intros Hc Hp Hf. pose proof (forest_cut _ _ _ Hc Hf) as Hf'. destruct p as [q|]; [|done].
  destruct (Hp q eq_refl) as [Hq Hn].
  apply forest_graft; [apply cut_self|done|by apply cut_some|by rewrite (cut_below _ _ _ _ Hc Hf)|done].
Qed.

Section Moved.
Context (m : gmap Z ContainerNode) (c : Z) (p : option Z) (n : ContainerNode).
Context (Hc : m !! c = Some n) (Hself : n_parent n <> Some c) (Hp : p <> Some c).

Lemma moved_lookup x :
  moved c p n m !! x =
  if decide (c = x) then Some (n <| n_parent := p |>)
  else update_node p (push_child (ChNode c)) (update_node (n_parent n) (drop_child c) m) !! x.
Proof. rewrite <- reparent_map by done. by rewrite lookup_insert. Qed.

Lemma moved_par x : par (moved c p n m) x = if decide (x = c) then p else par m x.
Proof.
  unfold par. rewrite moved_lookup. destruct (decide (c = x)) as [->|Hne]; [by rewrite decide_True|].
  rewrite (decide_False (P := x = c)) by congruence. rewrite !update_node_lookup.
  repeat case_decide; by destruct (m !! x).
Qed.

Lemma moved_kind x : n_kind <$> moved c p n m !! x = n_kind <$> m !! x.
Proof.
  rewrite moved_lookup. destruct (decide (c = x)) as [<-|Hne]; [by rewrite Hc|]. rewrite !update_node_lookup.
  repeat case_decide; by destruct (m !! x).
Qed.

Lemma moved_refs x : refs (moved c p n m) x = refs m x.
Proof.
  unfold moved. destruct p as [q|]; [|by apply refs_cut].
  rewrite refs_graft; [by apply refs_cut|apply cut_self|congruence].
Qed.

Lemma moved_below x :
  forest_of m -> (forall q, p = Some q -> ~ below m c q) -> (below (moved c p n m) c x <-> below m c x).
Proof.
  intros Hf Hn.
  assert (Hno : forall a, below m c a -> par m c <> Some a).
  { intros a Ha E. apply (f_acyclic _ _ Hf c). eapply tc_rtc_l; [exact Ha|]. by constructor. }
  split; revert x; apply rtc_ind_r; try done; intros y z Hy Hyz IH; unfold edge in Hyz.
  - rewrite moved_par in Hyz. case_decide as E; [subst|by eapply rtc_r].
    exfalso. by apply (Hn y).
  - eapply rtc_r; [exact IH|]. unfold edge. rewrite moved_par, decide_False; [done|].
    intros ->. by apply (Hno y).
Qed.
End Moved.

Lemma reparent_eq {P} (k : Kernel P) node p nd :
  nodes k !! node = Some nd -> n_parent nd <> Some node -> p <> Some node ->
  (forall q, p = Some q -> is_Some (nodes k !! q)) ->
  reparent_node node p k = Some (Ok (), k <| nodes := moved node p nd (nodes k) |>).
Proof.
  intros En Hself Hpn Hp. unfold reparent_node. rewrite bool_decide_eq_false_2 by (by rewrite En).
  assert (E : match p with Some q => bool_decide (nodes k !! q = None) || (q =? node) | None => false end = false).
  { destruct p as [q|]; [|done]. destruct (Hp q eq_refl) as [nq Eq]. rewrite Eq. cbn. apply Z.eqb_neq. congruence. }
  rewrite E, En. cbn [mbind option_bind]. rewrite !update_node_lookup, !decide_False, En by done.
  by rewrite reparent_map.
Qed.
