(* ===== verification/KernelFacts.v ===== *)
(** The kernel's graph: ids, the container tree, closing a subtree, and the
    life of a leaf in the event log. *)
From stdpp Require Import relations.
From S2P Require Import Prelude Effect Attach Ring Session SessionFacts Kernel Forest.

Local Open Scope Z_scope.

(** ** Allocating an id *)

Definition id_ok (n : Z) : Prop := 1 <= n <= u64_max.

Lemma next_id_mod n : id_ok n -> next_id n = n mod u64_max + 1.
Proof.
  unfold id_ok, next_id. intros H. destruct (Z.eqb_spec n u64_max) as [->|Hne].
  - by rewrite Z.mod_same.
  - rewrite Z.mod_small by lia. lia.
Qed.

Lemma next_id_ok n : id_ok n -> id_ok (next_id n).
Proof. unfold id_ok, next_id. intros H. destruct (Z.eqb_spec n u64_max); lia. Qed.

(** The [i]-th id tried. *)
Definition tried (n : Z) (i : nat) : Z := (n - 1 + Z.of_nat i) mod u64_max + 1.

Lemma tried_S n i : id_ok n -> tried n (S i) = tried (next_id n) i.
Proof.
  intros Hn. unfold tried. rewrite next_id_mod by done. f_equal.
  replace (n mod u64_max + 1 - 1 + Z.of_nat i) with (n mod u64_max + Z.of_nat i) by lia.
  rewrite Zplus_mod_idemp_l. f_equal. lia.
Qed.

Lemma tried_0 n : id_ok n -> tried n 0 = n.
Proof. unfold tried, id_ok. intros H. rewrite Z.mod_small; lia. Qed.

Lemma tried_inj n i j :
  (Z.of_nat i < u64_max) -> (Z.of_nat j < u64_max) -> tried n i = tried n j -> i = j.
Proof.
  unfold tried. intros Hi Hj E.
  assert (E' : (n - 1 + Z.of_nat i) mod u64_max = (n - 1 + Z.of_nat j) mod u64_max) by lia.
  pose proof (Z.div_mod (n - 1 + Z.of_nat i) u64_max ltac:(lia)) as D1.
  pose proof (Z.div_mod (n - 1 + Z.of_nat j) u64_max ltac:(lia)) as D2.
  rewrite E' in D1. nia.
Qed.

Section Alloc.
Context {V : Type} (m : gmap Z V).

Lemma alloc_loop_none fuel n :
  id_ok n -> alloc_loop fuel m n = None -> forall i, (i < fuel)%nat -> is_Some (m !! tried n i).
Proof.
  revert n. induction fuel as [|fuel IH]; intros n Hn Ha i Hi; [lia|]. cbn [alloc_loop] in Ha.
  case_bool_decide as Hm; [done|]. destruct i as [|i].
  - rewrite tried_0 by done. destruct (m !! n); [by eexists|by destruct Hm].
  - rewrite tried_S by done. apply IH; [by apply next_id_ok|done|lia].
Qed.

Lemma alloc_loop_some fuel n id n' :
  id_ok n -> alloc_loop fuel m n = Some (id, n') -> m !! id = None /\ id_ok id /\ id_ok n'.
Proof.
  revert n. induction fuel as [|fuel IH]; intros n Hn Ha; [done|]. cbn [alloc_loop] in Ha.
  case_bool_decide as Hm; [|by eapply IH; [apply next_id_ok|]].
  injection Ha as <- <-. split; [done|]. split; [done|by apply next_id_ok].
Qed.

(** The loop ends: one of the ids it tries is free. *)
Lemma alloc_id_eq n :
  id_ok n -> Z.of_nat (base.size m) < u64_max ->
  safe (alloc_id m n) (fun '(id, n') => m !! id = None /\ id_ok id /\ id_ok n').
Proof.
  intros Hn Hs. unfold alloc_id. destruct (alloc_loop (S (base.size m)) m n) as [[id n']|] eqn:Ea.
  { apply safe_ret. by eapply alloc_loop_some. }
  exfalso. pose proof (alloc_loop_none _ _ Hn Ea) as Hall.
  set (l := map (tried n) (List.seq 0 (S (base.size m)))).
  assert (Hl : NoDup l).
  { apply NoDup_fmap_2_strong; [|apply NoDup_seq]. intros i j Hi%elem_of_seq Hj%elem_of_seq.
    apply tried_inj; lia. }
  assert (length l <= base.size m)%nat; [|unfold l in *; rewrite length_map, length_seq in *; lia].
  rewrite <- size_dom, <- (size_list_to_set (C := gset Z) l Hl). apply subseteq_size.
  intros x. rewrite elem_of_list_to_set, elem_of_dom. intros (i & -> & Hi%elem_of_seq)%list_elem_of_fmap.
  apply Hall. lia.
Qed.
End Alloc.

Create HintDb life.

(** ** The life of a leaf: whether it was told to stop, and how it ended *)

Section Life.
Context {P : Type} `{!PtyOps P}.
Abbreviation S := (Session P).

Definition life (s : S) : bool * option Z := (terminated s, child_exit s).
Definition same_life (s s' : S) : Prop := life s' = life s.

#[local] Instance same_life_preorder : PreOrder same_life.
Proof. split; unfold same_life; congruence. Qed.

Lemma pres_on_pty {A} (f : P -> result KernelError A * P) : pres same_life (on_pty f).
Proof. intros s r s' E. unfold on_pty in E. destruct (f (pty s)) as [x p]. by injection E as _ <-. Qed.

Lemma pres_record ev : pres same_life (record ev).
Proof.
  intros s r s' E. unfold record in E. destruct (chk_add u64_max (Session.seq s) 1) as [q|]; [|done].
  cbn in E. injection E as _ <-. by destruct (_ =? _).
Qed.

Lemma expire_life now s : same_life s (expire_input_lease_if_due now s).
Proof.
  unfold expire_input_lease_if_due. destruct (lease_until s) as [t|]; [destruct (t <=? now)|]; done.
Qed.

#[local] Hint Resolve pres_on_pty pres_record expire_life : life.
Ltac life_tac :=
  repeat first
    [ match goal with |- pres _ (if ?b then _ else _) => destruct b end
    | apply pres_bind; [apply _| |intros ?]
    | apply pres_ret; apply _ | apply pres_gets; apply _ | apply pres_of_result; apply _
    | apply pres_modify; intros ?
    | solve [auto with life] | reflexivity ].

Lemma pres_flush bufs : pres same_life (flush_loop bufs).
Proof. induction bufs as [|b bufs IH]; cbn [flush_loop]; life_tac. Qed.

Lemma pres_flush_input : pres same_life flush_input.
Proof. intros s r s' E. by eapply pres_flush. Qed.
#[local] Hint Resolve pres_flush_input : life.

Lemma pres_lease_blocks now : pres same_life (lease_blocks_input now).
Proof. unfold lease_blocks_input. life_tac. Qed.
#[local] Hint Resolve pres_lease_blocks : life.

Lemma attach_life now grace g ob s : same_life s (on_attach now grace g ob s).
Proof.
  unfold on_attach. destruct ob; [done|]. case_bool_decide; [done|].
  set (s1 := s <| attach_generation := Some g |> <| resync_pending := true |>).
  change (same_life s1 (match child_exit (take_input_lease now grace g s1) with
    | Some status => enqueue_outbound (Exit status) (take_input_lease now grace g s1) <| exit_delivered := true |>
    | None => take_input_lease now grace g s1 end)).
  assert (E : same_life s1 (take_input_lease now grace g s1)).
  { unfold take_input_lease. cbv zeta. by destruct (_ =? 0). }
  by destruct (child_exit (take_input_lease now grace g s1)).
Qed.

Lemma pres_on_data now bs : pres same_life (on_data now bs).
Proof.
  intros s r s' E. unfold on_data in E. destruct (bool_decide (child_exit s <> None)); [by injection E as _ <-|].
  revert E. match goal with |- ?m s = _ -> _ => cut (pres same_life m); [intros H; apply H|] end.
  life_tac.
Qed.
#[local] Hint Resolve pres_on_data attach_life : life.

Lemma pres_on_frame now grace f : pres same_life (on_frame now grace f).
Proof.
  destruct f; cbn [on_frame]; unfold on_resize; life_tac.
Qed.

Lemma pres_input now now' grace nonce bs : pres same_life (input_with_lease now now' grace nonce bs).
Proof. unfold input_with_lease. pose proof (pres_on_frame now' grace (Data bs)). life_tac. Qed.

Lemma pres_stalled s : same_life s (note_stalled_read s).
Proof. done. Qed.

Lemma pres_ring_push bs : pres same_life (ring_push bs).
Proof. intros s r s' E. unfold ring_push in E. destruct (ring_append bs (ring s)); [|done]. by injection E as _ <-. Qed.

Lemma pres_spend n : pres same_life (spend_credit n).
Proof. intros s r s' E. unfold spend_credit in E. destruct (chk_sub (credit s) n); [|done]. by injection E as _ <-. Qed.
#[local] Hint Resolve pres_ring_push pres_spend : life.

Lemma pres_readable : pres same_life on_pty_readable.
Proof.
  intros s r s' E. unfold on_pty_readable in E. destruct (credit s =? 0); [by injection E as _ <-|].
  revert E. match goal with |- ?m s = _ -> _ => cut (pres same_life m); [intros Hm; apply Hm|] end.
  life_tac. by destruct (has_listeners _).
Qed.

Lemma pres_drain max : pres same_life (drain_pty_at_most max).
Proof.
  intros s r s' E. unfold drain_pty_at_most in E. destruct (child_exit s); [by injection E as _ <-|].
  cbn zeta in E. destruct (_ =? 0); [by injection E as _ <-|].
  revert E. match goal with |- ?m s = _ -> _ => cut (pres same_life m); [intros Hm; apply Hm|] end.
  life_tac.
Qed.

Lemma pres_checkpoint rec : pres same_life (install_checkpoint rec).
Proof. unfold install_checkpoint. life_tac. Qed.

Lemma pres_cwd : pres same_life Session.cwd.
Proof. intros s r s' E. unfold Session.cwd in E. destruct (pty_fg_cwd (pty s)); by injection E as _ <-. Qed.

Lemma terminate_life s r s' :
  Session.terminate s = Some (r, s') -> child_exit s' = child_exit s /\ terminated s' = true.
Proof.
  unfold Session.terminate, on_pty. destruct (terminated s) eqn:Et; [by intros [= _ <-]|].
  destruct (pty_terminate _) as [x p]. by intros [= _ <-].
Qed.

Lemma poll_life s r s' :
  poll_child s = Some (r, s') ->
  terminated s' = terminated s /\
  match r with
  | Ok true => child_exit s = None /\ is_Some (child_exit s')
  | _ => child_exit s' = child_exit s
  end.
Proof.
  unfold poll_child. destruct (child_exit s) as [st|] eqn:Ec; [by intros [= <- <-]|].
  intros [(o & s1 & E1 & E)|(e & E1 & ->)]%se_bind_inv; apply pres_on_pty in E1;
    unfold same_life, life in E1; injection E1 as T1 C1; [|by rewrite C1].
  destruct o as [st|]; [|injection E as <- <-; by rewrite C1].
  apply se_bind_inv in E as [([] & s2 & E2 & E)|(e & E2 & _)]; [|discriminate].
  injection E2 as <-.
  apply se_bind_inv in E as [([] & s3 & E3 & E)|(e & E3 & ->)].
  - apply pres_record in E3. unfold same_life, life in E3. injection E3 as T3 C3.
    apply se_bind_inv in E as [([] & s4 & E4 & E)|(e & E4 & _)]; [|discriminate].
    injection E4 as <-. injection E as <- <-.
    change (terminated (s1 <| child_exit := Some st |>)) with (terminated s1) in T3.
    change (child_exit (s1 <| child_exit := Some st |>)) with (Some st) in C3.
    destruct (has_listeners s3);
      [change (terminated (enqueue_outbound (Exit st) s3 <| exit_delivered := true |>)) with (terminated s3);
       change (child_exit (enqueue_outbound (Exit st) s3 <| exit_delivered := true |>)) with (child_exit s3)|];
      rewrite T3, C3, ?T1, ?Ec; eauto.
  - exfalso. unfold record in E3. destruct (chk_add _ _ _); discriminate.
Qed.
End Life.

(** ** The kernel as a step relation, over a traced PTY *)

Section Graph.
Context {P : Type} `{!PtyOps P, !PtyLaws P}.
Abbreviation TP := (P * list PtyEvent)%type.
Abbreviation S := (Session TP).
Abbreviation K := (Kernel TP).

(** The daemon reaches into a leaf ([session_mut]) to read its PTY, take its
    frames and the like; polling and terminating go through the kernel. *)
Definition leaf_step_ok (o : Step) : Prop :=
  match o with WPoll | WTerminate => False | _ => step_ok o end.

Inductive KOp : Type :=
| KCreate (kind : NodeKind) (parent : option Z)
| KAttachLeaf (node leaf : Z)
| KReparent (node : Z) (new_parent : option Z)
| KClose (node : Z)
| KSpawn (spawned : result KernelError (P * Winsize * bool))
| KReap (now id : Z)
| KFrame (now grace id : Z) (f : Frame)
| KTerminate (id : Z)
| KCwd (id : Z)
| KLeaf (id : Z) (o : Step).

(** A session with nobody yet to owe anything to. *)
Definition ghost (s : S) : World :=
  mkWorld s (match child_exit s with Some st => [Exit st] | None => [] end) []
    (data_bytes (outbound s)) (credit s) 0.

Definition spawned_session (x : result KernelError (P * Winsize * bool)) : result KernelError S :=
  match x with Ok (p, sz, eph) => Ok (spawn_configured (p, []) sz eph) | Err e => Err e end.

Definition leaf_step (id : Z) (o : Step) (k : K) : option K :=
  match leaves k !! id with
  | None => Some k
  | Some s => w ← world_step o (ghost s); Some (k <| leaves := <[id := sess w]> (leaves k) |>)
  end.

Definition kernel_step (o : KOp) (k : K) : option K :=
  match o with
  | KCreate kind parent => snd <$> create_node kind parent k
  | KAttachLeaf node leaf => snd <$> attach_leaf node leaf k
  | KReparent node p => snd <$> reparent_node node p k
  | KClose node => snd <$> close_node (Datatypes.S (base.size (nodes k))) node k
  | KSpawn x => snd <$> spawn_leaf_with (spawned_session x) k
  | KReap now id => snd <$> reap now id k
  | KFrame now grace id f => snd <$> kernel_on_frame now grace id f k
  | KTerminate id => snd <$> kernel_terminate id k
  | KCwd id => snd <$> kernel_cwd id k
  | KLeaf id o => leaf_step id o k
  end.

(** Moving a node below itself is the one call that breaks the tree. *)
Definition op_ok (o : KOp) (k : K) : Prop :=
  match o with
  | KReparent node (Some p) => ~ below (nodes k) node p
  | KFrame now grace _ f => step_ok (WFrame now grace f)
  | KLeaf _ o => leaf_step_ok o
  | _ => True
  end.

Inductive kreach : Z -> K -> Prop :=
| kr_new : kreach 0 kernel_new
| kr_step n k k' o : kreach n k -> op_ok o k -> kernel_step o k = Some k' -> kreach (n + 1) k'.

(** ** The invariant *)

Definition events_of (kind : GraphEventKind) (id : Z) (es : list GraphEvent) : list GraphEvent :=
  filter (fun e => ge_session e = id /\ ge_kind e = kind) es.

Definition life_logged (es : list GraphEvent) (id : Z) (o : option S) : Prop :=
  match o with
  | None => Forall (fun e => ge_session e <> id) es
  | Some s =>
      length (events_of GSpawn id es) = 1%nat /\
      (length (events_of GTerminate id es) <= if terminated s then 1 else 0)%nat /\
      length (events_of GExit id es) = match child_exit s with Some _ => 1%nat | None => 0%nat end
  end.

Record graph_ok (k : K) : Prop := {
  go_forest : forest_of (nodes k);
  go_leaves : forall x n s, nodes k !! x = Some n -> s ∈ child_leaves (n_children n) -> is_Some (leaves k !! s);
}.

Record log_ok (k : K) : Prop := {
  lg_ids : map ge_id (kevents k) = map (fun i => Z.min (Z.of_nat i + 1) u64_max) (List.seq 0 (length (kevents k)));
  lg_next : next_event k = Z.min (len (kevents k) + 1) u64_max;
  lg_life : forall id, life_logged (kevents k) id (leaves k !! id);
}.

Record sizes_ok (n : Z) (k : K) : Prop := {
  so_next : id_ok (next k);
  so_next_node : id_ok (next_node k);
  so_leaves : Z.of_nat (base.size (leaves k)) <= n;
  so_nodes : Z.of_nat (base.size (nodes k)) <= n;
  so_sessions : forall id s, leaves k !! id = Some s -> history_ok n s;
}.

Definition kernel_ok (n : Z) (k : K) : Prop := graph_ok k /\ log_ok k /\ sizes_ok n k.

(** ** Sessions inside the kernel *)

Lemma ghost_inv n s : history_ok n s -> inv n (ghost s).
Proof.
  intros H. split; [done|]. split; cbn -[data_bytes]; [done|lia|].
  intros st _ Hst. rewrite Hst. by left.
Qed.

Lemma history_mono n n' (s : S) : n <= n' -> history_ok n s -> history_ok n' s.
Proof. intros Hn []. split; try done; unfold READ_BUF in *; lia. Qed.

(** The session a step leaves is what the session's operation leaves. *)
Lemma frame_keeps n now grace f s :
  history_ok n s -> n < MAX_STEPS -> step_ok (WFrame now grace f) ->
  safe (on_frame now grace f s) (fun '(_, s') => history_ok (n + 1) s').
Proof.
  intros Hh Hn Hok. destruct (frame_inv n (ghost s) now grace f (ghost_inv _ _ Hh) Hn Hok) as (w & E & [Hw _]).
  cbn [world_step ghost sess] in E. destruct (on_frame now grace f s) as [[r s']|]; [|done].
  cbn [mbind option_bind] in E. exists (r, s'). split; [done|].
  assert (sess w = s'); [|congruence].
  destruct f as [| | | |? ? ? []| | | |]; try (by injection E as <-).
  destruct (attached s); by injection E as <-.
Qed.

Lemma run_se_keeps {A} (m : SE S A) n s :
  safe (run_se m (ghost s)) (inv n) -> safe (m s) (fun '(_, s') => history_ok n s').
Proof.
  intros (w & E & [Hw _]). unfold run_se in E. cbn [ghost sess] in E.
  destruct (m s) as [[r s']|]; [|done]. injection E as <-. by exists (r, s').
Qed.

Lemma poll_keeps n now s :
  history_ok n s -> n < MAX_STEPS ->
  safe ((_ ← modify (expire_input_lease_if_due now); poll_child) s) (fun '(_, s') => history_ok (n + 1) s').
Proof.
  intros Hh Hn. apply se_bind_rule, safe_ret. cbn [fst snd].
  destruct (expire_quiet now s) as ([] & Hp & Hpe & _ & Hsq & Hj).
  apply run_se_keeps, poll_inv; [|done]. apply ghost_inv.
  destruct Hh. split; rewrite ?qu_ring, ?qu_delivered, ?qu_credit, ?Hp, ?Hpe, ?Hsq, ?Hj; done.
Qed.

Lemma terminate_keeps n s :
  history_ok n s -> safe (Session.terminate s) (fun '(_, s') => history_ok n s').
Proof.
  intros []. unfold Session.terminate, on_pty. destruct (terminated s); [by apply safe_ret; split|].
  change (pty (s <| terminated := true |>)) with (pty s). destruct (pty s) as [p tr] eqn:Ep.
  cbn -[reads] in *. destruct (pty_terminate p) as [r q]. apply safe_ret. split; cbn -[reads]; done.
Qed.

(** ** Parts of the invariant under updates *)

Lemma graph_leaves k k' :
  graph_ok k -> nodes k' = nodes k ->
  (forall s, is_Some (leaves k !! s) -> is_Some (leaves k' !! s)) -> graph_ok k'.
Proof.
  intros [H1 H2] En Hl. split; rewrite En; [done|]. intros x n s Hx Hs. apply Hl. by eapply H2.
Qed.

Lemma events_of_snoc kind id es e :
  events_of kind id (es ++ [e]) =
  events_of kind id es ++ if decide (ge_session e = id /\ ge_kind e = kind) then [e] else [].
Proof. unfold events_of. rewrite filter_app, filter_cons, filter_nil. by case_decide. Qed.

Lemma events_none kind id es : Forall (fun e => ge_session e <> id) es -> events_of kind id es = [].
Proof.
  unfold events_of. induction 1 as [|e es He _ IH]; [done|]. rewrite filter_cons, decide_False; [done|].
  by intros [? _].
Qed.

Lemma life_other es e id (o : option S) :
  ge_session e <> id -> life_logged es id o -> life_logged (es ++ [e]) id o.
Proof.
  intros Hne. destruct o as [s|]; cbn [life_logged].
  - rewrite !events_of_snoc, !decide_False by (by intros [? _]). by rewrite !app_nil_r.
  - intros H. apply Forall_app. split; [done|]. by constructor.
Qed.

Lemma life_same es id (s s' : S) :
  same_life s s' -> life_logged es id (Some s) -> life_logged es id (Some s').
Proof. unfold same_life, life. intros [= E1 E2]. cbn. by rewrite E1, E2. Qed.

(** The kind of an event that says nothing of the three counted ones. *)
Lemma life_attach es id eid (o : option S) :
  o <> None -> life_logged es id o -> life_logged (es ++ [mkGraphEvent eid id GAttach]) id o.
Proof.
  destruct o as [s|]; [|done]. intros _. cbn [life_logged].
  rewrite !events_of_snoc, !decide_False by (by intros [_ ?]). by rewrite !app_nil_r.
Qed.

Definition ids_ok (k : K) : Prop :=
  map ge_id (kevents k) = map (fun i => Z.min (Z.of_nat i + 1) u64_max) (List.seq 0 (length (kevents k))) /\
  next_event k = Z.min (len (kevents k) + 1) u64_max.

Lemma ids_record id kind k : ids_ok k -> ids_ok (record_event id kind k).
Proof.
  intros [H1 H2]. unfold record_event, ids_ok. cbn. rewrite !map_app, length_app, H1. cbn.
  rewrite Nat.add_1_r, seq_S, map_app, len_app, H2. change (len [_]) with 1. unfold sat_add, len.
  split; [|lia]. f_equal.
Qed.

Lemma log_intro k :
  ids_ok k -> (forall id, life_logged (kevents k) id (leaves k !! id)) -> log_ok k.
Proof. intros [? ?] ?. by split. Qed.

Lemma log_ids k : log_ok k -> ids_ok k.
Proof. intros []. by split. Qed.

Section Put.
Context (n n' : Z) (k : K) (id : Z) (s s' : S).
Context (Hk : kernel_ok n k) (Hs : leaves k !! id = Some s) (Hn : n <= n') (Hh : history_ok n' s').

Lemma put_graph : graph_ok (k <| leaves := <[id := s']> (leaves k) |>).
Proof.
  apply (graph_leaves k); [apply Hk|done|]. intros x Hx. cbn. rewrite lookup_insert. by case_decide.
Qed.

Lemma put_sizes : sizes_ok n' (k <| leaves := <[id := s']> (leaves k) |>).
Proof.
  destruct Hk as (_ & _ & []). split; cbn; try done; [|lia|].
  - rewrite map_size_insert, Hs. cbn. lia.
  - intros x t. rewrite lookup_insert. case_decide; [by intros [= <-]|].
    intros Ht. eapply history_mono; [exact Hn|by eapply so_sessions0].
Qed.

Lemma put_log : same_life s s' -> log_ok (k <| leaves := <[id := s']> (leaves k) |>).
Proof.
  intros Hl. destruct Hk as (_ & Hlog & _). apply log_intro; [by apply log_ids in Hlog|].
  intros x. cbn. rewrite lookup_insert. case_decide as E; [subst|apply Hlog].
  eapply life_same; [done|]. rewrite <- Hs. apply Hlog.
Qed.

Lemma put_ok : same_life s s' -> kernel_ok n' (k <| leaves := <[id := s']> (leaves k) |>).
Proof. intros Hl. split; [apply put_graph|]. split; [by apply put_log|apply put_sizes]. Qed.

(** With one event about the leaf. *)
Lemma put_record kind :
  life_logged (kevents k ++ [mkGraphEvent (next_event k) id kind]) id (Some s') ->
  kernel_ok n' (record_event id kind (k <| leaves := <[id := s']> (leaves k) |>)).
Proof.
  intros Hl. split; [|split].
  - apply (graph_leaves _ _ put_graph); done.
  - apply log_intro; [apply ids_record; destruct Hk as (_ & Hlog & _); by apply log_ids in Hlog|].
    intros x. cbn. rewrite lookup_insert. case_decide as E; [by subst|].
    apply life_other; [done|]. destruct Hk as (_ & Hlog & _). apply Hlog.
  - destruct put_sizes. by split.
Qed.
End Put.

Lemma kernel_ok_mono n n' k : n <= n' -> kernel_ok n k -> kernel_ok n' k.
Proof.
  intros Hn (H1 & H2 & []). split; [done|]. split; [done|]. split; try done; try lia.
  intros id s Hs. eapply history_mono; [exact Hn|]. by eapply so_sessions0.
Qed.

(** ** Terminating leaves *)

Lemma kernel_terminate_eq n k id :
  kernel_ok n k ->
  safe (kernel_terminate id k) (fun '(r, k') =>
    kernel_ok n k' /\ nodes k' = nodes k /\
    (forall x, x <> id -> leaves k' !! x = leaves k !! x) /\
    (forall x s, leaves k !! x = Some s -> terminated s = true -> leaves k' !! x = Some s) /\
    (r = Ok () -> exists s, leaves k' !! id = Some s /\ terminated s = true)).
Proof.
  intros Hk. unfold kernel_terminate. destruct (leaves k !! id) as [s|] eqn:Hs; [|by apply safe_ret].
  destruct (terminated s) eqn:Ht.
  { apply safe_ret. split_and!; try done. intros _. by exists s. }
  destruct (terminate_keeps n s) as ([r s'] & E & Hh).
  { destruct Hk as (_ & _ & Hso). by eapply so_sessions. }
  pose proof (terminate_life _ _ _ E) as [E1 E2].
  unfold on_leaf, mbind, se_bind. rewrite Hs, E. cbn [option_bind].
  assert (Hrest : forall m, (forall x, leaves m !! x = <[id := s']> (leaves k) !! x) ->
    (forall x, x <> id -> leaves m !! x = leaves k !! x) /\
    (forall x t, leaves k !! x = Some t -> terminated t = true -> leaves m !! x = Some t) /\
    (exists t, leaves m !! id = Some t /\ terminated t = true)).
  { intros m Hm. split_and!; intros *; rewrite ?Hm.
    - intros Hx. by rewrite lookup_insert_ne by done.
    - intros Hx Htt. rewrite lookup_insert_ne; [done|]. intros ->. congruence.
    - exists s'. by rewrite lookup_insert_eq. }
  assert (Hl : life_logged (kevents k) id (Some s)) by (rewrite <- Hs; apply Hk).
  destruct r as [[]|e]; apply safe_ret.
  - destruct (Hrest (record_event id GTerminate (k <| leaves := <[id := s']> (leaves k) |>)) ltac:(done))
      as (R1 & R2 & R3). split_and!; try done.
    apply (put_record n n k id s); [done|done|lia|done|]. cbn in *.
    destruct Hl as (L1 & L2 & L3). rewrite Ht in L2.
    rewrite !events_of_snoc. cbn. rewrite !length_app, L1, L3, E1, E2. repeat case_decide; cbn; try naive_solver lia.
  - destruct (Hrest (k <| leaves := <[id := s']> (leaves k) |>) ltac:(done)) as (R1 & R2 & R3).
    split_and!; try done. split; [by eapply put_graph|]. split; [|by eapply put_sizes].
    apply log_intro; [exact (log_ids k (proj1 (proj2 Hk)))|]. intros x. cbn. rewrite lookup_insert.
    case_decide as Ex; [subst|apply (lg_life _ (proj1 (proj2 Hk)))].
    cbn in *. rewrite Ht in Hl. rewrite E1, E2. naive_solver lia.
Qed.

Lemma terminate_all_eq n ids k :
  kernel_ok n k ->
  safe (terminate_all ids k) (fun '(r, k') =>
    kernel_ok n k' /\ nodes k' = nodes k /\
    (forall x, x ∉ ids -> leaves k' !! x = leaves k !! x) /\
    (forall x s, leaves k !! x = Some s -> terminated s = true -> leaves k' !! x = Some s) /\
    (r = Ok () -> forall x, x ∈ ids -> exists s, leaves k' !! x = Some s /\ terminated s = true)).
Proof.
  revert k. induction ids as [|id ids IH]; intros k Hk; cbn [terminate_all].
  { apply safe_ret. split_and!; try done. intros _ x Hx. by apply not_elem_of_nil in Hx. }
  destruct (kernel_terminate_eq n k id Hk) as ([r k1] & E & Hk1 & N1 & F1 & T1 & D1).
  unfold mbind, se_bind. rewrite E. destruct r as [[]|e].
  - destruct (IH k1 Hk1) as ([r2 k2] & E2 & Hk2 & N2 & F2 & T2 & D2). exists (r2, k2). split; [done|].
    split_and!; [done|congruence|..].
    + intros x Hx. apply not_elem_of_cons in Hx as [Hx1 Hx2]. by rewrite F2, F1.
    + intros x s Hx Ht. apply T2; [by apply T1|done].
    + intros Hr x [->|Hx]%elem_of_cons; [|by apply D2]. destruct (D1 eq_refl) as (s & Hs & Ht).
      exists s. split; [by apply T2|done].
  - apply safe_ret. split_and!; try done. intros x Hx. apply F1. set_solver.
Qed.

(** ** The container operations *)

(** Only the containers change. *)
Lemma nodes_ok n n' k k' :
  kernel_ok n k -> n <= n' -> forest_of (nodes k') ->
  (forall x s, s ∈ refs (nodes k') x -> exists y, s ∈ refs (nodes k) y) ->
  leaves k' = leaves k -> kevents k' = kevents k -> next_event k' = next_event k -> next k' = next k ->
  id_ok (next_node k') -> Z.of_nat (base.size (nodes k')) <= n' -> kernel_ok n' k'.
Proof.
  intros ([_ Hgl] & [L1 L2 L3] & []) Hn Hf Hr E1 E2 E3 E4 Hid Hsz. split; [|split].
  - split; [done|]. intros x nd s Hx Hs. rewrite E1.
    destruct (Hr x s) as [y Hy]; [unfold refs; by rewrite Hx|]. unfold refs in Hy.
    destruct (nodes k !! y) as [ny|] eqn:Ey; [by eapply Hgl|by apply not_elem_of_nil in Hy].
  - split; rewrite ?E1, ?E2, ?E3; done.
  - split; rewrite ?E1, ?E4; try done; [lia|]. intros id s Hs. eapply history_mono; [exact Hn|by eapply so_sessions0].
Qed.

Lemma size_insert_le (m : gmap Z ContainerNode) x v :
  (base.size (<[x := v]> m) <= Datatypes.S (base.size m))%nat.
Proof. rewrite map_size_insert. destruct (m !! x); cbn; lia. Qed.

Lemma create_ok n kind parent k :
  kernel_ok n k -> n < MAX_STEPS -> safe (create_node kind parent k) (fun '(_, k') => kernel_ok (n + 1) k').
Proof.
  intros Hk Hn. pose proof Hk as ([Hf Hgl] & _ & Hs). unfold create_node.
  apply safe_if; [intros _; apply safe_ret; by eapply kernel_ok_mono; [|done]; lia|]. intros Hp.
  destruct Hs as [S1 S2 S3 S4 S5].
  eapply safe_bind; [apply alloc_id_eq; [done|unfold MAX_STEPS in *; lia]|].
  intros [id nn] (Hid & Hio & Hno). cbn beta.
  assert (Hrefs : forall nd x s, child_leaves (n_children nd) = [] -> s ∈ refs (<[id := nd]> (nodes k)) x ->
            s ∈ refs (nodes k) x).
  { intros nd x s Hnd. unfold refs. rewrite lookup_insert. case_decide; [|done]. rewrite Hnd.
    by intros Hnil%not_elem_of_nil. }
  destruct parent as [p|].
  - destruct (nodes k !! p) as [pn|] eqn:Ep; [|by rewrite bool_decide_eq_true_2 in Hp].
    cbn [nodes put Prelude.eta kernel_eta]. rewrite lookup_insert_ne by congruence. rewrite Ep.
    apply safe_ret. apply (nodes_ok n _ k); cbn; try done; [lia|by apply forest_create| |].
    + intros x s Hx. exists x. apply (Hrefs (mkNode kind (Some p) []) _ _ eq_refl).
      rewrite (refs_insert p pn) in Hx; [done|rewrite lookup_insert_ne by congruence; done|].
      cbn. rewrite child_leaves_app. apply app_nil_r.
    + rewrite map_size_insert_Some by (rewrite lookup_insert_ne by congruence; by eexists).
      pose proof (size_insert_le (nodes k) id (mkNode kind (Some p) [])). lia.
  - apply safe_ret. apply (nodes_ok n _ k); cbn; try done; [lia|by apply forest_fresh| |].
    + intros x s Hx. exists x. by apply (Hrefs (mkNode kind None []) _ _ eq_refl).
    + pose proof (size_insert_le (nodes k) id (mkNode kind None [])). lia.
Qed.

Lemma attach_leaf_ok n node leaf k :
  kernel_ok n k -> safe (attach_leaf node leaf k) (fun '(_, k') => kernel_ok (n + 1) k').
Proof.
  intros Hk. pose proof (kernel_ok_mono n (n + 1) k ltac:(lia) Hk) as Hk1. unfold attach_leaf.
  apply safe_if; [intros _; by apply safe_ret|]. intros Hl%bool_decide_eq_false.
  destruct (nodes k !! node) as [nd|] eqn:En; [|by apply safe_ret]. apply safe_ret.
  destruct Hk1 as ([Hf Hgl] & Hlog & Hs). split; [|split].
  - split; cbn.
    + eapply forest_ext; [..|exact Hf]; intros x; unfold par, kids; rewrite lookup_insert; case_decide; subst;
        rewrite ?En; cbn; rewrite ?child_nodes_app, ?app_nil_r; done.
    + intros x nx s. rewrite lookup_insert. case_decide; [|by apply Hgl]. intros [= <-]. cbn.
      rewrite child_leaves_app, elem_of_app. intros [Hs'|Hs']; [by eapply Hgl|].
      cbn in Hs'. apply list_elem_of_singleton in Hs' as ->. destruct (leaves k !! leaf); [by eexists|by destruct Hl].
  - destruct Hlog. by split.
  - destruct Hs. split; cbn; try done. rewrite map_size_insert_Some by (by eexists). done.
Qed.

Lemma reparent_ok n node p k :
  kernel_ok n k -> op_ok (KReparent node p) k ->
  safe (reparent_node node p k) (fun '(_, k') => kernel_ok (n + 1) k').
Proof.
  intros Hk Hop. pose proof (kernel_ok_mono n (n + 1) k ltac:(lia) Hk) as Hk1. pose proof Hk as ([Hf _] & _ & Hs).
  unfold reparent_node. apply safe_if; [intros _; by apply safe_ret|]. intros Hn%bool_decide_eq_false.
  apply safe_if; [intros _; by apply safe_ret|]. intros Hp.
  destruct (nodes k !! node) as [nd|] eqn:En; [clear Hn|by destruct Hn]. cbn [mbind option_bind].
  assert (Hself : n_parent nd <> Some node)
    by (pose proof (par_self _ node Hf) as H; unfold par in H; by rewrite En in H).
  assert (Hpn : p <> Some node).
  { intros ->. apply orb_false_iff in Hp as [_ Hp]. by rewrite Z.eqb_refl in Hp. }
  assert (Hm : update_node p (push_child (ChNode node)) (update_node (n_parent nd) (drop_child node) (nodes k)) !! node = Some nd)
    by (rewrite !update_node_lookup, !decide_False by done; done).
  rewrite Hm. apply safe_ret. rewrite reparent_map by done.
  apply (nodes_ok n _ k); cbn; try done; [lia| | |apply Hs|].
  - apply forest_moved; [done| |done]. intros q ->. cbn in Hop. split; [|done].
    apply orb_false_iff in Hp as [Hp _]. apply bool_decide_eq_false in Hp. destruct (nodes k !! q); [by eexists|by destruct Hp].
  - intros x s Hx. exists x. unfold moved in Hx. destruct p as [q|]; [|by rewrite refs_cut in Hx].
    rewrite refs_graft in Hx; [|apply cut_self|congruence]. by rewrite refs_cut in Hx.
  - assert (Hdom : forall x, is_Some (moved node p nd (nodes k) !! x) -> is_Some (nodes k !! x)).
    { intros x. rewrite <- (reparent_map _ _ _ _ En Hself Hpn), lookup_insert.
      case_decide; [subst; intros _; by eexists|]. rewrite !update_node_lookup.
      repeat case_decide; destruct (nodes k !! x); cbn; intros [? ?]; try done; by eexists. }
    assert (base.size (moved node p nd (nodes k)) <= base.size (nodes k))%nat; [|destruct Hs; lia].
    rewrite <- !size_dom. apply subseteq_size. intros x. rewrite !elem_of_dom. apply Hdom.
Qed.

Lemma elem_of_leaves_in l (k : K) s :
  s ∈ leaves_in l k <-> exists x, x ∈ l /\ s ∈ refs (nodes k) x.
Proof.
  unfold leaves_in, refs. rewrite list_elem_of_bind. split; intros (x & H1 & H2); exists x; by split.
Qed.

(** Closing a node: the search ends, the leaves of the subtree are terminated
    one by one, and unless one of them fails the subtree goes. *)
Lemma close_node_eq n node k :
  kernel_ok n k -> is_Some (nodes k !! node) ->
  safe (close_node (Datatypes.S (base.size (nodes k))) node k) (fun '(r, k') =>
    kernel_ok n k' /\
    exists l, (forall x, x ∈ l <-> below (nodes k) node x) /\
      (forall s, s ∉ leaves_in l k -> leaves k' !! s = leaves k !! s) /\
      (r = Ok () -> nodes k' = pruned l node (nodes k) /\
         forall s, s ∈ leaves_in l k -> exists t, leaves k' !! s = Some t /\ terminated t = true) /\
      (r <> Ok () -> nodes k' = nodes k)).
Proof.
  intros Hk Hn. pose proof Hk as ([Hf _] & _ & _). unfold close_node.
  destruct (collect_subtree_eq k node Hf Hn) as (r0 & E0 & l & -> & Hnd & Hl). rewrite E0. cbn [mbind option_bind].
  apply se_bind_rule. eapply safe_mono; [by apply terminate_all_eq|].
  intros [r k1] (Hk1 & N1 & F1 & _ & D1). cbn [fst snd]. destruct r as [[]|e].
  2: { split; [done|]. exists l. split_and!; done. }
  apply safe_ret. split.
  - apply (nodes_ok n _ k1); cbn; try done; [| |apply Hk1|].
    + rewrite N1. by apply forest_pruned.
    + intros x s Hx. exists x. by eapply refs_pruned.
    + assert (base.size (pruned l node (nodes k1)) <= base.size (nodes k1))%nat; [|destruct Hk1 as (_ & _ & []); unfold pruned, par in *; lia].
      rewrite <- !size_dom. apply subseteq_size. intros x. rewrite !elem_of_dom. unfold pruned.
      rewrite fold_delete_lookup. case_decide; [by intros [? ?]|]. rewrite update_node_lookup.
      case_decide; [|done]. destruct (nodes k1 !! x); cbn; [intros; by eexists|by intros [? ?]].
  - exists l. split_and!; try done. intros _. cbn. rewrite N1. split; [done|]. by apply D1.
Qed.

Lemma close_ok n node k :
  kernel_ok n k ->
  safe (close_node (Datatypes.S (base.size (nodes k))) node k) (fun '(_, k') => kernel_ok (n + 1) k').
Proof.
  intros Hk. destruct (nodes k !! node) as [nd|] eqn:En.
  - eapply safe_mono; [apply close_node_eq; [done|by eexists]|]. intros [r k'] (Hk' & _).
    eapply kernel_ok_mono; [|exact Hk']. lia.
  - unfold close_node, collect_subtree. rewrite bool_decide_eq_true_2 by done. apply safe_ret.
    eapply kernel_ok_mono; [|exact Hk]. lia.
Qed.

(** ** The operations on leaves *)

Lemma spawn_ok n x k :
  kernel_ok n k -> n < MAX_STEPS ->
  safe (spawn_leaf_with (spawned_session x) k) (fun '(_, k') => kernel_ok (n + 1) k').
Proof.
  intros Hk Hn. pose proof (kernel_ok_mono n (n + 1) k ltac:(lia) Hk) as (_ & _ & Hs1).
  pose proof Hk as (Hg & Hlog & Hs). unfold spawn_leaf_with, spawned_session.
  destruct x as [[[p sz] eph]|e]; [|apply safe_ret; eapply kernel_ok_mono; [|exact Hk]; lia].
  destruct Hs as [S1 S2 S3 S4 S5].
  eapply safe_bind; [apply alloc_id_eq; [done|unfold MAX_STEPS in *; lia]|].
  intros [id nn] (Hid & Hio & Hno). cbn beta. apply safe_ret. split; [|split].
  - apply (graph_leaves k); [done|done|]. intros s Hsome. cbn. rewrite lookup_insert. by case_decide.
  - apply log_intro; [apply ids_record; by apply log_ids in Hlog|]. intros y. cbn. rewrite lookup_insert.
    pose proof (lg_life _ Hlog y) as Hy. case_decide as E; [subst|by apply life_other].
    rewrite Hid in Hy. cbn in Hy.
    assert (Hnone : forall kd, events_of kd y (kevents k) = []).
    { intros kd. by apply events_none. }
    cbn [life_logged]. rewrite !events_of_snoc, !Hnone. cbn. rewrite decide_True by done.
    rewrite !decide_False by (by intros [_ ?]). cbn. lia.
  - destruct Hs1. split; cbn; try done.
    + rewrite map_size_insert, Hid. cbn. lia.
    + intros y s. rewrite lookup_insert. case_decide; [|by apply so_sessions0]. intros [= <-].
      apply (history_mono 0); [lia|]. apply (world_new_inv p sz eph).
Qed.

Lemma reap_ok n now id k :
  kernel_ok n k -> n < MAX_STEPS -> safe (reap now id k) (fun '(_, k') => kernel_ok (n + 1) k').
Proof.
  intros Hk Hn. pose proof (kernel_ok_mono n (n + 1) k ltac:(lia) Hk) as Hk1.
  unfold reap. apply se_bind_rule. unfold on_leaf. destruct (leaves k !! id) as [s|] eqn:Hs; [|by apply safe_ret].
  assert (Hh : history_ok n s) by (destruct Hk as (_ & _ & []); eauto).
  destruct (poll_keeps n now s Hh Hn) as ([r s'] & E & Hh'). rewrite E. cbn [mbind option_bind]. apply safe_ret.
  cbn [fst snd].
  apply se_bind_inv in E as [([] & s1 & E1 & E)|(e & E1 & ->)]; [|discriminate]. injection E1 as <-.
  pose proof (expire_life now s) as Hl1. apply poll_life in E as [E1 E2].
  unfold same_life, life in Hl1. injection Hl1 as T C. rewrite T in E1. rewrite C in E2.
  assert (Hl : life_logged (kevents k) id (Some s)) by (rewrite <- Hs; apply Hk).
  destruct r as [[]|e]; cbn [fst snd]; apply safe_ret || idtac.
  - apply (put_record n (n + 1) k id s); [done|done|lia|done|]. cbn in *. destruct Hl as (L1 & L2 & L3).
    destruct E2 as [E2 [st E3]]. rewrite E2 in L3. rewrite E3, E1.
    rewrite !events_of_snoc. cbn. rewrite !length_app, L1, L3. repeat case_decide; cbn; naive_solver lia.
  - apply (put_ok n (n + 1) k id s); [done|done|lia|done|]. unfold same_life, life. congruence.
  - apply (put_ok n (n + 1) k id s); [done|done|lia|done|]. unfold same_life, life. congruence.
Qed.

Lemma frame_ok n now grace id f k :
  kernel_ok n k -> n < MAX_STEPS -> step_ok (WFrame now grace f) ->
  safe (kernel_on_frame now grace id f k) (fun '(_, k') => kernel_ok (n + 1) k').
Proof.
  intros Hk Hn Hok. pose proof (kernel_ok_mono n (n + 1) k ltac:(lia) Hk) as Hk1.
  unfold kernel_on_frame. apply se_bind_rule. unfold on_leaf at 1.
  destruct (leaves k !! id) as [s|] eqn:Hs; [|by apply safe_ret].
  assert (Hh : history_ok n s) by (destruct Hk as (_ & _ & []); eauto).
  destruct (frame_keeps n now grace f s Hh Hn Hok) as ([r s'] & E & Hh'). rewrite E. cbn [mbind option_bind].
  apply safe_ret. cbn [fst snd]. pose proof (pres_on_frame now grace f _ _ _ E) as Hl.
  destruct r as [[]|e]; [|by apply (put_ok n (n + 1) k id s); (done || lia)].
  apply se_bind_rule, safe_ret. cbn [fst snd].
  destruct (_ && _); apply safe_ret; [|by apply (put_ok n (n + 1) k id s); (done || lia)].
  apply (put_record n (n + 1) k id s); [done|done|lia|done|]. apply life_attach; [done|].
  eapply life_same; [done|]. rewrite <- Hs. apply Hk.
Qed.

Lemma cwd_ok n id k :
  kernel_ok n k -> n < MAX_STEPS -> safe (kernel_cwd id k) (fun '(_, k') => kernel_ok (n + 1) k').
Proof.
  intros Hk Hn. pose proof (kernel_ok_mono n (n + 1) k ltac:(lia) Hk) as Hk1.
  unfold kernel_cwd, on_leaf. destruct (leaves k !! id) as [s|] eqn:Hs; [|by apply safe_ret].
  assert (Hh : history_ok n s) by (destruct Hk as (_ & _ & []); eauto).
  unfold Session.cwd. destruct (pty_fg_cwd (pty s)) as [path|e]; cbn [mbind option_bind]; apply safe_ret;
    (apply (put_ok n (n + 1) k id s); [done|done|lia| |done]); apply (history_mono n); try lia; [|done].
  destruct Hh. by split.
Qed.

Lemma world_step_life o w w' :
  leaf_step_ok o -> world_step o w = Some w' -> same_life (sess w) (sess w').
Proof.
  assert (Hse : forall {A} (m : SE S A), pres same_life m -> run_se m w = Some w' -> same_life (sess w) (sess w')).
  { intros A m Hm. unfold run_se. destruct (m (sess w)) as [[r s']|] eqn:E; [|done]. intros [= <-]. by eapply Hm. }
  intros Ho E. destruct o as [now grace f|now now' grace nonce bs| |max| | | | | | |rec|]; try done; cbn [world_step] in E.
  - destruct (on_frame now grace f (sess w)) as [[r s']|] eqn:Ef; [|done]. apply pres_on_frame in Ef.
    cbn [mbind option_bind] in E. destruct f as [| | | |? ? ? []| | | |]; try (by injection E as <-).
    destruct (attached (sess w)); by injection E as <-.
  - eapply Hse; [|exact E]. by apply pres_input.
  - destruct (on_pty_readable (sess w)) as [[r s']|] eqn:Ef; [|done]. apply pres_readable in Ef.
    by injection E as <-.
  - eapply Hse; [|exact E]. by apply pres_drain.
  - injection E as <-. cbn. unfold detach, same_life, life.
    destruct (ephemeral _); case_bool_decide; done.
  - unfold pop_outbound in E. destruct (outbound (sess w)); by injection E as <-.
  - injection E as <-. cbn. unfold take_resync_history. by destruct (resync_pending (sess w)).
  - by injection E as <-.
  - eapply Hse; [|exact E]. by apply pres_checkpoint.
  - eapply Hse; [|exact E]. apply pres_cwd.
Qed.

Lemma leaf_step_eq n id o k :
  kernel_ok n k -> n < MAX_STEPS -> leaf_step_ok o -> safe (leaf_step id o k) (kernel_ok (n + 1)).
Proof.
  intros Hk Hn Ho. unfold leaf_step. destruct (leaves k !! id) as [s|] eqn:Hs.
  2: { apply safe_ret. eapply kernel_ok_mono; [|exact Hk]. lia. }
  assert (Hh : history_ok n s) by (destruct Hk as (_ & _ & []); eauto).
  assert (Hso : step_ok o) by (destruct o; done).
  destruct (step_inv n (ghost s) o (ghost_inv _ _ Hh) Hn Hso) as (w & E & [Hw _]).
  rewrite E. apply safe_ret. apply (put_ok n (n + 1) k id s); [done|done|lia|done|].
  by apply (world_step_life o (ghost s) w).
Qed.

Lemma kernel_step_ok n o k :
  kernel_ok n k -> n < MAX_STEPS -> op_ok o k -> safe (kernel_step o k) (kernel_ok (n + 1)).
Proof.
  intros Hk Hn Ho.
  assert (Hsnd : forall A (m : option (result KernelError A * K)),
    safe m (fun '(_, k') => kernel_ok (n + 1) k') -> safe (snd <$> m) (kernel_ok (n + 1))).
  { intros A m ([r k'] & -> & H1). by exists k'. }
  destruct o; cbn [kernel_step]; try apply Hsnd.
  - by apply create_ok.
  - by apply attach_leaf_ok.
  - by apply reparent_ok.
  - by apply close_ok.
  - by apply spawn_ok.
  - by apply reap_ok.
  - by apply frame_ok.
  - eapply safe_mono; [by apply kernel_terminate_eq|]. intros [r k'] (Hk' & _).
    eapply kernel_ok_mono; [|exact Hk']. lia.
  - by apply cwd_ok.
  - by apply leaf_step_eq.
Qed.

Lemma kernel_new_ok : kernel_ok 0 kernel_new.
Proof.
  split; [|split].
  - split; [|done]. split.
    + intros x y. unfold kids, par. cbn. rewrite !lookup_empty. split; [by intros ?%not_elem_of_nil|done].
    + intros x. unfold kids. cbn. rewrite lookup_empty. constructor.
    + intros x Hx. inversion Hx as [? ? E|? ? ? E]; unfold edge, par in E; cbn in E;
        by rewrite lookup_empty in E.
  - split; try done. intros id. cbn. rewrite lookup_empty. constructor.
  - by split.
Qed.

Lemma kreach_ok n k : kreach n k -> 0 <= n /\ (n <= MAX_STEPS -> kernel_ok n k).
Proof.
  induction 1 as [|n k k' o Hr [IH0 IH] Ho E]; [split; [lia|intros _; apply kernel_new_ok]|].
  split; [lia|]. intros Hn. by eapply safe_inv; [apply (kernel_step_ok n o k); [apply IH; lia|lia|done]|].
Qed.
End Graph.

(** ** Properties *)

(** C17. The container tree stays a tree.  In every kernel reached by at most
    2^48 - 2 calls, over any PTYs and none of them moving a node below itself,
    every container is a child exactly of its parent and once, no container is
    its own ancestor, every leaf shown is a leaf the kernel owns; and every next
    such call runs to its end: no panic, the search of a subtree and the search
    for a free id included. *)
Theorem kernel_graph {P} `{!PtyOps P, !PtyLaws P} (n : Z) (k : Kernel (P * list PtyEvent)) (o : KOp) :
  kreach n k -> n < MAX_STEPS -> op_ok o k ->
  forest (par (nodes k)) (kids (nodes k)) /\
  (forall x s, s ∈ refs (nodes k) x -> is_Some (leaves k !! s)) /\
  safe (kernel_step o k) (fun k' => forest (par (nodes k')) (kids (nodes k'))).
Proof.
  intros Hr Hn Ho. destruct (kreach_ok n k Hr) as [_ Hok]. specialize (Hok ltac:(lia)).
  pose proof Hok as ([Hf Hl] & _ & _). split; [done|]. split.
  - intros x s. unfold refs. destruct (nodes k !! x) as [nd|] eqn:E; [by eapply Hl|by intros ?%not_elem_of_nil].
  - eapply safe_mono; [by apply (kernel_step_ok n o k)|]. by intros k' ([] & _).
Qed.

(** C27. Closing a container closes its subtree and nothing else.  In a kernel
    reached by fewer than 2^48 calls, none of which moves a node below itself,
    closing an existing container ends; if every leaf in its subtree can
    be terminated, exactly the containers of the subtree are gone, its parent
    has lost exactly that child, every leaf of the subtree is terminated and
    every other leaf is untouched; if terminating a leaf fails, no container is
    removed and leaves outside the subtree are still untouched. *)
Theorem close_node_exact {P} `{!PtyOps P, !PtyLaws P} (n node : Z) (k : Kernel (P * list PtyEvent)) :
  kreach n k -> n <= MAX_STEPS -> is_Some (nodes k !! node) ->
  safe (close_node (S (base.size (nodes k))) node k) (fun '(r, k') =>
    exists l, (forall x, x ∈ l <-> below (nodes k) node x) /\
      (forall s, s ∉ leaves_in l k -> leaves k' !! s = leaves k !! s) /\
      (r = Ok () ->
         (forall x, nodes k' !! x = if decide (x ∈ l) then None
            else update_node (par (nodes k) node) (drop_child node) (nodes k) !! x) /\
         (forall s, s ∈ leaves_in l k -> exists t, leaves k' !! s = Some t /\ terminated t = true)) /\
      (r <> Ok () -> nodes k' = nodes k)).
Proof.
  intros Hr Hn Hnode. destruct (kreach_ok n k Hr) as [_ Hok]. specialize (Hok Hn).
  eapply safe_mono; [by apply (close_node_eq n)|]. intros [r k'] (_ & l & H1 & H2 & H3 & H4).
  exists l. split_and!; [done|done| |done]. intros E. destruct (H3 E) as [H5 H6]. split; [|done].
  intros x. by rewrite H5, <- fold_delete_lookup.
Qed.

(** C37. The event log tells each leaf's life once.  In every reached kernel
    the events are numbered 1, 2, 3, ... in order (until the last u64 is
    reached); a leaf the kernel owns has exactly one spawn event, one exit event
    exactly when its child's death was observed, and at most one terminate
    event, and that only if it was told to stop; and no event names a leaf the
    kernel does not own. *)
Theorem kernel_log {P} `{!PtyOps P, !PtyLaws P} (n : Z) (k : Kernel (P * list PtyEvent)) :
  kreach n k -> n <= MAX_STEPS ->
  (forall i e, kevents k !! i = Some e -> ge_id e = Z.min (Z.of_nat i + 1) u64_max) /\
  (forall id, life_logged (kevents k) id (leaves k !! id)).
Proof.
  intros Hr Hn. destruct (kreach_ok n k Hr) as [_ Hok]. destruct (Hok Hn) as (_ & [H1 _ H3] & _). split; [|done].
  intros i e Hi. assert (E : map ge_id (kevents k) !! i = Some (ge_id e)) by (rewrite list_lookup_fmap, Hi; done).
  rewrite H1, list_lookup_fmap in E. destruct (List.seq 0 _ !! i) as [j|] eqn:Ej; [|done].
  apply lookup_seq in Ej as [-> _]. cbn in E. congruence.
Qed.

(** Moving a container moves pointers only.  In a reached kernel, moving
    an existing container under one that is not below it succeeds, changes its
    parent and no other container's, keeps every container's kind and leaves and
    the whole subtree under it, and touches no session and no event. *)
Theorem reparent_moves {P} `{!PtyOps P, !PtyLaws P} (n node : Z) (p : option Z) (k : Kernel (P * list PtyEvent)) :
  kreach n k -> n <= MAX_STEPS -> is_Some (nodes k !! node) ->
  (forall q, p = Some q -> is_Some (nodes k !! q) /\ ~ below (nodes k) node q) ->
  safe (reparent_node node p k) (fun '(r, k') =>
    r = Ok () /\ leaves k' = leaves k /\ kevents k' = kevents k /\
    (forall x, par (nodes k') x = if decide (x = node) then p else par (nodes k) x) /\
    (forall x, n_kind <$> nodes k' !! x = n_kind <$> nodes k !! x) /\
    (forall x, refs (nodes k') x = refs (nodes k) x) /\
    (forall x, below (nodes k') node x <-> below (nodes k) node x)).
Proof.
  intros Hr Hn [nd En] Hp. destruct (kreach_ok n k Hr) as [_ Hok]. destruct (Hok Hn) as ([Hf _] & _ & _).
  assert (Hself : n_parent nd <> Some node)
    by (pose proof (par_self _ node Hf) as H; unfold par in H; by rewrite En in H).
  assert (Hpn : p <> Some node) by (intros ->; by destruct (Hp node eq_refl) as [_ []]).
  rewrite (reparent_eq _ _ _ _ En Hself Hpn) by (intros q ->; by apply Hp).
  apply safe_ret. split_and!; try done; intros x; cbn.
  - by apply moved_par.
  - by apply moved_kind.
  - by apply moved_refs.
  - apply moved_below; [done..|]. intros q ->. by apply Hp.
Qed.

(** ** A container moved below itself

    [reparent_node] refuses a missing container and the container itself, but
    not one below it: two containers become each other's parents, and closing
    either never ends, whatever fuel the search is given. *)

Definition cyclic (K : Kernel (list Z)) : option (Kernel (list Z)) :=
  '(_, k) ← create_node Workspace None K;
  '(_, k) ← create_node Tab (Some 1) k;
  '(r, k) ← reparent_node 1 (Some 2) k;
  match r with Ok _ => Some k | Err _ => None end.

Definition cycle_nodes : gmap Z ContainerNode :=
  {[1 := mkNode Workspace (Some 2) [ChNode 2]; 2 := mkNode Tab (Some 1) [ChNode 1]]}.

Lemma cycle_search_diverges fuel out :
  collect_loop fuel cycle_nodes out [1] = None /\ collect_loop fuel cycle_nodes out [2] = None.
Proof.
  revert out. induction fuel as [|fuel IH]; intros out; [done|].
  split; cbn [collect_loop last length pred take app]; [apply (IH (out ++ [2]))|apply (IH (out ++ [1]))].
Qed.

Lemma reparent_cycle_diverges :
  exists k, cyclic kernel_new = Some k /\ forall fuel, close_node fuel 1 k = None.
Proof.
  eexists. split; [vm_compute; reflexivity|]. intros fuel. unfold close_node, collect_subtree.
  rewrite bool_decide_eq_false_2 by (vm_compute; discriminate).
  assert (E : collect_loop fuel cycle_nodes [1] [1] = None) by apply cycle_search_diverges.
  match goal with |- context [collect_loop fuel ?m _ _] => replace m with cycle_nodes by (vm_compute; reflexivity) end.
  by rewrite E.
Qed.

(** ** A small kernel *)

Fixpoint kernel_run (os : list KOp) (k : Kernel (list Z * list PtyEvent)) : option (Kernel (list Z * list PtyEvent)) :=
  match os with [] => Some k | o :: os => k ← kernel_step o k; kernel_run os k end.

(** A call that is fine in any kernel. *)
Definition plain (o : @KOp (list Z)) : Prop := forall k, op_ok o k.

Lemma kernel_run_reach os n k k' :
  kreach n k -> Forall plain os -> kernel_run os k = Some k' -> kreach (n + len os) k'.
Proof.
  intros Hr Hos. revert n k Hr. induction Hos as [|o os Ho Hos IH]; intros n k Hr E; cbn [kernel_run] in E.
  - injection E as <-. by rewrite Z.add_0_r.
  - rewrite len_cons. destruct (kernel_step o k) as [k1|] eqn:E1; [|done].
    replace (n + (1 + len os)) with (n + 1 + len os) by lia.
    by eapply IH; [eapply kr_step; [done|apply Ho|]|].
Qed.

Definition demo_kops : list (@KOp (list Z)) :=
  [ KCreate Workspace None; KCreate Tab (Some 1); KCreate Workspace None;
    KSpawn (Ok (lit "hi", demo_size, false)); KAttachLeaf 2 1;
    KSpawn (Ok (lit "other", demo_size, false)); KAttachLeaf 3 2;
    KFrame 0 100 1 (Attach 7 None 1 false); KFrame 0 100 1 (Credit 100); KLeaf 1 WReadable; KReap 1 1 ].

Definition demo_kernel : Kernel (list Z * list PtyEvent) := default kernel_new (kernel_run demo_kops kernel_new).

Lemma demo_kernel_reach : kreach 11 demo_kernel.
Proof.
  apply (kernel_run_reach demo_kops 0 kernel_new); [constructor| |vm_compute; reflexivity].
  unfold demo_kops. repeat (apply Forall_cons; split; [intros k; cbn; try exact I; num|]). by apply Forall_nil.
Qed.

Example demo_kernel_log :
  map (fun e => (ge_id e, ge_session e, ge_kind e)) (kevents demo_kernel) =
  [(1, 1, GSpawn); (2, 2, GSpawn); (3, 1, GAttach); (4, 1, GExit)].
Proof. vm_compute. reflexivity. Qed.

Lemma kernel_graph_witness :
  kreach 11 demo_kernel /\ 11 < MAX_STEPS /\ op_ok (KClose 1) demo_kernel /\
  forest (par (nodes demo_kernel)) (kids (nodes demo_kernel)) /\
  (forall x s, s ∈ refs (nodes demo_kernel) x -> is_Some (leaves demo_kernel !! s)) /\
  safe (kernel_step (KClose 1) demo_kernel) (fun k' => forest (par (nodes k')) (kids (nodes k'))).
Proof.
  split; [exact demo_kernel_reach|]. split; [reflexivity|]. split; [exact I|].
  apply (kernel_graph 11 demo_kernel (KClose 1) demo_kernel_reach); [reflexivity|exact I].
Defined.

Lemma close_node_exact_witness :
  kreach 11 demo_kernel /\ 11 <= MAX_STEPS /\ is_Some (nodes demo_kernel !! 1) /\
  safe (close_node (S (base.size (nodes demo_kernel))) 1 demo_kernel) (fun '(r, k') =>
    exists l, (forall x, x ∈ l <-> below (nodes demo_kernel) 1 x) /\
      (forall s, s ∉ leaves_in l demo_kernel -> leaves k' !! s = leaves demo_kernel !! s) /\
      (r = Ok () ->
         (forall x, nodes k' !! x = if decide (x ∈ l) then None
            else update_node (par (nodes demo_kernel) 1) (drop_child 1) (nodes demo_kernel) !! x) /\
         (forall s, s ∈ leaves_in l demo_kernel -> exists t, leaves k' !! s = Some t /\ terminated t = true)) /\
      (r <> Ok () -> nodes k' = nodes demo_kernel)).
Proof.
  split; [exact demo_kernel_reach|]. split; [discriminate|].
  assert (H : is_Some (nodes demo_kernel !! 1)) by (eexists; vm_compute; reflexivity).
  split; [exact H|]. apply (close_node_exact 11 1 demo_kernel demo_kernel_reach); [discriminate|exact H].
Defined.

(** Only the subtree's own leaf dies. *)
Example demo_close :
  ('(_, k) ← close_node 9 1 demo_kernel;
   Some (map fst (map_to_list (nodes k)), terminated <$> leaves k !! 1, terminated <$> leaves k !! 2)) =
  Some ([3], Some true, Some false).
Proof. vm_compute. reflexivity. Qed.

Lemma kernel_log_witness :
  kreach 11 demo_kernel /\ 11 <= MAX_STEPS /\
  (forall i e, kevents demo_kernel !! i = Some e -> ge_id e = Z.min (Z.of_nat i + 1) u64_max) /\
  (forall id, life_logged (kevents demo_kernel) id (leaves demo_kernel !! id)).
Proof.
  split; [exact demo_kernel_reach|]. split; [discriminate|].
  apply (kernel_log 11 demo_kernel demo_kernel_reach). discriminate.
Defined.

Lemma demo_not_below : ~ below (nodes demo_kernel) 2 3.
Proof.
  intros H. apply rtc_inv_r in H as [H|(z & _ & Hz)]; [discriminate|]. vm_compute in Hz. discriminate.
Qed.

Lemma reparent_moves_witness :
  kreach 11 demo_kernel /\ 11 <= MAX_STEPS /\ is_Some (nodes demo_kernel !! 2) /\
  (forall q, Some 3 = Some q -> is_Some (nodes demo_kernel !! q) /\ ~ below (nodes demo_kernel) 2 q) /\
  safe (reparent_node 2 (Some 3) demo_kernel) (fun '(r, k') =>
    r = Ok () /\ leaves k' = leaves demo_kernel /\ kevents k' = kevents demo_kernel /\
    (forall x, par (nodes k') x = if decide (x = 2) then Some 3 else par (nodes demo_kernel) x) /\
    (forall x, n_kind <$> nodes k' !! x = n_kind <$> nodes demo_kernel !! x) /\
    (forall x, refs (nodes k') x = refs (nodes demo_kernel) x) /\
    (forall x, below (nodes k') 2 x <-> below (nodes demo_kernel) 2 x)).
Proof.
  assert (H1 : is_Some (nodes demo_kernel !! 2)) by (eexists; vm_compute; reflexivity).
  assert (H2 : forall q, Some 3 = Some q -> is_Some (nodes demo_kernel !! q) /\ ~ below (nodes demo_kernel) 2 q).
  { intros q E. injection E as <-. split; [eexists; vm_compute; reflexivity|exact demo_not_below]. }
  split; [exact demo_kernel_reach|]. split; [discriminate|]. split; [exact H1|]. split; [exact H2|].
  apply (reparent_moves 11 2 (Some 3) demo_kernel demo_kernel_reach); [discriminate|exact H1|exact H2].
Defined.
