(* ===== verification/Socket.v ===== *)
(** Non-blocking sockets and the queues of bytes in front of them:
    [write_outbox] of crates/rilld/src/lib.rs and [flush_outbox] of
    crates/rill-host/src/lib.rs.

    The socket is an interface ([SockOps]); what read(2) and write(2) promise is
    [SockLaws].  A [VecDeque] hands out its content as two slices, of which only
    the concatenation is fixed: where the cut lies belongs to the environment. *)
From S2P Require Import Prelude Effect.

Local Open Scope Z_scope.

(** [std::io::Error] by kind: [WouldBlock] or another, carried as its code. *)
Inductive IoError : Type :=
| WouldBlock
| IoCode (code : Z).

Class SockOps (K : Type) := {
  sock_read : Z -> K -> result IoError (list Z) * K;
  sock_write : list Z -> K -> result IoError Z * K;
  as_slices : list Z -> K -> list Z * list Z;
}.

Class SockLaws (K : Type) `{!SockOps K} : Prop := {
  sock_read_fits : forall n k bs k', 0 <= n -> sock_read n k = (Ok bs, k') -> len bs <= n /\ bytes bs;
  sock_write_fits : forall bs k n k', sock_write bs k = (Ok n, k') -> 0 <= n <= len bs;
  as_slices_app : forall q k, fst (as_slices q k) ++ snd (as_slices q k) = q;
}.

Section Outbox.
Context {K : Type} `{!SockOps K}.

(** [outbox.drain(..n)] panics past the end. *)
Definition drain_to (n : Z) (q : list Z) : option (list Z) := slice q n (len q).

(** The loop of [write_outbox]; [slices] chooses what is offered to the socket.
    The outer [None] is a panic or running out of fuel; every turn that goes on
    writes at least one byte, so the length of the queue is enough
    ([write_loop_eq]). *)
Fixpoint write_loop (slices : list Z -> K -> list Z) (fuel : nat) (outbox : list Z) (k : K)
  : option (result Z () * list Z * K) :=
  match fuel with
  | O => None
  | S fuel =>
      if len outbox =? 0 then Some (Ok (), outbox, k)
      else
        let '(r, k') := sock_write (slices outbox k) k in
        match r with
        | Ok n =>
            if n =? 0 then Some (Ok (), outbox, k')
            else outbox ← drain_to n outbox; write_loop slices fuel outbox k'
        | Err WouldBlock => Some (Ok (), outbox, k')
        | Err (IoCode e) => Some (Err e, outbox, k')
        end
  end.

(** The daemon offers the front slice, or the back one. *)
Definition daemon_slice (q : list Z) (k : K) : list Z :=
  let '(front, back) := as_slices q k in
  if negb (len front =? 0) then front else back.
Definition write_outbox (outbox : list Z) (k : K) : option (result Z () * list Z * K) :=
  write_loop daemon_slice (S (length outbox)) outbox k.

(** The host offers the front slice, or a copy of the whole queue. *)
Definition host_slice (q : list Z) (k : K) : list Z :=
  let '(front, _) := as_slices q k in
  if len front =? 0 then q else front.
Definition flush_outbox (outbox : list Z) (k : K) : option (result Z () * list Z * K) :=
  write_loop host_slice (S (length outbox)) outbox k.
End Outbox.

(** ** A socket that remembers *)

Inductive SockEvent : Type :=
| SRead (bs : list Z)
| SWrote (bs : list Z).

Definition wrote (tr : list SockEvent) : list Z :=
  concat (map (fun e => match e with SWrote bs => bs | SRead _ => [] end) tr).
Definition read_in (tr : list SockEvent) : list Z :=
  concat (map (fun e => match e with SRead bs => bs | SWrote _ => [] end) tr).

Lemma wrote_snoc tr bs : wrote (tr ++ [SWrote bs]) = wrote tr ++ bs.
Proof. unfold wrote. rewrite map_app, concat_app. cbn. by rewrite app_nil_r. Qed.

Lemma wrote_read tr bs : wrote (tr ++ [SRead bs]) = wrote tr.
Proof. unfold wrote. rewrite map_app, concat_app. cbn. by rewrite app_nil_r. Qed.

Lemma read_in_snoc tr bs : read_in (tr ++ [SRead bs]) = read_in tr ++ bs.
Proof. unfold read_in. rewrite map_app, concat_app. cbn. by rewrite app_nil_r. Qed.

Lemma read_in_wrote tr bs : read_in (tr ++ [SWrote bs]) = read_in tr.
Proof. unfold read_in. rewrite map_app, concat_app. cbn. by rewrite app_nil_r. Qed.

#[export] Instance traced_sock {K} `{!SockOps K} : SockOps (K * list SockEvent) := {|
  sock_read n kt :=
    let '(r, k) := sock_read n (fst kt) in
    (r, (k, match r with Ok bs => snd kt ++ [SRead bs] | Err _ => snd kt end));
  sock_write bs kt :=
    let '(r, k) := sock_write bs (fst kt) in
    (r, (k, match r with Ok n => snd kt ++ [SWrote (take (Z.to_nat n) bs)] | Err _ => snd kt end));
  as_slices q kt := as_slices q (fst kt);
|}.

#[export] Instance traced_sock_laws {K} `{!SockOps K, !SockLaws K} : SockLaws (K * list SockEvent).
Proof.
  split.
  - intros n [k tr] bs [k' tr'] Hn. cbn. destruct (sock_read n k) as [r k1] eqn:E.
    intros [= -> -> _]. by eapply sock_read_fits.
  - intros bs [k tr] n [k' tr']. cbn. destruct (sock_write bs k) as [r k1] eqn:E.
    intros [= -> -> _]. by eapply sock_write_fits.
  - intros q [k tr]. exact (as_slices_app q k).
Qed.

Section Written.
Context {K : Type} `{!SockOps K, !SockLaws K}.
Abbreviation T := (K * list SockEvent)%type.

(** A choice of slice is sound when it offers a front of the queue that is not
    empty. *)
Definition front_slice (slices : list Z -> T -> list Z) : Prop :=
  forall q k, q <> [] -> exists rest, q = slices q k ++ rest /\ slices q k <> [].

Lemma daemon_slice_front : front_slice daemon_slice.
Proof.
  intros q k Hq. unfold daemon_slice. pose proof (as_slices_app q k) as Happ.
  destruct (as_slices q k) as [f b]. cbn in Happ. subst q. destruct (Z.eqb_spec (len f) 0) as [Hz|Hz]; cbn [negb].
  - destruct f; [|rewrite len_cons in Hz; pose proof (len_nonneg f); lia]. exists []. by rewrite app_nil_r.
  - exists b. split; [done|]. by intros ->.
Qed.

Lemma host_slice_front : front_slice host_slice.
Proof.
  intros q k Hq. unfold host_slice. pose proof (as_slices_app q k) as Happ.
  destruct (as_slices q k) as [f b]. cbn in Happ. destruct (Z.eqb_spec (len f) 0) as [Hz|Hz].
  - exists []. by rewrite app_nil_r.
  - exists b. split; [done|]. by intros ->.
Qed.

(** What a flush does: it writes a front of the queue and keeps the rest. *)
Definition flushed (q : list Z) (k : T) (out : result Z () * list Z * T) : Prop :=
  let '(_, q', k') := out in
  wrote (snd k') ++ q' = wrote (snd k) ++ q /\ read_in (snd k') = read_in (snd k)
  /\ exists n, q' = drop n q.

Lemma write_loop_eq slices fuel q k : front_slice slices -> (length q < fuel)%nat ->
  safe (write_loop slices fuel q k) (flushed q k).
Proof.
  intros Hs. revert q k. induction fuel as [|fuel IH]; intros q k Hf; [lia|]. cbn [write_loop].
  destruct (Z.eqb_spec (len q) 0) as [Hz|Hz]; [apply safe_ret; split_and!; [done|done|by exists 0%nat]|].
  destruct (Hs q k) as (rest & Hq & Hne); [by intros ->|]. set (sl := slices q k) in *. clearbody sl.
  destruct k as [k tr]. cbn. destruct (sock_write sl k) as [r k'] eqn:E.
  destruct r as [n|[|e]]; [|apply safe_ret; split_and!; [done|done|by exists 0%nat]..].
  pose proof (sock_write_fits _ _ _ _ E) as Hn.
  assert (Hw : wrote (tr ++ [SWrote (take (Z.to_nat n) sl)]) = wrote tr ++ take (Z.to_nat n) q).
  { rewrite wrote_snoc. f_equal. rewrite Hq. rewrite take_app_le; [done|]. unfold len in Hn. lia. }
  assert (Hlq : len q = len sl + len rest) by (rewrite Hq at 1; apply len_app). pose proof (len_nonneg rest).
  destruct (Z.eqb_spec n 0) as [->|Hn0].
  { apply safe_ret. unfold flushed. cbn [snd]. split_and!; [|by rewrite read_in_wrote|by exists 0%nat].
    rewrite Hw, take_0, app_nil_r. done. }
  unfold drain_to, slice. rewrite (proj2 (in_range_iff _ _ _)) by lia. cbn [mbind option_bind].
  rewrite take_ge by (rewrite length_drop; unfold len; lia).
  eapply safe_mono; [apply IH; rewrite length_drop; unfold len in *; lia|].
  intros [[r q'] [k2 tr2]] (H1 & H2 & m & ->). unfold flushed. cbn [snd] in *. split_and!.
  - rewrite H1, Hw, <- app_assoc, take_drop. done.
  - by rewrite H2, read_in_wrote.
  - exists (Z.to_nat n + m)%nat. by rewrite drop_drop.
Qed.

Lemma write_outbox_eq q k : safe (write_outbox q k) (flushed q k).
Proof. apply write_loop_eq; [apply daemon_slice_front|lia]. Qed.

Lemma flush_outbox_eq q k : safe (flush_outbox q k) (flushed q k).
Proof. apply write_loop_eq; [apply host_slice_front|lia]. Qed.
End Written.

(** ** A socket from a script

    [rx] is what the peer has sent, read by read; [accepts] how much each write
    takes, one byte when it runs out. *)
Record Script := mkScript { rx : list (list Z); accepts : list Z }.

#[export] Instance script_sock : SockOps Script := {|
  sock_read n k :=
    match rx k with
    | [] => (Err WouldBlock, k)
    | c :: cs =>
        (Ok (take (Z.to_nat n) (map (fun b => b mod 256) c)),
         mkScript (if n <? len c then drop (Z.to_nat n) c :: cs else cs) (accepts k))
    end;
  sock_write bs k :=
    match accepts k with
    | [] => (Ok (Z.min 1 (len bs)), k)
    | a :: accs => (Ok (Z.min (Z.max a 0) (len bs)), mkScript (rx k) accs)
    end;
  as_slices q k := (take 3 q, drop 3 q);
|}.

#[export] Instance script_sock_laws : SockLaws Script.
Proof.
  split.
  - intros n k bs k' Hn. cbn. destruct (rx k) as [|c cs]; [done|]. intros [= <- _]. rewrite len_take.
    pose proof (len_nonneg (map (fun b => b mod 256) c)). split; [lia|]. apply Forall_take, Forall_map, Forall_forall.
    intros b _. cbn. pose proof (Z.mod_pos_bound b 256). num.
  - intros bs k n k'. cbn. pose proof (len_nonneg bs). destruct (accepts k) as [|a accs]; intros [= <- _]; lia.
  - intros q k. apply take_drop.
Qed.
