(* ===== verification/Viewport.v ===== *)
(** The host's viewport, crates/rill-host/src/scroll.rs: rows that scrolled off
    the engine's grid are kept by the host, and what is painted is a window of
    them and the live grid. *)
From S2P Require Import Prelude VtTypes.

Local Open Scope Z_scope.

Definition MAX_HISTORY_ROWS : Z := 10000.

(** [history.remove(0)] of a vector that is not empty. *)
Fixpoint ingest_scrolled (history : list (list PodCell)) (rows : list (list PodCell))
  : list (list PodCell) :=
  match rows with
  | [] => history
  | row :: rows =>
      let history := history ++ [row] in
      let history := if MAX_HISTORY_ROWS <? len history then drop 1 history else history in
      ingest_scrolled history rows
  end.

(** [history_len as u32] keeps the low 32 bits. *)
Definition clamp_offset (history_len live_rows offset : Z) : Z :=
  Z.min offset (history_len mod 2 ^ 32).

Definition follow_live_after_input (offset : Z) : Z := 0.

Definition mark_full_if_viewport_jumped (grid : PodGrid) (jumped : bool) : PodGrid :=
  if jumped then grid <| pg_full_damage := true |> else grid.

(** The rows of the live grid, as slices of its cells. *)
Definition live_stack (live : PodGrid) : option (list (list PodCell)) :=
  for_each (range 0 (pg_rows live)) (fun r stack =>
    let cols := pg_cols live in
    let start := r * cols in
    if start + cols <=? len (pg_cells live) then
      row ← slice (pg_cells live) start (start + cols);
      Some (stack ++ [row])
    else Some stack) [].

(** One row of the view: cut or padded to [cols]. *)
Definition view_row (cols : Z) (blank : PodCell) (o : option (list PodCell)) : option (list PodCell) :=
  match o with
  | Some row =>
      if cols <=? len row then slice row 0 cols
      else Some (row ++ replicate (Z.to_nat (cols - len row)) blank)
  | None => Some (replicate (Z.to_nat cols) blank)
  end.

Definition compose_viewport (history : list (list PodCell)) (live : PodGrid) (offset : Z)
  : option PodGrid :=
  if (offset =? 0) || (len history =? 0) then Some live
  else
    let cols := pg_cols live in
    let rows := pg_rows live in
    lower ← live_stack live;
    let stack := history ++ lower in
    let off := clamp_offset (len history) rows offset in
    let end_ := sat_sub (len stack) off in
    let start := sat_sub end_ rows in
    let blank := mkPodCell 32 (pg_default_fg live) (pg_default_bg live) 0 0 in
    cells ← for_each (range start (start + rows)) (fun i cells =>
      row ← view_row cols blank (zget stack i);
      Some (cells ++ row)) [];
    Some (mkPodGrid (pg_cols live) rows (pg_cursor_col live) (pg_cursor_row live)
            ((offset =? 0) && pg_cursor_visible live) true 0 (sat_sub rows 1)
            (pg_default_fg live) (pg_default_bg live) (pg_grapheme_truncated live)
            (pg_replies_dropped live) cells).

(** ** What the history holds *)

Lemma safe_exact {A} (o : option A) a : safe o (fun x => x = a) -> o = Some a.
Proof. by intros (x & -> & ->). Qed.

Lemma ingest_eq rows history :
  len history <= MAX_HISTORY_ROWS ->
  ingest_scrolled history rows
  = drop (Z.to_nat (len history + len rows - MAX_HISTORY_ROWS)) (history ++ rows).
Proof.
  assert (HM : 0 < MAX_HISTORY_ROWS) by done. revert history. induction rows as [|row rows IH]; intros history Hh; cbn [ingest_scrolled].
  { rewrite app_nil_r, len_nil. by replace (Z.to_nat _) with 0%nat by lia. }
  rewrite len_cons. pose proof (len_nonneg rows). case_if.
  - rewrite len_app in *. change (len [row]) with 1 in *. rewrite IH.
    2:{ rewrite len_drop, len_app. change (len [row]) with 1. lia. }
    rewrite len_drop, len_app. change (len [row]) with 1.
    rewrite <- drop_app_le by (rewrite length_app; unfold len in *; cbn; lia).
    rewrite drop_drop, <- app_assoc. f_equal. lia.
  - rewrite len_app in *. change (len [row]) with 1 in *. rewrite IH by (rewrite len_app; change (len [row]) with 1; lia).
    rewrite len_app, <- app_assoc. change (len [row]) with 1. cbn [app]. f_equal. lia.
Qed.

Lemma ingest_len rows history :
  len history <= MAX_HISTORY_ROWS -> len (ingest_scrolled history rows) <= MAX_HISTORY_ROWS.
Proof. intros H. rewrite ingest_eq, len_drop, len_app by done. assert (0 < MAX_HISTORY_ROWS) by done. lia. Qed.

(** ** What is painted *)

Definition grid_ok (g : PodGrid) : Prop :=
  0 <= pg_cols g /\ 0 <= pg_rows g /\ len (pg_cells g) = pg_cols g * pg_rows g.

(** A grid's row, cell by cell. *)
Definition live_row (live : PodGrid) (r : Z) : list PodCell :=
  take (Z.to_nat (pg_cols live)) (drop (Z.to_nat (r * pg_cols live)) (pg_cells live)).

Lemma live_stack_eq live : grid_ok live ->
  live_stack live = Some (map (live_row live) (range 0 (pg_rows live))).
Proof.
  intros (Hc & Hr & Hl). unfold live_stack.
  apply safe_exact. apply (for_range _ (fun i stack => stack = map (live_row live) (range 0 i))); [done|done|].
  intros i s Hi ->. cbn zeta. rewrite (proj2 (Z.leb_le _ _)) by (rewrite Hl; nia).
  unfold slice. rewrite (proj2 (in_range_iff _ _ _)) by (rewrite Hl; nia). cbn [mbind option_bind].
  apply safe_ret. unfold range. replace (i + 1 - 0) with (Z.succ i) by lia.
  replace (Z.succ i) with (Z.of_nat (S (Z.to_nat i))) by lia. rewrite seqZ_S, map_app.
  f_equal; [f_equal; f_equal; lia|]. cbn. unfold live_row. do 3 f_equal; lia.
Qed.

(** A row as wide as the view. *)
Definition fit_row (cols : Z) (blank : PodCell) (row : list PodCell) : list PodCell :=
  take (Z.to_nat cols) (row ++ replicate (Z.to_nat (cols - len row)) blank).

Lemma view_row_eq cols blank row : 0 <= cols ->
  view_row cols blank (Some row) = Some (fit_row cols blank row).
Proof.
  intros Hc. cbn [view_row]. unfold fit_row. case_if.
  - unfold slice. rewrite (proj2 (in_range_iff _ _ _)) by lia. f_equal. rewrite drop_0, Z.sub_0_r.
    replace (Z.to_nat (cols - len row)) with 0%nat by lia. by rewrite app_nil_r.
  - f_equal. rewrite take_ge; [done|]. rewrite length_app, length_replicate. unfold len in *. lia.
Qed.

Lemma len_fit_row cols blank row : 0 <= cols -> len (fit_row cols blank row) = cols.
Proof.
  intros Hc. unfold fit_row. rewrite len_take, len_app, len_replicate. pose proof (len_nonneg row). lia.
Qed.

Definition blank_of (g : PodGrid) : PodCell := mkPodCell 32 (pg_default_fg g) (pg_default_bg g) 0 0.

Lemma zget_live_rows live i : 0 <= i < pg_rows live ->
  zget (map (live_row live) (range 0 (pg_rows live))) i = Some (live_row live i).
Proof.
  intros Hi. rewrite zget_map. unfold range, zget. rewrite (proj2 (Z.leb_le _ _)) by lia.
  rewrite lookup_seqZ_lt by lia. cbn. do 2 f_equal. lia.
Qed.

(** The loop that builds the cells, over any stack of enough rows. *)
Lemma compose_cells_eq cols blank stack start rows :
  0 <= cols -> 0 <= start -> 0 <= rows -> start + rows <= len stack ->
  for_each (range start (start + rows)) (fun i cells =>
    row ← view_row cols blank (zget stack i); Some (cells ++ row)) []
  = Some (concat (map (fit_row cols blank) (take (Z.to_nat rows) (drop (Z.to_nat start) stack)))).
Proof.
  intros Hc Hs Hr Hl.
  apply safe_exact. replace (Z.to_nat rows) with (Z.to_nat (start + rows - start)) by lia.
  apply (for_range _ (fun i cells =>
    cells = concat (map (fit_row cols blank) (take (Z.to_nat (i - start)) (drop (Z.to_nat start) stack))))); [lia| |].
  - by rewrite Z.sub_diag.
  - intros i s Hi ->. destruct (zget_in stack i) as [row Hrow]; [lia|]. rewrite Hrow, view_row_eq by done.
    cbn [mbind option_bind]. apply safe_ret.
    replace (Z.to_nat (i + 1 - start)) with (S (Z.to_nat (i - start))) by lia.
    rewrite (take_S_r _ _ row).
    + rewrite map_app, concat_app. cbn. by rewrite app_nil_r.
    + rewrite lookup_drop. unfold zget in Hrow. rewrite (proj2 (Z.leb_le _ _)) in Hrow by lia.
      rewrite <- Hrow. f_equal. lia.
Qed.

(** The row of the combined history that the view shows in its row [r]. *)
Definition shown (history : list (list PodCell)) (live : PodGrid) (offset r : Z) : list PodCell :=
  let i := len history - Z.min offset (len history) + r in
  if i <? len history then default [] (zget history i) else live_row live (i - len history).

Lemma compose_eq history live offset :
  grid_ok live -> 0 < offset -> 0 < len history < 2 ^ 32 ->
  exists view, compose_viewport history live offset = Some view /\
    pg_cells view = concat (map (fun r => fit_row (pg_cols live) (blank_of live) (shown history live offset r))
                              (range 0 (pg_rows live))) /\
    pg_cols view = pg_cols live /\ pg_rows view = pg_rows live /\
    pg_full_damage view = true /\ pg_cursor_visible view = false.
Proof.
  intros Hg Ho Hh. pose proof Hg as (Hc & Hr & Hl). unfold compose_viewport.
  rewrite (proj2 (orb_false_iff _ _)) by lia. rewrite live_stack_eq by done. cbn [mbind option_bind].
  assert (Hlow : len (map (live_row live) (range 0 (pg_rows live))) = pg_rows live).
  { unfold len, range. rewrite length_map, length_seqZ. lia. }
  set (lower := map _ _) in *. unfold clamp_offset. rewrite Z.mod_small by lia.
  set (off := Z.min offset (len history)). unfold sat_sub. rewrite len_app, Hlow.
  replace (Z.max (Z.max (len history + pg_rows live - off) 0 - pg_rows live) 0) with (len history - off) by lia.
  rewrite compose_cells_eq by (rewrite ?len_app, ?Hlow; lia). cbn [mbind option_bind].
  eexists. split; [done|]. cbn. split_and!; try done; [|by rewrite (proj2 (Z.eqb_neq _ _)) by lia].
  fold (blank_of live). rewrite <- (map_map (shown history live offset)). do 2 f_equal.
  apply zget_ext.
  { rewrite len_take, len_drop, len_app, Hlow. unfold len at 3. unfold range.
    rewrite length_map, length_seqZ. lia. }
  intros r Hrr. rewrite len_take, len_drop, len_app, Hlow in Hrr.
  rewrite zget_take, zget_drop, zget_map by lia. case_if; [|lia].
  assert (zget (range 0 (pg_rows live)) r = Some r) as ->.
  { unfold zget, range. rewrite (proj2 (Z.leb_le _ _)) by lia. rewrite lookup_seqZ_lt by lia. f_equal. lia. }
  cbn. unfold shown. fold off. rewrite zget_app.
  replace (Z.of_nat (Z.to_nat (len history - off)) + r) with (len history - off + r) by lia.
  case_if.
  - destruct (zget_in history (len history - off + r)) as [row ->]; [lia|]. done.
  - apply zget_live_rows. lia.
Qed.

(** The newest rows of everything handed over so far. *)
Definition newest (all : list (list PodCell)) : list (list PodCell) :=
  drop (Z.to_nat (len all - MAX_HISTORY_ROWS)) all.

Lemma newest_len all : len (newest all) <= MAX_HISTORY_ROWS.
Proof. unfold newest. rewrite len_drop. assert (0 < MAX_HISTORY_ROWS) by done. lia. Qed.

Lemma ingest_newest all rows : ingest_scrolled (newest all) rows = newest (all ++ rows).
Proof.
  rewrite ingest_eq by apply newest_len. unfold newest at 2 3. pose proof (len_nonneg all). pose proof (len_nonneg rows).
  assert (0 < MAX_HISTORY_ROWS) by done.
  rewrite <- drop_app_le by (unfold len in *; lia). unfold newest.
  rewrite drop_drop, len_drop, len_app. f_equal. unfold len in *. lia.
Qed.

Lemma ingest_all batches all :
  fold_left ingest_scrolled batches (newest all) = newest (all ++ concat batches).
Proof.
  revert all. induction batches as [|b batches IH]; intros all; cbn; [by rewrite app_nil_r|].
  by rewrite ingest_newest, IH, <- app_assoc.
Qed.

Lemma len_rows cols f (rs : list Z) :
  (forall r, len (f r) = cols) -> len (concat (map f rs) : list PodCell) = cols * len rs.
Proof.
  intros Hf. induction rs as [|r rs IH]; cbn; [change (len (@nil PodCell)) with 0; change (len (@nil Z)) with 0; lia|].
  rewrite len_app, len_cons, Hf, IH. lia.
Qed.

(** Scrollback: however the engine hands over the rows that left its grid,
    the host keeps the newest 10,000 of them in order; a view at an offset above
    zero shows, row by row, the window of that history and the live grid that
    ends so many rows above the live tail, cut or padded to the grid's width,
    with no cursor and fully damaged; at offset zero it is the live grid. *)
Theorem scrollback_window (batches : list (list (list PodCell))) (live : PodGrid) (offset : Z)
    (Hlive : grid_ok live) (Hoff : 0 <= offset) :
  let history := fold_left ingest_scrolled batches [] in
  history = newest (concat batches) /\
  exists view, compose_viewport history live offset = Some view /\ grid_ok view /\
    (offset = 0 \/ history = [] -> view = live) /\
    (0 < offset -> history <> [] ->
      pg_cells view = concat (map (fun r => fit_row (pg_cols live) (blank_of live) (shown history live offset r))
                                (range 0 (pg_rows live))) /\
      pg_full_damage view = true /\ pg_cursor_visible view = false).
Proof.
  intros history. assert (Hh : history = newest (concat batches)) by apply (ingest_all batches []).
  split; [done|]. pose proof (newest_len (concat batches)) as Hn. rewrite <- Hh in Hn.
  assert (MAX_HISTORY_ROWS < 2 ^ 32) by done. pose proof (len_nonneg history). destruct Hlive as (Hc & Hr & Hl).
  destruct (decide (offset = 0 \/ len history = 0)) as [Hz|Hz].
  - exists live. unfold compose_viewport. rewrite (proj2 (orb_true_iff _ _)) by lia.
    split_and!; [done|by split|done|]. intros Ho Hne. destruct history; [done|]. rewrite len_cons in Hz.
    pose proof (len_nonneg history). lia.
  - destruct (compose_eq history live offset) as (view & Hv & Hcells & Hvc & Hvr & Hd & Hcur); [done|lia|lia|].
    exists view. split_and!; [done| |intros [->| ->]; exfalso; apply Hz; auto|done].
    split_and!; [lia|lia|]. rewrite Hcells, Hvc, Hvr, (len_rows (pg_cols live)).
    + unfold len, range. rewrite length_seqZ. lia.
    + intros r. by apply len_fit_row.
Qed.

Definition demo_cell (c : Z) : PodCell := mkPodCell c 0 0 0 0.
Definition demo_live : PodGrid :=
  mkPodGrid 2 2 0 0 true false 1 0 0 0 0 0 (map demo_cell [97; 98; 99; 100]).

Lemma scrollback_window_witness :
  grid_ok demo_live /\ 0 <= 1 /\
  fmap pg_cells (compose_viewport (fold_left ingest_scrolled [[map demo_cell [65; 66; 67]]; [map demo_cell [68]]] []) demo_live 1)
    = Some (map demo_cell [68; 32; 97; 98]).
Proof.
  assert (Hl : grid_ok demo_live) by (split_and!; [by vm_compute|by vm_compute|reflexivity]).
  split; [exact Hl|split; [lia|]].
  destruct (scrollback_window [[map demo_cell [65; 66; 67]]; [map demo_cell [68]]] demo_live 1 Hl ltac:(lia))
    as (_ & view & Hv & _ & _ & Hrows).
  destruct Hrows as (Hcells & _); [lia|intros E; discriminate E|].
  rewrite Hv. cbn [fmap option_fmap option_map]. rewrite Hcells. vm_compute. reflexivity.
Defined.
