(* ===== verification/Text.v ===== *)
(** The text functions of the Rust standard library that the cold protocols
    and the orchestration crate use.  A [str] is the list of its characters
    (Unicode scalar values in [Z]); where code handles the bytes of a [String],
    those are its UTF-8 bytes. *)
From S2P Require Import Prelude Utf8 Parser Screen Decimal.

Local Open Scope Z_scope.

(** [char::is_whitespace]: the property White_Space. *)
Definition is_whitespace (c : Z) : bool :=
  within 0x09 0x0d c || (c =? 0x20) || (c =? 0x85) || (c =? 0xa0) || (c =? 0x1680)
  || within 0x2000 0x200a c || (c =? 0x2028) || (c =? 0x2029) || (c =? 0x202f)
  || (c =? 0x205f) || (c =? 0x3000).

Fixpoint trim_start (s : list Z) : list Z :=
  match s with
  | [] => []
  | c :: s' => if is_whitespace c then trim_start s' else s
  end.
Definition trim_end (s : list Z) : list Z := reverse (trim_start (reverse s)).
Definition trim (s : list Z) : list Z := trim_end (trim_start s).

(** [s.split(c)]: the pieces between the separators, empty ones included. *)
Fixpoint split_on (c : Z) (s : list Z) : list (list Z) :=
  match s with
  | [] => [[]]
  | x :: s =>
      if x =? c then [] :: split_on c s
      else match split_on c s with
           | w :: ws => (x :: w) :: ws
           | [] => [[x]]
           end
  end.

(** [s.split_whitespace()]: the maximal runs of other characters.  [w] is the
    run being read. *)
Fixpoint words_from (w s : list Z) : list (list Z) :=
  match s with
  | [] => if bool_decide (w = []) then [] else [w]
  | x :: s =>
      if is_whitespace x then (if bool_decide (w = []) then [] else [w]) ++ words_from [] s
      else words_from (w ++ [x]) s
  end.
Definition split_whitespace (s : list Z) : list (list Z) := words_from [] s.

(** [s.strip_prefix(p)] *)
Fixpoint strip_prefix (p s : list Z) : option (list Z) :=
  match p, s with
  | [], _ => Some s
  | x :: p, y :: s => if x =? y then strip_prefix p s else None
  | _ :: _, [] => None
  end.

(** [find] of a text: the first place it occurs. *)
Fixpoint find_sub (p s : list Z) : option nat :=
  if decide (strip_prefix p s <> None) then Some O
  else match s with
       | [] => None
       | _ :: s => S <$> find_sub p s
       end.
Definition has_sub (p s : list Z) : bool := bool_decide (find_sub p s <> None).

(** What precedes the first [c]. *)
Fixpoint before_char (c : Z) (s : list Z) : option (list Z) :=
  match s with
  | [] => None
  | x :: s => if x =? c then Some [] else cons x <$> before_char c s
  end.

(** [words.join(sep)] *)
Fixpoint join (sep : list Z) (ws : list (list Z)) : list Z :=
  match ws with
  | [] => []
  | [w] => w
  | w :: ws => w ++ sep ++ join sep ws
  end.

(** [n.to_string()] of a u64: twenty digits are enough. *)
Definition to_string (n : Z) : list Z := reverse (dec_rev 20 n).

(** [s.parse::<u64>().ok()]: an optional plus sign, then at least one digit,
    nothing else, and no overflow on the way. *)
Fixpoint parse_digits (acc : Z) (s : list Z) : option Z :=
  match s with
  | [] => Some acc
  | d :: s =>
      if within 0x30 0x39 d then
        let acc := acc * 10 + (d - 0x30) in
        if u64_max <? acc then None else parse_digits acc s
      else None
  end.
Definition parse_u64 (s : list Z) : option Z :=
  let digits := match s with
                | c :: rest => if (c =? ch "+") && negb (bool_decide (rest = [])) then rest else s
                | [] => []
                end in
  if bool_decide (digits = []) then None else parse_digits 0 digits.

(** ** Numbers *)

Lemma to_string_digits n : Forall is_digit (to_string n).
Proof. apply Forall_reverse, dec_rev_digits. Qed.

Lemma to_string_len n : 1 <= len (to_string n) <= 20.
Proof. unfold to_string. rewrite len_reverse. apply (dec_rev_len 19). Qed.

Lemma to_string_val n : u64 n -> dec_val (to_string n) = n.
Proof. intros Hn. apply dec_rev_val. unfold u64 in Hn. cbn. lia. Qed.

Lemma dec_fold_mono ds acc :
  Forall is_digit ds -> 0 <= acc -> acc <= fold_left (fun acc d => acc * 10 + (d - 0x30)) ds acc.
Proof.
  intros Hd. revert acc. induction Hd as [|d ds Hd _ IH]; intros acc Ha; cbn; [lia|].
  unfold is_digit in Hd. specialize (IH (acc * 10 + (d - 48))). lia.
Qed.

Lemma parse_digits_eq ds acc :
  Forall is_digit ds -> 0 <= acc ->
  let v := fold_left (fun acc d => acc * 10 + (d - 0x30)) ds acc in
  v <= u64_max -> parse_digits acc ds = Some v.
Proof.
  intros Hd. revert acc. induction Hd as [|d ds Hd Hds IH]; intros acc Ha v Hv; [done|].
  cbn [parse_digits]. unfold is_digit, within in *. rewrite (proj2 (andb_true_iff _ _)) by lia.
  pose proof (dec_fold_mono ds (acc * 10 + (d - 48)) Hds ltac:(lia)).
  subst v. cbn [fold_left] in *. case_if; [lia|]. apply IH; [lia|done].
Qed.

(** Printing and parsing a u64. *)
Lemma parse_to_string n : u64 n -> parse_u64 (to_string n) = Some n.
Proof.
  intros Hn. pose proof (to_string_digits n) as Hd. pose proof (to_string_len n).
  pose proof (to_string_val n Hn) as Hv. unfold parse_u64.
  destruct (to_string n) as [|c rest] eqn:E; [change (len []) with 0 in *; lia|].
  assert ((c =? ch "+") = false) as ->.
  { inversion_clear Hd as [|? ? Hc _]. unfold is_digit in Hc. apply Z.eqb_neq. change (ch "+") with 43. lia. }
  cbn [andb]. rewrite bool_decide_false by done.
  rewrite parse_digits_eq; [by f_equal|done|lia|]. fold (dec_val (c :: rest)). rewrite Hv. num.
Qed.

(** ** Splitting *)

Lemma split_on_none c w : ~ c ∈ w -> split_on c w = [w].
Proof.
  induction w as [|x w IH]; intros Hc; [done|]. cbn. rewrite not_elem_of_cons in Hc.
  destruct Hc as [Hx Hw]. rewrite IH by done. case_if; [lia|done].
Qed.

Lemma split_on_app c w s : ~ c ∈ w -> split_on c (w ++ c :: s) = w :: split_on c s.
Proof.
  induction w as [|x w IH]; intros Hc; cbn; [by rewrite Z.eqb_refl|].
  rewrite not_elem_of_cons in Hc. destruct Hc as [Hx Hw].
  case_if; [lia|]. by rewrite IH.
Qed.

(** Joining by a separator none of the pieces contains is undone by splitting. *)
Lemma split_join c ws :
  ws <> [] -> Forall (fun w => ~ c ∈ w) ws -> split_on c (join [c] ws) = ws.
Proof.
  intros Hne Hws. destruct Hws as [|w ws Hw Hws]; [done|]. clear Hne.
  revert w Hw. induction Hws as [|w' ws Hw' _ IH]; intros w Hw; cbn [join]; [by apply split_on_none|].
  cbn [app]. rewrite split_on_app by done. f_equal. apply (IH w' Hw').
Qed.

Definition solid (w : list Z) : Prop := Forall (fun c => is_whitespace c = false) w.

Lemma words_solid w0 w s : solid w -> words_from w0 (w ++ s) = words_from (w0 ++ w) s.
Proof.
  intros Hw. revert w0. induction Hw as [|c w Hc _ IH]; intros w0; cbn; [by rewrite app_nil_r|].
  by rewrite Hc, IH, <- app_assoc.
Qed.

Lemma words_word w c s :
  solid w -> w <> [] -> is_whitespace c = true -> words_from [] (w ++ c :: s) = w :: words_from [] s.
Proof.
  intros Hw Hn Hc. rewrite words_solid by done. cbn [app words_from]. rewrite Hc.
  by rewrite bool_decide_false.
Qed.

Lemma words_last w : solid w -> w <> [] -> words_from [] w = [w].
Proof.
  intros Hw Hn. rewrite <- (app_nil_r w) at 1. rewrite words_solid by done.
  cbn [app words_from]. by rewrite bool_decide_false.
Qed.

(** Trimming does not change the words. *)
Lemma words_trim_start s : words_from [] (trim_start s) = words_from [] s.
Proof. induction s as [|c s IH]; cbn; [done|]. case_if; [done|]. cbn. by rewrite Heqb. Qed.

Lemma words_snoc w s c : is_whitespace c = true -> words_from w (s ++ [c]) = words_from w s.
Proof.
  intros Hc. revert w. induction s as [|x s IH]; intros w; cbn; [by rewrite Hc, app_nil_r|].
  by rewrite !IH.
Qed.

Lemma words_trim_end w s : words_from w (trim_end s) = words_from w s.
Proof.
  unfold trim_end. induction s as [|c s IH] using rev_ind; [done|].
  rewrite reverse_snoc. cbn [trim_start]. destruct (is_whitespace c) eqn:Hc; [by rewrite words_snoc|].
  by rewrite reverse_cons, reverse_involutive.
Qed.

Lemma split_trim s : split_whitespace (trim s) = split_whitespace s.
Proof. unfold split_whitespace, trim. by rewrite words_trim_end, words_trim_start. Qed.

Lemma strip_prefix_app p s : strip_prefix p (p ++ s) = Some s.
Proof. induction p as [|x p IH]; cbn; [done|]. by rewrite Z.eqb_refl. Qed.

Lemma digits_solid w : Forall is_digit w -> solid w.
Proof.
  intros Hw. eapply Forall_impl; [exact Hw|]. unfold is_digit. intros c Hc.
  unfold is_whitespace, within. lia.
Qed.

Lemma solid_app w w' : solid w -> solid w' -> solid (w ++ w').
Proof. intros. by apply Forall_app. Qed.

Lemma solid_join sep ws : solid sep -> Forall solid ws -> solid (join sep ws).
Proof.
  intros Hs Hws. induction Hws as [|w ws Hw Hws IH]; [constructor|]. destruct ws; [done|].
  cbn [join]. by repeat apply solid_app.
Qed.

(** Lists of numbers. *)
Lemma digits_no_comma w : Forall is_digit w -> ~ ch "," ∈ w.
Proof. rewrite Forall_forall. intros Hw Hin. specialize (Hw _ Hin). unfold is_digit in Hw. change (ch ",") with 44 in Hw. lia. Qed.

Lemma omap_parse ns : Forall u64 ns -> omap parse_u64 (map to_string ns) = ns.
Proof. induction 1 as [|n ns Hn _ IH]; cbn [map omap list_omap]; [done|]. by rewrite parse_to_string, IH. Qed.

Lemma split_numbers ns :
  ns <> [] -> split_on (ch ",") (join (lit ",") (map to_string ns)) = map to_string ns.
Proof.
  intros Hn. apply split_join; [by destruct ns|]. apply Forall_map, Forall_forall.
  intros n _. apply digits_no_comma, to_string_digits.
Qed.

Lemma join_nonempty sep n ns : join sep (map to_string (n :: ns)) <> [].
Proof.
  pose proof (to_string_len n) as H. cbn. intros E.
  assert (to_string n = []) as E'.
  { destruct (map to_string ns); [done|]. by apply app_eq_nil in E as [? _]. }
  rewrite E' in H. change (len []) with 0 in H. lia.
Qed.
