(* ===== verification/Float.v ===== *)
(** Binary32 numbers as the look files use them: [f32::from_str], [clamp], and
    comparison.  An [f32] is a [spec_float] of precision 24 and maximal exponent
    128; arithmetic and rounding are the Standard Library's. *)
From Stdlib Require Import SpecFloat.
From S2P Require Import Prelude Text.

Local Open Scope Z_scope.

Definition f32_prec : Z := 24.
Definition f32_emax : Z := 128.

Definition f32_zero : spec_float := S754_zero false.
Definition f32_one : spec_float := S754_finite false 8388608 (-23).

(** [digits]: the leading decimal digits and what follows. *)
Fixpoint take_digits (s : list Z) : list Z * list Z :=
  match s with
  | c :: s' => if within 0x30 0x39 c then let '(ds, rest) := take_digits s' in (c :: ds, rest) else ([], s)
  | [] => ([], [])
  end.

Definition digits_value (ds : list Z) : Z := fold_left (fun acc d => acc * 10 + (d - 0x30)) ds 0.

(** [10^e * m], rounded to nearest, ties to even. *)
Definition decimal_f32 (negative : bool) (m e : Z) : spec_float :=
  match m with
  | Zpos p =>
      if 0 <=? e then binary_normalize f32_prec f32_emax (if negative then - (m * 10 ^ e) else m * 10 ^ e) 0 negative
      else
        let '(q, eq, loc) := SFdiv_core_binary f32_prec f32_emax m 0 (10 ^ (- e)) 0 in
        binary_round_aux f32_prec f32_emax negative q eq loc
  | _ => S754_zero negative
  end.

Definition ascii_lower_char (c : Z) : Z := if within 0x41 0x5a c then c + 32 else c.
Definition to_ascii_lowercase (s : list Z) : list Z := map ascii_lower_char s.

(** The exponent part: none, or [e], a sign and at least one digit, to the end. *)
Definition parse_exponent (s : list Z) : option Z :=
  match s with
  | [] => Some 0
  | c :: s =>
      if ascii_lower_char c =? ch "e" then
        let '(negative, s) := match s with
                              | c :: s' => if c =? ch "-" then (true, s') else if c =? ch "+" then (false, s') else (false, s)
                              | [] => (false, [])
                              end in
        let '(ds, rest) := take_digits s in
        if bool_decide (ds = []) || negb (bool_decide (rest = [])) then None
        else Some (if negative : bool then - digits_value ds else digits_value ds)
      else None
  end.

Definition parse_number (negative : bool) (s : list Z) : option spec_float :=
  let '(whole, s) := take_digits s in
  let '(frac, s) := match s with
                    | c :: s' => if c =? ch "." then take_digits s' else ([], s)
                    | [] => ([], [])
                    end in
  if bool_decide (whole ++ frac = []) then None
  else e ← parse_exponent s; Some (decimal_f32 negative (digits_value (whole ++ frac)) (e - len frac)).

(** [s.parse::<f32>().ok()] *)
Definition parse_f32 (s : list Z) : option spec_float :=
  let '(negative, body) := match s with
                           | c :: s' => if c =? ch "-" then (true, s') else if c =? ch "+" then (false, s') else (false, s)
                           | [] => (false, [])
                           end in
  let word := to_ascii_lowercase body in
  if bool_decide (word = lit "inf") || bool_decide (word = lit "infinity") then Some (S754_infinity negative)
  else if bool_decide (word = lit "nan") then Some S754_nan
  else parse_number negative body.

(** [x.clamp(lo, hi)]: NaN stays. *)
Definition f32_clamp (lo hi x : spec_float) : spec_float :=
  let x := if SFltb x lo then lo else x in
  if SFltb hi x then hi else x.

Lemma compare_swap x y : SFcompare y x = CompOpp <$> SFcompare x y.
Proof.
  destruct x as [[]|[]| |[] m e], y as [[]|[]| |[] m' e']; cbn; try done;
    rewrite (Z.compare_antisym e e'); destruct (e ?= e')%Z; cbn; try done;
    change (Pos.compare_cont Eq ?a ?b) with (Pos.compare a b);
    by rewrite (Pos.compare_antisym m m'); destruct (Pos.compare m m').
Qed.

Lemma not_less x y : x <> S754_nan -> y <> S754_nan -> SFltb x y = false -> SFleb y x = true.
Proof.
  intros Hx Hy. unfold SFltb, SFleb. rewrite (compare_swap x y).
  assert (SFcompare x y <> None) as Hc.
  { destruct x as [[]|[]| |[] ??], y as [[]|[]| |[] ??]; cbn; try done; by destruct (_ ?= _). }
  by destruct (SFcompare x y) as [[]|].
Qed.

(** Clamping to the unit interval lands in it, unless the number is NaN. *)
Lemma clamp_unit x : x <> S754_nan ->
  SFleb f32_zero (f32_clamp f32_zero f32_one x) = true /\ SFleb (f32_clamp f32_zero f32_one x) f32_one = true.
Proof.
  intros Hx. unfold f32_clamp. destruct (SFltb x f32_zero) eqn:E1; [by split|].
  destruct (SFltb f32_one x) eqn:E2; [by split|]. by split; apply not_less.
Qed.

Example parse_examples :
  (parse_f32 (lit "13.5"), parse_f32 (lit "1."), parse_f32 (lit ".5"), parse_f32 (lit "."), parse_f32 (lit "1e400"),
   parse_f32 (lit "0.1"), parse_f32 (lit "-1E-2x"), parse_f32 (lit "nan"))
  = (Some (S754_finite false 14155776 (-20)), Some f32_one, Some (S754_finite false 8388608 (-24)), None,
     Some (S754_infinity false), Some (S754_finite false 13421773 (-27)), None, Some S754_nan).
Proof. vm_compute. reflexivity. Qed.
