(* ===== verification/Path.v ===== *)
(** The Unix paths of the Rust standard library, as far as the sources use
    them: [join], [parent] and the comparison of [std::path::Path].  A path is
    its bytes; [path_of] is the path a text names. *)
From S2P Require Import Prelude Utf8 Text.

Local Open Scope Z_scope.

Abbreviation Path := (list Z).

Definition path_of (s : list Z) : Path := flat_map encode_utf8 s.

(** [s.len()] of a text: the length of its bytes. *)
Definition text_len (s : list Z) : Z := len (flat_map encode_utf8 s).

(** [(&s[..n], &s[n..])]: slicing a text off a character boundary panics. *)
Fixpoint split_bytes (n : Z) (s : list Z) : option (list Z * list Z) :=
  if n =? 0 then Some ([], s)
  else match s with
       | [] => None
       | c :: s =>
           let w := len (encode_utf8 c) in
           if n <? w then None
           else '(a, b) ← split_bytes (n - w) s; Some (c :: a, b)
       end.

Definition SEP : Z := ch "/".
Definition absolute (p : Path) : bool := match p with c :: _ => c =? SEP | [] => false end.

(** [self.join(p)] *)
Definition path_join (self p : Path) : Path :=
  if absolute p then p
  else match last self with
       | Some c => if c =? SEP then self ++ p else self ++ SEP :: p
       | None => p
       end.

(** A leading [.] is a component; elsewhere it is none. *)
Definition include_cur_dir (p : Path) : bool :=
  match p with
  | [c] => c =? ch "."
  | c :: d :: _ => (c =? ch ".") && (d =? SEP)
  | [] => false
  end.
Definition before_body (p : Path) : nat := if absolute p || include_cur_dir p then 1 else 0.
Definition named (w : list Z) : bool := negb (bool_decide (w = []) || bool_decide (w = [ch "."])).

(** The components of the body, and the comparison of paths. *)
Definition path_body (p : Path) : list (list Z) :=
  List.filter named (split_on SEP (drop (before_body p) p)).
Definition path_eqb (p q : Path) : bool :=
  bool_decide ((absolute p, include_cur_dir p, path_body p) = (absolute q, include_cur_dir q, path_body q)).

(** The last piece of a body and what precedes its separator; both reversed. *)
Fixpoint split_back (r : list Z) : list Z * list Z :=
  match r with
  | [] => ([], [])
  | c :: r => if c =? SEP then ([], r) else let '(w, rest) := split_back r in (c :: w, rest)
  end.

(** [trim_right]: drops the pieces at the end that are no components.  A piece
    takes at least one byte, so the length of the body is enough fuel. *)
Fixpoint trim_right (fuel : nat) (r : list Z) : list Z :=
  match fuel with
  | O => r
  | S fuel =>
      if bool_decide (r = []) then []
      else let '(w, rest) := split_back r in if named w then r else trim_right fuel rest
  end.

(** [p.parent()] *)
Definition parent (p : Path) : option Path :=
  let n := before_body p in
  let body := trim_right (length p) (reverse (drop n p)) in
  if bool_decide (body = []) then if include_cur_dir p then Some [] else None
  else Some (take n p ++ reverse (trim_right (length p) (snd (split_back body)))).

Example parent_examples :
  map (parent ∘ lit) ["a/b"; "a"; "/a"; "/"; ""; "./a"; "."; "a//b/./"; "/x/y.conf"]%string
  = [Some (lit "a"); Some []; Some (lit "/"); None; None; Some (lit "."); Some []; Some (lit "a"); Some (lit "/x")].
Proof. vm_compute. reflexivity. Qed.

Lemma split_back_len r : (length (snd (split_back r)) <= pred (length r))%nat.
Proof.
  induction r as [|c r IH]; [done|]. cbn. case_if; cbn; [lia|].
  destruct (split_back r) as [w rest]; cbn in *. lia.
Qed.

(** [trim_right] ends before its fuel does. *)
Lemma trim_right_done f r : (length r <= f)%nat ->
  trim_right f r = [] \/ named (fst (split_back (trim_right f r))) = true.
Proof.
  revert r; induction f as [|f IH]; intros r Hr; cbn [trim_right].
  - left. by destruct r; cbn in *; [|lia].
  - case_bool_decide; [by left|]. destruct (split_back r) as [w rest] eqn:E.
    destruct (named w) eqn:Ew; [right; by rewrite E|]. apply IH.
    pose proof (split_back_len r) as Hl. rewrite E in Hl. cbn in Hl. destruct r; cbn in *; [done|lia].
Qed.

(** The parent of a file in a directory is the directory. *)
Lemma split_back_app w rest : ~ SEP ∈ w -> split_back (w ++ SEP :: rest) = (w, rest).
Proof.
  induction w as [|c w IH]; intros Hw; cbn; [done|]. rewrite not_elem_of_cons in Hw.
  destruct Hw as [Hc Hw]. case_if; [lia|]. by rewrite IH.
Qed.

Lemma split_back_all w : ~ SEP ∈ w -> split_back w = (w, []).
Proof.
  induction w as [|c w IH]; intros Hw; cbn; [done|]. rewrite not_elem_of_cons in Hw.
  destruct Hw as [Hc Hw]. case_if; [lia|]. by rewrite IH.
Qed.

(** The last component's bytes as they stand, unless the path ends in the root
    or in [.]; and what precedes them in the path. *)
Definition last_piece (p : Path) : option (list Z * Path) :=
  let n := before_body p in
  let body := trim_right (length p) (reverse (drop n p)) in
  if bool_decide (body = []) then None
  else let w := fst (split_back body) in Some (reverse w, take n p ++ reverse (drop (length w) body)).

(** [p.file_name()] *)
Definition file_name (p : Path) : option (list Z) :=
  '(w, _) ← last_piece p; if bool_decide (w = lit "..") then None else Some w.

(** [p.with_file_name(name)] *)
Definition with_file_name (name : list Z) (p : Path) : Path :=
  match file_name p with
  | Some _ => path_join (default p (parent p)) name
  | None => path_join p name
  end.

(** The name up to its last dot, if that is not its first byte. *)
Definition file_stem (name : list Z) : list Z :=
  match list_find (fun c => c = ch ".") (reverse name) with
  | Some (i, _) => let k := (length name - S i)%nat in if bool_decide (k = O) then name else take k name
  | None => name
  end.

(** [p.with_extension(ext)], for an [ext] that is not empty *)
Definition with_extension (ext : list Z) (p : Path) : Path :=
  match file_name p, last_piece p with
  | Some name, Some (_, before) => before ++ file_stem name ++ ch "." :: ext
  | _, _ => p
  end.

Example file_name_examples :
  map (file_name ∘ lit) ["a/b.sock"; "a/b/"; "/"; ""; ".."; "a/.."; "a/."; "/x"]%string
  = [Some (lit "b.sock"); Some (lit "b"); None; None; None; None; Some (lit "a"); Some (lit "x")].
Proof. vm_compute. reflexivity. Qed.

Example with_extension_examples :
  map (with_extension (lit "lock") ∘ lit) ["run/attach.sock"; "attach"; ".hidden"; "a.b.c"; "a/b.c/"; "/"; ".."]%string
  = [lit "run/attach.lock"; lit "attach.lock"; lit ".hidden.lock"; lit "a.b.lock"; lit "a/b.lock"; lit "/"; lit ".."].
Proof. vm_compute. reflexivity. Qed.

Example with_file_name_examples :
  map (with_file_name (lit "shutdown") ∘ lit) ["run/attach.sock"; "attach.sock"; "/"; "/a"]%string
  = [lit "run/shutdown"; lit "shutdown"; lit "/shutdown"; lit "/shutdown"].
Proof. vm_compute. reflexivity. Qed.
