(* ===== verification/SocketPath.v ===== *)
(** Where the sockets are: the path helpers of crates/rill-attach/src/lib.rs,
    [default_runtime_dir] of crates/rilld/src/endpoint.rs and the default sockets
    of the daemon and of the host (the Darwin build).  The environment is a
    function from names to values. *)
From S2P Require Import Prelude Utf8 Text Path.

Local Open Scope Z_scope.

Definition Env : Type := list Z -> option (list Z).

(** [std::env::var(name).as_deref() == Ok(value)] *)
Definition var_is (env : Env) (name value : list Z) : bool := bool_decide (env name = Some value).

(** ** Companion sockets *)

Definition cold_identity_socket_path (attach : Path) : Path := attach ++ lit ".identity".
Definition cold_nav_socket_path (attach : Path) : Path := attach ++ lit ".nav".
Definition cold_content_socket_path (attach : Path) : Path := attach ++ lit ".content".

Definition worker_socket_path (attach : Path) : Path :=
  match file_name attach with
  | Some name => with_file_name (name ++ lit ".worker") attach
  | None => with_extension (lit "worker") attach
  end.

(** ** Defaults *)

Definition home_dir (env : Env) : Path := path_of (default (lit "/var/empty") (env (lit "HOME"))).

Definition default_runtime_dir (env : Env) : Path :=
  match env (lit "RILL_RUNTIME_DIR") with
  | Some p => path_of p
  | None => path_join (home_dir env) (lit "Library/Application Support/RILL/run")
  end.

(** rilld's [default_socket] *)
Definition daemon_default_socket (env : Env) : Path :=
  match env (lit "RILL_SOCKET") with
  | Some p => path_of p
  | None => path_join (default_runtime_dir env) (lit "attach.sock")
  end.

Definition rill_attach_default_runtime (env : Env) : Path :=
  match env (lit "RILL_RUNTIME_DIR") with
  | Some p => path_join (path_of p) (lit "attach.sock")
  | None => path_join (home_dir env) (lit "Library/Application Support/RILL/run/attach.sock")
  end.

(** rill-host's [default_socket] *)
Definition host_default_socket (env : Env) : Path :=
  match env (lit "RILL_SOCKET") with
  | Some p => path_of p
  | None => rill_attach_default_runtime env
  end.

Definition default_shell (env : Env) : list Z := default (lit "/bin/zsh") (env (lit "SHELL")).

Definition nested_launch_blocked (env : Env) : bool :=
  var_is env (lit "RILL_INSIDE") (lit "1") && negb (var_is env (lit "RILL_ALLOW_NESTED") (lit "1")).

(** ** What they agree on *)

Lemma join_assoc (p q r : Path) c :
  absolute q = false -> absolute r = false -> last q = Some c -> c <> SEP ->
  path_join (path_join p q) r = path_join p (q ++ SEP :: r).
Proof.
  intros Hq Hr Hl Hc. assert (Hqr : absolute (q ++ SEP :: r) = false) by (by destruct q).
  assert (Hlast : forall s, last (s ++ q) = Some c) by (intros s; by rewrite last_app, Hl).
  assert (Hone : forall s, path_join (s ++ q) r = s ++ q ++ SEP :: r).
  { intros s. unfold path_join. rewrite Hr, Hlast. rewrite (proj2 (Z.eqb_neq _ _)) by done. by rewrite <- app_assoc. }
  unfold path_join at 2 3. rewrite Hq, Hqr. destruct (last p) as [d|]; [|apply (Hone [])].
  destruct (d =? SEP); [apply Hone|]. rewrite (app_assoc p [SEP] q : p ++ SEP :: q = (p ++ [SEP]) ++ q), Hone. by rewrite <- app_assoc.
Qed.

(** Daemon and host look for the attach socket in the same place, whatever the
    environment. *)
Theorem default_sockets_agree (env : Env) : daemon_default_socket env = host_default_socket env.
Proof.
  unfold daemon_default_socket, host_default_socket, default_runtime_dir, rill_attach_default_runtime.
  destruct (env (lit "RILL_SOCKET")); [done|]. destruct (env (lit "RILL_RUNTIME_DIR")); [done|].
  by rewrite (join_assoc _ _ _ (ch "n")).
Qed.

(** The companions of one attach socket are all different. *)
Lemma suffix_inj (p s t : Path) : p ++ s = p ++ t -> s = t.
Proof. apply app_inv_head. Qed.

Lemma companions_differ (p : Path) :
  NoDup [p; cold_identity_socket_path p; cold_nav_socket_path p; cold_content_socket_path p].
Proof.
  assert (Hp : forall s, s <> [] -> p <> p ++ s).
  { intros s Hs E. apply (f_equal length) in E. rewrite length_app in E. destruct s; [done|cbn in E; lia]. }
  repeat constructor; rewrite ?elem_of_cons, ?elem_of_nil; unfold cold_identity_socket_path, cold_nav_socket_path, cold_content_socket_path.
  - intros [E|[E|[E|[]]]]; by eapply Hp in E.
  - intros [E%suffix_inj|[E%suffix_inj|[]]]; discriminate.
  - intros [E%suffix_inj|[]]; discriminate.
  - by intros [].
Qed.
