(* ===== verification/Look.v ===== *)
(** Look files and host surfaces: crates/rill-look (look.rs and surface.rs).

    A text is the list of its characters.  Files are read through parameters:
    [read_to_string] is the content of a path, [None] when it cannot be read as
    UTF-8; the environment and the executable's path are arguments.  The TOML
    parser of the toml crate is a parameter too.  Reading a theme reads theme
    files, which are look files: [parse_look_keys] takes fuel, a level of files
    each, and running out of it is a fault of its own.  [RILL_MUTATE] is unset. *)
From Stdlib Require Import SpecFloat.
From S2P Require Import Prelude Utf8 VtTypes Decimal Text Float Path.

Local Open Scope Z_scope.

(** ** Data *)

(** [theme_ansi] is a [[u32; 16]]. *)
Record ThemeColors := mkTheme {
  theme_background : Z;
  theme_foreground : Z;
  theme_cursor : Z;
  theme_ansi : option (list Z);
  split_divider : option Z;
}.

Record TerminalLook := mkLook {
  tl_font_family : option (list Z);
  tl_font_size : option spec_float;
  tl_font_fallbacks : list (list Z);
  tl_background : option Z;
  tl_foreground : option Z;
  tl_cursor : option Z;
  tl_ansi : option (list Z);
  tl_padding_x : option spec_float;
  tl_padding_y : option spec_float;
  tl_background_opacity : option spec_float;
  tl_split_divider : option Z;
  tl_theme_name : option (list Z);
  tl_macos_option_as_alt : option bool;
}.
#[export] Instance eta_look : Eta TerminalLook := fun l =>
  mkLook (tl_font_family l) (tl_font_size l) (tl_font_fallbacks l) (tl_background l) (tl_foreground l)
    (tl_cursor l) (tl_ansi l) (tl_padding_x l) (tl_padding_y l) (tl_background_opacity l)
    (tl_split_divider l) (tl_theme_name l) (tl_macos_option_as_alt l).

Definition look_default : TerminalLook :=
  mkLook None None [] None None None None None None None None None None.

Record HostSurface := mkSurface {
  sf_font_family : list Z;
  sf_font_size : spec_float;
  sf_font_fallbacks : list (list Z);
  sf_cols : Z;
  sf_rows : Z;
  sf_theme : option (list Z);
  sf_padding_x : spec_float;
  sf_padding_y : spec_float;
  sf_background_opacity : spec_float;
  sf_macos_option_as_alt : bool;
  sf_colors : option ThemeColors;
}.
#[export] Instance eta_surface : Eta HostSurface := fun s =>
  mkSurface (sf_font_family s) (sf_font_size s) (sf_font_fallbacks s) (sf_cols s) (sf_rows s) (sf_theme s)
    (sf_padding_x s) (sf_padding_y s) (sf_background_opacity s) (sf_macos_option_as_alt s) (sf_colors s).

(** ** Values *)

Definition is_ascii_hexdigit (c : Z) : bool := within 0x30 0x39 c || within 0x41 0x46 c || within 0x61 0x66 c.
Definition hex_digit (c : Z) : Z :=
  if within 0x30 0x39 c then c - 0x30 else if within 0x41 0x46 c then c - 0x41 + 10 else c - 0x61 + 10.
Definition from_hex (s : list Z) : Z := fold_left (fun acc c => acc * 16 + hex_digit c) s 0.

(** [s.trim_start_matches(c)] *)
Fixpoint trim_start_matches (c : Z) (s : list Z) : list Z :=
  match s with
  | x :: s' => if x =? c then trim_start_matches c s' else s
  | [] => []
  end.

Definition parse_hex (value : list Z) : option Z :=
  let hex := trim_start_matches (ch "#") (trim value) in
  if negb (forallb is_ascii_hexdigit hex) then None
  else
    let hex := if len hex =? 3 then flat_map (fun c => [c; c]) hex else hex in
    if negb (len hex =? 6) then None
    else Some (Z.lor (Z.shiftl (from_hex hex) 8) 0xff).

Definition parse_bool (value : list Z) : option bool :=
  let v := to_ascii_lowercase value in
  if existsb (fun w => bool_decide (v = w)) [lit "true"; lit "1"; lit "yes"] then Some true
  else if existsb (fun w => bool_decide (v = w)) [lit "false"; lit "0"; lit "no"] then Some false
  else None.

(** The first piece between commas and white space; a split has one. *)
Fixpoint first_token (s : list Z) : list Z :=
  match s with
  | c :: s => if (c =? ch ",") || is_whitespace c then [] else c :: first_token s
  | [] => []
  end.
Definition first_number (value : list Z) : option spec_float := parse_f32 (first_token value).

Definition eq_ignore_ascii_case (s t : list Z) : bool := bool_decide (to_ascii_lowercase s = to_ascii_lowercase t).

(** The part named [light:]; [None] is a slice off a character boundary. *)
Fixpoint light_part (parts : list (list Z)) : option (option (list Z)) :=
  match parts with
  | [] => Some None
  | p :: parts =>
      if 6 <? text_len p then
        '(a, b) ← split_bytes 6 p;
        if eq_ignore_ascii_case a (lit "light:") then Some (Some (trim b)) else light_part parts
      else light_part parts
  end.

(** The first part not named [dark:]. *)
Fixpoint undark_part (parts : list (list Z)) : option (option (list Z)) :=
  match parts with
  | [] => Some None
  | p :: parts =>
      if text_len p <? 5 then Some (Some p)
      else
        '(a, _) ← split_bytes 5 p;
        if eq_ignore_ascii_case a (lit "dark:") then undark_part parts else Some (Some p)
  end.

Definition light_theme_name (value : list Z) : option (list Z) :=
  let parts := map trim (split_on (ch ",") value) in
  light ← light_part parts;
  match light with
  | Some name => Some name
  | None =>
      let rest := (found ← undark_part parts; Some (default value found)) in
      match parts with
      | [p] =>
          if 5 <? text_len p then
            '(a, b) ← split_bytes 5 p;
            if eq_ignore_ascii_case a (lit "dark:") then Some (trim b) else rest
          else rest
      | _ => rest
      end
  end.

(** ** The lines of a look file *)

(** [text.lines()]: a line ends at a line feed, a carriage return before it is
    dropped, and nothing follows a line feed at the end. *)
Definition drop_cr (l : list Z) : list Z :=
  match reverse l with c :: r => if c =? 0x0d then reverse r else l | [] => [] end.
Fixpoint ended_lines (ls : list (list Z)) : list (list Z) :=
  match ls with
  | [] => []
  | [l] => if bool_decide (l = []) then [] else [l]
  | l :: ls => drop_cr l :: ended_lines ls
  end.
Definition lines (s : list Z) : list (list Z) := ended_lines (split_on 0x0a s).

(** The line without its comment.  A [find] gives a character boundary. *)
Definition strip_comment (line : list Z) : list Z :=
  match find_sub (lit " #") line with
  | Some i =>
      let rest := trim (drop (i + 2) line) in
      if bool_decide (parse_hex rest = None) && bool_decide (parse_hex (ch "#" :: rest) = None)
      then trim (take i line) else line
  | None => line
  end.

Fixpoint find_char (c : Z) (s : list Z) : option nat :=
  match s with
  | [] => None
  | x :: s => if x =? c then Some O else S <$> find_char c s
  end.

(** A value in double quotes loses them. *)
Definition unquote (value : list Z) : list Z :=
  if (2 <=? text_len value) && bool_decide (head value = Some 0x22) && bool_decide (last value = Some 0x22)
  then take (length value - 2) (drop 1 value) else value.

Record LookAcc := mkAcc {
  look : TerminalLook;
  acc_ansi : list Z;
  ansi_set : list bool;
  saw : bool;
  explicit_bg : option Z;
  explicit_fg : option Z;
  explicit_cursor : option Z;
  explicit_split : option Z;
}.
#[export] Instance eta_acc : Eta LookAcc := fun a =>
  mkAcc (look a) (acc_ansi a) (ansi_set a) (saw a) (explicit_bg a) (explicit_fg a) (explicit_cursor a) (explicit_split a).

Definition acc_init : LookAcc :=
  mkAcc look_default (replicate 16 0) (replicate 16 false) false None None None None.

Definition set_look (f : TerminalLook -> TerminalLook) (a : LookAcc) : LookAcc :=
  a <| look := f (look a) |> <| saw := true |>.

(** [ansi[i] = h; ansi_set[i] = true], where index and colour are good. *)
Definition set_palette_entry (index value : list Z) (a : LookAcc) : option LookAcc :=
  match parse_u64 index with
  | Some i =>
      if i <=? 15 then
        match parse_hex value with
        | Some h =>
            slots ← zset (acc_ansi a) i h;
            set ← zset (ansi_set a) i true;
            Some (a <| acc_ansi := slots |> <| ansi_set := set |> <| saw := true |>)
        | None => Some a
        end
      else Some a
  | None => Some a
  end.

Definition some_saw {T} (o : option T) (f : T -> LookAcc -> LookAcc) (a : LookAcc) : option LookAcc :=
  match o with Some x => Some (f x a <| saw := true |>) | None => Some a end.

Definition look_key (key value : list Z) (a : LookAcc) : option LookAcc :=
  let key_is (k : string) := bool_decide (key = lit k) in
  if key_is "font-family" && negb (bool_decide (value = [])) then
    Some (set_look (fun l => l <| tl_font_family := Some value |>) a)
  else if key_is "font-size" then
    some_saw (parse_f32 value) (fun n => set_look (fun l => l <| tl_font_size := Some n |>)) a
  else if key_is "font-family-fallback" && negb (bool_decide (value = [])) then
    Some (set_look (fun l => l <| tl_font_fallbacks := tl_font_fallbacks l ++ [value] |>) a)
  else if key_is "background" then some_saw (parse_hex value) (fun h a => a <| explicit_bg := Some h |>) a
  else if key_is "foreground" then some_saw (parse_hex value) (fun h a => a <| explicit_fg := Some h |>) a
  else if key_is "cursor" || key_is "cursor-color" then
    some_saw (parse_hex value) (fun h a => a <| explicit_cursor := Some h |>) a
  else if key_is "window-padding-x" then
    some_saw (first_number value) (fun n => set_look (fun l => l <| tl_padding_x := Some n |>)) a
  else if key_is "window-padding-y" then
    some_saw (first_number value) (fun n => set_look (fun l => l <| tl_padding_y := Some n |>)) a
  else if key_is "background-opacity" then
    some_saw (parse_f32 value)
      (fun n => set_look (fun l => l <| tl_background_opacity := Some (f32_clamp f32_zero f32_one n) |>)) a
  else if key_is "split-divider-color" then some_saw (parse_hex value) (fun h a => a <| explicit_split := Some h |>) a
  else if key_is "theme" then
    name ← light_theme_name value;
    Some (set_look (fun l => l <| tl_theme_name := Some name |>) a)
  else if key_is "macos-option-as-alt" then
    let a := a <| look := look a <| tl_macos_option_as_alt := parse_bool value |> |> in
    Some (match parse_bool value with Some _ => a <| saw := true |> | None => a end)
  else if key_is "palette" then
    match find_char (ch "=") value with
    | Some i => set_palette_entry (trim (take i value)) (trim (drop (i + 1) value)) a
    | None => Some a
    end
  else
    match strip_prefix (lit "palette.") key with
    | Some rest => set_palette_entry rest value a
    | None => Some a
    end.

Definition look_line (raw : list Z) (a : LookAcc) : option LookAcc :=
  let line := trim raw in
  if bool_decide (line = []) || bool_decide (head line = Some (ch "#")) then Some a
  else
    let line := strip_comment line in
    match find_char (ch "=") line with
    | None => Some a
    | Some eq =>
        let key := to_ascii_lowercase (trim (take eq line)) in
        look_key key (unquote (trim (drop (eq + 1) line))) a
    end.

(** What follows the loop: the theme first, explicit colours over it. *)
Definition merge_ansi (a : LookAcc) (slots : list Z) : list Z :=
  map (fun '(set, x, old) => if set : bool then x else old) (zip (zip (ansi_set a) (acc_ansi a)) slots).

Definition with_theme (theme : option ThemeColors) (l : TerminalLook) : TerminalLook :=
  match theme with
  | Some t =>
      l <| tl_background := Some (theme_background t) |> <| tl_foreground := Some (theme_foreground t) |>
        <| tl_cursor := Some (theme_cursor t) |> <| tl_split_divider := split_divider t |>
        <| tl_ansi := theme_ansi t |>
  | None => l
  end.

Definition or_else {T} (a b : option T) : option T := match a with Some _ => a | None => b end.

Definition finish_look (theme : option ThemeColors) (a : LookAcc) : TerminalLook :=
  let l := with_theme theme (look a) in
  let l := l <| tl_background := or_else (explicit_bg a) (tl_background l) |>
             <| tl_foreground := or_else (explicit_fg a) (tl_foreground l) |>
             <| tl_cursor := or_else (explicit_cursor a) (tl_cursor l) |>
             <| tl_split_divider := or_else (explicit_split a) (tl_split_divider l) |> in
  if existsb id (ansi_set a) then
    match tl_ansi l with
    | Some slots => l <| tl_ansi := Some (merge_ansi a slots) |>
    | None => if forallb id (ansi_set a) then l <| tl_ansi := Some (acc_ansi a) |> else l
    end
  else l.

(** ** Themes *)

(** [s.replace(c, d)] for a single character. *)
Definition replace_char (c d : Z) (s : list Z) : list Z := map (fun x => if x =? c then d else x) s.

Definition strip_suffix (p s : list Z) : option (list Z) := reverse <$> strip_prefix (reverse p) (reverse s).

Definition normalize_theme (name : list Z) : list Z :=
  let text := trim name in
  let text := default text (strip_suffix (lit ".conf") text) in
  to_ascii_lowercase (replace_char (ch "_") (ch " ") (replace_char (ch "-") (ch " ") text)).

Definition push_dir (p : Path) (dirs : list Path) : list Path :=
  if negb (bool_decide (p = [])) && negb (existsb (fun d => path_eqb d p) dirs) then dirs ++ [p] else dirs.

(** Faults: a panic, or the end of the fuel. *)
Inductive Fault : Type := Panicked | OutOfFuel.

Record Machine := mkMachine {
  read_to_string : Path -> option (list Z);
  is_dir : Path -> bool;
  path_exists : Path -> bool;
  env_home : option Path;
  current_exe : option Path;
  env_rill_config : option (list Z);
  env_host_surface : option (list Z);
}.

Section Look.
Context (M : Machine).

Definition theme_search_dirs (primary : option Path) : list Path :=
  let dirs := match primary with
              | Some p => push_dir (path_join p (path_of (lit "fixtures/look/themes")))
                            (push_dir (path_join p (path_of (lit "themes"))) (push_dir p []))
              | None => []
              end in
  let dirs := match env_home M with
              | Some h => push_dir (path_join h (path_of (lit ".config/rill/themes"))) dirs
              | None => dirs
              end in
  let dirs := match current_exe M with
              | Some exe =>
                  match parent exe with
                  | Some d => push_dir (path_join d (path_of (lit "themes")))
                                (push_dir (path_join d (path_of (lit "../Resources/themes"))) dirs)
                  | None => dirs
                  end
              | None => dirs
              end in
  fold_left (fun dirs rel => if is_dir M (path_of rel) then push_dir (path_of rel) dirs else dirs)
    [lit "fixtures/look/themes"; lit "../fixtures/look/themes"; lit "../../fixtures/look/themes"] dirs.

Definition theme_candidates (name : list Z) (dir : Path) : list Path :=
  let slug := replace_char (ch " ") (ch "-") (normalize_theme name) in
  [path_join dir (path_of name); path_join dir (path_of (name ++ lit ".conf"));
   path_join dir (path_of slug); path_join dir (path_of (slug ++ lit ".conf"))].

(** A look file is a theme when it has a background and a foreground. *)
Definition theme_of_look (l : TerminalLook) : option ThemeColors :=
  background ← tl_background l;
  foreground ← tl_foreground l;
  Some (mkTheme background foreground (default foreground (tl_cursor l)) (tl_ansi l) (tl_split_divider l)).

Section Resolve.
Context (parse : list Z -> option Path -> result Fault (option TerminalLook)).

(** The loop over the candidate files. *)
Fixpoint first_theme (urls : list Path) : result Fault (option ThemeColors) :=
  match urls with
  | [] => Ok None
  | url :: urls =>
      match read_to_string M url with
      | None => first_theme urls
      | Some text =>
          look ← parse text None;
          match look ≫= theme_of_look with
          | Some theme => Ok (Some theme)
          | None => first_theme urls
          end
      end
  end.

Definition resolve_with (name : list Z) (directory : option Path) : result Fault (option ThemeColors) :=
  first_theme (concat (map (theme_candidates name) (theme_search_dirs directory))).
End Resolve.

Fixpoint parse_look_keys (fuel : nat) (text : list Z) (theme_directory : option Path)
  : result Fault (option TerminalLook) :=
  match fuel with
  | O => Err OutOfFuel
  | S fuel =>
      match for_each (lines text) look_line acc_init with
      | None => Err Panicked
      | Some a =>
          if negb (saw a) then Ok None
          else
            theme ← (match tl_theme_name (look a) with
                     | Some name => resolve_with (parse_look_keys fuel) name theme_directory
                     | None => Ok None
                     end);
            Ok (Some (finish_look theme a))
      end
  end.

Definition resolve_theme (fuel : nat) (name : list Z) (directory : option Path) : result Fault (option ThemeColors) :=
  resolve_with (parse_look_keys fuel) name directory.

(** ** Overlays *)

Definition look_file_candidates_for (home : option Path) (rill_config : option (list Z)) : list Path :=
  match rill_config with Some p => [path_of p] | None => [] end
  ++ match home with Some h => [path_join h (path_of (lit ".config/rill/config"))] | None => [] end.

Definition nonempty (o : option (list Z)) : option (list Z) :=
  match o with Some p => if bool_decide (p = []) then None else o | None => None end.

Definition look_file_candidates : list Path :=
  look_file_candidates_for (env_home M) (nonempty (env_rill_config M)).

Fixpoint first_look (fuel : nat) (paths : list Path) : result Fault (option TerminalLook) :=
  match paths with
  | [] => Ok None
  | path :: paths =>
      match read_to_string M path with
      | None => first_look fuel paths
      | Some text =>
          look ← parse_look_keys fuel text (p ← parent path; Some (path_join p (path_of (lit "themes"))));
          match look with
          | Some l => Ok (Some l)
          | None => first_look fuel paths
          end
      end
  end.
Definition load_look_overlay (fuel : nat) : result Fault (option TerminalLook) := first_look fuel look_file_candidates.

Definition overlay_look (base : HostSurface) (look : TerminalLook) : HostSurface :=
  let base := base
    <| sf_font_family := default (sf_font_family base) (tl_font_family look) |>
    <| sf_font_size := default (sf_font_size base) (tl_font_size look) |>
    <| sf_font_fallbacks := if bool_decide (tl_font_fallbacks look = []) then sf_font_fallbacks base else tl_font_fallbacks look |>
    <| sf_padding_x := default (sf_padding_x base) (tl_padding_x look) |>
    <| sf_padding_y := default (sf_padding_y base) (tl_padding_y look) |>
    <| sf_background_opacity := default (sf_background_opacity base) (tl_background_opacity look) |>
    <| sf_macos_option_as_alt := default (sf_macos_option_as_alt base) (tl_macos_option_as_alt look) |> in
  if bool_decide (tl_background look = None) && bool_decide (tl_foreground look = None)
     && bool_decide (tl_cursor look = None) && bool_decide (tl_ansi look = None)
  then base
  else
    let colors := default
      (mkTheme (default 0x121212ff (tl_background look)) (default 0xccccccff (tl_foreground look))
         (default 0xd9d9d9ff (or_else (tl_cursor look) (tl_foreground look))) (tl_ansi look) (tl_split_divider look))
      (sf_colors base) in
    let colors := mkTheme (default (theme_background colors) (tl_background look))
                    (default (theme_foreground colors) (tl_foreground look))
                    (default (theme_cursor colors) (tl_cursor look))
                    (or_else (tl_ansi look) (theme_ansi colors))
                    (or_else (tl_split_divider look) (split_divider colors)) in
    base <| sf_colors := Some colors |> <| sf_theme := or_else (tl_theme_name look) (sf_theme base) |>.

(** ** Surfaces *)

(** What the toml crate reads from a surface file: the fields present. *)
Record RawSurface := mkRaw {
  raw_font_family : list Z;
  raw_font_size : spec_float;
  raw_font_fallbacks : option (list (list Z));
  raw_cols : option Z;
  raw_rows : option Z;
  raw_theme : option (list Z);
  raw_padding_x : option spec_float;
  raw_padding_y : option spec_float;
  raw_background_opacity : option spec_float;
  raw_macos_option_as_alt : option bool;
}.
Definition default_cols : Z := 80.
Definition default_rows : Z := 24.
Definition default_opaque : spec_float := f32_one.

(** The defaults the attributes of [HostSurface] name. *)
Definition surface_of_raw (r : RawSurface) : HostSurface :=
  mkSurface (raw_font_family r) (raw_font_size r) (default [] (raw_font_fallbacks r))
    (default default_cols (raw_cols r)) (default default_rows (raw_rows r)) (raw_theme r)
    (default f32_zero (raw_padding_x r)) (default f32_zero (raw_padding_y r))
    (default default_opaque (raw_background_opacity r)) (default false (raw_macos_option_as_alt r)) None.

Inductive SurfaceError : Type := Io | Config (message : list Z).

Context (from_toml : list Z -> result (list Z) RawSurface).

Definition load_host_surface (fuel : nat) (path : Path) : result Fault (result SurfaceError HostSurface) :=
  match read_to_string M path with
  | None => Ok (Err Io)
  | Some text =>
      match from_toml text with
      | Err message => Ok (Err (Config message))
      | Ok raw =>
          let cfg := surface_of_raw raw in
          if bool_decide (sf_font_family cfg = []) then Ok (Err (Config (lit "font-family required")))
          else match sf_theme cfg with
               | Some name => colors ← resolve_theme fuel name (parent path); Ok (Ok (cfg <| sf_colors := colors |>))
               | None => Ok (Ok cfg)
               end
      end
  end.

Definition load_resolved_surface (fuel : nat) (path : Path) : result Fault (result SurfaceError HostSurface) :=
  base ← load_host_surface fuel path;
  match base with
  | Err e => Ok (Err e)
  | Ok base => look ← load_look_overlay fuel; Ok (Ok (match look with Some l => overlay_look base l | None => base end))
  end.

Definition discover_host_surface : Path :=
  match nonempty (env_host_surface M) with
  | Some p => path_of p
  | None => default (path_of (lit "host-surface.toml"))
      (head (List.filter (path_exists M)
         [path_of (lit "host-surface.toml"); path_of (lit "../host-surface.toml"); path_of (lit "../../host-surface.toml")]))
  end.

(** [load_surface] of the host: the first of its own candidates that is there. *)
Definition surface_candidates : list Path :=
  match nonempty (env_host_surface M) with Some p => [path_of p] | None => [] end
  ++ [path_of (lit "host-surface.toml")]
  ++ match current_exe M ≫= parent with
     | Some d => [path_join d (path_of (lit "../Resources/host-surface.toml")); path_join d (path_of (lit "host-surface.toml"))]
     | None => []
     end
  ++ [path_of (lit "../../host-surface.toml")].
Definition load_surface (fuel : nat) : result Fault (result SurfaceError HostSurface) :=
  load_resolved_surface fuel (default (path_of (lit "host-surface.toml")) (head (List.filter (path_exists M) surface_candidates))).
End Look.

(** ** Colours of a surface *)

Definition theme_cell (theme : ThemeColors) (def_fg def_bg : Z) (c : PodCell) : PodCell :=
  mkPodCell (pc_codepoint c) (if pc_fg c =? def_fg then theme_foreground theme else pc_fg c)
    (if pc_bg c =? def_bg then theme_background theme else pc_bg c) (pc_attrs c) (pc_pad c).

Definition apply_theme (grid : PodGrid) (surface : HostSurface) : PodGrid :=
  match sf_colors surface with
  | None => grid
  | Some theme => grid <| pg_cells := map (theme_cell theme (pg_default_fg grid) (pg_default_bg grid)) (pg_cells grid) |>
  end.

Definition chrome_surface_rgba (background : Z) : Z :=
  let r := sat_sub (Z.land (Z.shiftr background 24) 0xff) 9 in
  let g := sat_sub (Z.land (Z.shiftr background 16) 0xff) 9 in
  let b := sat_sub (Z.land (Z.shiftr background 8) 0xff) 9 in
  Z.lor (Z.lor (Z.lor (Z.shiftl r 24) (Z.shiftl g 16)) (Z.shiftl b 8)) (Z.land background 0xff).
