(* ===== verification/LookFacts.v ===== *)
(** What a look file means: settings, one per line, the last of each key
    counting, explicit colours over the theme's; colours are sixteen slots of
    32 bits; and when reading a theme ends. *)
From Stdlib Require Import SpecFloat.
From S2P Require Import Prelude Utf8 VtTypes Decimal Text Float Path Look.

Local Open Scope Z_scope.

(** ** Texts *)

(** A text that neither starts nor ends with white space. *)
Definition edged (s : list Z) : Prop :=
  (exists c, head s = Some c /\ is_whitespace c = false) /\ (exists c, last s = Some c /\ is_whitespace c = false).

Lemma trim_start_solid c s : is_whitespace c = false -> trim_start (c :: s) = c :: s.
Proof. intros Hc. cbn. by rewrite Hc. Qed.

Lemma trim_start_id s : (exists c, head s = Some c /\ is_whitespace c = false) -> trim_start s = s.
Proof. intros (c & Hc & Hw). destruct s; [done|]. injection Hc as ->. by apply trim_start_solid. Qed.

Lemma trim_end_id s : (exists c, last s = Some c /\ is_whitespace c = false) -> trim_end s = s.
Proof.
  intros (c & Hc & Hw). apply last_Some in Hc as [s' ->]. unfold trim_end.
  by rewrite reverse_snoc, trim_start_solid, reverse_cons, reverse_involutive.
Qed.

Lemma trim_edged s : edged s -> trim s = s.
Proof. intros [H1 H2]. unfold trim. by rewrite trim_start_id, trim_end_id. Qed.

Lemma trim_end_snoc s c : is_whitespace c = true -> trim_end (s ++ [c]) = trim_end s.
Proof. intros Hc. unfold trim_end. rewrite reverse_snoc. cbn. by rewrite Hc. Qed.

Lemma edged_ne s : edged s -> s <> [].
Proof. by intros [(c & Hc & _) _] ->. Qed.

Lemma edged_app s m t : edged s -> edged t -> edged (s ++ m ++ t).
Proof.
  intros [(c & Hc & Hw) _] [_ (d & Hd & Hw')]. split; [exists c|exists d]; (split; [|done]).
  - by destruct s.
  - apply last_Some in Hd as [t' ->]. rewrite !app_assoc. apply last_snoc.
Qed.

Lemma find_char_app c s t : ~ c ∈ s -> find_char c (s ++ c :: t) = Some (length s).
Proof.
  induction s as [|x s IH]; intros Hs; cbn; [by rewrite Z.eqb_refl|].
  rewrite not_elem_of_cons in Hs. destruct Hs as [Hx Hs]. case_if; [lia|]. by rewrite IH.
Qed.

(** ** Lines *)

Definition text_of (ls : list (list Z)) : list Z := concat (map (fun l => l ++ [0x0a]) ls).

Lemma drop_cr_id l : last l <> Some 0x0d -> drop_cr l = l.
Proof.
  unfold drop_cr. destruct (reverse l) as [|c r] eqn:E; intros Hl.
  { apply (f_equal reverse) in E. by rewrite reverse_involutive in E. }
  assert (l = reverse r ++ [c]) as -> by (rewrite <- reverse_cons, <- E; by rewrite reverse_involutive).
  rewrite last_snoc in Hl. destruct (c =? 13) eqn:Ec; [|done]. destruct Hl. f_equal. lia.
Qed.

Lemma split_on_ne c s : split_on c s <> [].
Proof. destruct s as [|x s]; [done|]. cbn [split_on]. destruct (x =? c); [done|]. by destruct (split_on c s). Qed.

Lemma lines_text ls :
  Forall (fun l => (~ 0x0a ∈ l) /\ last l <> Some 0x0d) ls -> lines (text_of ls) = ls.
Proof.
  unfold lines, text_of. induction 1 as [|l ls [Hl Hr] _ IH]; [done|]. cbn [map concat].
  rewrite <- app_assoc. cbn [app]. rewrite split_on_app by done. cbn [ended_lines].
  destruct (split_on 10 _) as [|l' ls'] eqn:E.
  - by destruct (split_on_ne 10 (concat (map (fun l => l ++ [10]) ls))).
  - cbn [ended_lines] in *. rewrite drop_cr_id by done. by f_equal.
Qed.

(** ** A setting on its line *)

Definition setting_line (p : list Z * list Z) : list Z := fst p ++ lit " = " ++ snd p.

(** A setting whose line reads as it is: a key in lower case, a value without
    quotes, neither broken by white space at its ends or a line feed, and no
    comment but a colour. *)
Record clean (p : list Z * list Z) : Prop := {
  clean_key : edged (fst p);
  clean_value : edged (snd p);
  clean_lower : to_ascii_lowercase (fst p) = fst p;
  clean_eq : ~ ch "=" ∈ fst p;
  clean_hash : head (fst p) <> Some (ch "#");
  clean_quote : unquote (snd p) = snd p;
  clean_lf : (~ 0x0a ∈ fst p) /\ ~ 0x0a ∈ snd p;
  clean_comment : strip_comment (setting_line p) = setting_line p;
  clean_theme : fst p = lit "theme" -> light_theme_name (snd p) <> None;
}.

Lemma setting_edged p : clean p -> edged (setting_line p).
Proof. intros []. by apply edged_app. Qed.

Lemma look_line_setting p a : clean p -> look_line (setting_line p) a = look_key (fst p) (snd p) a.
Proof.
  intros Hp. pose proof (setting_edged p Hp) as He. destruct Hp as [Hk Hv Hl Heq Hh Hq _ Hc _]. unfold look_line.
  rewrite trim_edged, (bool_decide_false (_ = [])), Hc by (done || by apply edged_ne).
  assert (head (setting_line p) = head (fst p)) as ->.
  { unfold setting_line. destruct (fst p) eqn:E; [by destruct (edged_ne _ Hk)|done]. }
  rewrite bool_decide_false by done. cbn [orb].
  assert (setting_line p = (fst p ++ [32]) ++ ch "=" :: 32 :: snd p) as ->.
  { unfold setting_line. by rewrite <- app_assoc. }
  rewrite find_char_app by (rewrite elem_of_app; intros [|Hx%list_elem_of_singleton]; done).
  rewrite take_app_length, drop_app_ge by lia.
  replace (length (fst p ++ [32%Z]) + 1 - length (fst p ++ [32%Z]))%nat with 1%nat by lia. cbn [drop].
  assert (trim (fst p ++ [32]) = fst p) as ->.
  { unfold trim. destruct Hk as [H1 H2]. destruct H1 as (c & Hc1 & Hw). destruct (fst p) as [|k ks]; [done|].
    injection Hc1 as ->. cbn [app]. rewrite trim_start_solid by done. rewrite app_comm_cons, trim_end_snoc by done.
    by apply trim_end_id. }
  assert (trim (32 :: snd p) = snd p) as -> by (by apply (trim_edged (snd p))).
  by rewrite Hl, Hq.
Qed.

Lemma look_lines_settings ps a :
  Forall clean ps ->
  for_each (lines (text_of (map setting_line ps))) look_line a
  = for_each ps (fun p => look_key (fst p) (snd p)) a.
Proof.
  intros Hps. rewrite lines_text.
  - revert a. induction Hps as [|p ps Hp _ IH]; intros a; [done|]. cbn [map for_each].
    rewrite look_line_setting by done. destruct (look_key _ _ a); cbn; [apply IH|done].
  - apply Forall_map. eapply Forall_impl; [exact Hps|]. intros p Hp. split.
    + destruct (clean_lf _ Hp) as [H1 H2]. unfold setting_line. rewrite !elem_of_app. intros [|[Hx|]]; [done| |done].
      revert Hx. apply (bool_decide_unpack (~ 10 ∈ lit " = ")). vm_compute. exact I.
    + destruct (setting_edged p Hp) as [_ (c & -> & Hc)]. intros [= ->]. done.
Qed.

(** ** What the settings of a file say *)

Abbreviation Setting := (list Z * list Z)%type.

(** The last setting of a key that reads as a value. *)
Definition at_key {T} (k : string) (f : list Z -> option T) (p : Setting) : option T :=
  if bool_decide (fst p = lit k) then f (snd p) else None.
Definition setting {T} (k : string) (f : list Z -> option T) (ps : list Setting) : option T := last (omap (at_key k f) ps).

(** The palette entries, slot and colour. *)
Definition entry_of (index value : list Z) : option (Z * Z) :=
  i ← parse_u64 index; h ← parse_hex value; if i <=? 15 then Some (i, h) else None.
Definition palette_entry (p : Setting) : option (Z * Z) :=
  if bool_decide (fst p = lit "palette") then
    i ← find_char (ch "=") (snd p); entry_of (trim (take i (snd p))) (trim (drop (i + 1) (snd p)))
  else rest ← strip_prefix (lit "palette.") (fst p); entry_of rest (snd p).
Definition slot (i : Z) (es : list (Z * Z)) : option Z :=
  last (omap (fun e => if fst e =? i then Some (snd e) else None) es).
Definition entries (ps : list Setting) : list (Z * Z) := omap palette_entry ps.
Definition slots (es : list (Z * Z)) : list (option Z) := map (fun i => slot i es) (seqZ 0 16).

Definition some_value (v : list Z) : option (list Z) := if bool_decide (v = []) then None else Some v.

(** A setting that is read at all. *)
Definition is_set {T} (o : option T) : bool := match o with Some _ => true | None => false end.
Definition counts (p : Setting) : bool :=
  is_set (at_key "font-family" some_value p) || is_set (at_key "font-size" parse_f32 p)
  || is_set (at_key "font-family-fallback" some_value p) || is_set (at_key "background" parse_hex p)
  || is_set (at_key "foreground" parse_hex p) || is_set (at_key "cursor" parse_hex p)
  || is_set (at_key "cursor-color" parse_hex p) || is_set (at_key "window-padding-x" first_number p)
  || is_set (at_key "window-padding-y" first_number p) || is_set (at_key "background-opacity" parse_f32 p)
  || is_set (at_key "split-divider-color" parse_hex p) || is_set (at_key "theme" light_theme_name p)
  || is_set (at_key "macos-option-as-alt" parse_bool p) || is_set (palette_entry p).

(** Two keys name the cursor's colour. *)
Definition cursor_at (p : Setting) : option Z := or_else (at_key "cursor" parse_hex p) (at_key "cursor-color" parse_hex p).
Definition cursor_setting (ps : list Setting) : option Z := last (omap cursor_at ps).

Definition opacity (v : list Z) : option spec_float := f32_clamp f32_zero f32_one <$> parse_f32 v.
Definition as_alt (v : list Z) : option (option bool) := Some (parse_bool v).

(** The look of the settings alone, before any theme. *)
Definition look_of (ps : list Setting) : TerminalLook :=
  mkLook (setting "font-family" some_value ps) (setting "font-size" parse_f32 ps)
    (omap (at_key "font-family-fallback" some_value) ps)
    None None None None (setting "window-padding-x" first_number ps) (setting "window-padding-y" first_number ps)
    (setting "background-opacity" opacity ps) None (setting "theme" light_theme_name ps)
    (mjoin (setting "macos-option-as-alt" as_alt ps)).

Definition acc_of (ps : list Setting) : LookAcc :=
  mkAcc (look_of ps) (map (default 0) (slots (entries ps))) (map is_set (slots (entries ps)))
    (existsb counts ps) (setting "background" parse_hex ps) (setting "foreground" parse_hex ps) (cursor_setting ps)
    (setting "split-divider-color" parse_hex ps).

Lemma last_omap_snoc {A B} (f : A -> option B) l x :
  last (omap f (l ++ [x])) = or_else (f x) (last (omap f l)).
Proof.
  rewrite omap_app. cbn. destruct (f x); cbn; [by rewrite last_snoc|by rewrite app_nil_r].
Qed.

Lemma setting_snoc {T} k (f : list Z -> option T) ps p :
  setting k f (ps ++ [p]) = or_else (at_key k f p) (setting k f ps).
Proof. apply last_omap_snoc. Qed.

Lemma acc_snoc ps p :
  acc_of (ps ++ [p]) =
  mkAcc
    (mkLook (or_else (at_key "font-family" some_value p) (setting "font-family" some_value ps))
       (or_else (at_key "font-size" parse_f32 p) (setting "font-size" parse_f32 ps))
       (omap (at_key "font-family-fallback" some_value) ps ++ option_list (at_key "font-family-fallback" some_value p))
       None None None None
       (or_else (at_key "window-padding-x" first_number p) (setting "window-padding-x" first_number ps))
       (or_else (at_key "window-padding-y" first_number p) (setting "window-padding-y" first_number ps))
       (or_else (at_key "background-opacity" opacity p) (setting "background-opacity" opacity ps)) None
       (or_else (at_key "theme" light_theme_name p) (setting "theme" light_theme_name ps))
       (mjoin (or_else (at_key "macos-option-as-alt" as_alt p) (setting "macos-option-as-alt" as_alt ps))))
    (map (default 0) (slots (entries ps ++ option_list (palette_entry p))))
    (map is_set (slots (entries ps ++ option_list (palette_entry p))))
    (existsb counts ps || counts p)
    (or_else (at_key "background" parse_hex p) (setting "background" parse_hex ps))
    (or_else (at_key "foreground" parse_hex p) (setting "foreground" parse_hex ps))
    (or_else (cursor_at p) (cursor_setting ps))
    (or_else (at_key "split-divider-color" parse_hex p) (setting "split-divider-color" parse_hex ps)).
Proof.
  unfold acc_of, look_of, cursor_setting, entries. rewrite !setting_snoc, last_omap_snoc, !omap_app, existsb_app.
  cbn [omap list_omap existsb]. rewrite orb_false_r. by destruct (palette_entry p), (at_key "font-family-fallback" some_value p).
Qed.

Lemma slots_lookup es i : 0 <= i <= 15 -> slots es !! Z.to_nat i = Some (slot i es).
Proof.
  intros Hi. unfold slots. rewrite list_lookup_fmap, lookup_seqZ_lt by lia. cbn.
  by rewrite Z2Nat.id by lia.
Qed.

Lemma slots_snoc es i h : 0 <= i <= 15 -> slots (es ++ [(i, h)]) = <[Z.to_nat i := Some h]> (slots es).
Proof.
  intros Hi. apply list_eq. intros j. unfold slots.
  destruct (decide (j < 16)%nat) as [Hj|Hj].
  - rewrite list_lookup_insert. case_decide as Hd.
    + destruct Hd as [<- _]. rewrite list_lookup_fmap, lookup_seqZ_lt by lia. cbn. f_equal.
      unfold slot. rewrite last_omap_snoc. cbn. by rewrite Z2Nat.id, Z.eqb_refl by lia.
    + rewrite !list_lookup_fmap, lookup_seqZ_lt by lia. cbn. f_equal.
      unfold slot. rewrite last_omap_snoc. cbn. case_if; [|done]. destruct Hd. split; [lia|].
      rewrite length_fmap, length_seqZ. lia.
  - rewrite !lookup_ge_None_2; [done| |]; rewrite ?length_insert, length_fmap, length_seqZ; lia.
Qed.

Lemma parse_digits_nonneg ds acc v : 0 <= acc -> parse_digits acc ds = Some v -> 0 <= v.
Proof.
  revert acc; induction ds as [|d ds IH]; intros acc Ha; cbn; [congruence|].
  destruct (within 48 57 d) eqn:Ed; [|done]. case_if; [done|]. apply IH. unfold within in *. lia.
Qed.

Lemma parse_u64_nonneg s v : parse_u64 s = Some v -> 0 <= v.
Proof. unfold parse_u64. cbv zeta. case_bool_decide; [done|]. by apply parse_digits_nonneg. Qed.

Lemma set_palette_entry_eq index value ps p :
  palette_entry p = entry_of index value ->
  set_palette_entry index value (acc_of ps) =
  Some (acc_of ps <| acc_ansi := map (default 0) (slots (entries ps ++ option_list (palette_entry p))) |>
                  <| ansi_set := map is_set (slots (entries ps ++ option_list (palette_entry p))) |>
                  <| saw := existsb counts ps || is_set (palette_entry p) |>).
Proof.
  intros He. rewrite He. unfold set_palette_entry, entry_of, acc_of.
  destruct (parse_u64 index) as [i|] eqn:Ei; cbn -[slots]; [|by rewrite app_nil_r, !orb_false_r].
  pose proof (parse_u64_nonneg _ _ Ei).
  destruct (i <=? 15) eqn:Hi; destruct (parse_hex value) as [h|]; cbn -[slots]; try (by rewrite app_nil_r, !orb_false_r).
  rewrite slots_snoc by lia. unfold zset, len.
  rewrite !length_map, !andb_true_intro by (unfold slots; rewrite ?length_map, length_seqZ; lia).
  cbn -[slots]. rewrite !list_fmap_insert, orb_true_r. reflexivity.
Qed.

(** The keys are told apart by evaluation. *)
Ltac eval_keys :=
  unfold cursor_at, counts; unfold at_key; cbn [fst snd];
  repeat match goal with
  | |- context [bool_decide (lit ?a = lit ?b)] =>
      let r := eval vm_compute in (bool_decide (lit a = lit b)) in
      change (bool_decide (lit a = lit b)) with r
  | |- context [strip_prefix (lit ?a) (lit ?b)] =>
      let r := eval vm_compute in (strip_prefix (lit a) (lit b)) in
      change (strip_prefix (lit a) (lit b)) with r
  end.

Definition palette_free (k : list Z) : bool :=
  negb (bool_decide (k = lit "palette")) && bool_decide (strip_prefix (lit "palette.") k = None).

Lemma palette_entry_free k v : palette_free k = true -> palette_entry (k, v) = None.
Proof.
  unfold palette_free, palette_entry. intros [H1%negb_true_iff H2%bool_decide_eq_true]%andb_true_iff.
  apply bool_decide_eq_false in H1. cbn [fst snd]. by rewrite bool_decide_false, H2.
Qed.

Definition named_keys : list (list Z) :=
  map lit ["font-family"; "font-size"; "font-family-fallback"; "background"; "foreground"; "cursor"; "cursor-color";
    "window-padding-x"; "window-padding-y"; "background-opacity"; "split-divider-color"; "theme";
    "macos-option-as-alt"]%string.

(** Each key with its value: what one line does. *)
Lemma look_key_named ps k v :
  k ∈ named_keys -> (k = lit "theme" -> light_theme_name v <> None) ->
  look_key k v (acc_of ps) = Some (acc_of (ps ++ [(k, v)])).
Proof.
  intros Hin Ht. rewrite acc_snoc. unfold acc_of, look_of.
  generalize (existsb counts ps) (entries ps) (cursor_setting ps) (omap (at_key "font-family-fallback" some_value) ps).
  repeat match goal with |- context [setting ?k ?f ps] => generalize (setting k f ps); intros ? end. intros saw es cs fs.
  unfold named_keys in Hin. cbn [map] in Hin. rewrite !elem_of_cons in Hin.
  unfold look_key. cbv zeta.
  repeat (destruct Hin as [-> |Hin]; [ rewrite (palette_entry_free _ v) by reflexivity; eval_keys; cbn [andb orb negb] |]).
  all: try (by apply elem_of_nil in Hin).
  all: try specialize (Ht eq_refl); unfold some_value, opacity, as_alt; try case_bool_decide;
    repeat lazymatch goal with
    | |- context [parse_f32 ?x] => destruct (parse_f32 x)
    | |- context [parse_hex ?x] => destruct (parse_hex x)
    | |- context [first_number ?x] => destruct (first_number x)
    | |- context [light_theme_name ?x] => destruct (light_theme_name x); [|done]
    | |- context [parse_bool ?x] => destruct (parse_bool x)
    end;
    cbn [negb is_set or_else option_list orb option_bind mbind]; rewrite ?app_nil_r, ?orb_false_r, ?orb_true_r;
    reflexivity.
Qed.

Definition with_entries (ps : list Setting) (p : Setting) : LookAcc :=
  acc_of ps <| acc_ansi := map (default 0) (slots (entries ps ++ option_list (palette_entry p))) |>
            <| ansi_set := map is_set (slots (entries ps ++ option_list (palette_entry p))) |>
            <| saw := existsb counts ps || is_set (palette_entry p) |>.

Lemma with_no_entry ps p : palette_entry p = None -> with_entries ps p = acc_of ps.
Proof. intros Hp. unfold with_entries. rewrite Hp. cbn [option_list is_set]. by rewrite app_nil_r, orb_false_r. Qed.

Lemma set_palette_entry_with index value ps p :
  palette_entry p = entry_of index value -> set_palette_entry index value (acc_of ps) = Some (with_entries ps p).
Proof. intros He. by apply set_palette_entry_eq. Qed.

Lemma look_key_other ps k v : ~ k ∈ named_keys -> look_key k v (acc_of ps) = Some (acc_of (ps ++ [(k, v)])).
Proof.
  intros Hout. unfold named_keys in Hout. cbn [map] in Hout. rewrite !not_elem_of_cons in Hout. destruct_and!.
  transitivity (Some (with_entries ps (k, v))).
  - unfold look_key. cbv zeta. rewrite !(bool_decide_false (k = lit "font-family")), !(bool_decide_false (k = lit "font-size")),
      !(bool_decide_false (k = lit "font-family-fallback")), !(bool_decide_false (k = lit "background")),
      !(bool_decide_false (k = lit "foreground")), !(bool_decide_false (k = lit "cursor")),
      !(bool_decide_false (k = lit "cursor-color")), !(bool_decide_false (k = lit "window-padding-x")),
      !(bool_decide_false (k = lit "window-padding-y")), !(bool_decide_false (k = lit "background-opacity")),
      !(bool_decide_false (k = lit "split-divider-color")), !(bool_decide_false (k = lit "theme")),
      !(bool_decide_false (k = lit "macos-option-as-alt")) by done.
    cbn [andb orb]. destruct (bool_decide (k = lit "palette")) eqn:Ep.
    + destruct (find_char (ch "=") v) as [i|] eqn:Ei.
      * apply set_palette_entry_with. unfold palette_entry. cbn [fst snd]. by rewrite Ep, Ei.
      * rewrite with_no_entry; [done|]. unfold palette_entry. cbn [fst snd]. by rewrite Ep, Ei.
    + destruct (strip_prefix (lit "palette.") k) as [rest|] eqn:Er.
      * apply set_palette_entry_with. unfold palette_entry. cbn [fst snd]. by rewrite Ep, Er.
      * rewrite with_no_entry; [done|]. unfold palette_entry. cbn [fst snd]. by rewrite Ep, Er.
  - f_equal. rewrite acc_snoc. unfold counts, cursor_at, at_key. cbn [fst snd]. rewrite !bool_decide_false by done.
    cbn [or_else option_list is_set orb]. by rewrite app_nil_r.
Qed.

Lemma look_key_eq ps k v :
  (k = lit "theme" -> light_theme_name v <> None) ->
  look_key k v (acc_of ps) = Some (acc_of (ps ++ [(k, v)])).
Proof. intros Ht. destruct (decide (k ∈ named_keys)); [by apply look_key_named|by apply look_key_other]. Qed.

Lemma look_settings_eq ps : Forall clean ps -> for_each ps (fun p => look_key (fst p) (snd p)) acc_init = Some (acc_of ps).
Proof.
  induction ps as [|[k v] ps IH] using rev_ind; intros Hps; [reflexivity|].
  apply Forall_app in Hps as [Hps [Hp _]%Forall_cons]. rewrite for_each_app, IH by done. cbn [for_each mbind option_bind fst snd].
  rewrite look_key_eq; [done|]. apply (clean_theme _ Hp).
Qed.

(** ** The whole file *)

(** The palette: a theme's, with the entries over it, or a whole new one. *)
Definition palette_with (es : list (Z * Z)) (old : option (list Z)) : option (list Z) :=
  if bool_decide (es = []) then old
  else match old with
       | Some cs => Some (zip_with (fun i c => default c (slot i es)) (seqZ 0 16) cs)
       | None => if forallb is_set (slots es) then Some (map (default 0) (slots es)) else None
       end.

(** What a file says, over a theme. *)
Definition described (theme : option ThemeColors) (ps : list Setting) : TerminalLook :=
  look_of ps
    <| tl_background := or_else (setting "background" parse_hex ps) (theme_background <$> theme) |>
    <| tl_foreground := or_else (setting "foreground" parse_hex ps) (theme_foreground <$> theme) |>
    <| tl_cursor := or_else (cursor_setting ps) (theme_cursor <$> theme) |>
    <| tl_ansi := palette_with (entries ps) (theme ≫= theme_ansi) |>
    <| tl_split_divider := or_else (setting "split-divider-color" parse_hex ps) (theme ≫= split_divider) |>.

Lemma merge_map {I : Type} (f : I -> option Z) (js : list I) cs :
  map (fun '(set, x, old) => if set : bool then x else old)
    (zip (zip (map is_set (map f js)) (map (default 0) (map f js))) cs)
  = zip_with (fun i c => default c (f i)) js cs.
Proof.
  revert cs; induction js as [|j js IH]; intros [|c cs]; cbn; [done..|]. f_equal; [|apply IH].
  by destruct (f j).
Qed.

Lemma entries_range ps : Forall (fun e => 0 <= fst e <= 15) (entries ps).
Proof.
  apply Forall_forall. intros [i h] (p & _ & Hp)%list_elem_of_omap. unfold palette_entry, entry_of in Hp.
  assert (forall index value, entry_of index value = Some (i, h) -> 0 <= i <= 15) as He.
  { clear. intros index value. unfold entry_of. intros (j & Hj & (h' & _ & Hi)%bind_Some)%bind_Some.
    destruct (j <=? 15) eqn:E; [|done]. injection Hi as -> ->. pose proof (parse_u64_nonneg _ _ Hj). lia. }
  case_bool_decide; apply bind_Some in Hp as (x & _ & Hp); by eapply He.
Qed.

Lemma slots_some es : Forall (fun e => 0 <= fst e <= 15) es -> existsb id (map is_set (slots es)) = negb (bool_decide (es = [])).
Proof.
  intros Hes. destruct es as [|[i h] es] using rev_ind; [reflexivity|].
  rewrite bool_decide_false by (by destruct es). apply Forall_app in Hes as [_ [Hi _]%Forall_cons]. cbn in Hi.
  apply existsb_exists. exists true. split; [|done]. apply list_elem_of_In, list_elem_of_fmap.
  exists (Some h). split; [done|]. rewrite slots_snoc by lia. apply list_elem_of_lookup. exists (Z.to_nat i).
  apply list_lookup_insert_eq. unfold slots. rewrite length_map, length_seqZ. lia.
Qed.

Lemma forallb_id_map {A} (f : A -> bool) l : forallb id (map f l) = forallb f l.
Proof. induction l as [|x l IH]; cbn; [done|by rewrite IH]. Qed.

Lemma finish_described theme ps : finish_look theme (acc_of ps) = described theme ps.
Proof.
  assert (existsb id (ansi_set (acc_of ps)) = negb (bool_decide (entries ps = []))) as Hes
    by apply slots_some, entries_range.
  unfold finish_look. rewrite Hes. unfold described, palette_with, merge_ansi, acc_of, slots.
  cbn [ansi_set acc_ansi explicit_bg explicit_fg explicit_cursor explicit_split].
  rewrite forallb_id_map. case_bool_decide as He; cbn [negb].
  - destruct theme as [[? ? ? ? ?]|]; cbn; by destruct (setting "split-divider-color" _ _).
  - destruct theme as [[? ? ? [cs|] ?]|]; cbn -[seqZ map]; rewrite ?merge_map; try reflexivity; by destruct (forallb _ _).
Qed.

Lemma parse_settings_eq M fuel dir ps theme :
  Forall clean ps ->
  match setting "theme" light_theme_name ps with
  | Some name => resolve_theme M fuel name dir = Ok theme
  | None => theme = None
  end ->
  parse_look_keys M (S fuel) (text_of (map setting_line ps)) dir
  = Ok (if existsb counts ps then Some (described theme ps) else None).
Proof.
  intros Hps Ht. cbn [parse_look_keys]. rewrite look_lines_settings, look_settings_eq by done.
  change (saw (acc_of ps)) with (existsb counts ps). destruct (existsb counts ps); [|done].
  change (tl_theme_name (look (acc_of ps))) with (setting "theme" light_theme_name ps). cbn [negb].
  destruct (setting "theme" light_theme_name ps) as [name|].
  - unfold resolve_theme in Ht. rewrite Ht. cbn. by rewrite finish_described.
  - subst theme. cbn. by rewrite finish_described.
Qed.

(** ** Colours of 32 bits, sixteen to a palette *)

Definition ansi_ok (o : option (list Z)) : Prop :=
  match o with Some cs => length cs = 16%nat /\ Forall u32 cs | None => True end.
Definition theme_ok (t : ThemeColors) : Prop :=
  u32 (theme_background t) /\ u32 (theme_foreground t) /\ u32 (theme_cursor t) /\ ansi_ok (theme_ansi t)
  /\ from_option u32 True (split_divider t).
Definition look_ok (l : TerminalLook) : Prop :=
  from_option u32 True (tl_background l) /\ from_option u32 True (tl_foreground l) /\
  from_option u32 True (tl_cursor l) /\ ansi_ok (tl_ansi l) /\ from_option u32 True (tl_split_divider l).
Definition acc_ok (a : LookAcc) : Prop :=
  look_ok (look a) /\ ansi_ok (Some (acc_ansi a)) /\ length (ansi_set a) = 16%nat /\
  from_option u32 True (explicit_bg a) /\ from_option u32 True (explicit_fg a) /\
  from_option u32 True (explicit_cursor a) /\ from_option u32 True (explicit_split a).

Lemma hex_digit_range c : is_ascii_hexdigit c = true -> 0 <= hex_digit c <= 15.
Proof. unfold is_ascii_hexdigit, hex_digit, within. intros. repeat case_if; lia. Qed.

Lemma from_hex_range s : forallb is_ascii_hexdigit s = true -> 0 <= from_hex s < 16 ^ len s.
Proof.
  unfold from_hex. induction s as [|c s IH] using rev_ind; [done|]. rewrite forallb_app. cbn.
  rewrite !andb_true_iff. intros [Hs [Hc _]]. specialize (IH Hs). pose proof (hex_digit_range c Hc).
  rewrite fold_left_app. cbn [fold_left]. rewrite len_app. change (len [c]) with 1.
  rewrite Z.pow_add_r by (pose proof (len_nonneg s); lia). lia.
Qed.

Lemma forallb_twice s : forallb is_ascii_hexdigit s = true -> forallb is_ascii_hexdigit (flat_map (fun c => [c; c]) s) = true.
Proof. induction s as [|c s IH]; cbn; [done|]. rewrite !andb_true_iff. intros [Hc Hs]. auto. Qed.

Lemma lor_ff n : Z.lor (Z.shiftl n 8) 255 = n * 256 + 255.
Proof.
  rewrite Z.shiftl_mul_pow2 by lia. symmetry. apply Z.add_nocarry_lor, Z.bits_inj'. intros i Hi.
  rewrite Z.land_spec, Z.bits_0. change 255 with (Z.ones 8). destruct (decide (i < 8)).
  - by rewrite Z.mul_pow2_bits_low by lia.
  - rewrite Z.ones_spec_high by lia. apply andb_false_r.
Qed.

(** A colour read from a file is opaque. *)
Lemma parse_hex_range v h : parse_hex v = Some h -> u32 h /\ h mod 256 = 255.
Proof.
  unfold parse_hex. set (hex := trim_start_matches _ _). destruct (forallb is_ascii_hexdigit hex) eqn:Eh; [|done].
  cbn [negb]. set (hex' := if len hex =? 3 then _ else hex).
  assert (forallb is_ascii_hexdigit hex' = true) as Eh' by (subst hex'; case_if; [by apply forallb_twice|done]).
  destruct (len hex' =? 6) eqn:El; [|done]. cbn [negb]. intros [= <-].
  pose proof (from_hex_range _ Eh') as Hr. replace (len hex') with 6 in Hr by lia.
  rewrite lor_ff.
  change (16 ^ 6) with 16777216 in Hr. split; [num|]. rewrite Z.add_comm, Z_mod_plus_full. done.
Qed.

Lemma zset_all (P : Z -> Prop) l i x l' : Forall P l -> P x -> zset l i x = Some l' -> Forall P l' /\ length l' = length l.
Proof.
  unfold zset. intros Hl Hx. case_if; [|done]. intros [= <-]. split; [by apply Forall_insert|apply length_insert].
Qed.

Lemma set_palette_entry_ok index value a a' :
  acc_ok a -> set_palette_entry index value a = Some a' -> acc_ok a'.
Proof.
  intros (Hl & [H16 Hu] & Hs & He). unfold set_palette_entry.
  destruct (parse_u64 index) as [i|]; [|by intros [= <-]]. destruct (i <=? 15); [|by intros [= <-]].
  destruct (parse_hex value) as [h|] eqn:Eh; [|by intros [= <-]].
  apply parse_hex_range in Eh as [Hh _].
  intros (cs & Hcs & (set & Hset & [= <-])%bind_Some)%bind_Some.
  destruct (zset_all u32 _ _ _ _ Hu Hh Hcs) as [Hu' Hn].
  assert (length set = 16%nat) as Hset'.
  { unfold zset in Hset. destruct (_ && _) in Hset; [|done]. injection Hset as <-. by rewrite length_insert. }
  repeat split; try done; try apply Hl; try apply He. cbn. by rewrite Hn.
Qed.

Lemma some_saw_ok {T} (o : option T) f a a' :
  (forall x, o = Some x -> acc_ok (f x a)) -> acc_ok a -> some_saw o f a = Some a' -> acc_ok a'.
Proof. intros Hf Ha. destruct o as [x|]; cbn; intros [= <-]; [|done]. apply (Hf x eq_refl). Qed.

Lemma look_key_ok k v a a' : acc_ok a -> look_key k v a = Some a' -> acc_ok a'.
Proof.
  intros Ha. pose proof Ha as (_ & [H16 Hu] & _). unfold look_key. cbv zeta.
  assert (forall h, parse_hex v = Some h -> u32 h) as Hh by (intros h H; apply (parse_hex_range v h H)).
  repeat lazymatch goal with
  | |- (if ?b then Some _ else _) = _ -> _ => destruct b; [intros [= <-]; by destruct (parse_bool v)|]
  | |- (if ?b then some_saw _ _ _ else _) = _ -> _ =>
      destruct b; [apply some_saw_ok; [intros x Hx; unfold acc_ok, look_ok in *; cbn; destruct_and!; split_and!; by eauto|exact Ha]|]
  | |- (if ?b then light_theme_name _ ≫= _ else _) = _ -> _ =>
      destruct b; [intros (name & _ & [= <-])%bind_Some; exact Ha|]
  end.
  case_if.
  - destruct (find_char _ v); [by apply set_palette_entry_ok|by intros [= <-]].
  - destruct (strip_prefix _ k); [by apply set_palette_entry_ok|by intros [= <-]].
Qed.

Lemma look_line_ok raw a a' : acc_ok a -> look_line raw a = Some a' -> acc_ok a'.
Proof.
  intros Ha. unfold look_line. case_if; [by intros [= <-]|].
  destruct (find_char _ _); [by apply look_key_ok|by intros [= <-]].
Qed.

Lemma look_lines_ok ls a a' : acc_ok a -> for_each ls look_line a = Some a' -> acc_ok a'.
Proof.
  revert a; induction ls as [|l ls IH]; intros a Ha; cbn; [by intros [= <-]|].
  intros (a1 & H1 & H2)%bind_Some. eapply IH; [by eapply look_line_ok|done].
Qed.

Lemma acc_init_ok : acc_ok acc_init.
Proof. repeat split; try done. apply Forall_replicate. num. Qed.

Lemma merge_ok a cs : acc_ok a -> ansi_ok (Some cs) -> ansi_ok (Some (merge_ansi a cs)).
Proof.
  intros (_ & [H16 Hu] & Hs & _) [Hc Hcu]. unfold merge_ansi. split.
  - rewrite length_map, !length_zip. lia.
  - apply Forall_forall. intros x ([[b y] z] & -> & Hin)%list_elem_of_fmap. apply elem_of_zip_l in Hin as Hl.
    apply elem_of_zip_r in Hin, Hl. rewrite Forall_forall in Hu, Hcu. destruct b; auto.
Qed.

Lemma or_else_ok {T} (P : T -> Prop) o o' : from_option P True o -> from_option P True o' -> from_option P True (or_else o o').
Proof. by destruct o. Qed.

Lemma finish_look_ok theme a : acc_ok a -> from_option theme_ok True theme -> look_ok (finish_look theme a).
Proof.
  intros Ha Ht. pose proof Ha as (Hl & H16 & Hs & He). destruct_and!.
  assert (look_ok (with_theme theme (look a))) as (?&?&?&Hm&?).
  { destruct theme as [t|]; [|done]. by destruct Ht as (?&?&?&?&?). }
  unfold finish_look. cbv zeta. unfold look_ok.
  case_if; [destruct (tl_ansi _) as [cs|] eqn:Ec; [|case_if]|]; cbn in *; split_and!; try (by apply or_else_ok); try done.
  - exact (proj1 (merge_ok _ _ Ha Hm)).
  - exact (proj2 (merge_ok _ _ Ha Hm)).
  - apply H16.
  - apply H16.
  - by rewrite Ec.
Qed.

Section Loaded.
Context (M : Machine).

Definition parses_ok (parse : list Z -> option Path -> result Fault (option TerminalLook)) : Prop :=
  forall text dir l, parse text dir = Ok (Some l) -> look_ok l.

Lemma theme_of_look_ok l t : look_ok l -> theme_of_look l = Some t -> theme_ok t.
Proof.
  intros (Hb & Hf & Hc & Ha & Hs). unfold theme_of_look. intros (b & Eb & (f & Ef & [= <-])%bind_Some)%bind_Some.
  rewrite Eb in Hb. rewrite Ef in Hf. split_and!; try done. cbn. by destruct (tl_cursor l).
Qed.

Lemma first_theme_ok parse urls t : parses_ok parse -> first_theme M parse urls = Ok (Some t) -> theme_ok t.
Proof.
  intros Hp. induction urls as [|url urls IH]; cbn; [done|]. destruct (read_to_string M url) as [text|]; [|done].
  destruct (parse text None) as [o|] eqn:Eo; [|done]. cbn. destruct o as [l|]; cbn; [|done].
  destruct (theme_of_look l) as [t'|] eqn:Et; [|done]. intros [= <-]. eapply theme_of_look_ok; [by eapply Hp|done].
Qed.

Lemma parse_look_ok fuel : parses_ok (parse_look_keys M fuel).
Proof.
  induction fuel as [|fuel IH]; intros text dir l; cbn [parse_look_keys]; [done|].
  destruct (for_each _ _ _) as [a|] eqn:Ea; [|done]. apply look_lines_ok in Ea; [|apply acc_init_ok].
  destruct (saw a); [|done]. cbn [negb]. destruct (tl_theme_name (look a)) as [name|].
  - destruct (resolve_with _ _ _ _) as [t|] eqn:Et; cbn; [|done]. intros [= <-]. apply finish_look_ok; [done|].
    destruct t as [t|]; [|done]. by eapply first_theme_ok.
  - cbn. intros [= <-]. by apply finish_look_ok.
Qed.

Lemma resolve_theme_ok fuel name dir t : resolve_theme M fuel name dir = Ok (Some t) -> theme_ok t.
Proof. apply first_theme_ok, parse_look_ok. Qed.

Lemma overlay_ok base l : from_option theme_ok True (sf_colors base) -> look_ok l ->
  from_option theme_ok True (sf_colors (overlay_look base l)).
Proof.
  intros Hb (Hbg & Hfg & Hc & Ha & Hs). unfold overlay_look. cbv zeta. case_if; [done|]. cbn.
  assert (theme_ok (default (mkTheme (default 0x121212ff (tl_background l)) (default 0xccccccff (tl_foreground l))
         (default 0xd9d9d9ff (or_else (tl_cursor l) (tl_foreground l))) (tl_ansi l) (tl_split_divider l)) (sf_colors base)))
    as Ht.
  { destruct (sf_colors base) as [t|]; [done|]. cbn. split_and!; cbn; try done.
    - destruct (tl_background l); cbn; [done|num].
    - destruct (tl_foreground l); cbn; [done|num].
    - destruct (tl_cursor l); cbn; [done|]. destruct (tl_foreground l); cbn; [done|num]. }
  destruct Ht as (?&?&?&?&?). split_and!; cbn.
  - by destruct (tl_background l).
  - by destruct (tl_foreground l).
  - by destruct (tl_cursor l).
  - by destruct (tl_ansi l).
  - by destruct (tl_split_divider l).
Qed.

Lemma first_look_ok fuel paths l : first_look M fuel paths = Ok (Some l) -> look_ok l.
Proof.
  induction paths as [|p paths IH]; cbn; [done|]. destruct (read_to_string M p); [|done].
  destruct (parse_look_keys _ _ _ _) as [o|] eqn:E; [|done]. cbn. destruct o; [|done]. intros [= <-]. by eapply parse_look_ok.
Qed.

Lemma load_host_surface_ok from_toml fuel path s :
  load_host_surface M from_toml fuel path = Ok (Ok s) -> from_option theme_ok True (sf_colors s).
Proof.
  unfold load_host_surface. destruct (read_to_string M path); [|done]. destruct (from_toml _) as [raw|]; [|done].
  case_bool_decide; [done|]. cbn [sf_theme surface_of_raw]. destruct (raw_theme raw) as [name|]; [|by intros [= <-]].
  destruct (resolve_theme _ _ _ _) as [t|] eqn:Et; cbn; [|done]. intros [= <-]. destruct t as [t|]; [|done]. by eapply resolve_theme_ok.
Qed.

Lemma load_resolved_ok from_toml fuel path s :
  load_resolved_surface M from_toml fuel path = Ok (Ok s) -> from_option theme_ok True (sf_colors s).
Proof.
  unfold load_resolved_surface. destruct (load_host_surface _ _ _ _) as [[base|]|] eqn:Eb; cbn; [|done..].
  apply load_host_surface_ok in Eb. unfold load_look_overlay.
  destruct (first_look _ _ _) as [o|] eqn:Eo; cbn; [|done]. intros [= <-]. destruct o as [l|]; [|done].
  apply overlay_ok; [done|]. by eapply first_look_ok.
Qed.
End Loaded.

(** ** When reading a theme ends *)

(** A file that names no theme is read without another file. *)
Definition no_theme (text : list Z) : Prop :=
  forall a, for_each (lines text) look_line acc_init = Some a -> tl_theme_name (look a) = None.

Lemma no_theme_done M fuel text dir : no_theme text -> parse_look_keys M (S fuel) text dir <> Err OutOfFuel.
Proof.
  intros Ht. cbn [parse_look_keys]. destruct (for_each _ _ _) as [a|] eqn:Ea; [|done]. rewrite (Ht a Ea).
  by destruct (saw a).
Qed.

Lemma first_theme_done M parse urls :
  (forall p text, read_to_string M p = Some text -> parse text None <> Err OutOfFuel) ->
  first_theme M parse urls <> Err OutOfFuel.
Proof.
  intros Hp. induction urls as [|url urls IH]; cbn; [done|]. destruct (read_to_string M url) as [text|] eqn:Et; [|done].
  specialize (Hp _ _ Et). destruct (parse text None) as [o|f]; cbn; [|by intros [= ->]]. by destruct (o ≫= theme_of_look).
Qed.

(** Two levels of files are enough when theme files name no theme. *)
Lemma plain_themes_done M fuel text dir :
  (forall p text, read_to_string M p = Some text -> no_theme text) ->
  parse_look_keys M (S (S fuel)) text dir <> Err OutOfFuel.
Proof.
  intros Hf. cbn [parse_look_keys]. destruct (for_each _ _ _) as [a|]; [|done]. destruct (saw a); [|done]. cbn [negb].
  destruct (tl_theme_name (look a)) as [name|]; [|done]. unfold resolve_with.
  destruct (first_theme _ _ _) as [t|f] eqn:E; cbn; [done|]. intros [= ->]. revert E. apply first_theme_done.
  intros p txt Ht. by apply no_theme_done, (Hf p).
Qed.

(** More fuel changes no answer. *)
Definition le_fault {A} (r r' : result Fault A) : Prop := r = Err OutOfFuel \/ r' = r.

Lemma first_theme_mono M parse parse' urls :
  (forall text dir, le_fault (parse text dir) (parse' text dir)) ->
  le_fault (first_theme M parse urls) (first_theme M parse' urls).
Proof.
  intros Hp. induction urls as [|url urls IH]; cbn; [by right|]. destruct (read_to_string M url) as [text|]; [|done].
  destruct (Hp text None) as [-> | ->]; [by left|]. destruct (parse text None) as [o|f]; cbn; [|by right].
  destruct (o ≫= theme_of_look); [by right|done].
Qed.

Lemma parse_look_mono M f f' text dir : (f <= f')%nat -> le_fault (parse_look_keys M f text dir) (parse_look_keys M f' text dir).
Proof.
  revert f' text dir; induction f as [|f IH]; intros f' text dir Hf; [by left|]. destruct f' as [|f']; [lia|].
  cbn [parse_look_keys]. destruct (for_each _ _ _) as [a|]; [|by right]. destruct (saw a); [|by right]. cbn [negb].
  destruct (tl_theme_name (look a)) as [name|]; [|by right].
  destruct (first_theme_mono M (parse_look_keys M f) (parse_look_keys M f')
              (concat (map (theme_candidates name) (theme_search_dirs M dir)))) as [H|H].
  - intros t d. apply IH. lia.
  - left. unfold resolve_with. by rewrite H.
  - right. unfold resolve_with. by rewrite H.
Qed.

(** ** The properties *)

Definition hex_char (d : Z) : Z := if d <? 10 then 0x30 + d else 0x61 + (d - 10).
Definition hex6 (n : Z) : list Z :=
  map (fun i => hex_char (Z.land (Z.shiftr n (4 * i)) 15)) [5; 4; 3; 2; 1; 0].

Lemma hex_char_ok d : 0 <= d <= 15 ->
  is_ascii_hexdigit (hex_char d) = true /\ hex_digit (hex_char d) = d /\ is_whitespace (hex_char d) = false
  /\ (hex_char d =? ch "#") = false.
Proof.
  intros Hd. unfold hex_char, hex_digit, is_ascii_hexdigit, is_whitespace, within. change (ch "#") with 35.
  destruct (d <? 10) eqn:E; split_and!; repeat case_if; lia.
Qed.

Lemma from_hex_chars ds acc : Forall (fun d => 0 <= d <= 15) ds ->
  fold_left (fun acc c => acc * 16 + hex_digit c) (map hex_char ds) acc = fold_left (fun acc d => acc * 16 + d) ds acc.
Proof.
  intros Hd. revert acc. induction Hd as [|d ds Hd _ IH]; intros acc; [done|]. cbn [map fold_left].
  destruct (hex_char_ok d Hd) as (_ & -> & _). apply IH.
Qed.

(** Six digits after a hash mark. *)
Lemma parse_hex_digits ds : Forall (fun d => 0 <= d <= 15) ds -> length ds = 6%nat ->
  parse_hex (ch "#" :: map hex_char ds) = Some (fold_left (fun acc d => acc * 16 + d) ds 0 * 256 + 255).
Proof.
  intros Hd Hn. unfold parse_hex.
  assert (forallb is_ascii_hexdigit (map hex_char ds) = true) as Hh.
  { apply forallb_forall. intros c Hc. apply list_elem_of_In, list_elem_of_fmap in Hc as (d & -> & Hin).
    rewrite Forall_forall in Hd. apply hex_char_ok. by apply Hd. }
  assert (trim (ch "#" :: map hex_char ds) = ch "#" :: map hex_char ds) as ->.
  { apply trim_edged. split; [by eexists|]. destruct ds as [|d ds _] using rev_ind; [done|].
    apply Forall_app in Hd as [_ [Hd _]%Forall_cons]. exists (hex_char d). split; [|by apply hex_char_ok].
    rewrite map_app. cbn [map]. rewrite app_comm_cons. apply last_snoc. }
  assert (trim_start_matches (ch "#") (ch "#" :: map hex_char ds) = map hex_char ds) as ->.
  { destruct Hd as [|d ds Hd _]; [done|]. destruct (hex_char_ok d Hd) as (_ & _ & _ & H). cbn [map trim_start_matches].
    by rewrite Z.eqb_refl, H. }
  rewrite Hh. assert (len (map hex_char ds) = 6) as H6 by (unfold len; rewrite length_map; lia).
  rewrite H6. change (6 =? 3) with false. cbv iota. rewrite H6, lor_ff. unfold from_hex. cbn [negb Z.eqb Pos.eqb].
  rewrite from_hex_chars by done. done.
Qed.

Lemma nibbles_range n : Forall (fun d => 0 <= d <= 15) (map (fun i => Z.land (Z.shiftr n (4 * i)) 15) [5; 4; 3; 2; 1; 0]).
Proof.
  assert (forall x, 0 <= Z.land x 15 <= 15) as H.
  { intros x. assert (Z.land x 15 = x mod 16) as -> by apply (Z.land_ones x 4 ltac:(lia)). pose proof (Z.mod_pos_bound x 16). lia. }
  apply Forall_map, Forall_forall. intros i _. apply H.
Qed.

Lemma nibbles_value n : 0 <= n < 2 ^ 24 ->
  fold_left (fun acc d => acc * 16 + d) (map (fun i => Z.land (Z.shiftr n (4 * i)) 15) [5; 4; 3; 2; 1; 0]) 0 = n.
Proof.
  intros Hn. cbn [map fold_left]. change 15 with (Z.ones 4).
  rewrite !Z.land_ones, !Z.shiftr_div_pow2 by lia. cbn. Z.to_euclidean_division_equations. lia.
Qed.

(** C38. A look file of settings, one [clean] setting on each line, is read as they
    say.  A key has its last setting that reads as a value, with two exceptions:
    macos-option-as-alt has its very last setting, so one that is not a boolean
    erases those before it; and the values of font-family-fallback are all kept,
    in order.  A colour is its own setting's, else the theme's.  Palette entries
    are put over the theme's palette; without one they are the palette when all
    sixteen slots are set, and are dropped otherwise.  A file none of whose
    settings reads as a value is no look, and keys that are not known change
    nothing.  The theme named must resolve, within the fuel, to [theme]. *)
Theorem look_file_exact (M : Machine) (fuel : nat) (dir : option Path) (ps : list Setting) (theme : option ThemeColors)
    (Hclean : Forall clean ps)
    (Htheme : match setting "theme" light_theme_name ps with
              | Some name => resolve_theme M fuel name dir = Ok theme
              | None => theme = None
              end) :
  parse_look_keys M (S fuel) (text_of (map setting_line ps)) dir
  = Ok (if existsb counts ps then Some (described theme ps) else None).
Proof. by apply parse_settings_eq. Qed.

Definition demo_settings : list Setting :=
  [(lit "theme", lit "light:Dawn, dark:Night"); (lit "background", lit "#102030"); (lit "font-size", lit "13.5");
   (lit "palette", lit "1=ff0000"); (lit "background", lit "#abc"); (lit "background", lit "none")].
Definition demo_machine : Machine :=
  mkMachine (fun p => if bool_decide (p = lit "/home/x/.config/rill/themes/dawn.conf")
                      then Some (text_of [lit "foreground=000000"; lit "background = ffffff"; lit "cursor=#f00"]) else None)
    (fun _ => false) (fun _ => false) (Some (lit "/home/x")) None None None.
Definition demo_theme : ThemeColors := mkTheme 0xffffffff 0x000000ff 0xff0000ff None None.

Ltac solve_clean :=
  constructor;
  [ split; [eexists; split; [reflexivity|reflexivity]|eexists; split; [reflexivity|reflexivity]]
  | split; [eexists; split; [reflexivity|reflexivity]|eexists; split; [reflexivity|reflexivity]]
  | vm_compute; reflexivity
  | apply (bool_decide_unpack _); vm_compute; exact I
  | vm_compute; congruence
  | vm_compute; reflexivity
  | split; apply (bool_decide_unpack _); vm_compute; exact I
  | vm_compute; reflexivity
  | vm_compute; congruence ].

Lemma demo_settings_clean : Forall clean demo_settings.
Proof. unfold demo_settings. repeat (apply Forall_cons_2; [solve_clean|]). constructor. Qed.

Lemma look_file_exact_witness :
  parse_look_keys demo_machine 3 (text_of (map setting_line demo_settings)) None
    = Ok (Some (described (Some demo_theme) demo_settings)) /\
  (tl_background (described (Some demo_theme) demo_settings), tl_foreground (described (Some demo_theme) demo_settings))
    = (Some 0xaabbccff, Some 0x000000ff).
Proof.
  split; [|vm_compute; reflexivity].
  apply (look_file_exact demo_machine 2 None demo_settings (Some demo_theme) demo_settings_clean). vm_compute. reflexivity.
Defined.

(** Every surface a file load returns has colours of 32 bits and a palette of
    sixteen, whatever the files say: what the host's client asks of its surface. *)
Theorem loaded_surface_ok (M : Machine) (from_toml : list Z -> result (list Z) RawSurface) (fuel : nat) (path : Path)
    (s : HostSurface) (Hload : load_resolved_surface M from_toml fuel path = Ok (Ok s)) :
  from_option theme_ok True (sf_colors s).
Proof. by eapply load_resolved_ok. Qed.

Definition surface_machine : Machine :=
  mkMachine (fun p => if bool_decide (p = lit "host-surface.toml") then Some []
                      else if bool_decide (p = lit "/home/x/.config/rill/config") then Some (text_of [lit "theme = Dawn"; lit "palette.3 = 123456"])
                      else if bool_decide (p = lit "/home/x/.config/rill/themes/dawn") then
                        Some (text_of (lit "foreground=000" :: lit "background=fff"
                                :: map (fun i => lit "palette = " ++ to_string i ++ lit "=" ++ lit "0a0b0c") (seqZ 0 16)))
                      else None)
    (fun _ => false) (fun _ => false) (Some (lit "/home/x")) None None None.
Definition demo_toml (_ : list Z) : result (list Z) RawSurface :=
  Ok (mkRaw (lit "Mono") f32_one None None None (Some (lit "Dawn")) None None None None).

Lemma loaded_surface_ok_witness :
  exists s, load_resolved_surface surface_machine demo_toml 2 (lit "host-surface.toml") = Ok (Ok s)
            /\ (t ← sf_colors s; cs ← theme_ansi t; cs !! 3%nat) = Some 0x123456ff
            /\ from_option theme_ok True (sf_colors s).
Proof.
  destruct (load_resolved_surface surface_machine demo_toml 2 (lit "host-surface.toml")) as [[s|e]|f] eqn:E;
    [|exfalso; revert E; vm_compute; congruence..].
  exists s. split; [done|]. split; [|apply (loaded_surface_ok surface_machine demo_toml 2 (lit "host-surface.toml") s E)].
  revert E. vm_compute. intros [= <-]. reflexivity.
Defined.

(** A colour written as [#rrggbb] reads as itself, opaque. *)
Theorem hex_roundtrip (n : Z) (Hn : 0 <= n < 2 ^ 24) : parse_hex (ch "#" :: hex6 n) = Some (n * 256 + 255).
Proof.
  unfold hex6. rewrite <- (map_map (fun i => Z.land (Z.shiftr n (4 * i)) 15) hex_char).
  rewrite parse_hex_digits; [|by apply nibbles_range|done]. by rewrite nibbles_value.
Qed.

Lemma hex_roundtrip_witness : 0 <= 0x1a2b3c < 2 ^ 24 /\ parse_hex (lit "#1a2b3c") = Some 0x1a2b3cff.
Proof. split; [lia|]. apply (hex_roundtrip 0x1a2b3c). lia. Defined.

(** Theming a grid replaces the default colours of its cells and nothing else. *)
Theorem apply_theme_exact (g : PodGrid) (s : HostSurface) (t : ThemeColors) (Ht : sf_colors s = Some t) :
  pg_cells (apply_theme g s) = map (theme_cell t (pg_default_fg g) (pg_default_bg g)) (pg_cells g)
  /\ apply_theme g s <| pg_cells := pg_cells g |> = g
  /\ forall i c, pg_cells g !! i = Some c ->
       exists c', pg_cells (apply_theme g s) !! i = Some c' /\ pc_codepoint c' = pc_codepoint c /\ pc_attrs c' = pc_attrs c
         /\ (pc_fg c' = if pc_fg c =? pg_default_fg g then theme_foreground t else pc_fg c)
         /\ (pc_bg c' = if pc_bg c =? pg_default_bg g then theme_background t else pc_bg c).
Proof.
  unfold apply_theme. rewrite Ht. split_and!; [done|by destruct g|]. intros i c Hc. cbn. rewrite list_lookup_fmap, Hc.
  eexists. by split_and!.
Qed.

Definition demo_grid : PodGrid :=
  mkPodGrid 2 1 0 0 true true 0 0 7 8 0 0 [mkPodCell 65 7 8 0 0; mkPodCell 66 9 8 1 0].
Definition dawn_surface : HostSurface :=
  mkSurface (lit "Mono") f32_one [] 80 24 None f32_zero f32_zero f32_one false (Some demo_theme).
Lemma apply_theme_exact_witness :
  sf_colors dawn_surface = Some demo_theme /\
  pg_cells (apply_theme demo_grid dawn_surface) = [mkPodCell 65 0x000000ff 0xffffffff 0 0; mkPodCell 66 9 0xffffffff 1 0].
Proof. split; [done|]. rewrite (proj1 (apply_theme_exact demo_grid dawn_surface demo_theme eq_refl)). reflexivity. Defined.

(** Reading a look file ends when theme files name no theme: two levels of files
    are enough, and every larger fuel gives the same answer. *)
Theorem theme_reading_ends (M : Machine) (text : list Z) (dir : option Path)
    (Hplain : forall p t, read_to_string M p = Some t -> no_theme t) :
  exists r, r <> Err OutOfFuel /\ forall fuel, (2 <= fuel)%nat -> parse_look_keys M fuel text dir = r.
Proof.
  exists (parse_look_keys M 2 text dir). split; [by apply plain_themes_done|]. intros fuel Hf.
  destruct (parse_look_mono M 2 fuel text dir Hf) as [H|H]; [|done]. exfalso. revert H. by apply plain_themes_done.
Qed.

Lemma theme_reading_ends_witness :
  exists r, r <> Err OutOfFuel /\ forall fuel, (2 <= fuel)%nat ->
    parse_look_keys demo_machine fuel (lit "theme = dawn") None = r.
Proof.
  apply (theme_reading_ends demo_machine (lit "theme = dawn") None). intros p t. unfold demo_machine. cbn [read_to_string].
  case_bool_decide; [|done]. intros [= <-] a. vm_compute. by intros [= <-].
Defined.

(** ** Files the code does not read as they mean *)

(** A theme file that names itself is read without end. *)
Definition loop_machine : Machine :=
  mkMachine (fun p => if bool_decide (p = lit "/home/x/.config/rill/themes/loop") then Some (lit "theme = loop") else None)
    (fun _ => false) (fun _ => false) (Some (lit "/home/x")) None None None.

Lemma theme_loop_diverges fuel : parse_look_keys loop_machine fuel (lit "theme = loop") None = Err OutOfFuel.
Proof.
  induction fuel as [|fuel IH]; [done|]. cbn [parse_look_keys].
  assert (for_each (lines (lit "theme = loop")) look_line acc_init = Some (acc_of [(lit "theme", lit "loop")])) as ->
    by (vm_compute; reflexivity).
  change (tl_theme_name (look (acc_of [(lit "theme", lit "loop")]))) with (Some (lit "loop")).
  change (saw (acc_of [(lit "theme", lit "loop")])) with true. cbn [negb].
  assert (forall parse e, parse (lit "theme = loop") None = Err e -> resolve_with loop_machine parse (lit "loop") None = Err e)
    as Hr.
  { intros parse e He. unfold resolve_with.
    set (urls := concat _). vm_compute in urls. subst urls. cbn [first_theme].
    lazymatch goal with
    | |- context [read_to_string ?m ?p] => assert (read_to_string m p = Some (lit "theme = loop")) as -> by reflexivity
    end. by rewrite He. }
  by rewrite (Hr _ _ IH).
Qed.

(** A theme name whose sixth byte is inside a character panics the reader. *)
Lemma theme_name_panics M fuel dir :
  parse_look_keys M (S fuel) (lit "theme = a" ++ [0xe9; 0xe9; 0xe9; 0xe9]) dir = Err Panicked.
Proof. reflexivity. Qed.

(** A comment after a colour written with [#] hides the colour: the first [ #]
    of the line is the colour's own, and what follows is no colour. *)
Lemma colour_comment_lost M fuel dir :
  parse_look_keys M (S fuel) (lit "background = #112233 # dusk") dir = Ok None.
Proof. reflexivity. Qed.
