(* ===== verification/Input.v ===== *)
(** What the host sends for keys, pastes and the pointer, by the modes the
    engine reports: the encoders of crates/rill-host/src/lib.rs. *)
From S2P Require Import Prelude Look VtTypes Utf8 Parser ParserFacts Screen Decimal CsiFacts Text.

Local Open Scope Z_scope.

(** [letter] is [b'A'..=b'D']. *)
Definition encode_arrow (application_cursor_keys : bool) (letter : Z) : list Z :=
  if application_cursor_keys then [0x1b; ch "O"; letter] else [0x1b; ch "["; letter].

Definition wrap_paste (bracketed : bool) (body : list Z) : list Z :=
  if negb bracketed then body else elit "[200~" ++ body ++ elit "[201~".

Definition EDIT_LINE_START : Z := 1.
Definition EDIT_LINE_END : Z := 2.
Definition EDIT_WORD_LEFT : Z := 3.
Definition EDIT_WORD_RIGHT : Z := 4.
Definition EDIT_DELETE_WORD : Z := 5.
Definition EDIT_DELETE_TO_START : Z := 6.
Definition EDIT_DELETE_TO_END : Z := 7.
Definition EDIT_HOME : Z := 8.
Definition EDIT_END : Z := 9.

Definition encode_edit (op : Z) : list Z :=
  if op =? EDIT_LINE_START then [0x01]
  else if op =? EDIT_LINE_END then [0x05]
  else if op =? EDIT_WORD_LEFT then elit "b"
  else if op =? EDIT_WORD_RIGHT then elit "f"
  else if op =? EDIT_DELETE_WORD then [0x17]
  else if op =? EDIT_DELETE_TO_START then [0x15]
  else if op =? EDIT_DELETE_TO_END then [0x0b]
  else if op =? EDIT_HOME then elit "[H"
  else if op =? EDIT_END then elit "[F"
  else [].

Definition POINTER_PRESS : Z := 0.
Definition POINTER_RELEASE : Z := 1.
Definition POINTER_WHEEL_UP : Z := 2.
Definition POINTER_WHEEL_DOWN : Z := 3.

Definition pointer_reporting (m : TerminalModeState) : bool :=
  ms_mouse_x10 m || ms_mouse_button m || ms_mouse_any m || ms_mouse_sgr m.

(** The button code and whether it is a release. *)
Definition pointer_code (kind button : Z) : option (Z * bool) :=
  if kind =? POINTER_PRESS then Some (button, false)
  else if kind =? POINTER_RELEASE then Some (button, true)
  else if kind =? POINTER_WHEEL_UP then Some (64, false)
  else if kind =? POINTER_WHEEL_DOWN then Some (65, false)
  else None.

Definition encode_pointer (modes : TerminalModeState) (kind button col row : Z) : list Z :=
  if negb (pointer_reporting modes) then []
  else
    let col := Z.max col 1 in
    let row := Z.max row 1 in
    match pointer_code kind button with
    | None => []
    | Some (cb, release) =>
        if ms_mouse_sgr modes then
          elit "[<" ++ to_string cb ++ lit ";" ++ to_string col ++ lit ";" ++ to_string row
            ++ [if release : bool then ch "m" else ch "M"]
        else
          let cx := sat_add u16_max 32 (Z.min col 223) in
          let cy := sat_add u16_max 32 (Z.min row 223) in
          let b := sat_add u16_max 32 (Z.min cb 223) in
          [0x1b; ch "["; ch "M"; Z.min b 255; Z.min cx 255; Z.min cy 255]
    end.

(** Metal must not place a glyph on a wide tail. *)
Definition should_paint_cell (attrs : Z) : bool := Z.land attrs ATTR_WIDE_TAIL =? 0.

(** ** Colours of a theme *)

Definition u32_to_rgb (v : Z) : Rgb :=
  mkRgb (Z.land (Z.shiftr v 24) 0xff) (Z.land (Z.shiftr v 16) 0xff) (Z.land (Z.shiftr v 8) 0xff).

(** [p.ansi[i] = u32_to_rgb(v)] for each index and value in turn. *)
Definition set_ansi (vs : list Z) (p : Palette) : option Palette :=
  r ← for_each vs (fun v '(i, p) =>
        l ← zset (ansi p) i (u32_to_rgb v);
        Some (i + 1, mkPalette l (foreground p) (background p) (cursor p))) (0, p);
  Some (snd r).

Definition palette_from_theme (c : ThemeColors) : option Palette :=
  let p := mkPalette (ansi vt_default) (u32_to_rgb (theme_foreground c))
             (u32_to_rgb (theme_background c)) (u32_to_rgb (theme_cursor c)) in
  match theme_ansi c with Some vs => set_ansi vs p | None => Some p end.

(** ** Lemmas *)

Lemma dec_rev_fuel n f g : 0 <= n < 10 ^ Z.of_nat f -> (0 < f)%nat -> (f <= g)%nat -> dec_rev f n = dec_rev g n.
Proof.
  revert n g; induction f as [|f IH]; intros n g Hn Hf Hg; [lia|]. destruct g as [|g]; [lia|].
  rewrite Nat2Z.inj_succ, Z.pow_succ_r in Hn by lia. cbn [dec_rev]. f_equal. case_if; [done|].
  destruct f as [|f]; [cbn in Hn; Z.to_euclidean_division_equations; lia|].
  apply IH; [Z.to_euclidean_division_equations; lia|lia|lia].
Qed.

Lemma to_string_u16 n : u16 n -> to_string n = decimal n.
Proof.
  intros Hn. unfold to_string, decimal. f_equal. symmetry. apply dec_rev_fuel; [|lia|lia].
  change (10 ^ Z.of_nat 5) with 100000. num.
Qed.

Lemma encode_pointer_sgr modes kind button col row cb release :
  ms_mouse_sgr modes = true -> pointer_code kind button = Some (cb, release) ->
  u16 cb -> u16 col -> u16 row ->
  encode_pointer modes kind button col row
  = csi_marked [ch "<"] [cb; Z.max 1 col; Z.max 1 row] (if release then ch "m" else ch "M").
Proof.
  intros Hs Hc Hcb Hcol Hrow. unfold encode_pointer, pointer_reporting. rewrite Hs, orb_true_r, Hc. cbn [negb].
  rewrite !to_string_u16 by num. unfold csi_marked. cbn [join_params].
  rewrite (Z.max_comm col), (Z.max_comm row), <- !app_assoc. unfold elit. cbn [app lit]. rewrite <- ?app_assoc. cbn [app]. by rewrite <- ?app_assoc.
Qed.

Lemma pointer_code_range kind button cb r : u8 button -> pointer_code kind button = Some (cb, r) -> u8 cb.
Proof. unfold pointer_code. intros Hb. repeat case_if; intros [= <- <-] || done; num. Qed.

(** Pointer reports: with SGR reporting on, what the host sends is exactly
    one control sequence with the button, the 1-based column and row and the
    final byte of a press or a release, which a parser reads back unchanged;
    otherwise it is the six bytes of the X10 report with its coordinates
    clamped to 1..=223; and nothing is sent unless some reporting mode is on. *)
Theorem pointer_report_read (modes : TerminalModeState) (kind button col row : Z) (p : Parser)
    (Hp : idle_ok p) (Hb : u8 button) (Hc : u16 col) (Hr : u16 row) :
  let report := encode_pointer modes kind button col row in
  match pointer_code kind button with
  | None => report = []
  | Some (cb, release) =>
      if ms_mouse_sgr modes then
        exists p', idle_ok p' /\ forall (A : Type) (HA : Actions A) (a : A),
          feed report p a
          = (a' ← csi [cb; Z.max 1 col; Z.max 1 row] [ch "<"] false
                    (if release : bool then ch "m" else ch "M") a; Some (p', a'))
      else if pointer_reporting modes then
        report = elit "[M" ++ [32 + Z.min cb 223; 32 + Z.max 1 (Z.min col 223); 32 + Z.max 1 (Z.min row 223)]
        /\ bytes report
      else report = []
  end.
Proof.
  intros report. subst report. destruct (pointer_code kind button) as [[cb release]|] eqn:Hk.
  2:{ unfold encode_pointer. rewrite Hk. by case_if. }
  assert (u8 cb) as Hcb by by eapply pointer_code_range.
  destruct (ms_mouse_sgr modes) eqn:Hs.
  - rewrite (encode_pointer_sgr modes kind button col row cb release) by (done || num).
    edestruct (feed_csi_eq [ch "<"] [cb; Z.max 1 col; Z.max 1 row] (if release then ch "m" else ch "M") p)
      as (p' & Hi & Ht); [done|right; by exists (ch "<")|done|repeat constructor; num|done|by destruct release|].
    exists p'. split; [done|]. intros A HA a. rewrite (Ht A HA). unfold replay. cbn. by destruct csi.
  - unfold encode_pointer. rewrite Hk, Hs. destruct (pointer_reporting modes); [|done]. cbn [negb].
    assert (Hmm : forall x, Z.min (Z.max x 1) 223 = Z.max 1 (Z.min x 223)) by lia.
    unfold sat_add. rewrite !Hmm. unfold elit. cbn [app lit].
    rewrite !(Z.min_l (_ + _)) by num. split; [done|].
    unfold bytes, u8 in *. repeat constructor; try lia; done.
Qed.

Definition sgr_modes : TerminalModeState := mkModeState false false false true false false true false false true.

Lemma pointer_report_read_witness :
  idle_ok Parser.new /\
  exists p', idle_ok p' /\
    feed (encode_pointer sgr_modes POINTER_RELEASE 0 2 3) Parser.new ([] : list Event)
    = Some (p', [ECsi [0; 2; 3] [ch "<"] false (ch "m")]).
Proof.
  assert (Hi : idle_ok Parser.new) by (split; [exact parser_ok_new | repeat split; reflexivity]).
  split; [exact Hi|].
  destruct (pointer_report_read sgr_modes POINTER_RELEASE 0 2 3 Parser.new Hi ltac:(num) ltac:(num) ltac:(num))
    as (p' & Hp & Hf).
  exists p'. split; [exact Hp|]. exact (Hf _ recorder []).
Defined.

(** A theme's palette is well formed. *)
Lemma byte_and v k : u8 (Z.land (Z.shiftr v k) 0xff).
Proof.
  change 0xff with (Z.ones 8). rewrite Z.land_ones by lia. unfold u8.
  pose proof (Z.mod_pos_bound (Z.shiftr v k) (2 ^ 8)). lia.
Qed.

Lemma u32_to_rgb_ok v : rgb_ok (u32_to_rgb v).
Proof. split_and!; apply byte_and. Qed.

Lemma set_ansi_ok vs p : palette_ok p -> length vs = 16%nat -> safe (set_ansi vs p) palette_ok.
Proof.
  intros Hp Hv. unfold set_ansi.
  assert (Hloop : forall vs i p, palette_ok p -> 0 <= i -> i + len vs <= 16 ->
    safe (for_each vs (fun v '(i, p) =>
        l ← zset (ansi p) i (u32_to_rgb v);
        Some (i + 1, mkPalette l (foreground p) (background p) (cursor p))) (i, p)) (fun r => palette_ok (snd r))).
  { clear. induction vs as [|v vs IH]; intros i p Hp Hi Hl; cbn [for_each]; [by apply safe_ret|].
    rewrite len_cons in Hl. pose proof (len_nonneg vs). destruct Hp as (H16 & Ha & Hrest).
    assert (zset (ansi p) i (u32_to_rgb v) = Some (<[Z.to_nat i := u32_to_rgb v]> (ansi p))) as ->.
    { unfold zset. by rewrite (proj2 (andb_true_iff _ _)) by (unfold len; lia). }
    cbn [mbind option_bind].
    apply IH; [|lia|lia]. split_and!; cbn; [by rewrite length_insert| |apply Hrest..].
    apply Forall_insert; [done|apply u32_to_rgb_ok]. }
  eapply safe_bind; [apply Hloop; [done|lia|unfold len; lia]|]. intros r Hr. by apply safe_ret.
Qed.

Lemma palette_from_theme_ok c :
  match theme_ansi c with Some vs => length vs = 16%nat | None => True end ->
  safe (palette_from_theme c) palette_ok.
Proof.
  intros Hc. unfold palette_from_theme. destruct vt_default_ok as (H16 & Ha & _).
  set (p := mkPalette _ _ _ _).
  assert (palette_ok p) by (split_and!; cbn; [done|done|apply u32_to_rgb_ok..]).
  destruct (theme_ansi c); [by apply set_ansi_ok|by apply safe_ret].
Qed.
