(* ===== verification/Cold.v ===== *)
(** The cold sockets between the daemon and the host: the content protocol
    (crates/rilld/src/lib.rs and crates/rill-host/src/content.rs) and the
    navigation line (nav_snapshot_line in rilld, crates/rill-host/src/nav.rs).
    Both ends are here; the sockets that carry the bytes are not. *)
From S2P Require Import Prelude VtTypes Utf8 Attach Ring Content Session Kernel Text.

Local Open Scope Z_scope.

(** [rill_host::Error]; [std::io::Error] is carried as its code. *)
Inductive HostError : Type :=
| HIo (code : Z)
| HAttach (e : AttachError)
| HChip (e : VtError)
| HDead
| HRefused
| InvalidHostIdentity
| InvalidContent.

(** ** Content requests *)

Definition CONTENT_REQUEST_MAX : Z := 64 * 1024.
Definition CONTENT_TIMELINE_MAX_ITEMS : Z := 64.
Definition CONTENT_RESPONSE_MAX : Z := 1024 * 1024.

Record ContentRequest := mkRequest { req_kind : Z; execution : Z; req_payload : list Z }.

(** The request [content_submit] writes; it refuses texts that are too long. *)
Definition content_request (exec : Z) (text : list Z) : result HostError (list Z) :=
  if 64 * 1024 <? len text then Err InvalidContent
  else Ok (lit "RLC1" ++ [2] ++ be_bytes 8 exec ++ be_bytes 4 (len text) ++ text).

(** The inner slices cannot panic behind the first test ([decode_request_safe]);
    [None] is a panic, [Ok None] asks for more input. *)
Definition decode_content_request (bs : list Z) : option (result () (option ContentRequest)) :=
  if len bs <? 17 then Some (Ok None)
  else
    magic ← slice bs 0 4;
    if negb (bool_decide (magic = lit "RLC1")) then Some (Err ())
    else
      exec ← slice bs 5 13;
      n ← slice bs 13 17;
      let payload_len := be_val n in
      if CONTENT_REQUEST_MAX <? payload_len then Some (Err ())
      else
        match chk_add u64_max 17 payload_len with
        | None => Some (Err ())
        | Some total =>
            if len bs <? total then Some (Ok None)
            else if negb (len bs =? total) then Some (Err ())
            else
              k ← zget bs 4;
              payload ← slice bs 17 total;
              Some (Ok (Some (mkRequest k (be_val exec) payload)))
        end.

(** ** Content responses *)

Definition content_error_response (status : Z) : list Z :=
  lit "RLC1" ++ [status] ++ be_bytes 4 0.

Definition wire_kind (k : ContentKind) : Z :=
  match k with
  | TerminalInput => 1
  | TerminalOutput => 2
  | BackgroundOutput => 3
  | Discontinuity => 11
  | Truncation => 12
  | _ => 13
  end.

Definition event_text (e : ContentEvent) : list Z := default [] (materialized_text e).

(** The loop of [encode_content_snapshot], with [items] and [count] so far. *)
Fixpoint encode_events (evs : list ContentEvent) (items : list Z) (count : Z) : list Z * Z :=
  match evs with
  | [] => (items, count)
  | event :: evs =>
      let id := lit (ev_id event) in
      let text := event_text event in
      let item_len := sat_add u64_max (sat_add u64_max 15 (len id)) (len text) in
      if (u16_max <? len id) || (CONTENT_REQUEST_MAX <? len text)
         || (CONTENT_RESPONSE_MAX <? sat_add u64_max (sat_add u64_max 9 (len items)) item_len)
      then (items, count)
      else
        encode_events evs
          (items ++ [wire_kind (kind event)] ++ be_bytes 8 (ev_seq event) ++ be_bytes 2 (len id)
             ++ be_bytes 4 (len text) ++ id ++ text)
          (count + 1)
  end.

Definition encode_content_snapshot (t : ContentTimeline) : list Z :=
  let '(items, count) := encode_events (events t) [] 0 in
  lit "RLC1" ++ [0] ++ be_bytes 4 count ++ items.

(** ** The host's reading of a response *)

Record ContentItem := mkItem { it_kind : Z; it_sequence : Z; event_id : list Z; it_text : list Z }.

#[export] Instance content_item_eq_dec : EqDecision ContentItem.
Proof. solve_decision. Defined.

(** [x.checked_add(y).ok_or(InvalidContent)?] on a usize, then the rest. *)
Definition add_or_invalid {A} (x y : Z) (k : Z -> option (result HostError A))
  : option (result HostError A) :=
  match chk_add u64_max x y with Some z => k z | None => Some (Err InvalidContent) end.

(** One turn of the loop of [parse_content_snapshot]: the item at [cursor] and
    where it ends. *)
Definition parse_item (bs : list Z) (cursor : Z) : option (result HostError (ContentItem * Z)) :=
  add_or_invalid cursor 15 (fun header_end =>
  if len bs <? header_end then Some (Err InvalidContent)
  else
    k ← zget bs cursor;
    sequence ← slice bs (cursor + 1) (cursor + 9);
    id_len ← slice bs (cursor + 9) (cursor + 11);
    text_len ← slice bs (cursor + 11) header_end;
    add_or_invalid header_end (be_val id_len) (fun id_end =>
    add_or_invalid id_end (be_val text_len) (fun text_end =>
    if len bs <? text_end then Some (Err InvalidContent)
    else
      id ← slice bs header_end id_end;
      if bool_decide (from_utf8 id = None) then Some (Err InvalidContent)
      else
        text ← slice bs id_end text_end;
        if bool_decide (from_utf8 text = None) then Some (Err InvalidContent)
        else if len id =? 0 then Some (Err InvalidContent)
        else Some (Ok (mkItem k (be_val sequence) id text, text_end))))).

Fixpoint parse_items (n : nat) (bs : list Z) (cursor : Z) (items : list ContentItem)
  : option (result HostError (list ContentItem * Z)) :=
  match n with
  | O => Some (Ok (items, cursor))
  | S n =>
      r ← parse_item bs cursor;
      match r with
      | Err e => Some (Err e)
      | Ok (item, text_end) => parse_items n bs text_end (items ++ [item])
      end
  end.

Definition parse_content_snapshot (bs : list Z) : option (result HostError (list ContentItem)) :=
  if len bs <? 9 then Some (Err InvalidContent)
  else
    magic ← slice bs 0 4;
    status ← zget bs 4;
    if negb (bool_decide (magic = lit "RLC1")) || negb (status =? 0) then Some (Err InvalidContent)
    else
      n ← slice bs 5 9;
      let count := be_val n in
      if 64 <? count then Some (Err InvalidContent)
      else
        r ← parse_items (Z.to_nat count) bs 9 [];
        match r with
        | Err e => Some (Err e)
        | Ok (items, cursor) =>
            if negb (cursor =? len bs) then Some (Err InvalidContent) else Some (Ok items)
        end.

(** ** The navigation line *)

Definition first_leaf (cs : list NodeChild) : option Z := hd_error (child_leaves cs).

(** [nav_snapshot_line], given [container_snapshot()] and the workspace id. *)
Definition nav_rows (rows : list ContainerSnapshot) : list ContainerSnapshot :=
  List.filter (fun r => bool_decide (cs_kind r = Tab)) rows.
Definition nav_snapshot_line (ws : Z) (rows : list ContainerSnapshot) : list Z :=
  let tabs := map (fun r => to_string (cs_id r)) (nav_rows rows) in
  let leaves := map (fun r => to_string (default 0 (first_leaf (cs_children r)))) (nav_rows rows) in
  lit "ws=" ++ to_string ws ++ lit " tabs=" ++ join (lit ",") tabs ++ lit " leaves="
    ++ join (lit ",") leaves ++ [0x0a].

Record NavSnapshot := mkNav { nav_workspace : Z; nav_tabs : list Z; nav_leaves : list Z }.

#[export] Instance nav_snapshot_eq_dec : EqDecision NavSnapshot.
Proof. solve_decision. Defined.

Definition parse_id_list (s : list Z) : list Z :=
  if bool_decide (s = []) then [] else omap parse_u64 (split_on (ch ",") s).

(** One turn of the loop over the words of a line. *)
Definition nav_word (part : list Z) (acc : option Z * list Z * list Z) : option Z * list Z * list Z :=
  let '(workspace_id, tabs, leaves) := acc in
  let workspace_id :=
    match strip_prefix (lit "ws=") part with Some v => parse_u64 v | None => workspace_id end in
  let tabs :=
    match strip_prefix (lit "tabs=") part with Some v => parse_id_list v | None => tabs end in
  let leaves :=
    match strip_prefix (lit "leaves=") part with Some v => parse_id_list v | None => leaves end in
  (workspace_id, tabs, leaves).

Definition parse_nav_line (line : list Z) : option NavSnapshot :=
  let '(workspace_id, tabs, leaves) :=
    fold_left (fun acc part => nav_word part acc) (split_whitespace (trim line)) (None, [], []) in
  ws ← workspace_id;
  Some (mkNav ws tabs leaves).

(** [read_line] makes one read of at most 512 bytes. *)
Definition NAV_READ : nat := 512.
Definition nav_read (line : list Z) : option NavSnapshot := parse_nav_line (take NAV_READ line).
