(* ===== verification/ColdFacts.v ===== *)
(** The cold protocols: the two ends of the content protocol and of the
    navigation line agree, and what each refuses. *)
From S2P Require Import Prelude VtTypes Utf8 Parser Screen Decimal Attach Ring Content Session Kernel Text Cold.

Local Open Scope Z_scope.

(** ** Requests *)

Definition request_ok (r : ContentRequest) : Prop :=
  u8 (req_kind r) /\ u64 (execution r) /\ len (req_payload r) <= CONTENT_REQUEST_MAX.

Definition put_request (r : ContentRequest) : list Z :=
  lit "RLC1" ++ [req_kind r] ++ be_bytes 8 (execution r) ++ be_bytes 4 (len (req_payload r)) ++ req_payload r.

Lemma be_u32 x : len x = 4 -> bytes x -> u32 (be_val x).
Proof.
  intros Hl Hx. pose proof (be_val_bound x Hx) as H.
  replace (length x) with 4%nat in H by (unfold len in Hl; lia). num.
Qed.

Lemma be_u16 x : len x = 2 -> bytes x -> u16 (be_val x).
Proof.
  intros Hl Hx. pose proof (be_val_bound x Hx) as H.
  replace (length x) with 2%nat in H by (unfold len in Hl; lia). num.
Qed.

Lemma be_u64 x : len x = 8 -> bytes x -> u64 (be_val x).
Proof.
  intros Hl Hx. pose proof (be_val_bound x Hx) as H.
  replace (length x) with 8%nat in H by (unfold len in Hl; lia). num.
Qed.

Lemma be_exact n x : len x = Z.of_nat n -> bytes x -> be_bytes n (be_val x) = x.
Proof. intros Hl Hx. rewrite <- (be_bytes_val x) at 2 by done. f_equal. unfold len in Hl. lia. Qed.

(** Side conditions of [slice_is]: where a part lies. *)
Ltac lens := autorewrite with len; change (len (lit "RLC1")) with 4; lia.
Ltac part bs a b p x r :=
  rewrite (slice_is bs p x r a b)
    by (first [solve [repeat match goal with b := _ |- _ => subst b end; rewrite ?app_nil_r, <- ?app_assoc; reflexivity] | lens]);
  cbn [mbind option_bind].

(** What [decode_content_request] does on a whole request and what it accepts. *)
Lemma decode_request_put r : request_ok r -> decode_content_request (put_request r) = Some (Ok (Some r)).
Proof.
  destruct r as [k e pl]. unfold request_ok, put_request, CONTENT_REQUEST_MAX. cbn [req_kind execution req_payload].
  intros (Hk & He & Hl). pose proof (len_nonneg pl). unfold decode_content_request.
  set (bs := lit "RLC1" ++ _).
  assert (Hlen : len bs = 17 + len pl) by (subst bs; lens).
  rewrite Hlen. case_if; [lia|].
  part bs 0 4 (@nil Z) (lit "RLC1") ([k] ++ be_bytes 8 e ++ be_bytes 4 (len pl) ++ pl). rewrite bool_decide_true by done. cbn [negb].
  part bs 5 13 (lit "RLC1" ++ [k]) (be_bytes 8 e) (be_bytes 4 (len pl) ++ pl).
  part bs 13 17 (lit "RLC1" ++ [k] ++ be_bytes 8 e) (be_bytes 4 (len pl)) pl. rewrite be_val_bytes by (cbn; lia). unfold CONTENT_REQUEST_MAX.
  case_if; [lia|]. unfold chk_add. case_if; [|lia]. case_if; [lia|].
  rewrite Z.eqb_refl. cbn [negb].
  assert (zget bs 4 = Some k) as -> by done. cbn [mbind option_bind].
  part bs 17 (17 + len pl) (lit "RLC1" ++ [k] ++ be_bytes 8 e ++ be_bytes 4 (len pl)) pl (@nil Z). by rewrite be_val_bytes by (cbn; num).
Qed.

Lemma decode_request_safe bs : bytes bs -> safe (decode_content_request bs) (fun r =>
  match r with
  | Ok (Some q) => request_ok q /\ bs = put_request q
  | Ok None => len bs < 17 + CONTENT_REQUEST_MAX
  | Err _ => True
  end).
Proof.
  intros Hb. unfold decode_content_request. case_if; [apply safe_ret; unfold CONTENT_REQUEST_MAX; lia|].
  destruct (slice_some bs 0 4) as [m Hm]; [lia..|]. rewrite Hm. cbn [mbind option_bind].
  case_bool_decide as Hmagic; [|by apply safe_ret]. cbn [negb].
  destruct (slice_some bs 5 13) as [e He]; [lia..|]. rewrite He. cbn [mbind option_bind].
  destruct (slice_some bs 13 17) as [n Hn]; [lia..|]. rewrite Hn. cbn [mbind option_bind].
  case_if; [by apply safe_ret|]. unfold chk_add.
  pose proof (slice_drop _ _ _ _ Hm) as (Dm & _). pose proof (slice_drop _ _ _ _ He) as (De & Le & _).
  pose proof (slice_drop _ _ _ _ Hn) as (Dn & Ln & _).
  pose proof (slice_bytes _ _ _ _ Hb He) as Be. pose proof (slice_bytes _ _ _ _ Hb Hn) as Bn.
  pose proof (be_u32 n ltac:(lia) Bn) as Hv. unfold u32, CONTENT_REQUEST_MAX in *.
  case_if; [|by apply safe_ret]. case_if; [apply safe_ret; lia|].
  destruct (Z.eqb_spec (len bs) (17 + be_val n)) as [Hl|]; cbn [negb]; [|by apply safe_ret].
  destruct (zget_in bs 4) as [k Hk]; [lia|]. rewrite Hk. cbn [mbind option_bind].
  destruct (slice_some bs 17 (17 + be_val n)) as [pl Hp]; [lia..|]. rewrite Hp. cbn [mbind option_bind].
  apply safe_ret. pose proof (slice_drop _ _ _ _ Hp) as (Dp & Lp & _).
  pose proof (zget_drop_cons _ _ _ Hk) as Dk.
  split; [split_and!; cbn|].
  - unfold bytes in Hb. rewrite Forall_forall in Hb. apply Hb. unfold zget in Hk. cbn in Hk.
    by eapply list_elem_of_lookup_2.
  - by apply be_u64.
  - unfold CONTENT_REQUEST_MAX. lia.
  - unfold put_request. cbn [req_kind execution req_payload].
    replace (len pl) with (be_val n) by lia. rewrite !be_exact by (done || lia). subst m.
    rewrite <- (drop_0 bs) at 1. change 0%nat with (Z.to_nat 0). rewrite Dm. f_equal.
    rewrite Dk. cbn [app]. f_equal. change (Z.to_nat (4 + 1)) with (Z.to_nat 5). rewrite De, Dn, Dp.
    rewrite <- Hl. unfold len. rewrite Nat2Z.id, drop_all, app_nil_r. done.
Qed.

(** ** Responses *)

(** What the wire holds for an item, and which items it can hold. *)
Definition put_item (i : ContentItem) : list Z :=
  [it_kind i] ++ be_bytes 8 (it_sequence i) ++ be_bytes 2 (len (event_id i))
    ++ be_bytes 4 (len (it_text i)) ++ event_id i ++ it_text i.

Record item_ok (i : ContentItem) : Prop := {
  io_kind : u8 (it_kind i);
  io_seq : u64 (it_sequence i);
  io_id : bytes (event_id i) /\ from_utf8 (event_id i) <> None /\ 0 < len (event_id i) <= u16_max;
  io_text : bytes (it_text i) /\ from_utf8 (it_text i) <> None /\ len (it_text i) <= u32_max;
}.

Definition put_snapshot (items : list ContentItem) : list Z :=
  lit "RLC1" ++ [0] ++ be_bytes 4 (len items) ++ concat (map put_item items).

Lemma len_put_item i : len (put_item i) = 15 + len (event_id i) + len (it_text i).
Proof. unfold put_item. lens. Qed.

Lemma bytes_put_item i : item_ok i -> bytes (put_item i).
Proof.
  intros [Hk _ (Hid & _) (Ht & _)]. unfold put_item.
  rewrite !bytes_app. split_and!; auto with rill. by apply Forall_singleton.
Qed.

Lemma add_or_invalid_eq {A} x y (k : Z -> option (result HostError A)) :
  x + y <= u64_max -> add_or_invalid x y k = k (x + y).
Proof. intros H. unfold add_or_invalid, chk_add. by rewrite (proj2 (Z.leb_le _ _)). Qed.

(** An item at the cursor is read back with the end of its bytes. *)
Lemma parse_item_put p i r bs :
  item_ok i -> bs = p ++ put_item i ++ r -> len bs <= u32_max ->
  parse_item bs (len p) = Some (Ok (i, len p + len (put_item i))).
Proof.
  destruct i as [k sq id t]. intros [Hk Hs (_ & Hid & Hidl) (_ & Ht & Htl)]. rewrite len_put_item.
  cbn [it_kind it_sequence event_id it_text] in *. intros Hbs Hl.
  assert (Hlen : len bs = len p + (15 + len id + len t) + len r).
  { subst bs. rewrite !len_app, len_put_item. cbn [event_id it_text]. lia. }
  unfold put_item in Hbs. cbn [it_kind it_sequence event_id it_text] in Hbs.
  pose proof (len_nonneg p). pose proof (len_nonneg id). pose proof (len_nonneg t). pose proof (len_nonneg r).
  unfold parse_item. rewrite add_or_invalid_eq by lia. rewrite (proj2 (Z.ltb_ge _ _)) by lia.
  assert (zget bs (len p) = Some k) as ->.
  { subst bs. rewrite zget_app, (proj2 (Z.ltb_ge _ _)), Z.sub_diag by lia. done. }
  cbn [mbind option_bind].
  rewrite (slice_is bs (p ++ [k]) (be_bytes 8 sq) (be_bytes 2 (len id) ++ be_bytes 4 (len t) ++ id ++ t ++ r)
             (len p + 1) (len p + 9)) by (try (subst bs; by rewrite <- ?app_assoc); lens).
  cbn [mbind option_bind].
  rewrite (slice_is bs (p ++ [k] ++ be_bytes 8 sq) (be_bytes 2 (len id)) (be_bytes 4 (len t) ++ id ++ t ++ r)
             (len p + 9) (len p + 11)) by (try (subst bs; by rewrite <- ?app_assoc); lens).
  cbn [mbind option_bind].
  rewrite (slice_is bs (p ++ [k] ++ be_bytes 8 sq ++ be_bytes 2 (len id)) (be_bytes 4 (len t)) (id ++ t ++ r)
             (len p + 11) (len p + 15)) by (try (subst bs; by rewrite <- ?app_assoc); lens).
  cbn [mbind option_bind]. rewrite !be_val_bytes by (cbn; lia).
  rewrite !add_or_invalid_eq by lia. rewrite (proj2 (Z.ltb_ge _ _)) by lia.
  rewrite (slice_is bs (p ++ [k] ++ be_bytes 8 sq ++ be_bytes 2 (len id) ++ be_bytes 4 (len t)) id (t ++ r)
             (len p + 15) (len p + 15 + len id)) by (try (subst bs; by rewrite <- ?app_assoc); lens).
  cbn [mbind option_bind]. rewrite bool_decide_false by done.
  rewrite (slice_is bs (p ++ [k] ++ be_bytes 8 sq ++ be_bytes 2 (len id) ++ be_bytes 4 (len t) ++ id) t r
             (len p + 15 + len id) (len p + 15 + len id + len t))
    by (try (subst bs; by rewrite <- ?app_assoc); lens).
  cbn [mbind option_bind]. rewrite bool_decide_false by done.
  rewrite (proj2 (Z.eqb_neq _ _)) by lia. rewrite be_val_bytes by (cbn; num). by replace (len p + (15 + len id + len t)) with (len p + 15 + len id + len t) by lia.
Qed.

(** Whatever the bytes, reading an item stays inside them, and what it accepts
    is exactly the bytes of a valid item. *)
Lemma parse_item_safe bs c : bytes bs -> 0 <= c <= len bs -> len bs <= u32_max ->
  safe (parse_item bs c) (fun r =>
    match r with
    | Ok (i, e) => item_ok i /\ c <= e <= len bs /\ drop (Z.to_nat c) bs = put_item i ++ drop (Z.to_nat e) bs
    | Err _ => True
    end).
Proof.
  intros Hb Hc Hl. unfold parse_item. rewrite add_or_invalid_eq by lia. case_if; [by apply safe_ret|].
  destruct (zget_in bs c) as [k Hk]; [lia|]. rewrite Hk. cbn [mbind option_bind].
  destruct (slice_some bs (c + 1) (c + 9)) as [sq Hs]; [lia..|]. rewrite Hs. cbn [mbind option_bind].
  destruct (slice_some bs (c + 9) (c + 11)) as [il Hi]; [lia..|]. rewrite Hi. cbn [mbind option_bind].
  destruct (slice_some bs (c + 11) (c + 15)) as [tl Ht]; [lia..|]. rewrite Ht. cbn [mbind option_bind].
  pose proof (zget_drop_cons _ _ _ Hk) as Dk.
  pose proof (slice_drop _ _ _ _ Hs) as (Ds & Ls & _). pose proof (slice_bytes _ _ _ _ Hb Hs) as Bs.
  pose proof (slice_drop _ _ _ _ Hi) as (Di & Li & _). pose proof (slice_bytes _ _ _ _ Hb Hi) as Bi.
  pose proof (slice_drop _ _ _ _ Ht) as (Dt & Lt & _). pose proof (slice_bytes _ _ _ _ Hb Ht) as Bt.
  pose proof (be_u16 il ltac:(lia) Bi) as Vi. pose proof (be_u32 tl ltac:(lia) Bt) as Vt.
  unfold u16, u32 in *. rewrite !add_or_invalid_eq by lia. case_if; [by apply safe_ret|].
  destruct (slice_some bs (c + 15) (c + 15 + be_val il)) as [id Hid]; [lia..|]. rewrite Hid. cbn [mbind option_bind].
  case_bool_decide as Hu1; [by apply safe_ret|].
  destruct (slice_some bs (c + 15 + be_val il) (c + 15 + be_val il + be_val tl)) as [t Htx]; [lia..|].
  rewrite Htx. cbn [mbind option_bind]. case_bool_decide as Hu2; [by apply safe_ret|].
  case_if; [by apply safe_ret|]. apply safe_ret.
  pose proof (slice_drop _ _ _ _ Hid) as (Did & Lid & _). pose proof (slice_bytes _ _ _ _ Hb Hid) as Bid.
  pose proof (slice_drop _ _ _ _ Htx) as (Dtx & Ltx & _). pose proof (slice_bytes _ _ _ _ Hb Htx) as Btx.
  pose proof (len_nonneg id). split; [|split; [lia|]].
  - constructor; cbn [it_kind it_sequence event_id it_text]; [|by apply be_u64; [lia|]|split_and!; [done|done|lia..]|split_and!; [done|done|lia]].
    unfold bytes in Hb. rewrite Forall_forall in Hb. apply Hb. unfold zget in Hk.
    rewrite (proj2 (Z.leb_le _ _)) in Hk by lia. by eapply list_elem_of_lookup_2.
  - unfold put_item. cbn [it_kind it_sequence event_id it_text].
    replace (len id) with (be_val il) by lia. replace (len t) with (be_val tl) by lia.
    rewrite !be_exact by (done || lia). rewrite <- !app_assoc, Dk. cbn [app]. f_equal.
    by rewrite Ds, Di, Dt, Did, Dtx.
Qed.

Lemma parse_items_put xs p r bs acc :
  Forall item_ok xs -> bs = p ++ concat (map put_item xs) ++ r -> len bs <= u32_max ->
  parse_items (length xs) bs (len p) acc
  = Some (Ok (acc ++ xs, len p + len (concat (map put_item xs)))).
Proof.
  intros Hok. revert p acc. induction Hok as [|i xs Hi _ IH]; intros p acc Hbs Hl.
  { cbn. by rewrite app_nil_r, Z.add_0_r. }
  cbn [map concat length parse_items] in *. rewrite <- app_assoc in Hbs.
  rewrite (parse_item_put p i (concat (map put_item xs) ++ r)) by done. cbn [mbind option_bind].
  rewrite <- len_app, (IH (p ++ put_item i)) by (done || (subst bs; by rewrite <- !app_assoc)).
  rewrite !len_app, <- app_assoc, Z.add_assoc. done.
Qed.

Lemma parse_items_safe n bs c acc : bytes bs -> 0 <= c <= len bs -> len bs <= u32_max ->
  safe (parse_items n bs c acc) (fun r =>
    match r with
    | Ok (items, e) => exists xs, items = acc ++ xs /\ length xs = n /\ Forall item_ok xs /\
        c <= e <= len bs /\ drop (Z.to_nat c) bs = concat (map put_item xs) ++ drop (Z.to_nat e) bs
    | Err _ => True
    end).
Proof.
  intros Hb Hc Hl. revert c acc Hc. induction n as [|n IH]; intros c acc Hc; cbn [parse_items].
  { apply safe_ret. exists []. rewrite app_nil_r. by split_and!; [| |constructor|lia..|]. }
  eapply safe_bind; [by apply parse_item_safe|]. intros [[i e]|err]; [|by intros; apply safe_ret].
  intros (Hi & He & Hd). eapply safe_mono; [apply IH; lia|].
  intros [[items e']|err]; [|done]. intros (xs & -> & Hn & His & He' & Hd').
  exists (i :: xs). cbn [map concat length]. rewrite <- app_assoc. split_and!; [done|lia|by constructor|lia..|].
  by rewrite Hd, Hd', app_assoc.
Qed.

Lemma len_put_snapshot xs : len (put_snapshot xs) = 9 + len (concat (map put_item xs)).
Proof. unfold put_snapshot. lens. Qed.

Lemma bytes_lit s : bytes (lit s).
Proof.
  induction s as [|a s IH]; cbn; constructor; [|done]. unfold u8, ch.
  pose proof (Ascii.N_ascii_bounded a). lia.
Qed.

Lemma parse_snapshot_put xs :
  Forall item_ok xs -> len xs <= 64 -> len (put_snapshot xs) <= u32_max ->
  parse_content_snapshot (put_snapshot xs) = Some (Ok xs).
Proof.
  intros Hok Hn Hl. pose proof (len_put_snapshot xs) as Hlen. pose proof (len_nonneg (concat (map put_item xs))).
  pose proof (len_nonneg xs). set (bs := put_snapshot xs) in *. unfold parse_content_snapshot. case_if; [lia|].
  rewrite (slice_is bs (@nil Z) (lit "RLC1") ([0] ++ be_bytes 4 (len xs) ++ concat (map put_item xs)) 0 4)
    by (done || lens).
  cbn [mbind option_bind]. assert (zget bs 4 = Some 0) as -> by done. cbn [mbind option_bind].
  rewrite bool_decide_true by done. cbn [negb orb Z.eqb].
  rewrite (slice_is bs (lit "RLC1" ++ [0]) (be_bytes 4 (len xs)) (concat (map put_item xs)) 5 9) by (done || lens).
  cbn [mbind option_bind]. rewrite be_val_bytes by (cbn; lia). case_if; [lia|].
  replace (Z.to_nat (len xs)) with (length xs) by (unfold len; lia).
  replace 9 with (len (lit "RLC1" ++ [0] ++ be_bytes 4 (len xs))) at 1 by lens.
  rewrite (parse_items_put xs _ [] bs [])
    by (done || (subst bs; unfold put_snapshot; by rewrite app_nil_r, <- ?app_assoc)).
  cbn [mbind option_bind app].
  replace (len (lit "RLC1" ++ _)) with 9 by lens.
  by rewrite <- Hlen, Z.eqb_refl.
Qed.

Lemma parse_snapshot_safe bs : bytes bs -> len bs <= u32_max ->
  safe (parse_content_snapshot bs) (fun r =>
    match r with
    | Ok xs => bs = put_snapshot xs /\ len xs <= 64 /\ Forall item_ok xs
    | Err _ => True
    end).
Proof.
  intros Hb Hl. unfold parse_content_snapshot. case_if; [by apply safe_ret|].
  destruct (slice_some bs 0 4) as [m Hm]; [lia..|]. rewrite Hm. cbn [mbind option_bind].
  destruct (zget_in bs 4) as [st Hst]; [lia|]. rewrite Hst. cbn [mbind option_bind].
  case_bool_decide as Hmagic; cbn [negb orb]; [|by apply safe_ret].
  destruct (Z.eqb_spec st 0) as [->|]; cbn [negb]; [|by apply safe_ret].
  destruct (slice_some bs 5 9) as [n Hn]; [lia..|]. rewrite Hn. cbn [mbind option_bind].
  pose proof (slice_drop _ _ _ _ Hm) as (Dm & _). pose proof (zget_drop_cons _ _ _ Hst) as Ds.
  pose proof (slice_drop _ _ _ _ Hn) as (Dn & Ln & _). pose proof (slice_bytes _ _ _ _ Hb Hn) as Bn.
  pose proof (be_u32 n ltac:(lia) Bn) as Vn. unfold u32 in Vn. case_if; [by apply safe_ret|].
  eapply safe_bind; [apply parse_items_safe; [done|lia|done]|].
  intros [[xs e]|err]; [|by intros; apply safe_ret].
  intros (xs' & -> & Hlen & His & He & Hd). cbn [app].
  destruct (Z.eqb_spec e (len bs)) as [->|]; cbn [negb]; apply safe_ret; [|done].
  assert (Hlis : len xs' = be_val n) by (unfold len; lia).
  split_and!; [|lia|done]. unfold put_snapshot. rewrite Hlis, be_exact by (done || lia).
  rewrite <- (drop_0 bs) at 1. change 0%nat with (Z.to_nat 0). rewrite Dm. subst m. f_equal.
  rewrite Ds. cbn [app]. f_equal. change (Z.to_nat (4 + 1)) with (Z.to_nat 5). rewrite Dn. f_equal.
  rewrite Hd. unfold len. by rewrite Nat2Z.id, drop_all, app_nil_r.
Qed.

(** What the daemon puts in a snapshot: the longest prefix of the events whose
    items fit. *)
Definition item_of (e : ContentEvent) : ContentItem :=
  mkItem (wire_kind (kind e)) (ev_seq e) (lit (ev_id e)) (event_text e).

Definition fits (e : ContentEvent) (room : Z) : Prop :=
  len (lit (ev_id e)) <= u16_max /\ len (event_text e) <= CONTENT_REQUEST_MAX /\
  len (put_item (item_of e)) <= room.

Definition content_ok (e : ContentEvent) : Prop :=
  u64 (ev_seq e) /\ ev_id e <> EmptyString /\ from_utf8 (lit (ev_id e)) <> None /\
  bytes (event_text e) /\ from_utf8 (event_text e) <> None.

Definition sent (evs : list ContentEvent) (n : nat) : list Z := concat (map put_item (map item_of (take n evs))).

Lemma encode_events_eq evs items count :
  9 + len items <= CONTENT_RESPONSE_MAX ->
  exists n, encode_events evs items count = (items ++ sent evs n, count + Z.of_nat n) /\
    (n <= length evs)%nat /\
    9 + len items + len (sent evs n) <= CONTENT_RESPONSE_MAX /\
    Forall (fun e => fits e CONTENT_RESPONSE_MAX) (take n evs) /\
    match evs !! n with
    | Some e => ~ fits e (CONTENT_RESPONSE_MAX - 9 - len items - len (sent evs n))
    | None => True
    end.
Proof.
  revert items count. induction evs as [|e evs IH]; intros items count Hroom; cbn [encode_events].
  { exists 0%nat. unfold sent. cbn. rewrite app_nil_r, Z.add_0_r. change (len []) with 0. split_and!; [done|lia|lia|constructor|done]. }
  pose proof (len_nonneg items). pose proof (len_nonneg (lit (ev_id e))). pose proof (len_nonneg (event_text e)).
  unfold sat_add, CONTENT_RESPONSE_MAX, CONTENT_REQUEST_MAX in *.
  assert (Hput : len (put_item (item_of e)) = 15 + len (lit (ev_id e)) + len (event_text e)) by apply len_put_item.
  case_if.
  - exists 0%nat. unfold sent, fits, CONTENT_RESPONSE_MAX, CONTENT_REQUEST_MAX. cbn [take map concat]. change (len []) with 0.
    rewrite app_nil_r, Z.add_0_r. split_and!; [done|lia|lia|constructor|]. cbn [lookup list_lookup]. intros (F1 & F2 & F3). lia.
  - destruct (IH (items ++ put_item (item_of e)) (count + 1)) as (n & Hn & Hle & Hl & Hf & Hnext).
    { rewrite len_app, Hput. lia. }
    rewrite len_app in *. exists (S n). unfold sent in *. cbn [take map concat lookup list_lookup].
    rewrite len_app. split_and!; [|cbn; lia|lia| |].
    + unfold put_item at 1 in Hn. cbn [it_kind it_sequence event_id it_text item_of] in Hn.
      rewrite Hn. rewrite <- app_assoc. f_equal. lia.
    + constructor; [|done]. unfold fits, CONTENT_RESPONSE_MAX, CONTENT_REQUEST_MAX. lia.
    + destruct (evs !! n); [|done]. intros Hf'. apply Hnext.
      unfold fits in *. lia.
Qed.

(** ** The navigation line *)

Lemma parse_id_list_join ns : Forall u64 ns -> parse_id_list (join (lit ",") (map to_string ns)) = ns.
Proof.
  intros Hn. unfold parse_id_list. destruct ns as [|n ns]; [done|].
  rewrite bool_decide_false by apply join_nonempty. rewrite split_numbers by done. by apply omap_parse.
Qed.

Lemma solid_numbers ns : solid (join (lit ",") (map to_string ns)).
Proof.
  apply solid_join; [by repeat constructor|]. apply Forall_map, Forall_forall.
  intros n _. apply digits_solid, to_string_digits.
Qed.

(** The line the daemon writes, as three words. *)
Lemma nav_words ws tabs leaves :
  split_whitespace (lit "ws=" ++ to_string ws ++ lit " tabs=" ++ join (lit ",") (map to_string tabs)
    ++ lit " leaves=" ++ join (lit ",") (map to_string leaves) ++ [0x0a])
  = [lit "ws=" ++ to_string ws; lit "tabs=" ++ join (lit ",") (map to_string tabs);
     lit "leaves=" ++ join (lit ",") (map to_string leaves)].
Proof.
  unfold split_whitespace. rewrite !app_assoc, <- (app_assoc _ (lit " tabs=")), <- !app_assoc.
  change (lit " tabs=") with (0x20 :: lit "tabs="). change (lit " leaves=") with (0x20 :: lit "leaves=").
  rewrite (app_assoc (lit "ws=")). cbn [app]. rewrite words_word; [f_equal| | |done].
  - rewrite (app_assoc (lit "tabs=")). rewrite words_word; [f_equal| | |done].
    + rewrite (app_assoc (lit "leaves=")). rewrite words_word; [done| | |done].
      * apply solid_app; [by repeat constructor|apply solid_numbers].
      * done.
    + apply solid_app; [by repeat constructor|apply solid_numbers].
    + done.
  - apply solid_app; [by repeat constructor|apply digits_solid, to_string_digits].
  - done.
Qed.

Definition nav_of (ws : Z) (rows : list ContainerSnapshot) : NavSnapshot :=
  mkNav ws (map cs_id (nav_rows rows)) (map (fun r => default 0 (first_leaf (cs_children r))) (nav_rows rows)).

Lemma nav_line_eq ws rows :
  u64 ws -> Forall u64 (nav_tabs (nav_of ws rows)) -> Forall u64 (nav_leaves (nav_of ws rows)) ->
  parse_nav_line (nav_snapshot_line ws rows) = Some (nav_of ws rows).
Proof.
  unfold nav_of. cbn [nav_tabs nav_leaves]. intros Hw Ht Hl. unfold parse_nav_line, nav_snapshot_line.
  rewrite split_trim.
  rewrite <- (map_map cs_id to_string), <- (map_map (fun r => default 0 (first_leaf (cs_children r))) to_string).
  rewrite nav_words. cbn [fold_left]. unfold nav_word.
  rewrite !strip_prefix_app.
  assert (forall x, strip_prefix (lit "ws=") (lit "tabs=" ++ x) = None) as -> by done.
  assert (forall x, strip_prefix (lit "ws=") (lit "leaves=" ++ x) = None) as -> by done.
  assert (forall x, strip_prefix (lit "tabs=") (lit "leaves=" ++ x) = None) as -> by done.
  rewrite parse_to_string by done. rewrite !parse_id_list_join by done. done.
Qed.

(** ** Properties *)

(** A content request is understood exactly as it was written: what the
    host sends for a text of at most 64 KiB the daemon decodes to the same
    execution and text; on any bytes the daemon's decoder neither panics nor
    accepts anything but a whole request, and it never waits for more than one
    request's worth of input. *)
Theorem content_request_agrees (exec : Z) (text bs : list Z) (Hexec : u64 exec) (Hbs : bytes bs) :
  match content_request exec text with
  | Ok req => decode_content_request req = Some (Ok (Some (mkRequest 2 exec text)))
  | Err e => e = InvalidContent /\ 64 * 1024 < len text
  end /\
  match decode_content_request bs with
  | None => False
  | Some (Ok (Some r)) => request_ok r /\ bs = put_request r
  | Some (Ok None) => len bs < 17 + CONTENT_REQUEST_MAX
  | Some (Err _) => True
  end.
Proof.
  split.
  - unfold content_request. case_if; [split; [done|lia]|].
    apply (decode_request_put (mkRequest 2 exec text)). unfold request_ok, CONTENT_REQUEST_MAX. cbn. num.
  - destruct (decode_request_safe bs Hbs) as (r & -> & H). by destruct r as [[q|]|].
Qed.

Lemma content_request_agrees_witness :
  u64 7 /\ bytes (lit "RLC1") /\ decode_content_request (default [] (match content_request 7 (lit "ls") with Ok r => Some r | _ => None end))
    = Some (Ok (Some (mkRequest 2 7 (lit "ls")))).
Proof.
  split; [num|split; [apply bytes_lit|]].
  exact (proj1 (content_request_agrees 7 (lit "ls") (lit "RLC1") ltac:(num) (bytes_lit _))).
Defined.

(** C29. The host's reading of a content response is exact in both directions:
    on any bytes within the response limit it does not panic, and it accepts
    them with a list of items exactly when they are that list on the wire, at
    most 64 items each with a non-empty UTF-8 id and a UTF-8 text. *)
Theorem content_snapshot_exact (bs : list Z) (items : list ContentItem)
    (Hbs : bytes bs) (Hlen : len bs <= CONTENT_RESPONSE_MAX) :
  parse_content_snapshot bs <> None /\
  (parse_content_snapshot bs = Some (Ok items) <->
   bs = put_snapshot items /\ len items <= 64 /\ Forall item_ok items).
Proof.
  assert (len bs <= u32_max) by (unfold CONTENT_RESPONSE_MAX in Hlen; lia).
  destruct (parse_snapshot_safe bs) as (r & Hr & Hok); [done..|]. rewrite Hr. split; [done|].
  split; [by intros [= ->]|]. intros (-> & Hn & Hi). by rewrite <- Hr, parse_snapshot_put.
Qed.

(** What the daemon answers the host reads: a snapshot of a timeline of at
    most 64 events stays within the response limit and is read back as the
    items of the longest prefix of its events that fits. *)
Theorem content_reply_read (t : ContentTimeline)
    (Hn : len (events t) <= CONTENT_TIMELINE_MAX_ITEMS) (Hok : Forall content_ok (events t)) :
  exists n, (n <= length (events t))%nat /\
    len (encode_content_snapshot t) <= CONTENT_RESPONSE_MAX /\
    parse_content_snapshot (encode_content_snapshot t) = Some (Ok (map item_of (take n (events t)))) /\
    match events t !! n with
    | Some e => ~ fits e (CONTENT_RESPONSE_MAX - len (encode_content_snapshot t))
    | None => True
    end.
Proof.
  destruct (encode_events_eq (events t) [] 0) as (n & Hn' & Hle & Hl & Hf & Hnext); [by unfold CONTENT_RESPONSE_MAX|].
  change (len []) with 0 in *. exists n. assert (He : encode_content_snapshot t = put_snapshot (map item_of (take n (events t)))).
  { unfold encode_content_snapshot. rewrite Hn'. unfold put_snapshot.
    assert (len (map item_of (take n (events t))) = Z.of_nat n) as ->; [|done].
    unfold len. rewrite length_map, length_take. lia. }
  rewrite He, len_put_snapshot. fold (sent (events t) n). split_and!; [done|lia| |].
  - apply parse_snapshot_put.
    + apply Forall_map. apply Forall_forall. intros e He'. rewrite Forall_forall in Hok, Hf.
      destruct (Hok e) as (H1 & H2 & H3 & H4 & H5); [pose proof He' as (i & Hi & _)%elem_of_take; by eapply list_elem_of_lookup_2|].
      destruct (Hf e He') as (F1 & F2 & _). unfold CONTENT_REQUEST_MAX in F2. pose proof (len_nonneg (lit (ev_id e))).
      constructor; cbn; [destruct (kind e); cbn; num|done|split_and!; [apply bytes_lit|done| |lia]|split_and!; [done|done|lia]].
      destruct (ev_id e) as [|a i]; [done|]. cbn [lit]. rewrite len_cons. pose proof (len_nonneg (lit i)). lia.
    + unfold CONTENT_TIMELINE_MAX_ITEMS, len in *. rewrite length_map, length_take. lia.
    + rewrite len_put_snapshot. fold (sent (events t) n). unfold CONTENT_RESPONSE_MAX in Hl. lia.
  - destruct (events t !! n); [|done]. unfold fits in *. lia.
Qed.

Definition demo_timeline : ContentTimeline :=
  snd (timeline_append (structured_terminal_input "input-1-1" 1 (lit "ls"))
    (snd (timeline_append (structured_terminal_input "input-1-0" 0 (lit "pwd")) timeline_new))).

Lemma demo_timeline_ok : Forall content_ok (events demo_timeline).
Proof.
  repeat constructor; unfold content_ok; cbn [ev_seq ev_id event_text materialized_text default structured_terminal_input];
    try done; try (intros E; vm_compute in E; discriminate E); apply bytes_lit.
Qed.

Lemma content_reply_read_witness :
  len (events demo_timeline) <= CONTENT_TIMELINE_MAX_ITEMS /\ Forall content_ok (events demo_timeline) /\
  exists n, (n <= length (events demo_timeline))%nat /\
    parse_content_snapshot (encode_content_snapshot demo_timeline) = Some (Ok (map item_of (take n (events demo_timeline)))).
Proof.
  split; [by vm_compute|split; [apply demo_timeline_ok|]].
  destruct (content_reply_read demo_timeline ltac:(by vm_compute) demo_timeline_ok) as (n & Hn & _ & Hp & _).
  by exists n.
Defined.

Lemma content_snapshot_exact_witness :
  bytes (encode_content_snapshot demo_timeline) /\ len (encode_content_snapshot demo_timeline) <= CONTENT_RESPONSE_MAX /\
  parse_content_snapshot (encode_content_snapshot demo_timeline) <> None.
Proof.
  assert (H : bytes (encode_content_snapshot demo_timeline)).
  { unfold bytes. vm_compute. repeat constructor; intros E; discriminate E. }
  split; [exact H|split; [by vm_compute|]].
  exact (proj1 (content_snapshot_exact (encode_content_snapshot demo_timeline) [] H ltac:(by vm_compute))).
Defined.

(** The navigation line round-trips while it fits the host's one read of
    512 bytes: workspace, tabs and first leaves come back in order. *)
Theorem nav_line_roundtrip (ws : Z) (rows : list ContainerSnapshot)
    (Hws : u64 ws) (Htabs : Forall u64 (nav_tabs (nav_of ws rows)))
    (Hleaves : Forall u64 (nav_leaves (nav_of ws rows)))
    (Hfit : (length (nav_snapshot_line ws rows) <= NAV_READ)%nat) :
  nav_read (nav_snapshot_line ws rows) = Some (nav_of ws rows).
Proof. unfold nav_read. rewrite take_ge by done. by apply nav_line_eq. Qed.

Definition demo_rows : list ContainerSnapshot :=
  [mkSnapshot 1 Workspace None [ChNode 2; ChNode 3]; mkSnapshot 2 Tab (Some 1) [ChLeaf 7];
   mkSnapshot 3 Tab (Some 1) []].

Lemma nav_line_roundtrip_witness :
  u64 1 /\ (length (nav_snapshot_line 1 demo_rows) <= NAV_READ)%nat /\
  nav_read (nav_snapshot_line 1 demo_rows) = Some (mkNav 1 [2; 3] [7; 0]).
Proof.
  split; [num|split; [vm_compute; lia|]].
  apply (nav_line_roundtrip 1 demo_rows); [num| | |vm_compute; lia]; repeat constructor; intros E; discriminate E.
Defined.

(** With enough tabs the line is longer than the one read the host makes: the
    host then takes the cut line for the whole one, and misses leaves. *)
Definition many_rows : list ContainerSnapshot :=
  map (fun i => mkSnapshot i Tab (Some 1) [ChLeaf i]) (range 100 170).

Lemma nav_line_cut : exists nav,
  nav_read (nav_snapshot_line 12 many_rows) = Some nav /\
  nav_tabs nav = range 100 170 /\ nav_leaves nav = range 100 153 ++ [15].
Proof. eexists. split; [vm_compute; reflexivity|]. split; vm_compute; reflexivity. Qed.
