(* ===== verification/HostClient.v ===== *)
(** The attach client of the host, crates/rill-host/src/lib.rs: it reads frames
    from the daemon, feeds the engine, keeps the scrollback and the view, and
    replenishes credit for what it fed.

    The socket is the interface of [Socket]; what the cold sockets answered at
    connection is an argument.  [RILL_MUTATE] is unset, as in any use. *)
From S2P Require Import Prelude Look Effect VtTypes Utf8 Parser Screen Engine Attach Ring Content Session Kernel Socket Viewport Text Input Cold.

Local Open Scope Z_scope.

Definition CREDIT_WINDOW : Z := 256 * 1024.
Definition READ_CHUNK : Z := 65536.

Record Client (K : Type) := mkClient {
  stream : K;
  decoder : Decoder;
  chip : VtEngine;
  surface : HostSurface;
  alive : bool;
  exit_status : option Z;
  outbox : list Z;
  outstanding_credit : Z;
  warm_path_violations : Z;
  auditing : bool;
  cached : option PodGrid;
  live_cached : option PodGrid;
  history_rows : list (list PodCell);
  scroll_offset : Z;
  viewport_jumped : bool;
  workspace_id : option Z;
  modes : TerminalModeState;
  bytes_sent : Z;
  content_items : list ContentItem;
  execution_id : Z;
}.
Arguments mkClient {K}. Arguments stream {K}. Arguments decoder {K}. Arguments chip {K}.
Arguments surface {K}. Arguments alive {K}. Arguments exit_status {K}. Arguments outbox {K}.
Arguments outstanding_credit {K}. Arguments warm_path_violations {K}. Arguments auditing {K}.
Arguments cached {K}. Arguments live_cached {K}. Arguments history_rows {K}. Arguments scroll_offset {K}.
Arguments viewport_jumped {K}. Arguments workspace_id {K}. Arguments modes {K}. Arguments bytes_sent {K}.
Arguments content_items {K}. Arguments execution_id {K}.

#[export] Instance client_eta {K} : Eta (Client K) := fun c =>
  mkClient (stream c) (decoder c) (chip c) (surface c) (alive c) (exit_status c) (outbox c)
    (outstanding_credit c) (warm_path_violations c) (auditing c) (cached c) (live_cached c)
    (history_rows c) (scroll_offset c) (viewport_jumped c) (workspace_id c) (modes c) (bytes_sent c)
    (content_items c) (execution_id c).

Section ClientOps.
Context {K : Type} `{!SockOps K}.
Abbreviation H := (ST HostError (Client K)).

Definition background_rgba (c : Client K) : Z :=
  match sf_colors (surface c) with Some t => theme_background t | None => 0x121212ff end.
Definition foreground_rgba (c : Client K) : Z :=
  match sf_colors (surface c) with Some t => theme_foreground t | None => 0xccccccff end.
Definition cursor_rgba (c : Client K) : Z :=
  match sf_colors (surface c) with Some t => theme_cursor t | None => 0xd9d9d9ff end.

(** ** Sending *)

Definition client_flush : H () := fun c =>
  '(r, q, k) ← flush_outbox (outbox c) (stream c);
  Some (match r with Ok _ => Ok () | Err e => Err (HIo e) end, c <| outbox := q |> <| stream := k |>).

(** [self.warm_path_violations += 1] panics past the end of u32. *)
Definition count_violation : H () := fun c =>
  v ← chk_add u32_max (warm_path_violations c) 1; Some (Ok (), c <| warm_path_violations := v |>).

Definition send (f : Frame) : H () :=
  violation ← gets (fun c => auditing c && negb (is_warm_path f));
  _ ← (if violation : bool then count_violation else mret ());
  bs ← of_result (match encode f with Ok bs => Ok bs | Err e => Err (HAttach e) end);
  _ ← modify (fun c => c <| outbox := outbox c ++ bs |>);
  client_flush.

Definition grant_credit (n : Z) : H () :=
  _ ← modify (fun c => c <| outstanding_credit := sat_add u64_max (outstanding_credit c) n |>);
  send (Credit n).

Definition drop_caches (c : Client K) : Client K := c <| cached := None |> <| live_cached := None |>.

Definition follow_live (c : Client K) : Client K :=
  let c := c <| scroll_offset := follow_live_after_input (scroll_offset c) |> in
  let c := c <| viewport_jumped := true |> in
  drop_caches c.

Definition send_input (bs : list Z) : H () := fun c =>
  if negb (alive c) then Some (Err HDead, c)
  else
    (_ ← modify follow_live;
     _ ← modify (fun c => c <| bytes_sent := sat_add u64_max (bytes_sent c) (len bs) |>);
     send (Data bs)) c.

Definition client_encode_arrow (letter : Z) (c : Client K) : list Z :=
  encode_arrow (ms_application_cursor_keys (modes c)) letter.
Definition client_wrap_paste (body : list Z) (c : Client K) : list Z :=
  wrap_paste (ms_bracketed_paste (modes c)) body.

Definition paste (body : list Z) : H () := fun c => send_input (client_wrap_paste body c) c.

Definition send_pointer (kind button col row : Z) : H bool := fun c =>
  let bs := encode_pointer (modes c) kind button col row in
  if len bs =? 0 then Some (Ok false, c)
  else (_ ← send_input bs; mret true) c.

(** ** The view *)

(** [next as u32] after clamping to the length of the history. *)
Definition scroll_lines (delta : Z) (c : Client K) : Client K :=
  let max := len (history_rows c) in
  let next := Z.min (Z.max (scroll_offset c + delta) 0) max in
  let c := c <| scroll_offset := next mod 2 ^ 32 |> in
  let c := c <| viewport_jumped := true |> in
  drop_caches c.

Definition client_resize (cols rows px_w px_h : Z) : H () :=
  _ ← modify (fun c => drop_caches c <| viewport_jumped := true |>);
  let cell_w := px_w / Z.max cols 1 in
  let cell_h := px_h / Z.max rows 1 in
  _ ← (fun c =>
         '(r, e) ← Engine.resize cols rows cell_w cell_h (chip c);
         Some (match r with Ok _ => Ok () | Err e => Err (HChip e) end, c <| chip := e |>));
  send (Resize cols rows px_w px_h).

(** [ingest_scrolled(&mut self.history_rows, self.chip.take_scrolled_off())] *)
Definition ingest : H () := fun c =>
  '(rows, e) ← Engine.take_scrolled_off (chip c);
  Some (Ok (), c <| chip := e |> <| history_rows := ingest_scrolled (history_rows c) rows |>).

Definition is_some {A} (o : option A) : bool := match o with Some _ => true | None => false end.

(** The rest of [ensure_snapshots], after the scrolled rows are taken in. *)
Definition refresh_view : H () := fun c =>
  '(live, e) ← Engine.snapshot (chip c);
  let c := c <| chip := e |> in
  view ← compose_viewport (history_rows c) live (scroll_offset c);
  let view := mark_full_if_viewport_jumped view (viewport_jumped c) in
  let c := c <| viewport_jumped := false |> in
  Some (Ok (), c <| live_cached := Some live |> <| cached := Some view |>).

Definition ensure_snapshots : H () := fun c =>
  if is_some (cached c) && is_some (live_cached c) then Some (Ok (), c)
  else (_ ← ingest; refresh_view) c.

Definition client_snapshot : H PodGrid :=
  _ ← ensure_snapshots;
  o ← gets cached;
  of_result (match o with Some g => Ok g | None => Err (HChip (Vt "snapshot cache")) end).

(** A cell of a grid, or 0. *)
Definition codepoint_in (o : option PodGrid) (col row : Z) : Z :=
  match o ≫= fun g => pod_cell_at g col row with Some cell => pc_codepoint cell | None => 0 end.
Definition cell_codepoint (col row : Z) : H Z :=
  g ← client_snapshot; mret (codepoint_in (Some g) col row).
Definition live_codepoint (col row : Z) : H Z :=
  _ ← ensure_snapshots; gets (fun c => codepoint_in (live_cached c) col row).
Definition cursor_cell : H (Z * Z) :=
  g ← client_snapshot; mret (pg_cursor_col g, pg_cursor_row g).

Definition begin_warm_path_audit (c : Client K) : Client K :=
  c <| warm_path_violations := 0 |> <| auditing := true |>.
Definition end_warm_path_audit (c : Client K) : Z * Client K :=
  (warm_path_violations c, c <| auditing := false |>).

(** ** The pump *)

(** [Frame::Data] of the inner loop. *)
Definition on_data_frame (bs : list Z) (fed : Z) : H Z :=
  fed ← of_option (chk_add u64_max fed (len bs));
  _ ← (fun c => e ← Engine.feed bs (chip c); Some (Ok (), c <| chip := e |>));
  _ ← ingest;
  _ ← modify (fun c => c <| scroll_offset :=
                  clamp_offset (len (history_rows c)) (sf_rows (surface c)) (scroll_offset c) |>);
  replies ← (fun c => let '(replies, e) := Engine.take_replies (chip c) in
                      Some (Ok replies, c <| chip := e |>));
  _ ← (if negb (len replies =? 0) then send (Data replies) else mret ());
  _ ← modify (fun c => drop_caches (c <| modes := Engine.mode_state (chip c) |>));
  mret fed.

Definition is_refused (f : Frame) : bool := match f with Refused _ => true | _ => false end.

Definition host_frame (f : Frame) (fed : Z) : H Z :=
  match f with
  | Data bs => on_data_frame bs fed
  | Exit status =>
      _ ← modify (fun c => c <| alive := false |> <| exit_status := Some status |>);
      audit ← gets auditing;
      _ ← (if audit : bool then count_violation else mret ());
      mret fed
  | other =>
      audit ← gets auditing;
      _ ← (if audit : bool then count_violation else mret ());
      if is_refused other then fail HRefused else mret fed
  end.

Fixpoint host_frames (fs : list Frame) (fed : Z) : H Z :=
  match fs with
  | [] => mret fed
  | f :: fs => fed ← host_frame f fed; host_frames fs fed
  end.

(** The loop over [read].  [Ok None] is running out of fuel: the loop is still
    going after so many reads that gave bytes ([pump_exact] says how many are
    enough). *)
Fixpoint pump_loop (fuel : nat) (fed : Z) : H (option Z) :=
  match fuel with
  | O => mret None
  | S fuel => fun c =>
      let '(r, k) := sock_read READ_CHUNK (stream c) in
      let c := c <| stream := k |> in
      match r with
      | Ok bs =>
          if len bs =? 0 then Some (Ok (Some fed), c)
          else
            '(r, d) ← push bs (decoder c);
            let c := c <| decoder := d |> in
            match r with
            | Err e => Some (Err (HAttach e), c)
            | Ok fs => (fed ← host_frames fs fed; pump_loop fuel fed) c
            end
      | Err WouldBlock => Some (Ok (Some fed), c)
      | Err (IoCode e) => Some (Err (HIo e), c)
      end
  end.

Definition pump (fuel : nat) : H (option Z) :=
  _ ← client_flush;
  o ← pump_loop fuel 0;
  match o with
  | None => mret None
  | Some fed =>
      _ ← (if 0 <? fed then grant_credit (if u32_max <? fed then u32_max else fed) else mret ());
      mret (Some fed)
  end.

(** ** Connecting *)

(** [TerminalModeState::default()]: derived, every flag false. *)
Definition mode_default : TerminalModeState :=
  mkModeState false false false false false false false false false false.

Definition client_new (k : K) (sf : HostSurface) (ws session_id : option Z) (e : VtEngine) : Client K :=
  mkClient k decoder_new e sf true None [] 0 0 false None None [] 0 true ws mode_default 0 []
    (default 0 session_id).

(** [connect_session], given the connected stream and what the cold sockets
    answered.  [None] is a panic. *)
Definition connect_session (k : K) (sf : HostSurface) (ws session_id : option Z)
  : option (result HostError () * option (Client K)) :=
  match Engine.new (sf_cols sf) (sf_rows sf) with
  | Err e => Some (Err (HChip e), None)
  | Ok e =>
      e ← (match sf_colors sf with
           | Some t => p ← palette_from_theme t; Some (Engine.set_palette p e)
           | None => Some e
           end);
      '(r, c) ← (_ ← send (attach 1 session_id); grant_credit CREDIT_WINDOW)
                  (client_new k sf ws session_id e);
      Some (r, Some c)
  end.

(** [content_submit], given the exchange over the cold socket: at most one byte
    more than the limit is read of the answer. *)
Definition RESPONSE_MAX : Z := 1024 * 1024.
Definition content_submit (exchange : list Z -> result HostError (list Z)) (exec : Z) (text : list Z)
  : option (result HostError (list ContentItem)) :=
  match content_request exec text with
  | Err e => Some (Err e)
  | Ok request =>
      match exchange request with
      | Err e => Some (Err e)
      | Ok response =>
          let response := take (Z.to_nat (RESPONSE_MAX + 1)) response in
          if RESPONSE_MAX <? len response then Some (Err InvalidContent)
          else parse_content_snapshot response
      end
  end.

Definition submit_content (exchange : list Z -> result HostError (list Z)) (text : list Z) : H () := fun c =>
  r ← content_submit exchange (execution_id c) text;
  match r with
  | Err e => Some (Err e, c)
  | Ok items => Some (Ok (), c <| content_items := items |>)
  end.
End ClientOps.
