(* ===== verification/HostClientFacts.v ===== *)
(** The host's client: over any socket it never panics, keeps its invariant,
    puts exactly the frames it sent on the wire, and never grants more credit
    than its window and what it received; its pump ends and does what the
    frames say. *)
From S2P Require Import Prelude Look LookFacts Effect VtTypes Utf8 Parser ParserFacts Screen Decimal ScreenFacts Engine EngineFacts Attach AttachFacts Ring Content Session SessionFacts Kernel Socket Viewport Text Input Cold ColdFacts HostClient.

Local Open Scope Z_scope.

(** ** The client's invariant *)

Section Host.
Context {K : Type} `{!SockOps K, !SockLaws K}.
Abbreviation T := (K * list SockEvent)%type.
Abbreviation C := (Client T).
Implicit Types (c : C).

Definition trace_of c : list SockEvent := snd (stream c).

(** The frames sent, as bytes on the wire and in the queue before it. *)
Definition wire c : list Z := wrote (trace_of c) ++ outbox c.
Fixpoint credits (fs : list Frame) : Z :=
  match fs with [] => 0 | f :: fs => match f with Credit k => k | _ => 0 end + credits fs end.

Lemma credits_snoc fs f : credits (fs ++ [f]) = credits fs + match f with Credit k => k | _ => 0 end.
Proof. induction fs as [|g fs IH]; cbn; [lia|]. rewrite IH. lia. Qed.

(** [n] counts the operations so far; [owed] is what the client has received
    and not yet granted, or still has to look at. *)
Record host_inv (n owed : Z) c : Prop := {
  hi_chip : engine_ok (chip c);
  hi_hist : len (history_rows c) <= MAX_HISTORY_ROWS;
  hi_off : 0 <= scroll_offset c <= len (history_rows c);
  hi_counts : 0 <= warm_path_violations c /\ 0 <= outstanding_credit c;
  hi_buf : bytes (buf (decoder c));
  hi_budget : outstanding_credit c + owed + 5 * warm_path_violations c + len (buf (decoder c))
              <= CREDIT_WINDOW + 5 * n + len (read_in (trace_of c)) /\
              outstanding_credit c + owed + len (buf (decoder c))
              <= CREDIT_WINDOW + len (read_in (trace_of c));
  hi_wire : exists fs, sends fs (wire c) /\ credits fs = outstanding_credit c;
}.

(** Far from the ends of the counters. *)
Definition LIMIT : Z := 2 ^ 28.
Definition room n c : Prop := 0 <= n /\ n + len (read_in (trace_of c)) <= LIMIT.

Lemma inv_small n owed c : host_inv n owed c -> room n c -> 0 <= owed ->
  warm_path_violations c < 2 ^ 31 /\ outstanding_credit c + owed < 2 ^ 31.
Proof.
  intros [_ _ _ Hc Hb Hbud _] [Hn Hr]. unfold LIMIT, CREDIT_WINDOW in *.
  pose proof (len_nonneg (buf (decoder c))). pose proof (len_nonneg (read_in (trace_of c))). lia.
Qed.

(** ** Sending *)

(** Only the socket, the queue and the count of violations change. *)
Definition io_step c c' (extra : list Z) (v : Z) : Prop :=
  exists k q, c' = c <| stream := k |> <| outbox := q |> <| warm_path_violations := v |> /\
    wrote (snd k) ++ q = wire c ++ extra /\ read_in (snd k) = read_in (trace_of c).

Lemma client_flush_eq c : safe (client_flush c) (fun '(_, c') => io_step c c' [] (warm_path_violations c)).
Proof.
  unfold client_flush. eapply safe_bind; [apply flush_outbox_eq|]. intros [[r q] k] (Hw & Hr & _).
  apply safe_ret. exists k, q. split; [by destruct c|]. split; [|done]. by rewrite app_nil_r.
Qed.

Definition violation f c : Z := if auditing c && negb (is_warm_path f) then 1 else 0.

Lemma send_eq f c : warm_path_violations c + 1 <= u32_max ->
  safe (send f c) (fun '(_, c') =>
    io_step c c' (match encode f with Ok bs => bs | Err _ => [] end) (warm_path_violations c + violation f c)).
Proof.
  intros Hv. unfold send. apply se_bind_rule, safe_ret. cbn [fst snd]. apply se_bind_rule.
  set (c1 := c <| warm_path_violations := warm_path_violations c + violation f c |>).
  assert (safe ((if auditing c && negb (is_warm_path f) then count_violation else mret ()) c)
    (fun rs => rs = (Ok (), c1))) as (rs & -> & ->).
  { subst c1. unfold violation. destruct (auditing c && negb (is_warm_path f)).
    - unfold count_violation, chk_add. rewrite (proj2 (Z.leb_le _ _)) by lia. by apply safe_ret.
    - apply safe_ret. rewrite Z.add_0_r. by destruct c. }
  apply safe_ret. cbn [fst snd]. apply se_bind_rule. unfold of_result.
  destruct (encode f) as [bs|e].
  - apply safe_ret. cbn [fst snd]. apply se_bind_rule, safe_ret. cbn [fst snd].
    eapply safe_mono; [apply client_flush_eq|]. intros [r c'] (k & q & -> & Hw & Hr).
    exists k, q. split; [by subst c1; destruct c|]. split; [|done].
    rewrite app_nil_r in Hw. rewrite Hw. unfold wire, trace_of. subst c1. cbn. by rewrite app_assoc.
  - apply safe_ret. exists (stream c), (outbox c). subst c1. split; [by destruct c|]. split; [|done].
    by rewrite app_nil_r.
Qed.

(** The invariant after anything that only did I/O. *)
Lemma inv_io n n' owed owed' c c' extra v fs :
  host_inv n owed c -> io_step c c' extra v ->
  0 <= v -> owed' <= owed -> owed' + 5 * v + 5 * n <= owed + 5 * warm_path_violations c + 5 * n' ->
  sends fs (wire c ++ extra) -> credits fs = outstanding_credit c ->
  host_inv n' owed' c'.
Proof.
  intros [H1 H2 H3 [_ H4] H5 H6 _] ([k tr] & q & -> & Hw & Hr) Hv Hle Hb Hs Hc.
  split; unfold wire, trace_of in *; cbn in *; [done|done|done|done|done|rewrite Hr; lia|].
  exists fs. cbn in Hw. by rewrite Hw.
Qed.

Lemma io_room n c c' extra v : io_step c c' extra v -> room n c -> room n c'.
Proof. intros (k & q & -> & _ & Hr) [? ?]. unfold room, trace_of in *. cbn. by rewrite Hr. Qed.

(** What a rule says of an operation: no panic, and the invariant after. *)
Definition keeps {A} (m : ST HostError C A) c (n' owed' : Z) : Prop :=
  safe (m c) (fun '(_, c') => host_inv n' owed' c' /\ read_in (trace_of c') = read_in (trace_of c)).

Lemma send_inv n owed f c :
  host_inv n owed c -> room n c -> 0 <= owed ->
  match f with Credit _ => False | _ => True end ->
  keeps (send f) c (n + violation f c) owed.
Proof.
  intros Hi Hr Ho Hf. destruct (inv_small _ _ _ Hi Hr Ho) as [Hv _].
  unfold keeps. eapply safe_mono; [apply send_eq; lia|]. intros [r c'] Hio.
  destruct (hi_wire _ _ _ Hi) as (fs & Hs & Hc). destruct (hi_counts _ _ _ Hi) as [Hv0 _].
  assert (0 <= violation f c <= 1) by (unfold violation; case_if; lia).
  split; [|by destruct Hio as (k & q & -> & _ & Hrd)].
  destruct (encode f) as [bs|e] eqn:He.
  - eapply (inv_io n _ owed owed c c' bs _ (fs ++ [f])); [done|done|lia|lia|lia|by apply sends_snoc|].
    rewrite credits_snoc. destruct f; try done; lia.
  - eapply (inv_io n _ owed owed c c' [] _ fs); [done|done|lia|lia|lia|by rewrite app_nil_r|done].
Qed.

Lemma grant_inv n owed g c :
  host_inv n owed c -> room n c -> 0 <= g <= owed -> keeps (grant_credit g) c n (owed - g).
Proof.
  intros Hi Hr Hg. destruct (inv_small _ _ _ Hi Hr ltac:(lia)) as [Hv Hsm].
  destruct (hi_counts _ _ _ Hi) as [Hv0 Ho0]. destruct (hi_wire _ _ _ Hi) as (fs & Hs & Hc).
  unfold keeps, grant_credit. apply se_bind_rule, safe_ret. cbn [fst snd]. unfold sat_add.
  rewrite Z.min_l by lia. set (c1 := c <| outstanding_credit := _ |>).
  eapply safe_mono; [apply (send_eq (Credit g) c1); cbn; lia|]. intros [r c'] Hio.
  assert (Hcr : exists bs, encode (Credit g) = Ok bs) by (eexists; reflexivity).
  destruct Hcr as [bs Hbs]. rewrite Hbs in Hio.
  destruct Hio as (k & q & -> & Hw & Hrd). split; [|done].
  destruct Hi as [H1 H2 H3 H4 H5 H6 _]. unfold trace_of, wire in *. subst c1. cbn in *.
  assert (violation (Credit g) c = 0) as Hz by (unfold violation; by rewrite andb_false_r).
  split; unfold trace_of, wire; cbn; [done|done|done|unfold violation in *; cbn; rewrite andb_false_r; lia|done|
    unfold violation; cbn; rewrite andb_false_r, Hrd; lia|].
  exists (fs ++ [Credit g]). split; [|rewrite credits_snoc; lia].
  unfold trace_of in Hw, Hs |- *. cbn in Hw |- *. rewrite Hw. by apply sends_snoc.
Qed.
(** ** Feeding the engine *)

Lemma inv_mono n n' owed owed' c : host_inv n owed c -> n <= n' -> owed' <= owed -> host_inv n' owed' c.
Proof. intros [] Hn Ho. split; try done. lia. Qed.

Lemma room_mono n n' c c' : room n c -> read_in (trace_of c') = read_in (trace_of c) -> n' <= n -> 0 <= n' -> room n' c'.
Proof. unfold room. intros [? ?] -> ? ?. lia. Qed.

(** Nothing the wire or the invariant mentions changes but the engine and what
    is given for it. *)
Lemma inv_chip n owed c e :
  host_inv n owed c -> engine_ok e -> host_inv n owed (c <| chip := e |>).
Proof. by intros [] He; split. Qed.

Lemma safe_snd {A B} (o : option (A * B)) (P : B -> Prop) : safe (snd <$> o) P -> safe o (fun ab => P (snd ab)).
Proof. destruct o as [[a b]|]; intros (x & H & HP); [|done]. injection H as <-. exists (a, b). done. Qed.

Lemma ingest_inv n owed c : host_inv n owed c ->
  safe (ingest c) (fun '(r, c') => r = Ok () /\ host_inv n owed c' /\ stream c' = stream c /\
    scroll_offset c' = scroll_offset c /\ viewport_jumped c' = viewport_jumped c).
Proof.
  intros Hi. pose proof Hi as [H1 H2 H3 H4 H5 H6 H7]. unfold ingest.
  eapply safe_bind; [apply safe_snd, (run_ok OTakeScrolledOff _ H1 I)|].
  intros [rows e] He. cbn [snd] in He. apply safe_ret. split_and!; try done.
  split; unfold wire, trace_of in *; cbn; try done.
  - by apply ingest_len.
  - rewrite ingest_eq, len_drop, len_app by done. pose proof (len_nonneg rows).
    assert (0 < MAX_HISTORY_ROWS) by done. lia.
Qed.

(** What the rules for received frames say: [rest] is owed for what is still to
    come. *)
Definition after_frame (n fed rest : Z) c (out : result HostError Z * C) : Prop :=
  let '(r, c') := out in
  match r with
  | Ok fed' => fed <= fed' /\ host_inv n (fed' + rest) c'
  | Err _ => host_inv n 0 c'
  end /\ read_in (trace_of c') = read_in (trace_of c).

Lemma modify_caches n owed c : host_inv n owed c ->
  host_inv n owed (drop_caches (c <| modes := Engine.mode_state (chip c) |>)).
Proof. by intros []; split. Qed.

Lemma clamp_off n owed c : host_inv n owed c ->
  host_inv n owed (c <| scroll_offset := clamp_offset (len (history_rows c)) (sf_rows (surface c)) (scroll_offset c) |>).
Proof.
  intros []. assert (MAX_HISTORY_ROWS < 2 ^ 32) by done. pose proof (len_nonneg (history_rows c)).
  split; unfold wire, trace_of in *; cbn; try done. unfold clamp_offset. rewrite Z.mod_small; lia.
Qed.

Lemma on_data_rule n fed rest bs c :
  host_inv n (fed + (5 + len bs) + rest) c -> room n c -> bytes bs -> 0 <= fed -> 0 <= rest ->
  safe (on_data_frame bs fed c) (after_frame n fed rest c).
Proof.
  intros Hi Hr Hb Hf Hrest. pose proof (len_nonneg bs). destruct (inv_small _ _ _ Hi Hr ltac:(lia)) as [_ Hsm].
  destruct (hi_counts _ _ _ Hi) as [_ Ho]. unfold on_data_frame. apply se_bind_rule.
  unfold chk_add. rewrite (proj2 (Z.leb_le _ _)) by lia. apply safe_ret. cbn [fst snd].
  apply se_bind_rule. eapply safe_bind; [by apply (feed_safe bs _ (hi_chip _ _ _ Hi))|].
  intros e [He _]. apply safe_ret. cbn [fst snd]. apply (inv_chip _ _ _ _ Hi) in He as Hi1.
  set (c1 := c <| chip := e |>) in *. apply se_bind_rule.
  eapply safe_mono; [by apply ingest_inv|]. intros [r c2] (-> & Hi2 & Hs2 & _). cbn [fst snd].
  apply se_bind_rule, safe_ret. cbn [fst snd]. apply clamp_off in Hi2 as Hi3. set (c3 := c2 <| scroll_offset := _ |>) in *.
  apply se_bind_rule, safe_ret. cbn [fst snd].
  set (c4 := c3 <| chip := _ |>). set (rep := Screen.replies _).
  assert (Hi4 : host_inv n (fed + (5 + len bs) + rest) c4).
  { apply inv_chip; [done|]. destruct (hi_chip _ _ _ Hi3) as (? & ? & ?). split_and!; [done..|]. by apply take_replies_wf. }
  assert (Hs4 : trace_of c4 = trace_of c) by (unfold trace_of; subst c4 c3; cbn; by rewrite Hs2).
  apply se_bind_rule.
  assert (Hsend : keeps (if negb (len rep =? 0) then send (Data rep) else mret ()) c4 n (fed + (5 + len bs) + rest)).
  { case_if; [|by apply safe_ret].
    assert (violation (Data rep) c4 = 0) as Hz by (unfold violation; by rewrite andb_false_r).
    rewrite <- (Z.add_0_r n), <- Hz at 1. apply send_inv; [done| |lia|done].
    eapply room_mono; [exact Hr|by rewrite Hs4|lia|apply Hr]. }
  eapply safe_mono; [exact Hsend|]. intros [[[]|err] c5] [Hi5 Hr5]; cbn [fst snd].
  - apply se_bind_rule, safe_ret. cbn [fst snd]. apply safe_ret. split; [split; [lia|]|].
    + eapply inv_mono; [by apply modify_caches|lia|lia].
    + change (trace_of (drop_caches _)) with (trace_of c5). by rewrite Hr5, Hs4.
  - split; [eapply inv_mono; [done|lia|lia]|]. by rewrite Hr5, Hs4.
Qed.

(** Counting a violation against the frame's own bytes. *)
Lemma count_rule n owed c :
  host_inv n (5 + owed) c -> room n c -> 0 <= owed ->
  safe ((if auditing c then count_violation else mret ()) c)
    (fun '(r, c') => r = Ok () /\ host_inv n owed c' /\ trace_of c' = trace_of c).
Proof.
  intros Hi Hr Ho. destruct (inv_small _ _ _ Hi Hr ltac:(lia)) as [Hv _].
  case_if; [|apply safe_ret; split_and!; [done|eapply inv_mono; [done|lia|lia]|done]].
  unfold count_violation, chk_add. rewrite (proj2 (Z.leb_le _ _)) by lia. apply safe_ret. split_and!; [done| |done].
  destruct Hi. split; unfold wire, trace_of in *; cbn; try done; lia.
Qed.

Lemma host_frame_rule n fed rest f c :
  host_inv n (fed + (5 + data_len f) + rest) c -> room n c -> rx_ok f -> 0 <= fed -> 0 <= rest ->
  safe (host_frame f fed c) (after_frame n fed rest c).
Proof.
  intros Hi Hr Hrx Hf Hrest.
  assert (Hother : forall c1, data_len f = 0 -> host_inv n (fed + (5 + data_len f) + rest) c1 -> trace_of c1 = trace_of c ->
    safe (if is_refused f then (audit ← gets auditing; _ ← (if audit : bool then count_violation else mret ()); fail HRefused) c1
          else (audit ← gets auditing; _ ← (if audit : bool then count_violation else mret ()); mret fed) c1)
      (after_frame n fed rest c)).
  { intros c1 Hz Hi1 Ht.
    assert (Hc : safe ((if auditing c1 then count_violation else mret ()) c1)
      (fun '(r, c') => r = Ok () /\ host_inv n (fed + rest) c' /\ trace_of c' = trace_of c1)).
    { apply count_rule; [eapply inv_mono; [done|lia|lia]| |lia]. unfold room in *. by rewrite Ht. }
    destruct Hc as ([r c2] & Hc & -> & Hi2 & Ht2).
    case_if; apply se_bind_rule, safe_ret; cbn [fst snd]; apply se_bind_rule; exists (Ok (), c2); (split; [exact Hc|]);
      cbn [fst snd]; apply safe_ret; (split; [|by rewrite Ht2, Ht]); [eapply inv_mono; [done|lia|lia]|].
    by split; [lia|]. }
  destruct f; cbn [host_frame is_refused data_len] in *.
  1: by apply on_data_rule.
  all: try (exact (Hother c eq_refl Hi eq_refl)).
  - apply se_bind_rule, safe_ret. cbn [fst snd]. apply Hother; [done| |done]. by destruct Hi; split.
Qed.
Lemma host_frames_rule n fs fed rest c :
  host_inv n (fed + weight fs + rest) c -> room n c -> Forall rx_ok fs -> 0 <= fed -> 0 <= rest ->
  safe (host_frames fs fed c) (after_frame n fed rest c).
Proof.
  intros Hi Hr Hfs. revert fed c Hi Hr. induction Hfs as [|f fs Hf _ IH]; intros fed c Hi Hr Hfed Hrest; cbn [host_frames].
  { apply safe_ret. split; [|done]. split; [lia|]. cbn in Hi. eapply inv_mono; [done|lia|lia]. }
  pose proof (weight_nonneg fs). cbn [weight] in Hi. apply se_bind_rule.
  eapply safe_mono; [apply (host_frame_rule n fed (weight fs + rest)); [|done|done|done|lia]|].
  { eapply inv_mono; [done|lia|lia]. }
  intros [[fed'|e] c'] [H1 H2]; cbn [fst snd]; [|by split]. destruct H1 as [Hle Hi'].
  eapply safe_mono; [apply IH; [eapply inv_mono; [done|lia|lia]| |lia|lia]|].
  { unfold room in *. by rewrite H2. }
  intros [[fed2|e] c2] [H3 H4]; (split; [|by rewrite H4, H2]).
  - destruct H3 as [? ?]. by split; [lia|].
  - exact H3.
Qed.

Lemma sock_read_rule c (k : T) r : sock_read READ_CHUNK (stream c) = (r, k) ->
  match r with
  | Ok bs => len bs <= READ_CHUNK /\ bytes bs /\ snd k = trace_of c ++ [SRead bs]
  | Err _ => snd k = trace_of c
  end.
Proof.
  unfold trace_of. destruct (stream c) as [k0 tr]. cbn. destruct (sock_read READ_CHUNK k0) as [r' k'] eqn:E.
  intros [= <- <-]. destruct r' as [bs|e]; [|done].
  by destruct (sock_read_fits READ_CHUNK k0 bs k') as [? ?].
Qed.

(** What [pump] may read. *)
Definition reads_at_most (m : Z) c c' : Prop :=
  len (read_in (trace_of c')) <= len (read_in (trace_of c)) + m.

Lemma inv_stream n owed c (k : T) :
  host_inv n owed c -> snd k = trace_of c -> host_inv n owed (c <| stream := k |>).
Proof. intros [] Hk. split; unfold wire, trace_of in *; cbn; rewrite ?Hk; done. Qed.

Lemma pump_loop_rule n fuel fed c :
  host_inv n fed c -> 0 <= n -> 0 <= fed ->
  n + len (read_in (trace_of c)) + READ_CHUNK * Z.of_nat fuel <= LIMIT ->
  safe (pump_loop fuel fed c) (fun '(r, c') =>
    match r with Ok (Some fed') => 0 <= fed' /\ host_inv n fed' c' | _ => host_inv n 0 c' end /\
    reads_at_most (READ_CHUNK * Z.of_nat fuel) c c').
Proof.
  revert fed c. induction fuel as [|fuel IH]; intros fed c Hi Hn Hf Hl; cbn [pump_loop].
  { apply safe_ret. split; [eapply inv_mono; [done|lia|lia]|unfold reads_at_most; lia]. }
  assert (HR : READ_CHUNK = 65536) by done.
  destruct (sock_read READ_CHUNK (stream c)) as [r k] eqn:E. apply sock_read_rule in E.
  destruct r as [bs|[|e]]; cycle 1.
  1-2: apply safe_ret; (split; [|unfold reads_at_most, trace_of in *; cbn; rewrite E; lia]);
    first [by split; [|apply inv_stream]|apply inv_stream; [eapply inv_mono; [done|lia|lia]|done]].
  destruct E as (Hlen & Hb & Htr). pose proof (len_nonneg bs).
  assert (Hrd : read_in (snd k) = read_in (trace_of c) ++ bs) by (by rewrite Htr, read_in_snoc).
  assert (Hw : wrote (snd k) = wrote (trace_of c)) by (by rewrite Htr, wrote_read).
  pose proof Hi as [H1 H2 H3 H4 H5 H6 H7].
  destruct (Z.eqb_spec (len bs) 0) as [Hz|Hz].
  { apply safe_ret. split; [split; [done|]|unfold reads_at_most, trace_of in *; cbn; rewrite Hrd, len_app; lia].
    split; unfold wire, trace_of in *; cbn; try done; rewrite ?Hrd, ?Hw, ?len_app; [lia|done]. }
  eapply safe_bind; [by apply (push_rule bs (decoder c))|]. intros [r d] [Hd Hres].
  set (c1 := (c <| stream := k |>) <| decoder := d |>).
  assert (Hr1 : read_in (trace_of c1) = read_in (trace_of c) ++ bs) by (by unfold trace_of; subst c1; cbn).
  assert (Hc1 : forall owed, owed + len (buf d) <= fed + len (buf (decoder c)) + len bs -> host_inv n owed c1).
  { intros owed Ho. split; try done; [|unfold wire, trace_of in *; subst c1; cbn; by rewrite Hw].
    rewrite Hr1, len_app. subst c1. cbn. lia. }
  destruct r as [fs|e].
  - destruct Hres as [Hwt Hrx]. apply se_bind_rule.
    eapply safe_mono; [apply (host_frames_rule n fs fed 0 c1); [apply Hc1; lia| |done|done|lia]|].
    { split; [done|]. rewrite Hr1, len_app. lia. }
    intros [[fed'|e] c'] [Ha Hrd']; cbn [fst snd]; cycle 1.
    { split; [done|]. unfold reads_at_most. rewrite Hrd', Hr1, len_app. lia. }
    destruct Ha as [Hle Hi']. rewrite Z.add_0_r in Hi'.
    eapply safe_mono; [apply IH; [done|done|lia|rewrite Hrd', Hr1, len_app; lia]|].
    intros [r c2] [Ha2 Hb2]. split; [done|]. unfold reads_at_most in *. rewrite Hrd', Hr1, len_app in Hb2. lia.
  - apply safe_ret. split; [apply Hc1; lia|]. unfold reads_at_most. rewrite Hr1, len_app. lia.
Qed.

Lemma flush_inv n owed c : host_inv n owed c -> keeps client_flush c n owed.
Proof.
  intros Hi. unfold keeps. eapply safe_mono; [apply client_flush_eq|]. intros [r c1] Hio. split.
  - destruct (hi_wire _ _ _ Hi) as (fs & Hs & Hc). destruct (hi_counts _ _ _ Hi).
    eapply (inv_io n n owed owed c c1 [] _ fs); [done|done|done|lia|lia|by rewrite app_nil_r|done].
  - by destruct Hio as (k & q & -> & _ & Hr).
Qed.

Lemma pump_rule n fuel c :
  host_inv n 0 c -> 0 <= n -> n + len (read_in (trace_of c)) + READ_CHUNK * Z.of_nat fuel <= LIMIT ->
  safe (pump fuel c) (fun '(_, c') => host_inv n 0 c' /\ reads_at_most (READ_CHUNK * Z.of_nat fuel) c c').
Proof.
  intros Hi Hn Hl. assert (HR : 0 <= READ_CHUNK * Z.of_nat fuel) by (assert (READ_CHUNK = 65536) by done; lia).
  unfold pump. apply se_bind_rule. eapply safe_mono; [by apply (flush_inv n 0)|].
  intros [r c1] [Hi1 Hr1].
  destruct r as [[]|e]; cbn [fst snd]; [|split; [done|unfold reads_at_most; rewrite Hr1; lia]].
  apply se_bind_rule. eapply safe_mono; [apply (pump_loop_rule n fuel 0 c1); [done|done|lia|by rewrite Hr1]|].
  intros [[[fed|]|e] c2] [Ha Hb]; cbn [fst snd]; unfold reads_at_most in *; rewrite Hr1 in Hb;
    [|apply safe_ret; by split|by split].
  destruct Ha as [Hfed Hi2]. assert (Hroom : room n c2) by (split; [done|lia]).
  destruct (inv_small _ _ _ Hi2 Hroom Hfed) as [_ Hsm]. destruct (hi_counts _ _ _ Hi2) as [_ Ho].
  apply se_bind_rule.
  assert (Hg : keeps (if 0 <? fed then grant_credit (if u32_max <? fed then u32_max else fed) else mret ()) c2 n 0).
  { case_if; [|apply safe_ret; split; [eapply inv_mono; [done|lia|lia]|done]].
    case_if; [lia|]. replace 0 with (fed - fed) by lia. apply grant_inv; [done|done|lia]. }
  eapply safe_mono; [exact Hg|]. intros [[[]|e] c3] [Hi3 Hr3]; cbn [fst snd]; [apply safe_ret|];
    (split; [done|]); by rewrite Hr3.
Qed.

(** What a pump fed is small. *)
Lemma pump_fed n fuel c fed c' :
  host_inv n 0 c -> 0 <= n -> n + len (read_in (trace_of c)) + READ_CHUNK * Z.of_nat fuel <= LIMIT ->
  pump fuel c = Some (Ok (Some fed), c') -> 0 <= fed < 2 ^ 31.
Proof.
  intros Hi Hn Hl H. unfold pump in H. apply se_bind_inv in H as [([] & c1 & H1 & H)|(e & _ & ?)]; [|done].
  destruct (safe_inv _ _ _ (flush_inv n 0 c Hi) H1) as [Hi1 Hr1].
  apply se_bind_inv in H as [(o & c2 & H2 & H)|(e & _ & ?)]; [|done]. rewrite <- Hr1 in Hl.
  destruct (safe_inv _ _ _ (pump_loop_rule n fuel 0 c1 Hi1 Hn (Z.le_refl 0) Hl) H2) as [Ha Hb].
  destruct o as [f|]; [|done]. destruct Ha as [Hf Hi2].
  apply se_bind_inv in H as [([] & c3 & _ & [= <- _])|(e & _ & ?)]; [|done].
  destruct (inv_small n f c2 Hi2) as [_ Hs]; [split; [done|unfold reads_at_most in Hb; lia]|done|].
  destruct (hi_counts _ _ _ Hi2). lia.
Qed.

(** ** The other operations *)

Lemma inv_caches n owed c : host_inv n owed c -> host_inv n owed (drop_caches c).
Proof. by intros []; split. Qed.

Lemma inv_follow n owed c : host_inv n owed c -> host_inv n owed (follow_live c).
Proof.
  intros []. split; try done. cbn. pose proof (len_nonneg (history_rows c)). unfold follow_live_after_input. lia.
Qed.

Lemma inv_scroll n owed delta c : host_inv n owed c -> host_inv n owed (scroll_lines delta c).
Proof.
  intros []. assert (MAX_HISTORY_ROWS < 2 ^ 32) by done. pose proof (len_nonneg (history_rows c)).
  split; try done. cbn. rewrite Z.mod_small; lia.
Qed.

Lemma send_input_rule n bs c : host_inv n 0 c -> room n c -> keeps (send_input bs) c n 0.
Proof.
  intros Hi Hr. unfold keeps, send_input. case_if; [by apply safe_ret|].
  apply se_bind_rule, safe_ret. cbn [fst snd]. apply se_bind_rule, safe_ret. cbn [fst snd].
  set (c1 := follow_live c <| bytes_sent := _ |>).
  assert (Hi1 : host_inv n 0 c1) by (apply inv_follow in Hi; by destruct Hi; split).
  assert (violation (Data bs) c1 = 0) as Hz by (unfold violation; by rewrite andb_false_r).
  eapply safe_mono; [by apply (send_inv n 0 (Data bs) c1)|].
  intros [r c'] [H1 H2]. rewrite Hz, Z.add_0_r in *. by split.
Qed.

Lemma pointer_rule n kind button col row c :
  host_inv n 0 c -> room n c -> keeps (send_pointer kind button col row) c n 0.
Proof.
  intros Hi Hr. unfold keeps, send_pointer. case_if; [by apply safe_ret|].
  apply se_bind_rule. eapply safe_mono; [by apply send_input_rule|].
  intros [[[]|e] c'] H; cbn [fst snd]; [by apply safe_ret|done].
Qed.

Lemma resize_rule n cols rows px_w px_h c :
  host_inv n 0 c -> room n c -> 0 <= cols <= MAX_TAB_COLS -> u16 rows ->
  keeps (client_resize cols rows px_w px_h) c (n + 1) 0.
Proof.
  intros Hi Hr Hc Hro. unfold keeps, client_resize. apply se_bind_rule, safe_ret. cbn [fst snd].
  apply inv_caches in Hi as Hi1. set (c1 := drop_caches c <| viewport_jumped := true |>).
  assert (Hi2 : host_inv n 0 c1) by (by destruct Hi1; split).
  apply se_bind_rule. eapply safe_bind.
  { apply safe_snd, (run_ok (OResize cols rows (px_w / Z.max cols 1) (px_h / Z.max rows 1)) _ (hi_chip _ _ _ Hi2)).
    by split. }
  intros [r e] He. cbn [snd] in He. apply safe_ret. apply (inv_chip _ _ _ _ Hi2) in He as Hi3.
  destruct r as [[]|err]; cbn [fst snd]; [|split; [eapply inv_mono; [done|lia|lia]|done]].
  eapply safe_mono; [by apply (send_inv n 0 (Resize cols rows px_w px_h) _ Hi3)|].
  intros [r c'] [H1 H2]. split; [|done]. eapply inv_mono; [done| |lia]. unfold violation. case_if; lia.
Qed.

Lemma grid_of_snapshot e : engine_ok e ->
  safe (Engine.snapshot e) (fun '(g, e') => engine_ok e' /\ grid_ok g).
Proof.
  intros (Hp & Hpb & Hwf). unfold Engine.snapshot.
  destruct (snapshot_safe (screen e) Hwf) as ([g s] & -> & _ & Hw & Hl & Hc & Hr & _). apply safe_ret.
  cbn [fst snd] in *. split; [by split_and!|]. pose proof (wf_cols _ Hwf). pose proof (wf_rows _ Hwf).
  unfold grid_ok. lia.
Qed.

Lemma compose_safe history live offset :
  grid_ok live -> 0 <= offset -> len history < 2 ^ 32 -> safe (compose_viewport history live offset) (fun _ => True).
Proof.
  intros Hg Ho Hl. destruct (decide (offset = 0 \/ len history = 0)) as [Hz|Hz].
  - unfold compose_viewport. rewrite (proj2 (orb_true_iff _ _)) by lia. by apply safe_ret.
  - pose proof (len_nonneg history). destruct (compose_eq history live offset) as (v & -> & _); [done|lia|lia|].
    by apply safe_ret.
Qed.

Lemma ensure_rule n c : host_inv n 0 c -> keeps ensure_snapshots c n 0.
Proof.
  intros Hi. unfold keeps, ensure_snapshots. case_if; [by apply safe_ret|]. apply se_bind_rule.
  eapply safe_mono; [by apply ingest_inv|]. intros [r c1] (-> & Hi1 & Hs1 & Ho1 & _). cbn [fst snd].
  unfold refresh_view. eapply safe_bind; [apply grid_of_snapshot, (hi_chip _ _ _ Hi1)|].
  intros [live e] [He Hg]. cbn zeta. apply (inv_chip _ _ _ _ Hi1) in He as Hi2. set (c2 := c1 <| chip := e |>) in *.
  assert (MAX_HISTORY_ROWS < 2 ^ 32) by done. pose proof (hi_hist _ _ _ Hi2). pose proof (hi_off _ _ _ Hi2).
  eapply safe_bind; [apply compose_safe; [done|lia|lia]|]. intros view _. apply safe_ret.
  split; [by destruct Hi2; split|]. unfold trace_of. cbn. by rewrite Hs1.
Qed.

Lemma snapshot_rule n c : host_inv n 0 c -> keeps client_snapshot c n 0.
Proof.
  intros Hi. unfold keeps, client_snapshot. apply se_bind_rule. eapply safe_mono; [by apply ensure_rule|].
  intros [[[]|e] c'] H; cbn [fst snd]; [|done]. apply se_bind_rule, safe_ret. cbn [fst snd].
  by apply safe_ret.
Qed.

Lemma submit_rule n exchange text c :
  host_inv n 0 c -> (forall q bs, exchange q = Ok bs -> bytes bs) -> keeps (submit_content exchange text) c n 0.
Proof.
  intros Hi Hx. unfold keeps, submit_content.
  assert (Hs : safe (content_submit exchange (execution_id c) text) (fun _ => True)).
  { unfold content_submit. destruct (content_request _ _) as [q|e]; [|by apply safe_ret].
    destruct (exchange q) as [bs|e] eqn:Eq; [|by apply safe_ret]. case_if; [by apply safe_ret|].
    eapply safe_mono; [apply parse_snapshot_safe; [by apply Forall_take, (Hx q)|]|done].
    unfold RESPONSE_MAX in *. lia. }
  eapply safe_bind; [exact Hs|]. intros [items|e] _; apply safe_ret; [|done]. split; [by destruct Hi; split|done].
Qed.

(** ** Runs *)

(** The operations of the client, with what they return dropped. *)
Inductive HOp : Type :=
| HPump (fuel : nat)
| HInput (bs : list Z)
| HPaste (body : list Z)
| HPointer (kind button col row : Z)
| HFollow
| HScroll (delta : Z)
| HResize (cols rows px_w px_h : Z)
| HSnapshot
| HCell (col row : Z)
| HLive (col row : Z)
| HCursor
| HBegin
| HEnd
| HSubmit (exchange : list Z -> result HostError (list Z)) (text : list Z).

Definition host_run (o : HOp) c : option C :=
  match o with
  | HPump fuel => snd <$> pump fuel c
  | HInput bs => snd <$> send_input bs c
  | HPaste body => snd <$> paste body c
  | HPointer kind button col row => snd <$> send_pointer kind button col row c
  | HFollow => Some (follow_live c)
  | HScroll delta => Some (scroll_lines delta c)
  | HResize cols rows px_w px_h => snd <$> client_resize cols rows px_w px_h c
  | HSnapshot => snd <$> client_snapshot c
  | HCell col row => snd <$> cell_codepoint col row c
  | HLive col row => snd <$> live_codepoint col row c
  | HCursor => snd <$> cursor_cell c
  | HBegin => Some (begin_warm_path_audit c)
  | HEnd => Some (snd (end_warm_path_audit c))
  | HSubmit exchange text => snd <$> submit_content exchange text c
  end.

(** Arguments in range, answers made of bytes, and fewer than 2^28 bytes and
    operations, so that no counter of the client comes near its end. *)
Definition hop_ok (n : Z) (o : HOp) c : Prop :=
  n + 1 + len (read_in (trace_of c)) + (match o with HPump fuel => READ_CHUNK * Z.of_nat fuel | _ => 0 end) <= LIMIT /\
  match o with
  | HResize cols rows _ _ => 0 <= cols <= MAX_TAB_COLS /\ u16 rows
  | HSubmit exchange _ => forall q bs, exchange q = Ok bs -> bytes bs
  | _ => True
  end.

(** A surface of at most 65528 columns; one without columns or rows is refused. *)
Definition sizes_ok (sf : HostSurface) : Prop := 0 <= sf_cols sf <= MAX_TAB_COLS /\ u16 (sf_rows sf).

Definition surface_ok (sf : HostSurface) : Prop :=
  sizes_ok sf /\
  match sf_colors sf with
  | Some t => match theme_ansi t with Some vs => length vs = 16%nat | None => True end
  | None => True
  end.

(** A surface loaded from files fits, if its size does. *)
Lemma loaded_surface_fits M from_toml fuel path sf :
  Look.load_resolved_surface M from_toml fuel path = Ok (Ok sf) ->
  sizes_ok sf -> surface_ok sf.
Proof.
  intros H Hs. apply LookFacts.load_resolved_ok in H. split; [exact Hs|].
  destruct (sf_colors sf) as [t|]; [|done]. destruct H as (_ & _ & _ & Ha & _). by destruct (theme_ansi t), Ha.
Qed.

Inductive hreach : Z -> C -> Prop :=
| hreach_new k sf ws sid c :
    surface_ok sf -> connect_session (k, []) sf ws sid = Some (Ok (), Some c) -> hreach 0 c
| hreach_step n o c c' : hreach n c -> hop_ok n o c -> host_run o c = Some c' -> hreach (n + 1) c'.

Lemma safe_run {A} (m : ST HostError C A) c (Q : C -> Prop) :
  safe (m c) (fun '(_, c') => Q c') -> safe (snd <$> m c) Q.
Proof. intros ([r c'] & -> & H). by exists c'. Qed.

Lemma host_step n o c : host_inv n 0 c -> 0 <= n -> hop_ok n o c -> safe (host_run o c) (host_inv (n + 1) 0).
Proof.
  intros Hi Hn [Hl Ha].
  assert (Hr : room n c).
  { split; [done|]. assert (READ_CHUNK = 65536) by done. destruct o; lia. }
  assert (Hsame : host_inv (n + 1) 0 c) by (eapply inv_mono; [done|lia|lia]).
  assert (Hk : forall {A} (m : ST HostError C A), keeps m c n 0 -> safe (snd <$> m c) (host_inv (n + 1) 0)).
  { intros A m Hm. apply safe_run. eapply safe_mono; [exact Hm|]. intros [r c'] [H _]. eapply inv_mono; [done|lia|lia]. }
  destruct o; cbn [host_run] in *.
  - apply safe_run. eapply safe_mono; [apply (pump_rule n fuel c Hi Hn); lia|]. intros [r c'] [H _].
    eapply inv_mono; [done|lia|lia].
  - by apply Hk, send_input_rule.
  - by apply Hk, send_input_rule.
  - by apply Hk, pointer_rule.
  - apply safe_ret. by apply inv_follow.
  - apply safe_ret. by apply inv_scroll.
  - destruct Ha as [Hc Hro]. apply safe_run. eapply safe_mono; [by apply (resize_rule n)|]. by intros [r c'] [H _].
  - by apply Hk, snapshot_rule.
  - apply Hk. unfold cell_codepoint, keeps. apply se_bind_rule. eapply safe_mono; [apply (snapshot_rule n _ Hi)|].
    intros [[g|e] c'] H; cbn [fst snd]; [by apply safe_ret|done].
  - apply Hk. unfold live_codepoint, keeps. apply se_bind_rule. eapply safe_mono; [apply (ensure_rule n _ Hi)|].
    intros [[g|e] c'] H; cbn [fst snd]; [by apply safe_ret|done].
  - apply Hk. unfold cursor_cell, keeps. apply se_bind_rule. eapply safe_mono; [apply (snapshot_rule n _ Hi)|].
    intros [[g|e] c'] H; cbn [fst snd]; [by apply safe_ret|done].
  - apply safe_ret. destruct Hsame as [H1 H2 H3 [H4 H4'] H5 H6 H7]. split; try done; unfold trace_of in *; cbn; lia.
  - apply safe_ret. by destruct Hsame; split.
  - by apply Hk, submit_rule.
Qed.

(** An engine is made of at least one cell. *)
Lemma new_sized cs rs e : Engine.new cs rs = Ok e -> cs <> 0 /\ rs <> 0.
Proof.
  unfold Engine.new, Screen.new. destruct ((cs =? 0) || (rs =? 0)) eqn:E; [done|]. intros _.
  apply orb_false_iff in E as [?%Z.eqb_neq ?%Z.eqb_neq]. done.
Qed.

Lemma connect_rule k sf ws sid : surface_ok sf ->
  safe (connect_session (k, []) sf ws sid) (fun '(r, o) =>
    match o with Some c => host_inv 0 0 c | None => r <> Ok () end).
Proof.
  intros [[Hc Hr] Ht]. unfold connect_session.
  destruct (Engine.new (sf_cols sf) (sf_rows sf)) as [e|err] eqn:He; [|by apply safe_ret].
  apply new_sized in He as Hz. apply new_ok in He; [|lia|num; lia].
  eapply (safe_bind _ _ engine_ok).
  { destruct (sf_colors sf) as [t|]; [|by apply safe_ret].
    eapply safe_bind; [by apply palette_from_theme_ok|]. intros p Hp. apply safe_ret.
    destruct He as (? & ? & ?). split_and!; [done..|]. by apply set_palette_wf. }
  intros e' He'. set (c0 := client_new (k, []) sf ws sid e').
  assert (Hi : host_inv 0 CREDIT_WINDOW c0).
  { split; subst c0; unfold wire, trace_of, client_new; cbn; try done; try lia; try (constructor).
    exists []. split; [by exists []|done]. }
  assert (Hroom : forall c, read_in (trace_of c) = [] -> room 0 c).
  { intros c E. split; [done|]. rewrite E. done. }
  eapply (safe_bind _ _ (fun '(_, c) => host_inv 0 0 c)).
  - apply se_bind_rule.
    eapply safe_mono; [apply (send_inv 0 CREDIT_WINDOW (attach 1 sid) c0); [done|by apply Hroom|done|done]|].
    intros [[[]|err] c1] [H1 H2]; cbn [fst snd].
    + eapply safe_mono; [apply (grant_inv 0 CREDIT_WINDOW CREDIT_WINDOW c1); [|by apply Hroom|done]|].
      { by rewrite Z.add_0_l in H1. }
      intros [r c2] [H3 H4]. by rewrite Z.sub_diag in H3.
    + eapply inv_mono; [exact H1|done|done].
  - intros [r c] Hinv. by apply safe_ret.
Qed.

Lemma hreach_inv n c : hreach n c -> 0 <= n /\ host_inv n 0 c.
Proof.
  induction 1 as [k sf ws sid c Hsf Hc|n o c c' _ [Hn IH] Ho Hrun].
  - split; [done|]. destruct (connect_rule k sf ws sid Hsf) as ([r oc] & E & H).
    rewrite Hc in E. injection E as <- <-. exact H.
  - split; [lia|]. destruct (host_step n o c IH Hn Ho) as (c2 & E & H). congruence.
Qed.
End Host.

(** C20. The host's client is safe over any socket, within these bounds: the surface
    and every resize have at most 65528 columns (on a wider grid a tab panics,
    [tab_overflow_iff]), a theme's palette has sixteen colours, as every loaded
    one has, and the session stays within 2^28 operations and bytes read, a pump
    counted with the most its reads can return (so that no 32-bit counter of the
    client overflows).  Then connecting does not panic, and from any state reached
    no operation panics, whatever bytes the daemon sends and however the socket
    takes writes.  Everything sent is on the wire or queued behind it exactly
    once, frame after frame, and the credit granted is never more than the window
    and the bytes received: the daemon never has leave to send more than one
    window ahead of what the host has read. *)
Theorem host_client_safe {K} `{!SockOps K, !SockLaws K} (k : K) (sf : HostSurface) (ws sid : option Z)
    (n : Z) (c : Client (K * list SockEvent)) (o : HOp)
    (Hsf : surface_ok sf) (Hc : hreach n c) (Ho : hop_ok n o c) :
  connect_session (k, []) sf ws sid <> None /\
  host_run o c <> None /\
  (exists fs, sends fs (wire c) /\ credits fs = outstanding_credit c) /\
  outstanding_credit c <= CREDIT_WINDOW + len (read_in (trace_of c)) /\
  len (history_rows c) <= MAX_HISTORY_ROWS /\ 0 <= scroll_offset c <= len (history_rows c).
Proof.
  destruct (hreach_inv n c Hc) as [Hn Hi]. destruct (connect_rule k sf ws sid Hsf) as (x & -> & _).
  destruct (host_step n o c Hi Hn Ho) as (c' & -> & _). destruct Hi as [_ H2 H3 [_ H4] H5 [_ H6] H7].
  split_and!; try done; try lia. pose proof (len_nonneg (buf (decoder c))). lia.
Qed.
