(* ===== verification/PumpFacts.v ===== *)
(** The host's pump on a socket that has some chunks ready: it reads them all,
    and what it does depends on the frames they carry, not on how the stream was
    cut. *)
From S2P Require Import Prelude Look Effect VtTypes Utf8 Parser ParserFacts Screen Decimal ScreenFacts Engine EngineFacts Attach AttachFacts Ring Content Session SessionFacts Kernel Socket Viewport Text Input Cold HostClient HostClientFacts.

Local Open Scope Z_scope.

(** ** What the frames mean to the host *)

Record Mirror := mkMirror {
  m_chip : VtEngine;
  m_history : list (list PodCell);
  m_wire : list Z;
  m_alive : bool;
  m_exit : option Z;
}.


(** Data is fed, the rows it scrolled off are kept and the replies it caused
    are sent; an exit is remembered; other frames change nothing. *)
Definition mirror_frame (f : Frame) (m : Mirror) : option Mirror :=
  match f with
  | Data bs =>
      e ← Engine.feed bs (m_chip m);
      '(rows, e) ← Engine.take_scrolled_off e;
      let '(replies, e) := Engine.take_replies e in
      let w := if len replies =? 0 then [] else encoded (Data replies) in
      Some (mkMirror e (ingest_scrolled (m_history m) rows) (m_wire m ++ w) (m_alive m) (m_exit m))
  | Exit status => Some (mkMirror (m_chip m) (m_history m) (m_wire m) false (Some status))
  | _ => Some m
  end.
Definition mirror (fs : list Frame) (m : Mirror) : option Mirror := for_each fs mirror_frame m.

(** ** Sockets with chunks ready *)

(** [ready k cs]: the next reads give the chunks [cs], then nothing for now;
    writes take what they take and never fail. *)
Class SockReady (K : Type) `{!SockOps K} (ready : K -> list (list Z) -> Prop) : Prop := {
  ready_none : forall k, ready k [] -> exists k', sock_read READ_CHUNK k = (Err WouldBlock, k') /\ ready k' [];
  ready_chunk : forall k c cs, ready k (c :: cs) ->
    c <> [] /\ exists k', sock_read READ_CHUNK k = (Ok c, k') /\ ready k' cs;
  ready_write : forall k cs bs r k', ready k cs -> sock_write bs k = (r, k') ->
    ready k' cs /\ forall e, r <> Err (IoCode e);
}.

Section Pump.
Context {K : Type} `{!SockOps K, !SockLaws K} (ready : K -> list (list Z) -> Prop) `{!SockReady K ready}.
Abbreviation T := (K * list SockEvent)%type.
Abbreviation C := (Client T).
Implicit Types (c : C).

Definition offers c (cs : list (list Z)) : Prop := ready (fst (stream c)) cs.

Lemma write_loop_ready slices fuel q (k : T) cs r q' k' :
  ready (fst k) cs -> write_loop slices fuel q k = Some (r, q', k') -> r = Ok () /\ ready (fst k') cs.
Proof.
  revert q k. induction fuel as [|fuel IH]; intros q k Hk; cbn [write_loop]; [done|].
  case_if; [by intros [= <- _ <-]|]. destruct k as [k tr]. cbn.
  destruct (sock_write (slices q (k, tr)) k) as [w k1] eqn:E.
  destruct (ready_write k cs _ _ _ Hk E) as [Hk1 Hw].
  destruct w as [n|[|e]].
  - case_if; [by intros [= <- _ <-]|]. destruct (drain_to n q) as [q1|]; [|done]. cbn. by apply IH.
  - by intros [= <- _ <-].
  - by destruct (Hw e).
Qed.

Lemma host_flush_exact c cs r c' :
  offers c cs -> client_flush c = Some (r, c') ->
  r = Ok () /\ offers c' cs /\ io_step c c' [] (warm_path_violations c).
Proof.
  intros Hk H. pose proof (safe_inv _ _ _ (client_flush_eq c) H) as Hio.
  unfold client_flush in H. destruct (flush_outbox (outbox c) (stream c)) as [[[w q] k]|] eqn:E; [|done].
  apply (write_loop_ready _ _ _ _ cs) in E as [-> Hk']; [|done]. cbn in H. injection H as <- <-.
  split_and!; [done| |done]. unfold offers in *. cbn. done.
Qed.

Lemma send_exact f bs c cs r c' :
  offers c cs -> encode f = Ok bs -> warm_path_violations c + 1 <= u32_max -> send f c = Some (r, c') ->
  r = Ok () /\ offers c' cs /\ exists v, io_step c c' bs v.
Proof.
  intros Hk He Hv H. pose proof (safe_inv _ _ _ (send_eq f c Hv) H) as Hio. cbn in Hio. rewrite He in Hio.
  unfold send in H. apply se_bind_inv in H as [(b & c1 & H1 & H)|(e & H1 & _)]; [|done]. injection H1 as <- <-.
  apply se_bind_inv in H as [([] & c2 & H2 & H)|(e & H2 & _)]; cycle 1.
  { destruct (_ && _) in H2; [|done]. unfold count_violation, chk_add in H2.
    rewrite (proj2 (Z.leb_le _ _)) in H2 by lia. done. }
  assert (Hk2 : offers c2 cs).
  { destruct (_ && _) in H2; [|by injection H2 as <-]. unfold count_violation, chk_add in H2.
    rewrite (proj2 (Z.leb_le _ _)) in H2 by lia. by injection H2 as <-. }
  rewrite He in H. apply se_bind_inv in H as [(b & c3 & H3 & H)|(e & H3 & _)]; [|done]. injection H3 as <- <-.
  apply se_bind_inv in H as [([] & c4 & H4 & H)|(e & H4 & _)]; [|done]. injection H4 as <-.
  eapply (host_flush_exact _ cs) in H as (-> & Hk' & _); [|exact Hk2]. split_and!; [done|done|by eexists].
Qed.

(** ** Frames *)

Definition mir c : Mirror := mkMirror (chip c) (history_rows c) (wire c) (alive c) (exit_status c).

(** The fields no frame changes. *)
Definition steady c c' : Prop :=
  scroll_offset c' = scroll_offset c /\ outstanding_credit c' = outstanding_credit c /\ decoder c' = decoder c.

Lemma io_mir c c' bs v : io_step c c' bs v ->
  mir c' = mkMirror (chip c) (history_rows c) (wire c ++ bs) (alive c) (exit_status c) /\ steady c c'.
Proof.
  intros ([k tr] & q & -> & Hw & _). split; [|done]. unfold mir, wire, trace_of in *. cbn in *. by rewrite Hw.
Qed.

Lemma clamp_id n c : host_inv n 0 c \/ (exists owed, host_inv n owed c) -> forall rows,
  clamp_offset (len (ingest_scrolled (history_rows c) rows)) (sf_rows (surface c)) (scroll_offset c) = scroll_offset c.
Proof.
  intros Hi rows. assert (Hx : exists owed, host_inv n owed c) by (destruct Hi; eauto). destruct Hx as [owed []].
  pose proof (ingest_len rows _ hi_hist). assert (MAX_HISTORY_ROWS < 2 ^ 32) by done.
  assert (0 < MAX_HISTORY_ROWS) by done. pose proof (len_nonneg rows).
  unfold clamp_offset. rewrite Z.mod_small by (pose proof (len_nonneg (ingest_scrolled (history_rows c) rows)); lia).
  rewrite ingest_eq, len_drop, len_app by done. lia.
Qed.

Lemma replies_encode n owed c : host_inv n owed c ->
  encode (Data (Screen.replies (screen (chip c)))) = Ok (encoded (Data (Screen.replies (screen (chip c))))).
Proof.
  intros Hi. destruct (hi_chip _ _ _ Hi) as (_ & _ & Hwf). destruct (wf_replies _ Hwf) as [_ Hl].
  unfold encoded, encode, REPLY_CAP, MAX_FRAME in *. cbn [payload]. case_if; [lia|done].
Qed.
(** The send of what the engine answered, if it did. *)
Lemma replies_exact bs c cs r c' :
  offers c cs -> encode (Data bs) = Ok (encoded (Data bs)) -> warm_path_violations c + 1 <= u32_max ->
  (if negb (len bs =? 0) then send (Data bs) else mret ()) c = Some (r, c') ->
  r = Ok () /\ offers c' cs /\ steady c c' /\
  mir c' = mkMirror (chip c) (history_rows c)
             (wire c ++ if len bs =? 0 then [] else encoded (Data bs)) (alive c) (exit_status c) /\
  chip c' = chip c.
Proof.
  intros Hk He Hv. destruct (len bs =? 0); cbn [negb]; intros H.
  - injection H as <- <-. rewrite app_nil_r. by split_and!.
  - destruct (send_exact _ _ _ _ _ _ Hk He Hv H) as (-> & Hk' & v & Hio).
    destruct (io_mir _ _ _ _ Hio) as [Hm Hst]. split_and!; try done; [|apply Hst..].
    by destruct Hio as (k & q & -> & _).
Qed.

Lemma data_exact n owed bs fed c cs r c' :
  host_inv n owed c -> offers c cs -> bytes bs -> fed + len bs <= u64_max ->
  warm_path_violations c + 1 <= u32_max -> on_data_frame bs fed c = Some (r, c') ->
  r = Ok (fed + len bs) /\ offers c' cs /\ mirror_frame (Data bs) (mir c) = Some (mir c') /\ steady c c'.
Proof.
  intros Hi Hk Hb Hfed Hv H. unfold on_data_frame in H.
  apply se_bind_inv in H as [(f & c0 & H0 & H)|(e & H0 & _)]; cycle 1.
  { unfold chk_add in H0. rewrite (proj2 (Z.leb_le _ _)) in H0 by lia. done. }
  unfold chk_add in H0. rewrite (proj2 (Z.leb_le _ _)) in H0 by lia. injection H0 as <- <-.
  apply se_bind_inv in H as [([] & c1 & H1 & H)|(e & H1 & _)]; cycle 1; destruct (Engine.feed bs (chip c)) as [e1|] eqn:Ef; try done.
  injection H1 as <-. destruct (safe_inv _ _ _ (feed_safe bs _ (hi_chip _ _ _ Hi) Hb) Ef) as [He1 _].
  apply (inv_chip _ _ _ _ Hi) in He1 as Hi1. set (c1 := c <| chip := e1 |>) in *.
  apply se_bind_inv in H as [([] & c2 & H2 & H)|(e & H2 & _)]; cycle 1.
  { unfold ingest in H2. by destruct (Engine.take_scrolled_off (chip c1)) as [[? ?]|]. }
  pose proof (safe_inv _ _ _ (ingest_inv _ _ _ Hi1) H2) as (_ & Hi2 & _).
  unfold ingest in H2. destruct (Engine.take_scrolled_off (chip c1)) as [[rows e2]|] eqn:Es; [|done].
  cbn in H2. injection H2 as <-. set (c2 := (c1 <| chip := e2 |>) <| history_rows := _ |>) in *.
  apply se_bind_inv in H as [([] & c3 & H3 & H)|(e & H3 & _)]; [|done]. injection H3 as <-.
  rewrite (clamp_id n c (or_intror (ex_intro _ owed Hi)) rows) in H.
  change (scroll_offset c) with (scroll_offset c2) in H. replace (c2 <| scroll_offset := scroll_offset c2 |>) with c2 in H by (by destruct c2).
  apply se_bind_inv in H as [(rep & c4 & H4 & H)|(e & H4 & _)]; [|done]. injection H4 as <- <-.
  pose proof (replies_encode _ _ _ Hi2) as Henc. set (rep := Screen.replies (screen (chip c2))) in *.
  set (c4 := c2 <| chip := _ |>) in *.
  apply se_bind_inv in H as [(u & c5 & H5 & H)|(e & H5 & _)]; cycle 1.
  { by destruct (replies_exact rep c4 cs _ _ Hk Henc Hv H5) as (? & _). }
  destruct (replies_exact rep c4 cs _ _ Hk Henc Hv H5) as (_ & Hk5 & Hst & Hm & _).
  apply se_bind_inv in H as [([] & c6 & H6 & H)|(e & H6 & _)]; [|done]. injection H6 as <-. injection H as <- <-.
  split_and!; [done|exact Hk5| |exact Hst]. cbn [mirror_frame mir m_chip m_history m_wire m_alive m_exit].
  rewrite Ef. cbn [mbind option_bind]. change (chip c1) with e1 in Es. rewrite Es. cbn [mbind option_bind].
  f_equal. change (mir (drop_caches _)) with (mir c5). rewrite Hm. done.
Qed.

(** A frame that is not refused does what it means. *)
Definition accepted (f : Frame) : Prop := is_refused f = false.

Lemma frame_exact n owed f fed c cs r c' :
  host_inv n owed c -> offers c cs -> rx_ok f -> accepted f -> fed + data_len f <= u64_max ->
  warm_path_violations c + 1 <= u32_max -> host_frame f fed c = Some (r, c') ->
  r = Ok (fed + data_len f) /\ offers c' cs /\ mirror_frame f (mir c) = Some (mir c') /\ steady c c'.
Proof.
  intros Hi Hk Hrx Hacc Hfed Hv.
  assert (Hcount : forall c1 r c2, warm_path_violations c1 = warm_path_violations c ->
    (audit ← gets auditing; _ ← (if audit : bool then count_violation else mret ()); mret fed) c1 = Some (r, c2) ->
    r = Ok (fed + 0) /\ exists v, c2 = c1 <| warm_path_violations := v |>).
  { intros c1 r1 c2 Hv1 H. rewrite Z.add_0_r. apply se_bind_inv in H as [(a & c3 & H1 & H)|(e & H1 & _)]; [|done].
    injection H1 as <- <-. unfold count_violation, chk_add in H.
    apply se_bind_inv in H as [([] & c4 & H2 & H)|(e & H2 & _)]; destruct (auditing c1);
      rewrite ?Hv1, ?(proj2 (Z.leb_le _ _)) in H2 by lia; try done; injection H2 as <-; injection H as <- <-;
      (split; [done|]); [by eexists|]. exists (warm_path_violations c1). by destruct c1. }
  destruct f; cbn [host_frame is_refused data_len] in *; try discriminate Hacc.
  1: by apply (data_exact n owed).
  all: try (intros H; destruct (Hcount c r c' eq_refl H) as [-> [v ->]]; by split_and!).
  intros H. apply se_bind_inv in H as [([] & c1 & H1 & H)|(e & H1 & _)]; [|done]. injection H1 as <-.
  apply Hcount in H as [-> [v ->]]; [|done]. by split_and!.
Qed.
Lemma mirror_app fs gs m : mirror (fs ++ gs) m = (mirror fs m ≫= mirror gs).
Proof. apply for_each_app. Qed.

Definition fed_by (fs : list Frame) : Z := len (data_bytes fs).

Lemma fed_by_cons f fs : fed_by (f :: fs) = data_len f + fed_by fs.
Proof. unfold fed_by, data_bytes. cbn [map concat]. rewrite len_app. by destruct f. Qed.

Lemma fed_by_app fs gs : fed_by (fs ++ gs) = fed_by fs + fed_by gs.
Proof. unfold fed_by. by rewrite data_bytes_app, len_app. Qed.

Lemma fed_by_weight fs : 0 <= fed_by fs <= weight fs.
Proof.
  induction fs as [|f fs IH]; [done|]. rewrite fed_by_cons. cbn [weight].
  assert (0 <= data_len f) by (destruct f; cbn; try lia; apply len_nonneg). lia.
Qed.

(** Everything a run of frames does. *)
Definition done_with (fs : list Frame) cs c c' : Prop :=
  offers c' cs /\ mirror fs (mir c) = Some (mir c') /\ steady c c'.

Lemma frames_exact n fs fed rest c cs :
  host_inv n (fed + weight fs + rest) c -> room n c -> 0 <= fed -> 0 <= rest ->
  offers c cs -> Forall rx_ok fs -> Forall accepted fs ->
  safe (host_frames fs fed c) (fun '(r, c') =>
    r = Ok (fed + fed_by fs) /\ done_with fs cs c c' /\
    host_inv n (fed + fed_by fs + rest) c' /\ read_in (trace_of c') = read_in (trace_of c)).
Proof.
  intros Hi Hr Hf Hrest Hk Hrx. revert fed c Hi Hr Hf Hk.
  induction Hrx as [|f fs Hf Hrx IH]; intros fed c Hi Hr Hfed Hk Hacc; cbn [host_frames].
  { apply safe_ret. cbn in Hi. unfold fed_by. cbn. rewrite !Z.add_0_r in *. unfold steady.
    split_and!; try done. }
  apply Forall_cons in Hacc as [Hacc Haccs]. pose proof (fed_by_weight fs) as Hw. cbn [weight] in Hi.
  assert (0 <= data_len f) by (destruct f; cbn; try lia; apply len_nonneg).
  destruct (inv_small _ _ _ Hi Hr ltac:(lia)) as [Hv Hsm]. destruct (hi_counts _ _ _ Hi) as [_ Ho].
  apply se_bind_rule.
  destruct (host_frame_rule n fed (weight fs + rest) f c) as ([r c1] & E & Hafter);
    [eapply inv_mono; [done|lia|lia]|done|done|done|lia|].
  exists (r, c1). split; [exact E|].
  destruct (frame_exact n _ f fed c cs r c1 Hi Hk Hf Hacc) as (-> & Hk1 & Hm1 & Hs1); [lia|lia|done|].
  cbn [fst snd]. destruct Hafter as [[_ Hi1] Hr1].
  eapply safe_mono; [apply (IH _ c1); [eapply inv_mono; [done|lia|lia]| |lia|done|done]|].
  { unfold room in *. by rewrite Hr1. }
  intros [r c2] (-> & (Hk2 & Hm2 & Hs2) & Hi2 & Hr2). rewrite fed_by_cons. split_and!.
  - f_equal. lia.
  - split_and!; [done| |].
    + unfold mirror. cbn [for_each]. rewrite Hm1. exact Hm2.
    + destruct Hs1 as (? & ? & ?), Hs2 as (? & ? & ?). unfold steady. split_and!; congruence.
  - eapply inv_mono; [exact Hi2|lia|lia].
  - congruence.
Qed.

(** ** The loop *)

Lemma receive_cons ch chunks d got : receive (ch :: chunks) d got =
  ('(r, d) ← push ch d;
   match r with Ok l => receive chunks d (got ++ l) | Err _ => None end).
Proof.
  unfold receive. cbn [for_each]. destruct (push ch d) as [[r d']|]; [|done]. cbn. by destruct r.
Qed.

Lemma receive_prefix chunks d got d' fs :
  receive chunks d got = Some (d', fs) -> exists new, fs = got ++ new.
Proof.
  revert d got. induction chunks as [|ch chunks IH]; intros d got.
  { cbn. intros [= _ <-]. exists []. by rewrite app_nil_r. }
  rewrite receive_cons. destruct (push ch d) as [[r d1]|]; [|done]. cbn. destruct r as [l|]; [|done].
  intros H. apply IH in H as [new ->]. exists (l ++ new). by rewrite app_assoc.
Qed.

Lemma offers_stream c cs (k : T) : ready (fst k) cs -> offers (c <| stream := k |>) cs.
Proof. done. Qed.

Lemma loop_exact n chunks fuel fed c got new d' :
  host_inv n fed c -> 0 <= n -> 0 <= fed -> offers c chunks ->
  (length chunks < fuel)%nat -> n + len (read_in (trace_of c)) + READ_CHUNK * Z.of_nat fuel <= LIMIT ->
  receive chunks (decoder c) got = Some (d', got ++ new) -> Forall accepted new ->
  exists c', pump_loop fuel fed c = Some (Ok (Some (fed + fed_by new)), c') /\
    offers c' [] /\ mirror new (mir c) = Some (mir c') /\ decoder c' = d' /\
    scroll_offset c' = scroll_offset c /\ outstanding_credit c' = outstanding_credit c /\
    host_inv n (fed + fed_by new) c' /\ room n c'.
Proof.
  assert (HR : READ_CHUNK = 65536) by done.
  revert fuel fed c got new. induction chunks as [|ch chunks IH]; intros fuel fed c got new Hi Hn Hfed Hk Hfuel Hl Hrec Hacc;
    (destruct fuel as [|fuel]; [cbn in Hfuel; lia|]); cbn [pump_loop].
  - cbn in Hrec. injection Hrec as <- Hg. rewrite <- (app_nil_r got) in Hg at 1. apply app_inv_head in Hg as <-.
    destruct (ready_none (ready := ready) _ Hk) as (k' & E & Hk'). destruct (stream c) as [k tr] eqn:Es. cbn in E |- *. rewrite E.
    eexists. split; [unfold fed_by; cbn; by rewrite Z.add_0_r|].
    assert (Hi' : host_inv n fed (c <| stream := (k', tr) |>)) by (apply inv_stream; [done|unfold trace_of; by rewrite Es]).
    unfold fed_by. cbn [data_bytes map concat]. change (len []) with 0. rewrite Z.add_0_r.
    split_and!; try done.
    + unfold mir, wire, trace_of. cbn. by rewrite Es.
    + unfold trace_of in *. rewrite Es in Hl. cbn in Hl. split; [done|]. unfold trace_of. cbn. lia.
  - destruct (ready_chunk (ready := ready) _ _ _ Hk) as (Hne & k' & E & Hk').
    assert (Er : sock_read READ_CHUNK (stream c) = (Ok ch, (k', trace_of c ++ [SRead ch]))).
    { unfold trace_of. destruct (stream c) as [k tr]. cbn in E |- *. by rewrite E. }
    rewrite Er. apply sock_read_rule in Er as (Hlen & Hb & _).
    destruct (Z.eqb_spec (len ch) 0) as [Hz|_].
    { destruct ch; [done|]. rewrite len_cons in Hz. pose proof (len_nonneg ch). lia. }
    rewrite receive_cons in Hrec. change (decoder (c <| stream := _ |>)) with (decoder c).
    destruct (push_rule ch (decoder c) (hi_buf _ _ _ Hi) Hb) as ([r d1] & Ep & Hd1 & Hres).
    rewrite Ep in Hrec |- *. cbn [mbind option_bind] in Hrec |- *. destruct r as [l|]; [|done].
    destruct (receive_prefix _ _ _ _ _ Hrec) as [rest Hnew]. rewrite <- app_assoc in Hnew.
    apply app_inv_head in Hnew as ->. apply Forall_app in Hacc as [Hacc1 Hacc2]. destruct Hres as [Hwt Hrx].
    pose proof (fed_by_weight l) as Hw.
    set (c1 := (c <| stream := _ |>) <| decoder := d1 |>).
    assert (Hr1 : read_in (trace_of c1) = read_in (trace_of c) ++ ch) by exact (read_in_snoc (trace_of c) ch).
    assert (Hw1 : wire c1 = wire c) 
      by exact (f_equal (fun x => x ++ outbox c) (wrote_read (trace_of c) ch)).
    assert (Hi1 : host_inv n (fed + weight l + 0) c1).
    { destruct Hi as [H1 H2 H3 H4 H5 H6 H7]. split; try done.
      - rewrite Hr1, len_app. subst c1. cbn. lia.
      - by rewrite Hw1. }
    destruct (frames_exact n l fed 0 c1 chunks) as ([r c2] & Ef & -> & (Hk2 & Hm2 & Hs2) & Hi2 & Hr2);
      [done|split; [done|rewrite Hr1, len_app; lia]|done|done|done|done|done|].
    rewrite Z.add_0_r in Hi2. cbn [length] in Hfuel.
    destruct (IH fuel (fed + fed_by l) c2 (got ++ l) rest) as (c3 & E3 & Hk3 & Hm3 & Hd3 & Hoff3 & Hout3 & Hi3 & Hroom3);
      [done|done|lia|done|lia|rewrite Hr2, Hr1, len_app; lia| |done|].
    { destruct Hs2 as (_ & _ & ->). by rewrite <- app_assoc. }
    exists c3. rewrite fed_by_app, Z.add_assoc. split_and!; try done.
    + unfold mbind, se_bind. rewrite Ef. exact E3.
    + rewrite mirror_app. assert (mir c1 = mir c) as Hmc by (unfold mir; by rewrite Hw1).
      rewrite Hmc in Hm2. by rewrite Hm2.
    + destruct Hs2 as (Ho2 & _ & _). by rewrite Hoff3, Ho2.
    + destruct Hs2 as (_ & Ho2 & _). by rewrite Hout3, Ho2.
Qed.
End Pump.

(** One pump, from any reachable client at a frame boundary. *)
Lemma pump_eq {K} `{!SockOps K, !SockLaws K} (ready : K -> list (list Z) -> Prop) `{!SockReady K ready}
    (n : Z) (c : Client (K * list SockEvent)) (fs : list Frame) (bss chunks : list (list Z)) (fuel : nat)
    (Hc : hreach n c) (Hfresh : decoder c = decoder_new) (Hready : ready (fst (stream c)) chunks)
    (Hfs : Forall frame_ok fs) (Henc : Forall2 (fun f bs => encode f = Ok bs) fs bss)
    (Hcut : concat chunks = concat bss) (Hbytes : bytes (concat chunks))
    (Hacc : Forall accepted fs) (Hfuel : (length chunks < fuel)%nat)
    (Hroom : n + len (read_in (trace_of c)) + READ_CHUNK * Z.of_nat fuel <= LIMIT) :
  exists m c', mirror fs (mir c) = Some m /\
    pump fuel c = Some (Ok (Some (fed_by fs)), c') /\
    chip c' = m_chip m /\ history_rows c' = m_history m /\ alive c' = m_alive m /\ exit_status c' = m_exit m /\
    wire c' = m_wire m ++ (if 0 <? fed_by fs then encoded (Credit (fed_by fs)) else []) /\
    outstanding_credit c' = outstanding_credit c + fed_by fs /\
    scroll_offset c' = scroll_offset c /\ decoder c' = decoder_new.
Proof.
  destruct (hreach_inv n c Hc) as [Hn Hi].
  assert (Hrec : receive chunks (decoder c) [] = Some (decoder_new, [] ++ fs)).
  { rewrite Hfresh. apply receive_eq; [constructor|by exists 1%nat|done|].
    cbn [buf decoder_new app]. rewrite Hcut. by apply (drains_frames fs bss []). }
  destruct (client_flush_eq c) as ([r1 c1] & E1 & Hio1).
  destruct (host_flush_exact ready c chunks r1 c1 Hready E1) as (-> & Hk1 & _).
  assert (Hi1 : host_inv n 0 c1).
  { destruct (hi_wire _ _ _ Hi) as (gs & Hs & Hcr). destruct (hi_counts _ _ _ Hi).
    eapply (inv_io n n 0 0 c c1 [] _ gs); [done|done|done|lia|lia|by rewrite app_nil_r|done]. }
  destruct (io_mir _ _ _ _ Hio1) as [Hm1 (Ho1 & Hout1 & Hd1)].
  assert (Hmir : mir c1 = mir c) by (rewrite Hm1; unfold mir; by rewrite app_nil_r).
  assert (Hrd1 : read_in (trace_of c1) = read_in (trace_of c)) by (by destruct Hio1 as (k & q & -> & _ & Hr)).
  destruct (loop_exact ready n chunks fuel 0 c1 [] fs decoder_new)
    as (c2 & E2 & Hk2 & Hm2 & Hd2 & Hoff2 & Hout2 & Hi2 & Hr2);
    [done|done|done|done|done|by rewrite Hrd1|by rewrite Hd1|done|].
  rewrite Hmir in Hm2. rewrite Z.add_0_l in *. pose proof (fed_by_weight fs) as [Hfed0 _].
  destruct (inv_small _ _ _ Hi2 Hr2 Hfed0) as [Hv2 Hsm2]. destruct (hi_counts _ _ _ Hi2) as [_ Ho2].
  exists (mir c2). unfold pump. rewrite Hm2. unfold mbind at 1, se_bind. rewrite E1.
  unfold mbind at 1, se_bind. rewrite E2. destruct (Z.ltb_spec 0 (fed_by fs)) as [Hpos|Hz].
  - case_if; [lia|]. destruct (grant_inv n (fed_by fs) (fed_by fs) c2 Hi2 Hr2 ltac:(lia)) as ([r3 c3] & E3 & _).
    exists c3. unfold mbind, se_bind. rewrite E3.
    unfold grant_credit in E3. apply se_bind_inv in E3 as [(u & c2' & Ea & Eb)|(e & Ea & _)]; [|done].
    injection Ea as <- <-. unfold sat_add in Eb. rewrite Z.min_l in Eb by lia.
    set (c2' := c2 <| outstanding_credit := _ |>) in *.
    destruct (send_exact ready (Credit (fed_by fs)) (encoded (Credit (fed_by fs))) c2' [] r3 c3) as (-> & _ & v & Hio3);
      [done|done|cbn; lia|done|].
    destruct (io_mir _ _ _ _ Hio3) as [Hm3 (Hoff3 & Hout3 & Hd3)]. unfold mir in Hm3. injection Hm3 as H1 H2 H3 H4 H5.
    rewrite H1, H2, H3, H4, H5, Hoff3, Hout3, Hd3. subst c2'. cbn. rewrite Hout2, Hout1, Hoff2, Ho1, Hd2. by split_and!.
  - exists c2. rewrite Hout2, Hout1, Hoff2, Ho1, Hd2, app_nil_r. split_and!; try done. lia.
Qed.

(** C18. The pump mirrors the daemon.  When the frames [fs], none of them a
    refusal, are on the wire in whatever chunks and the socket's writes do not
    fail, the pump ends after one read more than there are chunks: it has fed
    the engine the data of [fs] in order, kept the rows that scrolled off, sent
    the engine's replies and remembered an exit; it has granted exactly the
    bytes it fed, in one credit frame; no byte of the stream is left over. *)
Theorem pump_exact {K} `{!SockOps K, !SockLaws K} (ready : K -> list (list Z) -> Prop) `{!SockReady K ready}
    (n : Z) (c : Client (K * list SockEvent)) (fs : list Frame) (bss chunks : list (list Z)) (fuel : nat)
    (Hc : hreach n c) (Hfresh : decoder c = decoder_new) (Hready : ready (fst (stream c)) chunks)
    (Hfs : Forall frame_ok fs) (Henc : Forall2 (fun f bs => encode f = Ok bs) fs bss)
    (Hcut : concat chunks = concat bss) (Hbytes : bytes (concat chunks))
    (Hacc : Forall accepted fs) (Hfuel : (length chunks < fuel)%nat)
    (Hroom : n + len (read_in (trace_of c)) + READ_CHUNK * Z.of_nat fuel <= LIMIT) :
  exists m c', mirror fs (mir c) = Some m /\
    pump fuel c = Some (Ok (Some (fed_by fs)), c') /\
    chip c' = m_chip m /\ history_rows c' = m_history m /\ alive c' = m_alive m /\ exit_status c' = m_exit m /\
    wire c' = m_wire m ++ (if 0 <? fed_by fs then encoded (Credit (fed_by fs)) else []) /\
    outstanding_credit c' = outstanding_credit c + fed_by fs /\
    scroll_offset c' = scroll_offset c /\ decoder c' = decoder_new.
Proof. by eapply pump_eq. Qed.

(** ** A script that is ready *)

Definition script_ready (k : Script) (cs : list (list Z)) : Prop :=
  rx k = cs /\ Forall (fun c => c <> [] /\ bytes c /\ len c <= READ_CHUNK) cs.

#[export] Instance script_sock_ready : SockReady Script script_ready.
Proof.
  split.
  - intros k [Hrx _]. exists k. cbn. by rewrite Hrx.
  - intros k c cs [Hrx Hc]. apply Forall_cons in Hc as [(Hne & Hb & Hl) Hcs]. split; [done|].
    exists (mkScript cs (accepts k)). cbn [sock_read script_sock]. rewrite Hrx. case_if; [lia|].
    assert (map (fun b => b mod 256) c = c) as ->.
    { rewrite <- (map_id c) at 2. apply map_ext_in. intros b Hin. unfold bytes in Hb. rewrite Forall_forall in Hb.
      apply Z.mod_small. specialize (Hb b ltac:(by apply list_elem_of_In)). num. }
    rewrite take_ge by (unfold len in Hl; lia). by split.
  - intros k cs bs r k' [Hrx Hc]. cbn. destruct (accepts k) as [|a accs]; intros [= <- <-]; by split.
Qed.

Definition demo_surface : HostSurface := mkSurface (lit "Mono") Float.f32_one [] 8 3 None Float.f32_zero Float.f32_zero Float.f32_one false None.
Definition demo_host_frames : list Frame := [Data (lit "hi"); Data (elit "[c"); Exit 0].
Definition demo_host_wire : list (list Z) :=
  map (fun f => match encode f with Ok bs => bs | Err _ => [] end) demo_host_frames.
Definition demo_script : Script := mkScript (cut3 7 (concat demo_host_wire)) [4; 0; 100].

Definition demo_client : option (Client (Script * list SockEvent)) :=
  match connect_session (demo_script, []) demo_surface (Some 1) None with
  | Some (Ok _, Some c) => Some c
  | _ => None
  end.

Lemma demo_client_reach : exists c, demo_client = Some c /\ hreach 0 c /\ decoder c = decoder_new /\
  rx (fst (stream c)) = cut3 7 (concat demo_host_wire) /\ trace_of c = snd (stream c) /\ read_in (trace_of c) = [].
Proof.
  unfold demo_client. destruct (connect_session (demo_script, []) demo_surface (Some 1) None) as [[[[]|e] [c|]]|] eqn:E;
    try (vm_compute in E; discriminate E).
  exists c. split; [done|]. split.
  - apply (hreach_new demo_script demo_surface (Some 1) None c); [by repeat split|exact E].
  - vm_compute in E. injection E as <-. by split_and!.
Qed.

Lemma demo_chunks_ready k : rx k = cut3 7 (concat demo_host_wire) -> script_ready k (cut3 7 (concat demo_host_wire)).
Proof. intros Hrx. split; [exact Hrx|]. apply (bool_decide_unpack _). vm_compute. exact I. Qed.

Lemma demo_frames_ok : Forall frame_ok demo_host_frames.
Proof. repeat constructor; vm_compute; try (intros E; discriminate E); split; intros E; discriminate E. Qed.

Lemma demo_wire_bytes : bytes (concat (cut3 7 (concat demo_host_wire))).
Proof. unfold bytes, u8. apply (bool_decide_unpack _). vm_compute. exact I. Qed.

Lemma demo_mirror c m : demo_client = Some c -> mirror demo_host_frames (mir c) = Some m -> m_alive m = false /\ m_exit m = Some 0.
Proof.
  unfold demo_client. intros Hc Hm.
  destruct (connect_session (demo_script, []) demo_surface (Some 1) None) as [[[[]|e] [d|]]|] eqn:E; try discriminate Hc.
  injection Hc as ->. vm_compute in E. injection E as <-. vm_compute in Hm. injection Hm as <-. split; reflexivity.
Qed.

Lemma pump_exact_witness :
  exists c c', hreach 0 c /\ demo_client = Some c /\
    pump 9 c = Some (Ok (Some 5), c') /\ alive c' = false /\ exit_status c' = Some 0.
Proof.
  destruct demo_client_reach as (c & Hc & Hr & Hd & Hrx & _ & Hin).
  destruct (pump_exact script_ready 0 c demo_host_frames demo_host_wire (cut3 7 (concat demo_host_wire)) 9 Hr Hd
              (demo_chunks_ready _ Hrx) demo_frames_ok)
    as (m & c' & Hm & Hp & _ & _ & Ha & He & _).
  - repeat constructor.
  - reflexivity.
  - exact demo_wire_bytes.
  - repeat constructor.
  - vm_compute. lia.
  - rewrite Hin. vm_compute. intros E; discriminate E.
  - destruct (demo_mirror c m Hc Hm) as [H1 H2]. exists c, c'. rewrite Ha, He. split_and!; assumption.
Defined.

Lemma host_client_safe_witness :
  exists c, demo_client = Some c /\ hreach 0 c /\ hop_ok 0 (HPump 9) c /\ host_run (HPump 9) c <> None /\
    outstanding_credit c <= CREDIT_WINDOW + len (read_in (trace_of c)).
Proof.
  destruct demo_client_reach as (c & Hc & Hr & _ & _ & _ & Hin). exists c. split; [exact Hc|split; [exact Hr|]].
  assert (Ho : hop_ok 0 (HPump 9) c).
  { split; [rewrite Hin; vm_compute; intros E; discriminate E|exact I]. }
  split; [exact Ho|].
  destruct (host_client_safe demo_script demo_surface (Some 1) None 0 c (HPump 9)) as (_ & H2 & _ & H4 & _);
    [by repeat split|exact Hr|exact Ho|].
  split; [exact H2|exact H4].
Defined.
