(* ===== verification/Connect.v ===== *)
(** How the host connects: the connections of crates/rill-host/src/lib.rs
    ([connect_session], [cold_host_identity], [cold_workspace_id]), nav.rs and
    content.rs, and the texts of their errors.

    The calls on a blocking socket are the interface [HostNet]; a socket is
    closed when the function that opened it ends. *)
From S2P Require Import Prelude Look Effect VtTypes Utf8 Parser Screen Engine Attach Ring Content Session Kernel Socket Text Path SocketPath Cold HostClient.

Local Open Scope Z_scope.

(** [N] is the network; errors are their codes.  [net_read_exact] and
    [net_read_to_end] (of at most so many bytes) are those of [std::io]. *)
Class HostNet (N K : Type) := net_dial : Path -> N -> result Z K * N.

Class BlockSock (K : Type) := {
  net_read_timeout : Z -> K -> result Z () * K;
  net_write_timeout : Z -> K -> result Z () * K;
  net_nonblocking : bool -> K -> result Z () * K;
  net_read_exact : Z -> K -> result Z (list Z) * K;
  net_read_to_end : Z -> K -> result Z (list Z) * K;
  net_write_all : list Z -> K -> result Z () * K;
}.

(** [EAGAIN], of a read that timed out. *)
Definition EAGAIN : Z := 35.
Definition io_code (e : IoError) : Z := match e with WouldBlock => EAGAIN | IoCode c => c end.

(** ** [String::from_utf8_lossy] *)

Definition REPLACEMENT : Z := 0xfffd.

(** What may follow a lead byte: the bounds of the second byte, and how many
    bytes follow that one. *)
Definition utf8_lead (b : Z) : option (Z * Z * nat) :=
  if within 0xc2 0xdf b then Some (0x80, 0xbf, 0%nat)
  else if b =? 0xe0 then Some (0xa0, 0xbf, 1%nat)
  else if within 0xe1 0xec b || within 0xee 0xef b then Some (0x80, 0xbf, 1%nat)
  else if b =? 0xed then Some (0x80, 0x9f, 1%nat)
  else if b =? 0xf0 then Some (0x90, 0xbf, 2%nat)
  else if within 0xf1 0xf3 b then Some (0x80, 0xbf, 2%nat)
  else if b =? 0xf4 then Some (0x80, 0x8f, 2%nat)
  else None.

(** The bytes of the longest prefix that could begin a character, and whether it
    is one. *)
Fixpoint utf8_tail (n : nat) (bs : list Z) : nat * bool :=
  match n, bs with
  | O, _ => (O, true)
  | S n, b :: bs => if within 0x80 0xbf b then let '(k, ok) := utf8_tail n bs in (S k, ok) else (O, false)
  | S _, [] => (O, false)
  end.
Definition utf8_chunk (bs : list Z) : nat * bool :=
  match bs with
  | [] => (O, false)
  | b :: rest =>
      if within 0 0x7f b then (1%nat, true)
      else match utf8_lead b, rest with
           | Some (lo, hi, n), c :: rest =>
               if within lo hi c then let '(k, ok) := utf8_tail n rest in (S (S k), ok) else (1%nat, false)
           | _, _ => (1%nat, false)
           end
  end.

(** The inner match never fails: a whole chunk is one character. *)
Fixpoint lossy (fuel : nat) (bs : list Z) : list Z :=
  match fuel, bs with
  | O, _ | _, [] => []
  | S fuel, bs =>
      let '(k, ok) := utf8_chunk bs in
      (match from_utf8 (take k bs) with Some cs => if ok : bool then cs else [REPLACEMENT] | None => [REPLACEMENT] end)
      ++ lossy fuel (drop k bs)
  end.
Definition from_utf8_lossy (bs : list Z) : list Z := lossy (length bs) bs.

Section Connect.
Context {N K : Type} `{!SockOps K, !BlockSock K, !HostNet N K}.
Abbreviation NET := (ST HostError N).

Definition dial (p : Path) : NET K := fun n =>
  let '(r, n) := net_dial p n in Some (match r with Ok k => Ok k | Err e => Err (HIo e) end, n).

(** [?] on a call of a socket. *)
Definition on_sock {A} (f : K -> result Z A * K) (k : K) : NET (A * K) := fun n =>
  let '(r, k) := f k in Some (match r with Ok a => Ok (a, k) | Err e => Err (HIo e) end, n).
Definition plain_read (n : Z) (k : K) : result Z (list Z) * K :=
  let '(r, k) := sock_read n k in (match r with Ok bs => Ok bs | Err e => Err (io_code e) end, k).

(** ** Connecting *)

Definition cold_host_identity (attach : Path) : NET (list Z) :=
  k ← dial (cold_identity_socket_path attach);
  '(_, k) ← on_sock (net_read_timeout 1) k;
  '(identity, _) ← on_sock (net_read_exact 6) k;
  if bool_decide (identity = lit "local" ++ [0x0a]) then mret (lit "local") else fail InvalidHostIdentity.

(** Every error is [None] here. *)
Definition cold_workspace_id (attach : Path) : NET (option Z) := fun n =>
  '(r, n) ← (k ← dial (cold_nav_socket_path attach);
             '(_, k) ← on_sock (net_read_timeout 1) k;
             '(bs, _) ← on_sock (plain_read 512) k;
             mret (from_utf8 bs ≫= fun text => nav_workspace <$> parse_nav_line text) : NET (option Z)) n;
  Some (Ok (match r with Ok o => o | Err _ => None end), n).

(** The fields of [Client] that only connecting sets. *)
Record Handle := mkHandle { h_client : Client K; host_identity : list Z; attach_path : Path }.

(** The rest, once the socket is there: [connect_session] of [HostClient]. *)
Definition attach_session (socket : Path) (identity : list Z) (sf : HostSurface) (ws session_id : option Z) (k : K)
  : option (result HostError Handle) :=
  match connect_session k sf ws session_id with
  | Some (Ok _, Some c) => Some (Ok (mkHandle c identity socket))
  | Some (Ok _, None) => Some (Err HDead)
  | Some (Err e, _) => Some (Err e)
  | None => None
  end.

Definition connect_handle (socket : Path) (sf : HostSurface) (session_id : option Z) : NET Handle :=
  identity ← cold_host_identity socket;
  ws ← cold_workspace_id socket;
  k ← dial socket;
  '(_, k) ← on_sock (net_nonblocking true) k;
  r ← of_option (attach_session socket identity sf ws session_id k);
  of_result r.

(** ** Navigation *)

Definition nav_line_read (k : K) : NET (list Z * K) :=
  '(bs, k) ← on_sock (plain_read (Z.of_nat NAV_READ)) k;
  if len bs =? 0 then fail HDead else mret (from_utf8_lossy bs, k).

Definition parsed_nav (line : list Z) : NET NavSnapshot :=
  of_result (match parse_nav_line line with Some s => Ok s | None => Err InvalidHostIdentity end).

Definition nav_snapshot (attach : Path) : NET NavSnapshot :=
  k ← dial (cold_nav_socket_path attach);
  '(_, k) ← on_sock (net_read_timeout 2) k;
  '(line, _) ← nav_line_read k;
  parsed_nav line.

Definition nav_new_tab (attach : Path) : NET NavSnapshot :=
  k ← dial (cold_nav_socket_path attach);
  '(_, k) ← on_sock (net_read_timeout 2) k;
  '(_, k) ← on_sock (net_write_timeout 2) k;
  '(first, k) ← nav_line_read k;
  _ ← parsed_nav first;
  '(_, k) ← on_sock (net_write_all (lit "NEW_TAB" ++ [0x0a])) k;
  '(second, _) ← nav_line_read k;
  parsed_nav (default (trim second) (List.find (has_sub (lit "tabs=")) (lines second))).

(** ** Content *)

(** What carries a request: at most one byte more than the limit is read. *)
Definition content_exchange (attach : Path) (request : list Z) : NET (list Z) :=
  k ← dial (cold_content_socket_path attach);
  '(_, k) ← on_sock (net_read_timeout 2) k;
  '(_, k) ← on_sock (net_write_timeout 2) k;
  '(_, k) ← on_sock (net_write_all request) k;
  '(response, _) ← on_sock (net_read_to_end (RESPONSE_MAX + 1)) k;
  mret response.
End Connect.
Arguments mkHandle {K}. Arguments h_client {K}. Arguments host_identity {K}. Arguments attach_path {K}. Arguments Handle : clear implicits.

#[export] Instance handle_eta {K} : Eta (Handle K) := fun h => mkHandle (h_client h) (host_identity h) (attach_path h).

(** ** The texts of errors *)

(** As bytes; the text of an [std::io::Error] is the system's. *)
Section Display.
Context (strerror : Z -> list Z).

Definition show_attach_error (e : AttachError) : list Z :=
  match e with
  | UnknownTag t => lit "unknown attach tag " ++ to_string t
  | UnknownRefuse r => lit "unknown refuse reason " ++ to_string r
  | Attach.Truncated => lit "truncated attach frame"
  | TooLarge n => lit "attach frame too large (" ++ to_string n ++ lit " bytes)"
  | AttachIo c => lit "attach io: " ++ strerror c
  end.

Definition show_vt_error (e : VtError) : list Z :=
  match e with
  | Vt s => lit "vt: " ++ lit s
  | Config s => lit "host-surface: " ++ lit s
  | VtTypes.Io c => strerror c
  end.

Definition show_host_error (e : HostError) : list Z :=
  match e with
  | HIo c => lit "host io: " ++ strerror c
  | HAttach e => show_attach_error e
  | HChip e => show_vt_error e
  | HDead => lit "pane is dead"
  | HRefused => lit "attach refused"
  | InvalidHostIdentity => lit "invalid cold kernel host identity"
  | InvalidContent => lit "invalid cold content response"
  end.

(** The errors of [load_surface] are [VtError]s; the text of one the [toml] crate
    gave is characters. *)
Definition show_surface_error (file_error : list Z) (e : SurfaceError) : list Z :=
  match e with
  | Look.Io => file_error
  | Look.Config message => lit "host-surface: " ++ path_of message
  end.
End Display.
