(* ===== verification/Ffi.v ===== *)
(** The C interface of the host, crates/rill-host/src/ffi.rs.

    A handle is the address of a boxed client, 0 is NULL; the library is the
    clients that are live, the last error, the thread-local buffers and the
    network.  [None] is what the code may not do: follow a pointer that is not a
    live handle, read past a buffer, or panic.

    A pointer to bytes is the bytes readable there; a pointer to write through is
    whether it is not NULL, and what is written is part of the answer.  A C string
    that is returned is its bytes, [None] for NULL. *)
From Stdlib Require Import SpecFloat.
From S2P Require Import Prelude Look Effect VtTypes Utf8 Parser Screen Engine Attach Ring Content Session Kernel Socket Viewport Text Float Path SocketPath Input Cold HostClient Connect.

Local Open Scope Z_scope.

Definition NULL : Z := 0.
Definition CString : Type := list Z.

(** [CString::new(text).ok()]: a text with a NUL in it has no C string. *)
Definition c_string (bs : list Z) : option CString := if existsb (Z.eqb 0) bs then None else Some bs.

Record Lib (N K : Type) := mkLib {
  clients : gmap Z (Handle K);
  last_err : option CString;
  text_buf : option CString;
  font_buf : option CString;
  identity_buf : option CString;
  fallback_buf : option CString;
  network : N;
}.
Arguments mkLib {N K}. Arguments clients {N K}. Arguments last_err {N K}. Arguments text_buf {N K}.
Arguments font_buf {N K}. Arguments identity_buf {N K}. Arguments fallback_buf {N K}. Arguments network {N K}.

#[export] Instance lib_eta {N K} : Eta (Lib N K) := fun l =>
  mkLib (clients l) (last_err l) (text_buf l) (font_buf l) (identity_buf l) (fallback_buf l) (network l).

(** [x as i32], [x as i64]. *)
Definition as_int (w x : Z) : Z := (x + 2 ^ (w - 1)) mod 2 ^ w - 2 ^ (w - 1).
Definition i32_min : Z := - 2 ^ 31.

Definition f32_13 : spec_float := decimal_f32 false 13 0.

Record CPodGrid := mkCGrid {
  cg_cols : Z; cg_rows : Z; cg_cursor_col : Z; cg_cursor_row : Z; cg_cursor_visible : Z;
  cg_full_damage : Z; cg_damage_row0 : Z; cg_damage_row1 : Z; cg_grapheme_truncated : Z;
  cg_cells : list PodCell; cg_ncells : Z;
}.

Section Ffi.
Context {N K : Type} `{!SockOps K, !BlockSock K, !HostNet N K}.
Context (M : Look.Machine) (from_toml : list Z -> result (list Z) RawSurface) (look_fuel : nat).
Context (env : Env) (strerror : Z -> list Z) (file_error : list Z).
Abbreviation L := (Lib N K).
Abbreviation C := (Client K).
Abbreviation FF A := (L -> option (A * L)).

(** ** The pieces *)

Definition set_err (msg : list Z) (l : L) : L := l <| last_err := c_string msg |>.
Definition set_host_err (e : HostError) : L -> L := set_err (show_host_error strerror e).

Definition rill_client_last_error (l : L) : option CString := last_err l.

(** [&*client] *)
Definition reading {A} (h : Z) (null : A) (f : Handle K -> A) : FF A := fun l =>
  if h =? NULL then Some (null, l) else hd ← clients l !! h; Some (f hd, l).

Definition put_client (h : Z) (hd : Handle K) (c : C) (l : L) : L :=
  l <| clients := <[h := hd <| h_client := c |>]> (clients l) |>.

(** [(&mut *client).m()], [ok] for [Ok] and the error recorded otherwise. *)
Definition calling {A B} (h : Z) (null : B) (m : ST HostError C A) (ok : A -> C -> B) (failed : B) : FF B := fun l =>
  if h =? NULL then Some (null, l)
  else
    hd ← clients l !! h;
    '(r, c) ← m (h_client hd);
    let l := put_client h hd c l in
    Some (match r with Ok a => (ok a c, l) | Err e => (failed, set_host_err e l) end).

(** The same for a method that cannot fail, or whose error is dropped. *)
Definition updating {B} (h : Z) (null : B) (m : C -> option (B * C)) : FF B := fun l =>
  if h =? NULL then Some (null, l)
  else
    hd ← clients l !! h;
    '(b, c) ← m (h_client hd);
    Some (b, put_client h hd c l).

Definition socket_arg (socket : option CString) : Path :=
  match socket with None => host_default_socket env | Some s => path_of (from_utf8_lossy s) end.

(** [std::slice::from_raw_parts]: [None] where fewer bytes are readable. *)
Definition from_raw_parts (bytes : option (list Z)) (n : Z) : option (list Z) :=
  bs ← bytes; if n <=? len bs then Some (take (Z.to_nat n) bs) else None.

(** [if len == 0 { &[] } else { ... }] *)
Definition slice_arg (bytes : option (list Z)) (n : Z) : option (list Z) :=
  if n =? 0 then Some [] else from_raw_parts bytes n.

Definition is_null {A} (p : option A) : bool := match p with None => true | Some _ => false end.

(** A call over the network, its error recorded. *)
Definition networked {A B} (m : ST HostError N A) (ok : A -> B) (failed : B) : FF B := fun l =>
  '(r, n) ← m (network l);
  let l := l <| network := n |> in
  Some (match r with Ok a => (ok a, l) | Err e => (failed, set_host_err e l) end).

(** ** Connecting *)

(** [addr] is where the new client is put. *)
Definition connect_at (addr : Z) (socket : option CString) (session_id : option Z) : FF Z := fun l =>
  match load_surface M from_toml look_fuel with
  | Err _ => None
  | Ok (Err e) => Some (NULL, set_err (show_surface_error file_error e) l)
  | Ok (Ok sf) =>
      '(r, n) ← connect_handle (socket_arg socket) sf session_id (network l);
      let l := l <| network := n |> in
      Some (match r with
            | Ok hd => (addr, l <| clients := <[addr := hd]> (clients l) |>)
            | Err e => (NULL, set_host_err e l)
            end)
  end.
Definition rill_client_connect (addr : Z) (socket : option CString) : FF Z := connect_at addr socket None.
Definition rill_client_connect_leaf (addr : Z) (socket : option CString) (session_id : Z) : FF Z :=
  connect_at addr socket (Some session_id).

Definition rill_client_free (h : Z) : FF () := fun l =>
  if h =? NULL then Some (tt, l)
  else _ ← clients l !! h; Some (tt, l <| clients := delete h (clients l) |>).

(** ** Content *)

(** The exchange is over the network: its answer and what it does there. *)
Definition rill_client_content_submit (h : Z) (bytes : option (list Z)) (n : Z) : FF Z := fun l =>
  if (h =? NULL) || (is_null bytes && negb (n =? 0)) then Some (-1, l)
  else
    input ← slice_arg bytes n;
    hd ← clients l !! h;
    let exchange := content_exchange (attach_path hd) in
    let answer q := match exchange q (network l) with Some (r, _) => r | None => Err HDead end in
    let after := match content_request (execution_id (h_client hd)) input with
                 | Ok q => match exchange q (network l) with Some (_, n) => n | None => network l end
                 | Err _ => network l
                 end in
    '(b, l) ← calling h (-1) (submit_content answer input) (fun _ c => as_int 32 (len (content_items c))) (-1) l;
    Some (b, l <| network := after |>).

Definition rill_client_content_count (h : Z) : FF Z :=
  reading h 0 (fun hd => len (content_items (h_client hd)) mod 2 ^ 32).

Definition content_item_at (hd : Handle K) (index : Z) : option ContentItem :=
  content_items (h_client hd) !! Z.to_nat index.

Definition rill_client_content_kind (h index : Z) : FF Z :=
  reading h 0 (fun hd => match content_item_at hd index with Some item => it_kind item | None => 0 end).

(** Through one of the thread-local buffers. *)
Definition buffered (h : Z) (f : Handle K -> option (list Z)) (put : option CString -> L -> L) : FF (option CString) := fun l =>
  if h =? NULL then Some (None, l)
  else
    hd ← clients l !! h;
    Some (match f hd with
          | Some text => (c_string text, put (c_string text) l)
          | None => (None, l)
          end).

Definition rill_client_content_text (h index : Z) : FF (option CString) :=
  buffered h (fun hd => it_text <$> content_item_at hd index) (fun s l => l <| text_buf := s |>).

(** ** Tabs *)

(** The count, and the new leaf if one is written to [leaf_out]. *)
Definition rill_nav_new_tab (socket : option CString) (leaf_out : bool) : FF (Z * option Z) :=
  networked (nav_new_tab (socket_arg socket))
    (fun snap => (as_int 32 (len (nav_tabs snap)), if leaf_out then last (nav_leaves snap) else None)) (-1, None).

Definition rill_nav_tab_count (socket : option CString) : FF Z :=
  networked (nav_snapshot (socket_arg socket)) (fun snap => as_int 32 (len (nav_tabs snap))) (-1).

(** ** Input *)

(** [as_raw_fd] of the socket. *)
Definition rill_client_socket_fd (fd : K -> Z) (h : Z) : FF Z := reading h (-1) (fun hd => fd (stream (h_client hd))).

Definition rill_client_send_input (h : Z) (bytes : option (list Z)) (n : Z) : FF Z := fun l =>
  if (h =? NULL) || is_null bytes then Some (-1, l)
  else input ← from_raw_parts bytes n; calling h (-1) (send_input input) (fun _ _ => 0) (-1) l.

(** How many bytes, and those. *)
Definition rill_client_encode_arrow (h letter : Z) (out : bool) : FF (Z * list Z) := fun l =>
  if (h =? NULL) || negb out then Some ((-1, []), l)
  else hd ← clients l !! h; Some ((3, take 3 (client_encode_arrow letter (h_client hd))), l).

Definition rill_encode_edit (op : Z) (out : bool) : Z * list Z :=
  if negb out then (-1, [])
  else let seq := encode_edit op in if len seq =? 0 then (0, []) else (as_int 32 (len seq), seq).

Definition rill_client_send_pointer (h kind button col row : Z) : FF Z :=
  calling h (-1) (send_pointer kind button col row) (fun sent _ => if sent : bool then 1 else 0) (-1).

Definition rill_client_paste (h : Z) (bytes : option (list Z)) (n : Z) : FF Z := fun l =>
  if h =? NULL then Some (-1, l)
  else if (0 <? n) && is_null bytes then Some (-1, l)
  else body ← slice_arg bytes n; calling h (-1) (paste body) (fun _ _ => 0) (-1) l.

Definition rill_client_resize (h cols rows px_w px_h : Z) : FF Z :=
  calling h (-1) (client_resize cols rows px_w px_h) (fun _ _ => 0) (-1).

(** [None] in the answer: still reading after so many reads. *)
Definition rill_client_pump (fuel : nat) (h : Z) : FF (option Z) :=
  calling h (Some (-1)) (pump fuel) (fun o _ => as_int 64 <$> o) (Some (-1)).

(** ** What the client says *)

Definition of_bool (b : bool) : Z := if b then 1 else 0.

Definition rill_client_alive (h : Z) : FF Z := reading h 0 (fun hd => of_bool (alive (h_client hd))).
Definition rill_client_exit_status (h : Z) : FF Z := reading h i32_min (fun hd => default i32_min (exit_status (h_client hd))).

Definition surface_of (hd : Handle K) : HostSurface := surface (h_client hd).

Definition rill_client_font_family (h : Z) : FF (option CString) :=
  buffered h (fun hd => Some (path_of (sf_font_family (surface_of hd)))) (fun s l => l <| font_buf := s |>).
Definition rill_client_host_identity (h : Z) : FF (option CString) :=
  buffered h (fun hd => Some (path_of (host_identity hd))) (fun s l => l <| identity_buf := s |>).
Definition rill_client_font_size (h : Z) : FF spec_float := reading h f32_13 (fun hd => sf_font_size (surface_of hd)).
Definition rill_client_padding_x (h : Z) : FF spec_float := reading h f32_zero (fun hd => sf_padding_x (surface_of hd)).
Definition rill_client_padding_y (h : Z) : FF spec_float := reading h f32_zero (fun hd => sf_padding_y (surface_of hd)).
Definition rill_client_background_opacity (h : Z) : FF spec_float :=
  reading h f32_one (fun hd => sf_background_opacity (surface_of hd)).
Definition rill_client_macos_option_as_alt (h : Z) : FF Z := reading h 0 (fun hd => of_bool (sf_macos_option_as_alt (surface_of hd))).
Definition rill_client_background_rgba (h : Z) : FF Z := reading h 0x121212ff (fun hd => background_rgba (h_client hd)).
Definition rill_client_foreground_rgba (h : Z) : FF Z := reading h 0xccccccff (fun hd => foreground_rgba (h_client hd)).
Definition rill_client_cursor_rgba (h : Z) : FF Z := reading h 0xd9d9d9ff (fun hd => cursor_rgba (h_client hd)).
Definition rill_chrome_surface_rgba (background : Z) : Z := chrome_surface_rgba background.
Definition rill_client_font_fallback (h index : Z) : FF (option CString) :=
  buffered h (fun hd => path_of <$> sf_font_fallbacks (surface_of hd) !! Z.to_nat index) (fun s l => l <| fallback_buf := s |>).

(** ** The view *)

Definition c_grid (g : PodGrid) : CPodGrid :=
  mkCGrid (pg_cols g) (pg_rows g) (pg_cursor_col g) (pg_cursor_row g) (of_bool (pg_cursor_visible g))
    (of_bool (pg_full_damage g)) (pg_damage_row0 g) (pg_damage_row1 g) (pg_grapheme_truncated g)
    (pg_cells g) (len (pg_cells g)).

Definition rill_client_snapshot (h : Z) (out : bool) : FF (Z * option CPodGrid) := fun l =>
  if (h =? NULL) || negb out then Some ((-1, None), l)
  else calling h (-1, None) client_snapshot (fun g _ => (0, Some (c_grid g))) (-1, None) l.

(** [.ok().unwrap_or(0)] *)
Definition or_zero (m : ST HostError C Z) (c : C) : option (Z * C) :=
  '(r, c) ← m c; Some (match r with Ok z => z | Err _ => 0 end, c).

Definition rill_client_cell_codepoint (h col row : Z) : FF Z := updating h 0 (or_zero (cell_codepoint col row)).
Definition rill_client_live_codepoint (h col row : Z) : FF Z := updating h 0 (or_zero (live_codepoint col row)).

Definition rill_client_cursor (h : Z) (col row : bool) : FF (Z * option (Z * Z)) := fun l =>
  if (h =? NULL) || negb col || negb row then Some ((-1, None), l)
  else calling h (-1, None) cursor_cell (fun p _ => (0, Some p)) (-1, None) l.

Definition rill_client_begin_warm_path_audit (h : Z) : FF () := updating h tt (fun c => Some (tt, begin_warm_path_audit c)).
Definition rill_client_end_warm_path_audit (h : Z) : FF Z := updating h u32_max (fun c => Some (end_warm_path_audit c)).
Definition rill_client_scroll_lines (h delta : Z) : FF () := updating h tt (fun c => Some (tt, scroll_lines delta c)).
Definition rill_client_follow_live (h : Z) : FF () := updating h tt (fun c => Some (tt, follow_live c)).
Definition rill_client_scroll_offset (h : Z) : FF Z := reading h 0 (fun hd => scroll_offset (h_client hd)).
(** [u32::try_from(len).unwrap_or(u32::MAX)] *)
Definition history_row_count (c : C) : Z := Z.min (len (history_rows c)) u32_max.
Definition rill_client_history_rows (h : Z) : FF Z := reading h 0 (fun hd => history_row_count (h_client hd)).
Definition rill_client_workspace_id (h : Z) : FF Z := reading h 0 (fun hd => default 0 (workspace_id (h_client hd))).
Definition rill_client_bytes_sent (h : Z) : FF Z := reading h 0 (fun hd => bytes_sent (h_client hd)).
End Ffi.
