(* ===== verification/FfiFacts.v ===== *)
(** The C interface: with live handles no call panics or reads where it may not,
    and every failure of a call can be read with [rill_client_last_error]. *)
From Stdlib Require Import SpecFloat.
From S2P Require Import Prelude Look Effect VtTypes Utf8 Parser Screen ScreenFacts Engine EngineFacts Attach Ring Content Session Kernel Socket Viewport Text Float Path SocketPath Input Cold ColdFacts HostClient HostClientFacts Connect Ffi.

Local Open Scope Z_scope.

(** ** Every call *)

Inductive FOp : Type :=
| FConnect (addr : Z) (socket : option CString)
| FConnectLeaf (addr : Z) (socket : option CString) (session_id : Z)
| FFree (h : Z)
| FSubmit (h : Z) (bytes : option (list Z)) (n : Z)
| FContentCount (h : Z) | FContentKind (h index : Z) | FContentText (h index : Z)
| FNewTab (socket : option CString) (leaf_out : bool)
| FTabCount (socket : option CString)
| FSocketFd (h : Z)
| FSendInput (h : Z) (bytes : option (list Z)) (n : Z)
| FEncodeArrow (h letter : Z) (out : bool)
| FSendPointer (h kind button col row : Z)
| FPaste (h : Z) (bytes : option (list Z)) (n : Z)
| FResize (h cols rows px_w px_h : Z)
| FPump (fuel : nat) (h : Z)
| FAlive (h : Z) | FExitStatus (h : Z)
| FFontFamily (h : Z) | FHostIdentity (h : Z) | FFontSize (h : Z) | FPaddingX (h : Z) | FPaddingY (h : Z)
| FOpacity (h : Z) | FOptionAsAlt (h : Z) | FBackground (h : Z) | FForeground (h : Z) | FCursorColor (h : Z)
| FFontFallback (h index : Z)
| FSnapshot (h : Z) (out : bool)
| FCell (h col row : Z) | FLive (h col row : Z)
| FCursor (h : Z) (col row : bool)
| FBegin (h : Z) | FEnd (h : Z) | FScroll (h delta : Z) | FFollow (h : Z)
| FOffset (h : Z) | FHistory (h : Z) | FWorkspace (h : Z) | FSent (h : Z).

Inductive Answer : Type :=
| AVoid
| AInt (z : Z)
| AText (s : option CString)
| AFloat (f : spec_float)
| APumped (o : option Z)
| ABytes (n : Z) (bs : list Z)
| ATabs (n : Z) (leaf : option Z)
| AGrid (rc : Z) (g : option CPodGrid)
| ACell (rc : Z) (p : option (Z * Z)).

Section Calls.
Context {N K : Type} `{!SockOps K, !BlockSock K, !HostNet N K}.
Context (M : Look.Machine) (from_toml : list Z -> result (list Z) RawSurface) (look_fuel : nat).
Context (env : Env) (strerror : Z -> list Z) (file_error : list Z) (fd_of : K -> Z).

Definition replied {A} (f : A -> Answer) (r : option (A * Lib N K)) : option (Answer * Lib N K) :=
  '(a, l) ← r; Some (f a, l).

Definition ffi_run (o : FOp) (l : Lib N K) : option (Answer * Lib N K) :=
  match o with
  | FConnect addr s => replied AInt (rill_client_connect M from_toml look_fuel env strerror file_error addr s l)
  | FConnectLeaf addr s sid => replied AInt (rill_client_connect_leaf M from_toml look_fuel env strerror file_error addr s sid l)
  | FFree h => replied (fun _ => AVoid) (rill_client_free h l)
  | FSubmit h bs n => replied AInt (rill_client_content_submit strerror h bs n l)
  | FContentCount h => replied AInt (rill_client_content_count h l)
  | FContentKind h i => replied AInt (rill_client_content_kind h i l)
  | FContentText h i => replied AText (rill_client_content_text h i l)
  | FNewTab s out => replied (fun '(n, leaf) => ATabs n leaf) (rill_nav_new_tab env strerror s out l)
  | FTabCount s => replied AInt (rill_nav_tab_count env strerror s l)
  | FSocketFd h => replied AInt (rill_client_socket_fd fd_of h l)
  | FSendInput h bs n => replied AInt (rill_client_send_input strerror h bs n l)
  | FEncodeArrow h letter out => replied (fun '(n, bs) => ABytes n bs) (rill_client_encode_arrow h letter out l)
  | FSendPointer h kind button col row => replied AInt (rill_client_send_pointer strerror h kind button col row l)
  | FPaste h bs n => replied AInt (rill_client_paste strerror h bs n l)
  | FResize h cols rows w ht => replied AInt (rill_client_resize strerror h cols rows w ht l)
  | FPump fuel h => replied APumped (rill_client_pump strerror fuel h l)
  | FAlive h => replied AInt (rill_client_alive h l)
  | FExitStatus h => replied AInt (rill_client_exit_status h l)
  | FFontFamily h => replied AText (rill_client_font_family h l)
  | FHostIdentity h => replied AText (rill_client_host_identity h l)
  | FFontSize h => replied AFloat (rill_client_font_size h l)
  | FPaddingX h => replied AFloat (rill_client_padding_x h l)
  | FPaddingY h => replied AFloat (rill_client_padding_y h l)
  | FOpacity h => replied AFloat (rill_client_background_opacity h l)
  | FOptionAsAlt h => replied AInt (rill_client_macos_option_as_alt h l)
  | FBackground h => replied AInt (rill_client_background_rgba h l)
  | FForeground h => replied AInt (rill_client_foreground_rgba h l)
  | FCursorColor h => replied AInt (rill_client_cursor_rgba h l)
  | FFontFallback h i => replied AText (rill_client_font_fallback h i l)
  | FSnapshot h out => replied (fun '(rc, g) => AGrid rc g) (rill_client_snapshot strerror h out l)
  | FCell h col row => replied AInt (rill_client_cell_codepoint h col row l)
  | FLive h col row => replied AInt (rill_client_live_codepoint h col row l)
  | FCursor h col row => replied (fun '(rc, p) => ACell rc p) (rill_client_cursor strerror h col row l)
  | FBegin h => replied (fun _ => AVoid) (rill_client_begin_warm_path_audit h l)
  | FEnd h => replied AInt (rill_client_end_warm_path_audit h l)
  | FScroll h delta => replied (fun _ => AVoid) (rill_client_scroll_lines h delta l)
  | FFollow h => replied (fun _ => AVoid) (rill_client_follow_live h l)
  | FOffset h => replied AInt (rill_client_scroll_offset h l)
  | FHistory h => replied AInt (rill_client_history_rows h l)
  | FWorkspace h => replied AInt (rill_client_workspace_id h l)
  | FSent h => replied AInt (rill_client_bytes_sent h l)
  end.

(** The handle a call is on. *)
Definition on (o : FOp) : option Z :=
  match o with
  | FConnect _ _ | FConnectLeaf _ _ _ | FNewTab _ _ | FTabCount _ => None
  | FFree h | FSubmit h _ _ | FContentCount h | FContentKind h _ | FContentText h _ | FSocketFd h | FSendInput h _ _
  | FEncodeArrow h _ _ | FSendPointer h _ _ _ _ | FPaste h _ _ | FResize h _ _ _ _ | FPump _ h | FAlive h
  | FExitStatus h | FFontFamily h | FHostIdentity h | FFontSize h | FPaddingX h | FPaddingY h | FOpacity h
  | FOptionAsAlt h | FBackground h | FForeground h | FCursorColor h | FFontFallback h _ | FSnapshot h _
  | FCell h _ _ | FLive h _ _ | FCursor h _ _ | FBegin h | FEnd h | FScroll h _ | FFollow h | FOffset h
  | FHistory h | FWorkspace h | FSent h => Some h
  end.
End Calls.

(** ** Sizes *)

(** A navigation line is short, so its tabs are few. *)
Lemma from_utf8_length (n : nat) : forall bs cs, (length bs <= n)%nat -> from_utf8 bs = Some cs -> (length cs <= length bs)%nat.
Proof.
  induction n as [|n IH]; intros bs cs Hn.
  - destruct bs; [|cbn in Hn; lia]. by intros [= <-].
  - assert (Hc : forall x r (o : option (list Z)), (length r <= n)%nat -> o = from_utf8 r -> cons x <$> o = Some cs -> (length cs <= S (length r))%nat).
    { intros x r o Hr -> H. destruct (from_utf8 r) as [ds|] eqn:E; [|done]. injection H as <-. cbn. apply IH in E; [lia|done]. }
    destruct bs as [|b0 r0]; [by intros [= <-]|]. cbn [length] in Hn. cbn [from_utf8].
    case_if; [intros H; apply (Hc _ r0) in H; [cbn; lia|lia|done]|]. destruct r0 as [|b1 r1]; [done|]. cbn [length] in Hn.
    case_if; [intros H; apply (Hc _ r1) in H; [cbn; lia|lia|done]|]. destruct r1 as [|b2 r2]; [done|]. cbn [length] in Hn.
    case_if; [intros H; apply (Hc _ r2) in H; [cbn; lia|lia|done]|]. destruct r2 as [|b3 r3]; [done|]. cbn [length] in Hn.
    case_if; [intros H; apply (Hc _ r3) in H; [cbn; lia|lia|done]|done].
Qed.

Lemma utf8_chunk_pos b bs : (1 <= fst (utf8_chunk (b :: bs)))%nat.
Proof. cbn. repeat case_match; simplify_eq; cbn; lia. Qed.

Lemma lossy_length fuel bs : (length (lossy fuel bs) <= length bs)%nat.
Proof.
  revert bs. induction fuel as [|fuel IH]; intros bs; [cbn; lia|]. destruct bs as [|b bs]; [cbn; lia|].
  cbn [lossy]. pose proof (utf8_chunk_pos b bs) as Hk. destruct (utf8_chunk (b :: bs)) as [k ok]. cbn [fst] in Hk.
  rewrite length_app. specialize (IH (drop k (b :: bs))). rewrite length_drop in IH.
  assert (Ht : (length (take k (b :: bs)) = k `min` length (b :: bs))%nat) by apply length_take.
  destruct (from_utf8 (take k (b :: bs))) as [cs|] eqn:E.
  - eapply from_utf8_length in E; [|done]. destruct ok; cbn [length] in *; lia.
  - cbn [length] in *. lia.
Qed.

Lemma trim_start_length s : (length (trim_start s) <= length s)%nat.
Proof. induction s as [|c s IH]; cbn; [lia|]. case_if; cbn; lia. Qed.
Lemma trim_length s : (length (trim s) <= length s)%nat.
Proof.
  unfold trim, trim_end. rewrite length_reverse. etrans; [apply trim_start_length|]. rewrite length_reverse. apply trim_start_length.
Qed.

Definition shorter_than (n : nat) (w : list Z) : Prop := (length w <= n)%nat.

Lemma words_short w s : Forall (shorter_than (length w + length s)) (words_from w s).
Proof.
  revert w. induction s as [|x s IH]; intros w; cbn [words_from].
  - case_bool_decide; repeat constructor. unfold shorter_than. lia.
  - case_if.
    + apply Forall_app. split; [case_bool_decide; repeat constructor; unfold shorter_than; lia|].
      eapply Forall_impl; [apply IH|]. unfold shorter_than. cbn. lia.
    + eapply Forall_impl; [apply IH|]. unfold shorter_than. rewrite length_app. cbn. lia.
Qed.

Lemma split_on_short c s : Forall (shorter_than (length s)) (split_on c s) /\ (length (split_on c s) <= S (length s))%nat.
Proof.
  induction s as [|x s [IHf IHl]]; cbn [split_on length].
  - split; [repeat constructor|lia].
  - assert (Hup : Forall (shorter_than (S (length s))) (split_on c s)) by (eapply Forall_impl; [exact IHf|]; unfold shorter_than; lia).
    case_if; [split; [apply Forall_cons; split; [unfold shorter_than; cbn; lia|done]|cbn; lia]|].
    destruct (split_on c s) as [|w ws].
    + split; [apply Forall_singleton; unfold shorter_than; cbn; lia|cbn; lia].
    + apply Forall_cons in IHf as [Hw _], Hup as [_ Hws]. split; [apply Forall_cons; split; [unfold shorter_than in *; cbn; lia|done]|cbn in *; lia].
Qed.

Lemma lines_short s : Forall (shorter_than (length s)) (lines s).
Proof.
  unfold lines. destruct (split_on_short 0x0a s) as [H _]. induction H as [|w ws Hw Hws IH]; [constructor|].
  assert (Hd : shorter_than (length s) (drop_cr w)).
  { unfold drop_cr. destruct (reverse w) as [|c r] eqn:E; [unfold shorter_than; cbn; lia|]. destruct (c =? 0x0d); [|exact Hw]. unfold shorter_than in *.
    apply (f_equal length) in E. rewrite length_reverse in E. rewrite length_reverse. cbn in E. lia. }
  cbn [ended_lines]. destruct ws; [case_bool_decide; by repeat constructor|]. by constructor.
Qed.

Lemma strip_prefix_length p s v : strip_prefix p s = Some v -> (length v <= length s)%nat.
Proof.
  revert s. induction p as [|x p IH]; intros [|y s]; cbn; try done; [by intros [= <-]|by intros [= <-]|].
  case_if; [|done]. intros H%IH. lia.
Qed.

Lemma omap_length {A B} (f : A -> option B) l : (length (omap f l) <= length l)%nat.
Proof. induction l as [|x l IH]; cbn; [lia|]. destruct (f x); cbn; lia. Qed.

Lemma parse_id_list_length s : (length (parse_id_list s) <= S (length s))%nat.
Proof. unfold parse_id_list. case_bool_decide; [cbn; lia|]. etrans; [apply omap_length|apply split_on_short]. Qed.

Lemma parse_nav_line_tabs line snap : parse_nav_line line = Some snap -> (length (nav_tabs snap) <= S (length line))%nat.
Proof.
  unfold parse_nav_line. assert (H : Forall (shorter_than (length line)) (split_whitespace (trim line))).
  { eapply Forall_impl; [apply (words_short [])|]. unfold shorter_than. pose proof (trim_length line). cbn. lia. }
  assert (Hf : forall ws acc, Forall (shorter_than (length line)) ws -> (length (snd (fst acc)) <= S (length line))%nat ->
             (length (snd (fst (fold_left (fun acc part => nav_word part acc) ws acc))) <= S (length line))%nat).
  { intros ws. induction ws as [|w ws IH]; intros [[wid tabs] leaves] Hws Ha; [done|]. inversion Hws as [|? ? Hw Hrest]; subst.
    cbn [fold_left]. apply IH; [done|]. unfold nav_word. cbn [fst snd] in *.
    destruct (strip_prefix (lit "tabs=") w) as [v|] eqn:E; [|done]. apply strip_prefix_length in E.
    pose proof (parse_id_list_length v). unfold shorter_than in Hw. lia. }
  specialize (Hf _ (None, [], []) H). destruct (fold_left _ _ _) as [[wid tabs] leaves]. cbn in *.
  destruct wid as [ws|]; [|done]. intros [= <-]. cbn. apply Hf. lia.
Qed.

(** ** Libraries whose clients are in order *)

(** Sockets that remember what passed, as in [Socket]: a new one remembers
    nothing, and the calls of the cold protocols are not recorded. *)
#[export] Instance traced_net {N K} `{!HostNet N K} : HostNet N (K * list SockEvent) := fun p n =>
  let '(r, n) := net_dial p n in (match r with Ok k => Ok (k, []) | Err e => Err e end, n).

Definition on_traced {K A} (f : K -> A * K) (kt : K * list SockEvent) : A * (K * list SockEvent) :=
  let '(a, k) := f (fst kt) in (a, (k, snd kt)).

#[export] Instance traced_block {K} `{!BlockSock K} : BlockSock (K * list SockEvent) := {
  net_read_timeout t := on_traced (net_read_timeout t);
  net_write_timeout t := on_traced (net_write_timeout t);
  net_nonblocking b := on_traced (net_nonblocking b);
  net_read_exact n := on_traced (net_read_exact n);
  net_read_to_end n := on_traced (net_read_to_end n);
  net_write_all bs := on_traced (net_write_all bs);
}.

(** What is read is bytes, no more than asked for. *)
Class BlockLaws (K : Type) `{!BlockSock K} : Prop :=
  read_to_end_bytes : forall n k bs k', net_read_to_end n k = (Ok bs, k') -> bytes bs.

#[export] Instance traced_block_laws {K} `{!BlockSock K, !BlockLaws K} : BlockLaws (K * list SockEvent).
Proof.
  intros n [k tr] bs [k' tr']. cbn. unfold on_traced. cbn. destruct (net_read_to_end n k) as [r k1] eqn:E.
  intros [= -> _ _]. by eapply read_to_end_bytes.
Qed.

Section Safe.
Context {N K : Type} `{!SockOps K, !SockLaws K, !BlockSock K, !BlockLaws K, !HostNet N K}.
Context (M : Look.Machine) (from_toml : list Z -> result (list Z) RawSurface) (look_fuel : nat).
Context (env : Env) (strerror : Z -> list Z) (file_error : list Z) (fd_of : K * list SockEvent -> Z).
Abbreviation T := (K * list SockEvent)%type.
Abbreviation L := (Lib N T).
Abbreviation run := (ffi_run M from_toml look_fuel env strerror file_error fd_of).
Implicit Types (l : L) (o : FOp).

(** [n] calls have been made. *)
Definition lib_ok (n : Z) l : Prop :=
  0 <= n /\ forall h hd, clients l !! h = Some hd -> h <> NULL /\ host_inv n 0 (h_client hd).

(** A call over the network ends, whatever the network does. *)
Definition total {A} (m : ST HostError N A) : Prop := forall n, exists r, m n = Some r.

Lemma total_bind {A B} (m : ST HostError N A) (f : A -> ST HostError N B) :
  total m -> (forall a, total (f a)) -> total (m ≫= f).
Proof.
  intros Hm Hf n. destruct (Hm n) as [[[a|e] n'] E]; unfold mbind, se_bind; rewrite E; [apply Hf|by eexists].
Qed.
Lemma total_result {A} (r : result HostError A) : total (of_result r).
Proof. intros n. by eexists. Qed.
Lemma total_ret {A} (a : A) : total (mret a).
Proof. intros n. by eexists. Qed.
Lemma total_fail {A} e : total (fail e : ST HostError N A).
Proof. intros n. by eexists. Qed.
Lemma total_dial p : total (dial (K := T) p).
Proof. intros n. unfold dial. destruct (net_dial p n). by eexists. Qed.
Lemma total_sock {A} (f : T -> result Z A * T) k : total (on_sock f k).
Proof. intros n. unfold on_sock. destruct (f k) as [[a|e] k']; by eexists. Qed.

Ltac totals :=
  repeat first [ apply total_bind; [|intros ?] | apply total_result | apply total_ret | apply total_fail | apply total_dial
               | apply total_sock | match goal with |- total (let '(_, _) := ?x in _) => destruct x end | case_match ].

Lemma nav_snapshot_total p : total (nav_snapshot (K := T) p).
Proof. unfold nav_snapshot, nav_line_read, parsed_nav. totals. Qed.
Lemma nav_new_tab_total p : total (nav_new_tab (K := T) p).
Proof. unfold nav_new_tab, nav_line_read, parsed_nav. totals. Qed.
Lemma content_exchange_total p q : total (content_exchange (K := T) p q).
Proof. unfold content_exchange. totals. Qed.
Lemma cold_host_identity_total p : total (cold_host_identity (K := T) p).
Proof. unfold cold_host_identity. totals. Qed.
Lemma cold_workspace_id_total p : total (cold_workspace_id (K := T) p).
Proof.
  intros n. unfold cold_workspace_id.
  match goal with |- context [?m n] => assert (Hm : total m) by totals end.
  destruct (Hm n) as [[r n'] E]. rewrite E. by eexists.
Qed.

(** ** What a caller may do *)

(** A pointer to bytes is NULL or has [k] bytes behind it. *)
Definition readable (bytes : option (list Z)) (k : Z) : Prop :=
  0 <= k /\ match bytes with Some bs => k <= len bs | None => True end.

(** A surface that the look files give is no wider than 65528 columns. *)
Definition sized : Prop := forall sf, load_surface M from_toml look_fuel = Ok (Ok sf) -> sizes_ok sf.

(** The calls that connect read the look files first, and these can panic, or
    name each other for ever. *)
Definition connects o : bool := match o with FConnect _ _ | FConnectLeaf _ _ _ => true | _ => false end.
Definition look_fault o : option Fault :=
  if connects o then match load_surface M from_toml look_fuel with Ok _ => None | Err f => Some f end else None.

(** The safety comments of the source: handles are NULL or live, a new client is
    put at an address that is neither, buffers are as long as they are said to
    be.  Besides, no more than 65528 columns, and at most 2^28 bytes and calls,
    as for [hop_ok]. *)
Definition args_ok o l : Prop :=
  match o with
  | FConnect addr _ | FConnectLeaf addr _ _ => addr <> NULL /\ clients l !! addr = None /\ sized
  | FSubmit _ bs k | FSendInput _ bs k | FPaste _ bs k => readable bs k
  | FResize _ cols rows _ _ => 0 <= cols <= MAX_TAB_COLS /\ u16 rows
  | _ => True
  end.

Definition reads_of o : Z := match o with FPump fuel _ => READ_CHUNK * Z.of_nat fuel | _ => 0 end.

Definition op_ok (n : Z) o l : Prop :=
  args_ok o l /\ forall h, on o = Some h -> h = NULL \/ exists hd, clients l !! h = Some hd /\
    n + 1 + len (read_in (trace_of (h_client hd))) + reads_of o <= LIMIT.

Inductive freach : Z -> L -> Prop :=
| freach_new net : freach 0 (mkLib ∅ None None None None None net)
| freach_step n o l a l' : freach n l -> op_ok n o l -> run o l = Some (a, l') -> freach (n + 1) l'.

(** ** Its rules *)

Lemma lib_mono n n' l : lib_ok n l -> n <= n' -> lib_ok n' l.
Proof.
  intros [Hn Hl] Hle. split; [lia|]. intros h hd Hh. destruct (Hl h hd Hh) as [? Hi]. split; [done|]. by eapply inv_mono.
Qed.

(** Only the clients count. *)
Lemma lib_clients n l l' : lib_ok n l -> clients l' = clients l -> lib_ok n l'.
Proof. intros [Hn Hl] E. split; [done|]. by rewrite E. Qed.

Lemma lib_put n l h hd : lib_ok n l -> h <> NULL -> host_inv n 0 (h_client hd) -> lib_ok n (l <| clients := <[h := hd]> (clients l) |>).
Proof.
  intros [Hn Hl] Hh Hi. split; [done|]. intros h' hd'. cbn. rewrite lookup_insert_Some. intros [[<- <-]|[_ ?]]; [done|by apply Hl].
Qed.

Lemma run_safe {A} (m : ST HostError (Client T) A) c (Q : Client T -> Prop) :
  safe (snd <$> m c) Q -> safe (m c) (fun '(_, c') => Q c').
Proof. intros (c' & E & H). destruct (m c) as [[r c2]|]; [|done]. injection E as <-. by exists (r, c2). Qed.

(** What the rules say of a call: it returns, and the library is in order. *)
Definition well {A} (n : Z) (r : option (A * L)) : Prop := safe r (fun '(_, l') => lib_ok (n + 1) l').

Lemma reading_well {A} n l h (null : A) f : lib_ok n l -> h = NULL \/ is_Some (clients l !! h) -> well n (reading h null f l).
Proof.
  intros Hl Hh. assert (Hs : lib_ok (n + 1) l) by (eapply lib_mono; [done|lia]). unfold well, reading.
  destruct (Z.eqb_spec h NULL) as [->|Hne]; [by apply safe_ret|]. destruct Hh as [->|[hd ->]]; [done|]. by apply safe_ret.
Qed.

Lemma buffered_well n l h f put : lib_ok n l -> h = NULL \/ is_Some (clients l !! h) ->
  (forall s l, clients (put s l) = clients l) -> well n (buffered h f put l).
Proof.
  intros Hl Hh Hput. assert (Hs : lib_ok (n + 1) l) by (eapply lib_mono; [done|lia]). unfold well, buffered.
  destruct (Z.eqb_spec h NULL) as [->|Hne]; [by apply safe_ret|]. destruct Hh as [->|[hd ->]]; [done|].
  apply safe_ret. destruct (f hd); [|done]. by eapply lib_clients.
Qed.

Lemma put_well n l h hd c : lib_ok n l -> clients l !! h = Some hd -> host_inv (n + 1) 0 c -> lib_ok (n + 1) (put_client h hd c l).
Proof. intros Hl Hh Hc. apply lib_put; [eapply lib_mono; [done|lia]|by eapply Hl|done]. Qed.

Lemma calling_well {A B} n l h (null : B) (m : ST HostError (Client T) A) ok failed :
  lib_ok n l -> h = NULL \/ is_Some (clients l !! h) ->
  (forall hd, clients l !! h = Some hd -> host_inv n 0 (h_client hd) -> safe (snd <$> m (h_client hd)) (host_inv (n + 1) 0)) ->
  well n (calling strerror h null m ok failed l).
Proof.
  intros Hl Hh Hm. assert (Hs : lib_ok (n + 1) l) by (eapply lib_mono; [done|lia]). unfold well, calling.
  destruct (Z.eqb_spec h NULL) as [->|Hne]; [by apply safe_ret|]. destruct Hh as [->|[hd Hd]]; [done|]. rewrite Hd. cbn [mbind option_bind].
  eapply safe_bind; [exact (run_safe _ _ _ (Hm hd Hd (proj2 (proj2 Hl h hd Hd))))|]. intros [[a|e] c] Hc; apply safe_ret; [by apply put_well|].
  eapply lib_clients; [by apply put_well|done].
Qed.

Lemma updating_well {B} n l h (null : B) m :
  lib_ok n l -> h = NULL \/ is_Some (clients l !! h) ->
  (forall hd, clients l !! h = Some hd -> host_inv n 0 (h_client hd) -> safe (m (h_client hd)) (fun '(_, c) => host_inv (n + 1) 0 c)) ->
  well n (updating h null m l).
Proof.
  intros Hl Hh Hm. assert (Hs : lib_ok (n + 1) l) by (eapply lib_mono; [done|lia]). unfold well, updating.
  destruct (Z.eqb_spec h NULL) as [->|Hne]; [by apply safe_ret|]. destruct Hh as [->|[hd Hd]]; [done|]. rewrite Hd. cbn [mbind option_bind].
  eapply safe_bind; [exact (Hm hd Hd (proj2 (proj2 Hl h hd Hd)))|]. intros [b c] Hc. apply safe_ret. by apply put_well.
Qed.

Lemma networked_well {A B} n l (m : ST HostError N A) (ok : A -> B) failed : lib_ok n l -> total m -> well n (networked strerror m ok failed l).
Proof.
  intros Hl Hm. unfold well, networked. destruct (Hm (network l)) as [[r net] ->]. cbn [mbind option_bind]. apply safe_ret.
  assert (Hs : lib_ok (n + 1) l) by (eapply lib_mono; [done|lia]). destruct r; by eapply lib_clients.
Qed.

Lemma replied_well {A} n (f : A -> Answer) r : well n r -> well n (replied f r).
Proof. intros H. eapply safe_bind; [exact H|]. intros [a l] Hl. by apply safe_ret. Qed.

(** ** Connecting *)

Lemma attach_session_safe p identity sf ws sid k : surface_ok sf ->
  safe (attach_session p identity sf ws sid (k, [])) (fun r => match r with Ok hd => host_inv 0 0 (h_client hd) | Err _ => True end).
Proof.
  intros Hsf. unfold attach_session. destruct (connect_rule k sf ws sid Hsf) as ([r c] & -> & H).
  destruct r as [[]|e]; [|by apply safe_ret]. destruct c as [c|]; by apply safe_ret.
Qed.

Lemma connect_handle_safe p sf sid n : surface_ok sf ->
  safe (connect_handle (K := T) p sf sid n) (fun '(r, _) => match r with Ok hd => host_inv 0 0 (h_client hd) | Err _ => True end).
Proof.
  intros Hsf. unfold connect_handle. apply se_bind_rule. destruct (cold_host_identity_total p n) as [[[id|e] n1] ->]; [|by apply safe_ret].
  apply safe_ret. cbn [fst snd]. apply se_bind_rule. destruct (cold_workspace_id_total p n1) as [[[ws|e] n2] ->]; [|by apply safe_ret].
  apply safe_ret. cbn [fst snd]. apply se_bind_rule. unfold dial, net_dial, traced_net. destruct (net_dial p n2) as [[k|e] n3]; [|by apply safe_ret].
  apply safe_ret. cbn [fst snd]. apply se_bind_rule. unfold on_sock. cbn [net_nonblocking traced_block]. unfold on_traced. cbn [fst snd].
  destruct (net_nonblocking true k) as [[[]|e] k']; [|by apply safe_ret]. apply safe_ret. cbn [fst snd]. apply se_bind_rule.
  destruct (attach_session_safe p id sf ws sid k' Hsf) as (r & -> & Hr). apply safe_ret. cbn [fst snd]. by apply safe_ret.
Qed.

Lemma connect_well n addr s sid l r : lib_ok n l -> addr <> NULL -> sized -> load_surface M from_toml look_fuel = Ok r ->
  well n (connect_at M from_toml look_fuel env strerror file_error addr s sid l).
Proof.
  intros Hl Ha Hsz Hload. unfold well, connect_at. rewrite Hload. destruct r as [sf|e].
  - assert (Hsf : surface_ok sf) by (eapply loaded_surface_fits; [exact Hload|by apply Hsz]).
    eapply safe_bind; [by apply connect_handle_safe|]. intros [[hd|e] net] Hhd; apply safe_ret.
    + apply lib_put; [|done|]; [eapply lib_clients; [eapply lib_mono; [exact Hl|lia]|done]|]. destruct Hl. eapply inv_mono; [done|lia|done].
    + eapply lib_clients; [eapply lib_mono; [exact Hl|lia]|done].
  - apply safe_ret. eapply lib_clients; [eapply lib_mono; [exact Hl|lia]|done].
Qed.

(** ** Every call *)

Lemma content_exchange_bytes p q n bs n' : content_exchange (K := T) p q n = Some (Ok bs, n') -> bytes bs.
Proof.
  unfold content_exchange. intros H. repeat (apply se_bind_inv in H as [(? & ? & ? & H)|(? & _ & ?)]; [|done]; try case_match; subst).
  injection H as <- _. match goal with Hs : on_sock (net_read_to_end _) ?k _ = _ |- _ => unfold on_sock in Hs;
    destruct (net_read_to_end (RESPONSE_MAX + 1) k) as [[b|e] k'] eqn:E; simplify_eq end.
  exact (read_to_end_bytes _ _ _ _ E).
Qed.

Lemma hop_room n o l h hd hop :
  clients l !! h = Some hd -> n + 1 + len (read_in (trace_of (h_client hd))) + reads_of o <= LIMIT ->
  match hop with HPump fuel => READ_CHUNK * Z.of_nat fuel = reads_of o | _ => 0 <= reads_of o end ->
  match hop with
  | HResize cols rows _ _ => 0 <= cols <= MAX_TAB_COLS /\ u16 rows
  | HSubmit exchange _ => forall q bs, exchange q = Ok bs -> bytes bs
  | _ => True
  end -> hop_ok n hop (h_client hd).
Proof. intros Hh Hr Hf Ha. split; [|done]. destruct hop; lia. Qed.

Lemma op_handle n o l h : op_ok n o l -> on o = Some h -> h = NULL \/ is_Some (clients l !! h).
Proof. intros [_ H] Ho. destruct (H h Ho) as [?|(hd & Hd & _)]; [by left|right; by eexists]. Qed.

(** The operation of the client behind a call. *)
Lemma op_client n o l h hd hop :
  op_ok n o l -> on o = Some h -> h <> NULL -> clients l !! h = Some hd -> host_inv n 0 (h_client hd) -> 0 <= n ->
  match hop with HPump fuel => READ_CHUNK * Z.of_nat fuel = reads_of o | _ => 0 <= reads_of o end ->
  match hop with
  | HResize cols rows _ _ => 0 <= cols <= MAX_TAB_COLS /\ u16 rows
  | HSubmit exchange _ => forall q bs, exchange q = Ok bs -> bytes bs
  | _ => True
  end -> safe (host_run hop (h_client hd)) (host_inv (n + 1) 0).
Proof.
  intros [_ H] Ho Hne Hd Hi Hn Hf Ha. destruct (H h Ho) as [->|(hd' & Hd' & Hr)]; [done|]. rewrite Hd in Hd'. injection Hd' as <-.
  apply host_step; [done|done|by eapply hop_room].
Qed.

Lemma or_zero_run (m : ST HostError (Client T) Z) (c : Client T) Q : safe (snd <$> m c) Q -> safe (or_zero m c) (fun '(_, c) => Q c).
Proof. intros H. eapply safe_bind; [by apply run_safe|]. intros [r c'] Hc. by apply safe_ret. Qed.

Lemma safe_updated {B} (b : B) (c : Client T) Q : safe (Some c) Q -> safe (Some (b, c)) (fun '(_, c) => Q c).
Proof. intros (c' & [= <-] & H). by apply safe_ret. Qed.

Lemma from_raw_parts_some bs k : readable (Some bs) k -> from_raw_parts (Some bs) k = Some (take (Z.to_nat k) bs).
Proof. intros [Hk Hb]. cbn. by rewrite (proj2 (Z.leb_le _ _)). Qed.

Lemma slice_arg_some bs k : readable bs k -> (k <> 0 -> is_null bs = false) -> exists input, slice_arg bs k = Some input.
Proof.
  intros Hr Hb. unfold slice_arg. destruct (Z.eqb_spec k 0) as [->|Hk]; [by eexists|]. specialize (Hb Hk).
  destruct bs as [bs|]; [|done]. rewrite from_raw_parts_some by done. by eexists.
Qed.

Lemma same_well {A} n l (a : A) : lib_ok n l -> well n (Some (a, l)).
Proof. intros Hl. apply safe_ret. eapply lib_mono; [done|lia]. Qed.

Lemma well_network {A} n net (r : option (A * L)) : well n r -> well n ('(a, l) ← r; Some (a, l <| network := net |>)).
Proof. intros H. eapply safe_bind; [exact H|]. intros [a l] Hl. apply safe_ret. by eapply lib_clients. Qed.

Lemma submit_well n h bs k l : lib_ok n l -> op_ok n (FSubmit h bs k) l -> well n (rill_client_content_submit strerror h bs k l).
Proof.
  intros Hl Ho. unfold rill_client_content_submit. destruct (Z.eqb_spec h NULL) as [->|Hne]; [by apply same_well|]. cbn [orb].
  destruct (is_null bs && negb (k =? 0)) eqn:Hb; [by apply same_well|].
  destruct (slice_arg_some bs k (proj1 Ho)) as [input ->].
  { intros Hk. apply (proj2 (Z.eqb_neq _ _)) in Hk. by rewrite Hk, andb_true_r in Hb. }
  cbn [mbind option_bind]. destruct (op_handle _ _ _ h Ho eq_refl) as [->|[hd Hd]]; [done|]. rewrite Hd. cbn [mbind option_bind].
  apply well_network, calling_well; [done|by right; eexists|]. intros hd' Hd' Hi. apply (op_client n _ l h hd' (HSubmit _ input) Ho eq_refl Hne Hd' Hi (proj1 Hl) (Z.le_refl 0)).
  intros q b. destruct (content_exchange_total (attach_path hd) q (network l)) as [[r net] E]. rewrite E. intros ->.
  by eapply content_exchange_bytes.
Qed.

(** One call on a client, through [calling] or [updating]. *)
Ltac on_client hop :=
  match goal with
  | Ho : op_ok _ _ ?l, Hl : lib_ok _ ?l |- _ =>
      first [ apply calling_well | apply updating_well ]; [done|by eapply op_handle|];
      let hd := fresh "hd" in let Hd := fresh "Hd" in let Hi := fresh "Hi" in intros hd Hd Hi;
      let Hrun := fresh "Hrun" in
      assert (Hrun : safe (host_run hop (h_client hd)) (host_inv _ 0))
        by (eapply (op_client _ _ _ _ hd hop Ho eq_refl); [by destruct (proj2 Hl _ _ Hd)|exact Hd|exact Hi|exact (proj1 Hl)|done|exact (proj1 Ho) || done]);
      first [ exact Hrun | by apply or_zero_run | exact (safe_updated _ _ _ Hrun) ]
  end.

(** A call passes on a fault of the look files, and answers only without one. *)
Lemma look_fault_passed o l f : look_fault o = Some f -> run o l = None.
Proof.
  unfold look_fault. destruct o; cbn [connects]; try done; destruct (load_surface M from_toml look_fuel) eqn:E; try done; intros _;
    cbn [ffi_run]; unfold rill_client_connect, rill_client_connect_leaf, connect_at; by rewrite E.
Qed.

Lemma look_read o : look_fault o = None -> connects o = true -> exists r, load_surface M from_toml look_fuel = Ok r.
Proof. unfold look_fault. intros H Hc. rewrite Hc in H. destruct (load_surface M from_toml look_fuel) as [r|]; [by exists r|done]. Qed.

Lemma run_well n o l : lib_ok n l -> op_ok n o l -> look_fault o = None -> well n (run o l).
Proof.
  intros Hl Ho Hf. pose proof (look_read o Hf) as Hlook.
  assert (Hread : forall A (null : A) f h, on o = Some h -> well n (reading h null f l)) by (intros; apply reading_well; [done|by eapply op_handle]).
  assert (Hbuf : forall h f put, on o = Some h -> (forall s l, clients (put s l) = clients l) -> well n (buffered h f put l))
    by (intros; apply buffered_well; [done|by eapply op_handle|done]).
  destruct o; cbn [ffi_run]; apply replied_well; try (by apply Hread); try (by apply Hbuf).
  - destruct (Hlook eq_refl) as [r Hr]. eapply connect_well; [done|apply Ho..|exact Hr].
  - destruct (Hlook eq_refl) as [r Hr]. eapply connect_well; [done|apply Ho..|exact Hr].
  - unfold rill_client_free. destruct (Z.eqb_spec h NULL) as [->|Hne]; [by apply same_well|].
    destruct (op_handle _ _ _ h Ho eq_refl) as [->|[hd Hd]]; [done|]. rewrite Hd. apply safe_ret.
    destruct Hl as [Hn Hl]. split; [lia|]. intros h' hd'. cbn. rewrite lookup_delete_Some. intros [_ Hh].
    destruct (Hl h' hd' Hh) as [? Hi]. split; [done|]. eapply inv_mono; [done|lia|done].
  - by apply submit_well.
  - apply networked_well; [done|apply nav_new_tab_total].
  - apply networked_well; [done|apply nav_snapshot_total].
  - unfold rill_client_send_input. destruct (Z.eqb_spec h NULL) as [->|Hne]; [by apply same_well|]. cbn [orb].
    destruct bytes as [bs|]; [|by apply same_well]. cbn [is_null].
    rewrite (from_raw_parts_some bs n0 (proj1 Ho)). cbn [mbind option_bind]. on_client (HInput (take (Z.to_nat n0) bs)).
  - unfold rill_client_encode_arrow. destruct (Z.eqb_spec h NULL) as [->|Hne]; [by apply same_well|]. cbn [orb].
    destruct out; [|by apply same_well]. cbn [negb]. destruct (op_handle _ _ _ h Ho eq_refl) as [->|[hd Hd]]; [done|].
    rewrite Hd. by apply same_well.
  - on_client (HPointer kind button col row).
  - unfold rill_client_paste. destruct (Z.eqb_spec h NULL) as [->|Hne]; [by apply same_well|].
    destruct ((0 <? n0) && is_null bytes) eqn:Hb; [by apply same_well|].
    destruct (slice_arg_some bytes n0 (proj1 Ho)) as [input ->].
    { intros Hk. destruct Ho as [[Hk0 _] _]. rewrite (proj2 (Z.ltb_lt _ _)) in Hb by lia. exact Hb. }
    cbn [mbind option_bind]. on_client (HPaste input).
  - on_client (HResize cols rows px_w px_h).
  - on_client (HPump fuel).
  - unfold rill_client_snapshot. destruct (Z.eqb_spec h NULL) as [->|Hne]; [by apply same_well|]. cbn [orb].
    destruct out; [|by apply same_well]. cbn [negb]. on_client HSnapshot.
  - on_client (HCell col row).
  - on_client (HLive col row).
  - unfold rill_client_cursor. destruct (Z.eqb_spec h NULL) as [->|Hne]; [by apply same_well|]. cbn [orb].
    destruct col; [|by apply same_well]. destruct row; [|by apply same_well]. cbn [negb orb]. on_client HCursor.
  - on_client HBegin.
  - on_client HEnd.
  - on_client (HScroll delta).
  - on_client HFollow.
Qed.

(** ** What failures say *)

(** The message of an error. *)
Definition message (msg : list Z) : Prop :=
  (exists e, msg = show_host_error strerror e) \/ exists e, msg = show_surface_error file_error e.

Definition reports l l' (failed : bool) : Prop :=
  if failed then exists msg, message msg /\ last_err l' = c_string msg else last_err l' = last_err l.

(** The calls that can fail, on pointers that are not NULL. *)
Definition may_fail o : Prop :=
  match o with
  | FConnect _ _ | FConnectLeaf _ _ _ | FNewTab _ _ | FTabCount _ => True
  | FSubmit h bs k | FPaste h bs k => h <> NULL /\ (is_null bs = false \/ k = 0)
  | FSendInput h bs _ => h <> NULL /\ is_null bs = false
  | FSendPointer h _ _ _ _ | FResize h _ _ _ _ | FPump _ h => h <> NULL
  | FSnapshot h out => h <> NULL /\ out = true
  | FCursor h col row => h <> NULL /\ col = true /\ row = true
  | _ => False
  end.

Definition failed o (a : Answer) : bool :=
  match o, a with
  | (FConnect _ _ | FConnectLeaf _ _ _), AInt p => p =? NULL
  | _, (AInt rc | APumped (Some rc) | ATabs rc _ | AGrid rc _ | ACell rc _) => rc =? -1
  | _, _ => false
  end.

Lemma calling_reports {A B} h (null : B) (m : ST HostError (Client T) A) ok bad l b l' (is_bad : B -> bool) :
  h <> NULL -> calling strerror h null m ok bad l = Some (b, l') -> is_bad bad = true ->
  (forall hd a c, clients l !! h = Some hd -> m (h_client hd) = Some (Ok a, c) -> is_bad (ok a c) = false) ->
  reports l l' (is_bad b).
Proof.
  intros Hh H Hbad Hok. unfold calling in H. rewrite (proj2 (Z.eqb_neq _ _)) in H by done.
  destruct (clients l !! h) as [hd|] eqn:Hd; [|done]. cbn [mbind option_bind] in H.
  destruct (m (h_client hd)) as [[[a|e] c]|] eqn:E; cbn [mbind option_bind] in H; [| |done]; injection H as <- <-.
  - by rewrite (Hok hd a c eq_refl E).
  - rewrite Hbad. eexists. split; [left; by eexists|done].
Qed.

Lemma networked_reports {A B} (m : ST HostError N A) (ok : A -> B) bad l b l' (is_bad : B -> bool) :
  networked strerror m ok bad l = Some (b, l') -> is_bad bad = true ->
  (forall a n, m (network l) = Some (Ok a, n) -> is_bad (ok a) = false) -> reports l l' (is_bad b).
Proof.
  unfold networked. intros H Hbad Hok. destruct (m (network l)) as [[[a|e] n]|] eqn:E; cbn [mbind option_bind] in H; [| |done];
    injection H as <- <-.
  - by rewrite (Hok a n eq_refl).
  - rewrite Hbad. eexists. split; [left; by eexists|done].
Qed.

Lemma connect_reports addr s sid l b l' : addr <> NULL ->
  connect_at M from_toml look_fuel env strerror file_error addr s sid l = Some (b, l') -> reports l l' (b =? NULL).
Proof.
  unfold connect_at. intros Ha H. destruct (load_surface M from_toml look_fuel) as [[sf|e]|]; [| |done].
  - destruct (connect_handle _ _ _ _) as [[[hd|e] n]|]; cbn [mbind option_bind] in H; [| |done]; injection H as <- <-.
    + by rewrite (proj2 (Z.eqb_neq _ _)).
    + eexists. split; [left; by eexists|done].
  - injection H as <- <-. eexists. split; [right; by eexists|done].
Qed.

Lemma as_int_small w x : 0 < w -> 0 <= x < 2 ^ (w - 1) -> as_int w x = x.
Proof.
  intros Hw Hx. unfold as_int. assert (2 ^ w = 2 * 2 ^ (w - 1)) as E by (rewrite <- Z.pow_succ_r by lia; f_equal; lia).
  rewrite Z.mod_small by lia. lia.
Qed.

Lemma count_not_bad x : 0 <= x < 2 ^ 31 -> (as_int 32 x =? -1) = false.
Proof. intros Hx. rewrite as_int_small by lia. lia. Qed.

(** The tabs a navigation call reports are few. *)
Lemma nav_line_read_short (k : T) (n : N) s k' n' : nav_line_read k n = Some (Ok (s, k'), n') -> (length s <= 512)%nat.
Proof.
  unfold nav_line_read, on_sock, plain_read. intros H. apply se_bind_inv in H as [([bs k1] & n1 & H1 & H)|(e & _ & ?)]; [|done].
  destruct (sock_read (Z.of_nat NAV_READ) k) as [r k2] eqn:E. destruct r as [b|e]; cbn in H1; [|done]. injection H1 as -> -> ->.
  apply sock_read_fits in E as [Hl _]; [|done]. destruct (len bs =? 0); [done|]. injection H as <- <- <-.
  pose proof (lossy_length (length bs) bs). unfold from_utf8_lossy, len, NAV_READ in *. lia.
Qed.

Lemma parsed_nav_few line (n : N) snap n' : (length line <= 512)%nat -> parsed_nav line n = Some (Ok snap, n') -> len (nav_tabs snap) < 2 ^ 31.
Proof.
  unfold parsed_nav. intros Hl H. destruct (parse_nav_line line) as [s|] eqn:E; [|done]. injection H as <- _.
  apply parse_nav_line_tabs in E. unfold len. lia.
Qed.

Ltac net_step H :=
  let Hs := fresh "Hs" in apply se_bind_inv in H as [(? & ? & Hs & H)|(? & _ & ?)]; [|done]; try case_match; subst.

Lemma nav_snapshot_few p (n : N) snap n' : nav_snapshot (K := T) p n = Some (Ok snap, n') -> len (nav_tabs snap) < 2 ^ 31.
Proof.
  unfold nav_snapshot. intros H. do 2 net_step H. apply se_bind_inv in H as [([line k] & n1 & Hline & H)|(? & _ & ?)]; [|done].
  eapply parsed_nav_few; [by eapply nav_line_read_short|exact H].
Qed.

Lemma nav_new_tab_few p (n : N) snap n' : nav_new_tab (K := T) p n = Some (Ok snap, n') -> len (nav_tabs snap) < 2 ^ 31.
Proof.
  unfold nav_new_tab. intros H. do 3 net_step H. net_step H. net_step H. net_step H.
  apply se_bind_inv in H as [([second k] & n1 & Hline & H)|(? & _ & ?)]; [|done].
  apply nav_line_read_short in Hline. eapply parsed_nav_few; [|exact H].
  destruct (List.find _ _) as [line|] eqn:E; [|change (length (trim second) <= 512)%nat; pose proof (trim_length second); lia].
  apply find_some in E as [Hin _]. pose proof (lines_short second) as Hf. rewrite Forall_forall in Hf.
  apply list_elem_of_In in Hin. specialize (Hf line Hin). unfold shorter_than in Hf. change (length line <= 512)%nat. lia.
Qed.

Lemma submit_few exchange text (c : Client T) c' : (forall q bs, exchange q = Ok bs -> bytes bs) ->
  submit_content exchange text c = Some (Ok (), c') -> len (content_items c') <= 64.
Proof.
  intros Hx. unfold submit_content, content_submit. destruct (content_request _ _) as [q|e]; [|done].
  destruct (exchange q) as [bs|e] eqn:Eq; [|done]. cbv zeta. set (r := take (Z.to_nat (RESPONSE_MAX + 1)) bs).
  destruct (Z.ltb_spec RESPONSE_MAX (len r)) as [Hl|Hl]; [done|].
  assert (Hsafe := parse_snapshot_safe r (Forall_take _ _ _ (Hx q bs Eq)) ltac:(unfold RESPONSE_MAX in *; lia)).
  destruct Hsafe as ([items|e] & -> & Hi); [|done]. intros [= <-]. cbn. lia.
Qed.

Lemma submit_reports n h bs k l b l' : lib_ok n l -> op_ok n (FSubmit h bs k) l -> may_fail (FSubmit h bs k) ->
  rill_client_content_submit strerror h bs k l = Some (b, l') -> reports l l' (b =? -1).
Proof.
  intros Hl Ho [Hne Hbs]. unfold rill_client_content_submit. rewrite (proj2 (Z.eqb_neq _ _)) by done. cbn [orb].
  replace (is_null bs && negb (k =? 0)) with false; [|destruct Hbs as [-> | ->]; [done|by rewrite andb_false_r]].
  destruct (slice_arg bs k) as [input|]; [|done]. cbn [mbind option_bind].
  destruct (clients l !! h) as [hd|]; [|done]. cbn [mbind option_bind]. cbv zeta.
  match goal with |- context [calling _ _ _ ?m ?ok ?bad l] => destruct (calling strerror h (-1) m ok bad l) as [[b1 l1]|] eqn:E; [|done];
    intros [= <- <-]; apply (calling_reports h (-1) m ok bad l b1 l1 (fun b => b =? -1)) in E; [exact E|done|done|] end.
  intros hd' [] c Hd' Hm. apply count_not_bad. pose proof (len_nonneg (content_items c)). split; [done|].
  apply submit_few in Hm; [lia|]. intros q by_. destruct (content_exchange_total (attach_path hd) q (network l)) as [[r net] Ex].
  rewrite Ex. intros ->. by eapply content_exchange_bytes.
Qed.

Lemma run_reports n o l a l' : lib_ok n l -> op_ok n o l -> may_fail o -> run o l = Some (a, l') -> reports l l' (failed o a).
Proof.
  intros Hl Ho Hm Hr.
  assert (Hans : forall A (f : A -> Answer) r (is_bad : A -> bool), replied f r = Some (a, l') ->
            (forall b, failed o (f b) = is_bad b) -> (forall b, r = Some (b, l') -> reports l l' (is_bad b)) -> reports l l' (failed o a)).
  { intros A f r is_bad E Hf Hrep. destruct r as [[b l1]|]; [|done]. injection E as <- <-. rewrite Hf. by apply Hrep. }
  destruct o; cbn [may_fail] in Hm; try done; cbn [ffi_run] in Hr.
  - eapply (Hans _ _ _ (fun b => b =? NULL) Hr); [done|]. intros b. apply connect_reports, Ho.
  - eapply (Hans _ _ _ (fun b => b =? NULL) Hr); [done|]. intros b. apply connect_reports, Ho.
  - eapply (Hans _ _ _ (fun b => b =? -1) Hr); [done|]. intros b. by eapply submit_reports.
  - eapply (Hans _ _ _ (fun b => fst b =? -1) Hr); [by intros []|]. intros b Hb. eapply (networked_reports _ _ _ _ _ _ (fun b => fst b =? -1) Hb); [done|].
    intros snap net Hs. apply count_not_bad. split; [apply len_nonneg|by eapply nav_new_tab_few].
  - eapply (Hans _ _ _ (fun b => b =? -1) Hr); [done|]. intros b Hb. eapply (networked_reports _ _ _ _ _ _ (fun b => b =? -1) Hb); [done|].
    intros snap net Hs. apply count_not_bad. split; [apply len_nonneg|by eapply nav_snapshot_few].
  - eapply (Hans _ _ _ (fun b => b =? -1) Hr); [done|]. intros b. unfold rill_client_send_input. destruct Hm as [Hne Hb].
    rewrite (proj2 (Z.eqb_neq _ _)) by done. rewrite Hb. cbn [orb]. destruct (from_raw_parts bytes n0); [|done]. cbn [mbind option_bind].
    intros E. by eapply (calling_reports _ _ _ _ _ _ _ _ (fun b => b =? -1) Hne E).
  - eapply (Hans _ _ _ (fun b => b =? -1) Hr); [done|]. intros b E.
    eapply (calling_reports _ _ _ _ _ _ _ _ (fun b => b =? -1) Hm E); [done|]. by intros hd [] c.
  - eapply (Hans _ _ _ (fun b => b =? -1) Hr); [done|]. intros b. unfold rill_client_paste. destruct Hm as [Hne Hb].
    rewrite (proj2 (Z.eqb_neq _ _)) by done. replace ((0 <? n0) && is_null bytes) with false; [|destruct Hb as [-> | ->]; [by rewrite andb_false_r|done]].
    destruct (slice_arg bytes n0); [|done]. cbn [mbind option_bind].
    intros E. by eapply (calling_reports _ _ _ _ _ _ _ _ (fun b => b =? -1) Hne E).
  - eapply (Hans _ _ _ (fun b => b =? -1) Hr); [done|]. intros b E.
    by eapply (calling_reports _ _ _ _ _ _ _ _ (fun b => b =? -1) Hm E).
  - eapply (Hans _ _ _ (fun r => match r with Some rc => rc =? -1 | None => false end) Hr); [by intros []|]. intros b E.
    eapply (calling_reports _ _ _ _ _ _ _ _ (fun r => match r with Some rc => rc =? -1 | None => false end) Hm E); [done|].
    intros hd [fed|] c Hd Hp; [|done]. cbn [fmap option_fmap option_map]. destruct (proj2 Ho h eq_refl) as [->|(hd' & Hd' & Hroom)]; [done|].
    rewrite Hd in Hd'. injection Hd' as <-. destruct Hl as [Hn Hl]. cbn [reads_of] in Hroom.
    apply (pump_fed n) in Hp; [|by eapply Hl|done|lia]. rewrite as_int_small; [lia|lia|]. split; [lia|].
    assert (2 ^ 31 < 2 ^ (64 - 1)) by done. lia.
  - eapply (Hans _ _ _ (fun b => fst b =? -1) Hr); [by intros []|]. intros b. unfold rill_client_snapshot. destruct Hm as [Hne ->].
    rewrite (proj2 (Z.eqb_neq _ _)) by done. cbn [orb negb]. intros E.
    by eapply (calling_reports _ _ _ _ _ _ _ _ (fun b => fst b =? -1) Hne E).
  - eapply (Hans _ _ _ (fun b => fst b =? -1) Hr); [by intros []|]. intros b. unfold rill_client_cursor. destruct Hm as (Hne & -> & ->).
    rewrite (proj2 (Z.eqb_neq _ _)) by done. cbn [orb negb]. intros E.
    by eapply (calling_reports _ _ _ _ _ _ _ _ (fun b => fst b =? -1) Hne E).
Qed.

Lemma freach_ok n l : freach n l -> lib_ok n l.
Proof.
  induction 1 as [net|n o l a l' _ IH Ho Hr].
  - split; [done|]. intros h hd. cbn. by rewrite lookup_empty.
  - destruct (look_fault o) as [f|] eqn:Hf; [by rewrite (look_fault_passed _ _ _ Hf) in Hr|].
    exact (safe_inv _ _ _ (run_well n o l IH Ho Hf) Hr).
Qed.
End Safe.

(** C21. The C interface is safe to use as its comments say.  After any calls on
    handles that are NULL or live, with buffers as long as they are said to be, no
    surface or resize wider than 65528 columns, and at most 2^28 calls and bytes
    read per client, as in [hop_ok]: a call that connects fails to return exactly
    when reading the look files panics or does not end ([look_fault]), and every
    other call, and every connect without such a fault, returns: it does not panic
    or follow a dead pointer, whatever the network and the daemon say (a pump, after the reads
    it is given, with what it has fed or still reading).  Then every client is
    in order; and where a call can fail, its failure value is returned exactly
    when it failed, and [rill_client_last_error] then has the text of its error,
    and is otherwise as it was. *)
Theorem ffi_safe {N K} `{!SockOps K, !SockLaws K, !BlockSock K, !BlockLaws K, !HostNet N K}
    (M : Look.Machine) (from_toml : list Z -> result (list Z) RawSurface) (look_fuel : nat)
    (env : Env) (strerror : Z -> list Z) (file_error : list Z) (fd_of : K * list SockEvent -> Z)
    (n : Z) (l : Lib N (K * list SockEvent)) (o : FOp) :
  freach M from_toml look_fuel env strerror file_error fd_of n l -> op_ok M from_toml look_fuel n o l ->
  match look_fault M from_toml look_fuel o with
  | Some _ => ffi_run M from_toml look_fuel env strerror file_error fd_of o l = None
  | None =>
      exists a l', ffi_run M from_toml look_fuel env strerror file_error fd_of o l = Some (a, l') /\
        (forall h hd, clients l' !! h = Some hd -> h <> NULL /\ host_inv (n + 1) 0 (h_client hd)) /\
        (may_fail o -> reports strerror file_error l l' (failed o a))
  end.
Proof.
  intros Hr Ho. destruct (look_fault M from_toml look_fuel o) as [f|] eqn:Hf; [by eapply look_fault_passed|].
  apply freach_ok in Hr as Hl.
  destruct (run_well M from_toml look_fuel env strerror file_error fd_of n o l Hl Ho Hf) as ([a l'] & E & [_ Hl']).
  exists a, l'. split; [exact E|]. split; [exact Hl'|]. intros Hm. by eapply run_reports.
Qed.

(** ** A network *)

(** The servers by their paths. *)
#[export] Instance script_block : BlockSock Script := {
  net_read_timeout _ k := (Ok tt, k);
  net_write_timeout _ k := (Ok tt, k);
  net_nonblocking _ k := (Ok tt, k);
  net_read_exact n k :=
    if n <=? len (concat (rx k)) then (Ok (take (Z.to_nat n) (concat (rx k))), mkScript [drop (Z.to_nat n) (concat (rx k))] (accepts k))
    else (Err 60, k);
  net_read_to_end n k := (Ok (map (fun b => b mod 256) (take (Z.to_nat n) (concat (rx k)))), mkScript [] (accepts k));
  net_write_all _ k := (Ok tt, k);
}.

#[export] Instance script_block_laws : BlockLaws Script.
Proof.
  intros n k bs k' [= <- _]. apply Forall_map, Forall_forall. intros b _. cbn. pose proof (Z.mod_pos_bound b 256). num.
Qed.

#[export] Instance script_net : HostNet (gmap Path Script) Script := fun p n =>
  (match n !! p with Some k => Ok k | None => Err 2 end, n).

(** A daemon that answers the identity and the tabs, and then refuses. *)
Definition refusal : list Z := match encode (Refused AlreadyAttached) with Ok bs => bs | Err _ => [] end.
Definition demo_network : gmap Path Script :=
  <[lit "s" := mkScript [refusal] [100; 100]]> (<[lit "s.identity" := mkScript [lit "local" ++ [0x0a]] []]>
    {[lit "s.nav" := mkScript [lit "ws=1 tabs=2 leaves=3" ++ [0x0a]] []]}).
Definition ffi_machine : Look.Machine :=
  Look.mkMachine (fun p => if bool_decide (p = lit "host-surface.toml") then Some [] else None) (fun _ => false)
    (fun p => bool_decide (p = lit "host-surface.toml")) None None None None.
Definition small_surface (_ : list Z) : result (list Z) RawSurface :=
  Ok (mkRaw (lit "Mono") f32_one None (Some 2) (Some 2) None None None None None).
Definition no_text (_ : Z) : list Z := [].
Definition ffi_demo (o : FOp) : Lib (gmap Path Script) (Script * list SockEvent) -> option (Answer * Lib (gmap Path Script) (Script * list SockEvent)) :=
  ffi_run ffi_machine small_surface 1 (fun _ => None) no_text [] (fun _ => 7) o.
Definition demo_library : Lib (gmap Path Script) (Script * list SockEvent) := mkLib ∅ None None None None None demo_network.
Definition after_connect : option (Answer * Lib (gmap Path Script) (Script * list SockEvent)) :=
  ffi_demo (FConnect 1 (Some (lit "s"))) demo_library.

(** The connection is made, the tabs are counted, and the pump fails: the error
    can be read. *)
Example refused_pump :
  option_map fst after_connect = Some (AInt 1) /\
  option_map fst (ffi_demo (FTabCount (Some (lit "s"))) demo_library) = Some (AInt 1) /\
  (match after_connect with
   | Some (_, l) => match ffi_demo (FPump 2 1) l with Some (a, l) => Some (a, rill_client_last_error l) | None => None end
   | None => None
   end) = Some (APumped (Some (-1)), Some (lit "attach refused")).
Proof. split; [vm_compute; reflexivity|]. split; vm_compute; reflexivity. Qed.

Definition demo_look : result Fault (result SurfaceError HostSurface) :=
  Eval vm_compute in load_surface ffi_machine small_surface 1.

Lemma demo_surface_sized : sized ffi_machine small_surface 1.
Proof.
  intros sf H. assert (E : load_surface ffi_machine small_surface 1 = demo_look) by (vm_compute; reflexivity).
  rewrite E in H. injection H as <-. by repeat split.
Qed.

Definition connected : Lib (gmap Path Script) (Script * list SockEvent) :=
  match after_connect with Some (_, l) => l | None => demo_library end.

Lemma connected_eq : after_connect = Some (AInt 1, connected).
Proof. vm_compute. reflexivity. Qed.

Lemma connected_reach : freach ffi_machine small_surface 1 (fun _ => None) no_text [] (fun _ => 7) 1 connected.
Proof.
  apply (freach_step ffi_machine small_surface 1 (fun _ => None) no_text [] (fun _ => 7) 0 (FConnect 1 (Some (lit "s"))) demo_library (AInt 1) connected).
  - apply freach_new.
  - split; [split; [done|split; [done|apply demo_surface_sized]]|done].
  - exact connected_eq.
Qed.

Lemma connected_pump_ok : op_ok ffi_machine small_surface 1 1 (FPump 2 1) connected.
Proof.
  split; [done|]. intros h [= <-]. right. destruct (clients connected !! 1) as [hd|] eqn:E; [|by vm_compute in E].
  exists hd. split; [done|]. assert (H : (h ← clients connected !! 1; Some (len (read_in (trace_of (h_client h))))) = Some 0) by (vm_compute; reflexivity).
  rewrite E in H. injection H as ->. cbn [reads_of]. unfold READ_CHUNK, LIMIT. lia.
Qed.

Lemma ffi_safe_witness : exists a l', ffi_demo (FPump 2 1) connected = Some (a, l') /\
  reports no_text [] connected l' (failed (FPump 2 1) a).
Proof.
  destruct (ffi_safe ffi_machine small_surface 1 (fun _ => None) no_text [] (fun _ => 7) 1 connected (FPump 2 1) connected_reach connected_pump_ok)
    as (a & l' & E & _ & Hrep).
  exists a, l'. split; [exact E|]. apply Hrep. discriminate.
Defined.
