(* ===== verification/Daemon.v ===== *)
(** The kernel daemon, crates/rilld/src/lib.rs: its clients over the attach
    protocol, the fan-out of terminal bytes, resynchronisation, and the cold
    navigation and content sockets.

    Sockets are the interface of [Socket]; [BlockOps] adds what the daemon asks
    of a freshly accepted one.  What [accept] and [poll] report is an argument
    ([Polled]).  The clock and the spawning of a shell are read from the
    environment at the current tick.  [HashMap] iteration order is unspecified:
    [hash_order] is any order of the keys.  [RILL_MUTATE] is unset. *)
From stdpp Require Import pretty.
From S2P Require Import Prelude Effect VtTypes Utf8 Parser Screen Engine Attach Ring Content Session Kernel Socket Text Cold.

Local Open Scope Z_scope.

(** [rilld::Error] *)
Inductive DaemonError : Type :=
| DIo (e : IoError)
| DKernel (e : KernelError)
| DAttach (e : AttachError)
| DChip (e : VtError)
| AlreadyRunning
| NestedLaunch
| UnprotectedEndpoint
| PeerRefused
| WorkerMissing.

(** What the daemon asks of an accepted stream besides [SockOps]; [is_gone] is
    the error kinds [BrokenPipe] and [ConnectionReset]. *)
Class BlockOps (K : Type) := {
  is_gone : IoError -> bool;
  sock_write_all : list Z -> K -> result IoError () * K;
  sock_set_nonblocking : bool -> K -> result IoError () * K;
  peer_authorized : K -> bool;
}.

Record Client (K : Type) := mkClient {
  cl_stream : K;
  cl_decoder : Decoder;
  cl_outbox : list Z;
  cl_leaf : option Z;
  cl_observe : bool;
  cl_protocol : Z;
  cl_credit : Z;
}.
Arguments mkClient {K}. Arguments cl_stream {K}. Arguments cl_decoder {K}. Arguments cl_outbox {K}.
Arguments cl_leaf {K}. Arguments cl_observe {K}. Arguments cl_protocol {K}. Arguments cl_credit {K}.

#[export] Instance dclient_eta {K} : Eta (Client K) := fun c =>
  mkClient (cl_stream c) (cl_decoder c) (cl_outbox c) (cl_leaf c) (cl_observe c) (cl_protocol c) (cl_credit c).

Record ContentConnection (K : Type) := mkConn {
  cc_stream : K;
  cc_input : list Z;
  cc_output : list Z;
  cc_handled : bool;
}.
Arguments mkConn {K}. Arguments cc_stream {K}. Arguments cc_input {K}. Arguments cc_output {K}.
Arguments cc_handled {K}.

#[export] Instance conn_eta {K} : Eta (ContentConnection K) := fun c =>
  mkConn (cc_stream c) (cc_input c) (cc_output c) (cc_handled c).

(** The listeners, paths, the lock and the shell's command line are the
    environment's; [ticks] counts the readings of the environment; [closed] is
    what became of the streams the daemon has closed. *)
Record Daemon (P K : Type) := mkDaemon {
  kern : Kernel P;
  default_id : Z;
  d_workspace : Z;
  clients : list (Client K);
  d_chip : VtEngine;
  is_worker : bool;
  nav_conns : list K;
  content_conns : list (ContentConnection K);
  content_timelines : gmap Z ContentTimeline;
  ticks : nat;
  closed : list K;
}.
Arguments mkDaemon {P K}. Arguments kern {P K}. Arguments default_id {P K}. Arguments d_workspace {P K}.
Arguments clients {P K}. Arguments d_chip {P K}. Arguments is_worker {P K}. Arguments nav_conns {P K}.
Arguments content_conns {P K}. Arguments content_timelines {P K}. Arguments ticks {P K}.
Arguments closed {P K}.

#[export] Instance daemon_eta {P K} : Eta (Daemon P K) := fun d =>
  mkDaemon (kern d) (default_id d) (d_workspace d) (clients d) (d_chip d) (is_worker d) (nav_conns d)
    (content_conns d) (content_timelines d) (ticks d) (closed d).

(** What one [poll] reports: the listeners with a connection waiting and what
    [accept] gives there, the readiness of the clients in order, the readable
    leaves. *)
Record Polled (K : Type) := mkPolled {
  po_client : option (result IoError K);
  po_identity : option (result IoError K);
  po_nav : option (result IoError K);
  po_content : option (result IoError K);
  po_ready : list bool;
  po_readable : result KernelError (list Z);
}.
Arguments mkPolled {K}. Arguments po_client {K}. Arguments po_identity {K}. Arguments po_nav {K}.
Arguments po_content {K}. Arguments po_ready {K}. Arguments po_readable {K}.

(** ** Pure parts *)

Definition encode_pod_grid (g : PodGrid) : list Z :=
  le_bytes 2 (pg_cols g) ++ le_bytes 2 (pg_rows g) ++ le_bytes 2 (pg_cursor_col g)
    ++ le_bytes 2 (pg_cursor_row g) ++ [if pg_cursor_visible g then 1 else 0]
    ++ concat (map (fun c => le_bytes 4 (pc_codepoint c) ++ le_bytes 4 (pc_fg c) ++ le_bytes 4 (pc_bg c)
                          ++ le_bytes 2 (pc_attrs c) ++ le_bytes 2 (pc_pad c)) (pg_cells g)).

Definition pod_hash (g : PodGrid) : Z :=
  fold_left (fun h c => (h * 16777619 + pc_codepoint c) mod 2 ^ 64) (pg_cells g) 0.

Definition live_chunk (credit n : Z) : option Z :=
  if n =? 0 then Some 0 else if credit <? n then None else Some n.

Section Clients.
Context {K : Type}.

Definition on_leaf_of (id : Z) (c : Client K) : bool := bool_decide (cl_leaf c = Some id).

(** One turn of the loop of [protocol1_writer_credit]. *)
Definition writer_credit (id : Z) (min_c : option Z) (c : Client K) : option Z :=
  if negb (on_leaf_of id c) || cl_observe c || (cl_protocol c =? PROTOCOL_2) then min_c
  else Some (match min_c with Some m => Z.min m (cl_credit c) | None => cl_credit c end).
Definition protocol1_writer_credit (cs : list (Client K)) (id : Z) : option Z :=
  fold_left (writer_credit id) cs None.

Definition has_protocol2 (cs : list (Client K)) (id : Z) : bool :=
  existsb (fun c => on_leaf_of id c && (cl_protocol c =? PROTOCOL_2)) cs.

Definition queue_bytes (bs : list Z) (c : Client K) : Client K := c <| cl_outbox := cl_outbox c ++ bs |>.

(** [c.outbox.extend(frame.encode()?)] *)
Definition queue_frame (f : Frame) (c : Client K) : result DaemonError () * Client K :=
  match encode f with
  | Ok bs => (Ok (), c <| cl_outbox := cl_outbox c ++ bs |>)
  | Err e => (Err (DAttach e), c)
  end.

(** One turn of the loop of [fanout_pty_bytes].  [None] is a panic of
    [c.credit -= n] or of the slice. *)
Definition fanout_client (id offset : Z) (bs : list Z) (c : Client K)
  : option (result DaemonError () * Client K) :=
  if negb (on_leaf_of id c) then Some (Ok (), c)
  else
    match live_chunk (cl_credit c) (len bs) with
    | None => Some (Ok (), c)
    | Some n =>
        credit ← chk_sub (cl_credit c) n;
        let c := c <| cl_credit := credit |> in
        chunk ← slice bs 0 n;
        let frame :=
          if cl_protocol c =? PROTOCOL_2 then Delta (sat_sub offset (len bs)) chunk else Data chunk in
        Some (queue_frame frame c)
    end.

Fixpoint fanout_clients (id offset : Z) (bs : list Z) (cs : list (Client K))
  : option (result DaemonError () * list (Client K)) :=
  match cs with
  | [] => Some (Ok (), [])
  | c :: cs =>
      '(r, c) ← fanout_client id offset bs c;
      match r with
      | Err e => Some (Err e, c :: cs)
      | Ok _ => '(r, cs) ← fanout_clients id offset bs cs; Some (r, c :: cs)
      end
  end.
End Clients.

Section DaemonOps.
Context {P : Type} `{!PtyOps P} {K : Type} `{!SockOps K, !BlockOps K}.
(** [Instant::now()] and what spawning a shell gives, at each tick;
    [lease_grace()]; the order of a [HashMap]'s keys. *)
Context (instant : nat -> Z) (shell : nat -> result KernelError (Session P)) (grace : Z).
Context (hash_order : Kernel P -> list Z).
Abbreviation Dm := (Daemon P K).
Abbreviation D := (ST DaemonError Dm).

Definition tick : D nat := fun d => Some (Ok (ticks d), d <| ticks := S (ticks d) |>).

(** [self.kernel.m(..)?] *)
Definition on_kernel {A} (m : SE (Kernel P) A) : D A := fun d =>
  '(r, k) ← m (kern d);
  Some (match r with Ok a => Ok a | Err e => Err (DKernel e) end, d <| kern := k |>).

Definition session (id : Z) (d : Dm) : option (Session P) := leaves (kern d) !! id.

(** [if let Some(s) = self.kernel.session_mut(id) { f(s) }] *)
Definition update_session (id : Z) (f : Session P -> Session P) (d : Dm) : Dm :=
  d <| kern := kern d <| leaves := alter f id (leaves (kern d)) |> |>.

(** [if let Some(c) = self.clients.get_mut(i) { f(c) }] *)
Definition update_client (i : nat) (f : Client K -> Client K) (d : Dm) : Dm :=
  d <| clients := alter f i (clients d) |>.

(** [if let Some(c) = self.clients.get_mut(i) { c.outbox.extend(f.encode()?) }] *)
Definition send_to (i : nat) (f : Frame) : D () := fun d =>
  match clients d !! i with
  | None => Some (Ok (), d)
  | Some c => let '(r, c) := queue_frame f c in Some (r, d <| clients := <[i := c]> (clients d) |>)
  end.

Definition leaf_of (i : nat) (d : Dm) : option Z := clients d !! i ≫= cl_leaf.

(** ** Clients *)

Definition drop_client (i : nat) (d : Dm) : Dm :=
  match clients d !! i with
  | None => d
  | Some c =>
      let d :=
        match cl_leaf c with
        | Some id => update_session id (if cl_observe c then release_observer else detach) d
        | None => d
        end in
      d <| clients := delete i (clients d) |> <| closed := closed d ++ [cl_stream c] |>
  end.

Definition resolve_attach (session_id : option Z) (d : Dm) : option Z :=
  match session_id with
  | None => Some (default_id d)
  | Some raw => if bool_decide (session raw d <> None) then Some raw else None
  end.

(** [match self.kernel.on_frame(id, f) { Ok(()) | Err(Dead) => .., Err(e) => return Err(e) }] *)
Definition kernel_frame (t : nat) (id : Z) (f : Frame) : D () := fun d =>
  '(r, k) ← kernel_on_frame (instant t) grace id f (kern d);
  Some (match r with Ok _ | Err Dead => Ok () | Err e => Err (DKernel e) end, d <| kern := k |>).
Definition forward (id : Z) (f : Frame) : D () := t ← tick; kernel_frame t id f.

Definition chip_op (m : VtEngine -> option (result VtError () * VtEngine)) : D () := fun d =>
  '(r, e) ← m (d_chip d);
  Some (match r with Ok _ => Ok () | Err e => Err (DChip e) end, d <| d_chip := e |>).

Definition emit_checkpoint (i : nat) (id : Z) : D () := fun d =>
  match session id d with
  | None => Some (Ok (), d)
  | Some s =>
      let hist := ring_snapshot (ring s) in
      let offset := bytes_delivered s in
      (_ ← chip_op (fun e => Some (Engine.reset e));
       _ ← (if negb (len hist =? 0)
            then chip_op (fun e => e ← Engine.feed hist e; Some (Ok (), e)) else mret ());
       grid ← (fun d => '(g, e) ← Engine.snapshot (d_chip d); Some (Ok g, d <| d_chip := e |>));
       send_to i (CheckpointFrame offset (pod_hash grid) (encode_pod_grid grid))) d
  end.

(** The rest of an accepted attach. *)
Definition attached_to (i : nat) (id protocol : Z) (observe : bool) : D () :=
  _ ← modify (update_client i (fun c =>
        c <| cl_leaf := Some id |> <| cl_observe := observe |> <| cl_protocol := protocol |>));
  if protocol =? PROTOCOL_2 then emit_checkpoint i id
  else if observe then
    fun d =>
      match session id d with
      | None => Some (Ok (), d)
      | Some s =>
          let hist := ring_snapshot (ring s) in
          if negb (len hist =? 0) then send_to i (Data hist) d else Some (Ok (), d)
      end
  else mret ().

Definition is_attached (id : Z) (d : Dm) : bool := leaf_attached id (kern d).

Definition on_attach_frame (i : nat) (generation : Z) (session_id : option Z) (protocol : Z)
    (observe : bool) : D () := fun d =>
  if negb (protocol_supported protocol) then send_to i (Refused ProtocolMismatch) d
  else
    match resolve_attach session_id d with
    | None => send_to i (Refused Invalid) d
    | Some id =>
        let already := is_attached id d in
        let mine := bool_decide (leaf_of i d = Some id) in
        if already && negb mine && negb observe then send_to i (Refused AlreadyAttached) d
        else
          (_ ← forward id (Attach generation session_id protocol observe);
           now_attached ← gets (is_attached id);
           if observe || (now_attached : bool) then attached_to i id protocol observe else mret ()) d
    end.

(** [apply_observer_viewport] changes nothing. *)
Definition dispatch_frame (i : nat) (f : Frame) : D () :=
  match f with
  | Attach generation session_id protocol observe =>
      on_attach_frame i generation session_id protocol observe
  | other => fun d =>
      if bool_decide (leaf_of i d = None) then Some (Ok (), drop_client i d)
      else
        let observe := match clients d !! i with Some c => cl_observe c | None => false end in
        if observe && match other with Data _ | Resize _ _ _ _ => true | _ => false end
        then Some (Ok (), d)
        else
          let d :=
            match other with
            | Credit n => update_client i (fun c => c <| cl_credit := sat_add u64_max (cl_credit c) n |>) d
            | _ => d
            end in
          forward (default (default_id d) (leaf_of i d)) other d
  end.

Fixpoint dispatch_frames (i : nat) (fs : list Frame) : D () :=
  match fs with
  | [] => mret ()
  | f :: fs => _ ← dispatch_frame i f; dispatch_frames i fs
  end.

Definition READ_LEN : Z := 8192.

Definition read_client (i : nat) : D () := fun d =>
  match clients d !! i with
  | None => Some (Ok (), d)
  | Some c =>
      let '(r, k) := sock_read READ_LEN (cl_stream c) in
      let d := update_client i (fun c => c <| cl_stream := k |>) d in
      match r with
      | Err WouldBlock => Some (Ok (), d)
      | Err (IoCode _) => Some (Ok (), drop_client i d)
      | Ok bs =>
          if len bs =? 0 then Some (Ok (), drop_client i d)
          else
            '(r, dec) ← push bs (cl_decoder c);
            let d := update_client i (fun c => c <| cl_decoder := dec |>) d in
            match r with
            | Err _ => Some (Ok (), drop_client i d)
            | Ok fs => dispatch_frames i fs d
            end
      end
  end.

(** The loop over the clients that were there when [poll] was called. *)
Fixpoint read_clients (ready : list bool) (i : nat) : D () :=
  match ready with
  | [] => mret ()
  | r :: ready => fun d =>
      if (i <? length (clients d))%nat then
        if r : bool then
          (_ ← read_client i;
           n ← gets (fun d => length (clients d));
           if (i <? n)%nat then read_clients ready (S i) else mret ()) d
        else read_clients ready (S i) d
      else Some (Ok (), d)
  end.

(** ** Terminal bytes *)

Definition fanout_pty_bytes (id offset : Z) (bs : list Z) : D () := fun d =>
  '(r, cs) ← fanout_clients id offset bs (clients d); Some (r, d <| clients := cs |>).

(** [let Some(s) = self.kernel.session_mut(id) else { break }; s.m()?] *)
Definition on_session {A} (id : Z) (m : SE (Session P) A) : D (option A) := fun d =>
  match session id d with
  | None => Some (Ok None, d)
  | Some _ => (a ← on_kernel (on_leaf id m); mret (Some a)) d
  end.

(** The inner loop of [poll_io] over one readable leaf.  [Ok false] is running
    out of fuel: the leaf is still giving bytes. *)
Fixpoint drain_loop (fuel : nat) (id : Z) : D bool :=
  match fuel with
  | O => mret false
  | S fuel => fun d =>
      let proto2 := has_protocol2 (clients d) id in
      let p1_cap := protocol1_writer_credit (clients d) id in
      if proto2 || is_worker d then
        if bool_decide (p1_cap = Some 0) then Some (Ok true, update_session id note_stalled_read d)
        else
          (drained ← on_session id (drain_pty_at_most p1_cap);
           match drained with
           | Some (Some bs) =>
               offset ← gets (fun d => match session id d with Some s => bytes_delivered s | None => 0 end);
               _ ← fanout_pty_bytes id offset bs;
               drain_loop fuel id
           | Some None | None => mret true
           end) d
      else
        match session id d with
        | None => Some (Ok true, d)
        | Some s =>
            if 0 <? credit s then
              (got ← on_session id on_pty_readable;
               if 0 <? default 0 got then drain_loop fuel id else mret true) d
            else Some (Ok true, d)
        end
  end.

(** [Ok false] when some leaf ran out of fuel. *)
Fixpoint drain_leaves (fuel : nat) (readable : list Z) : D bool :=
  match readable with
  | [] => mret true
  | id :: ids =>
      finished ← drain_loop fuel id;
      if finished : bool then drain_leaves fuel ids else mret false
  end.

(** ** Outbound frames *)

(** [while let Some(f) = session.pop_outbound()]; the frames there are bound
    the loop. *)
Fixpoint pop_loop (fuel : nat) (s : Session P) (acc : list Frame) : list Frame * Session P :=
  match fuel with
  | O => (acc, s)
  | S fuel =>
      match pop_outbound s with
      | (None, s) => (acc, s)
      | (Some f, s) => pop_loop fuel s (acc ++ [f])
      end
  end.
Definition pop_all (s : Session P) : list Frame * Session P := pop_loop (length (outbound s)) s [].

Definition keep_control (s : Session P) : Session P :=
  let '(frames, s) := pop_all s in
  fold_left (fun s f => enqueue_outbound f s) (List.filter (fun f => negb (is_data f)) frames) s.

Definition claimed (d : Dm) : list Z := omap cl_leaf (clients d).

Definition keep_unclaimed (d : Dm) : Dm :=
  fold_left (fun d' id => if bool_decide (id ∈ claimed d) then d' else update_session id keep_control d')
    (hash_order (kern d)) d.

(** [pending]: the frames of each claimed leaf, taken once. *)
Fixpoint take_pending (ids : list Z) (pending : gmap Z (list Frame)) (d : Dm) : gmap Z (list Frame) * Dm :=
  match ids with
  | [] => (pending, d)
  | id :: ids =>
      if bool_decide (pending !! id <> None) then take_pending ids pending d
      else
        match session id d with
        | Some s =>
            let '(frames, s) := pop_all s in
            take_pending ids (<[id := frames]> pending) (update_session id (fun _ => s) d)
        | None => take_pending ids (<[id := []]> pending) d
        end
  end.

Fixpoint queue_frames (fs : list Frame) (c : Client K) : result DaemonError () * Client K :=
  match fs with
  | [] => (Ok (), c)
  | f :: fs =>
      if (cl_protocol c =? PROTOCOL_2) && is_data f then queue_frames fs c
      else
        match queue_frame f c with
        | (Ok _, c) => queue_frames fs c
        | (Err e, c) => (Err e, c)
        end
  end.

(** One client of [flush_outbound]; [Ok true] when its socket failed. *)
Definition flush_client (pending : gmap Z (list Frame)) (c : Client K)
  : option (result DaemonError bool * Client K) :=
  let frames := match cl_leaf c with Some id => default [] (pending !! id) | None => [] end in
  match queue_frames frames c with
  | (Err e, c) => Some (Err e, c)
  | (Ok _, c) =>
      '(r, q, k) ← write_outbox (cl_outbox c) (cl_stream c);
      Some (Ok (match r with Ok _ => false | Err _ => true end),
            c <| cl_outbox := q |> <| cl_stream := k |>)
  end.

(** [Some i] is [drop_idx]. *)
Fixpoint flush_clients (pending : gmap Z (list Frame)) (i : nat) (cs : list (Client K))
  : option (result DaemonError (option nat) * list (Client K)) :=
  match cs with
  | [] => Some (Ok None, [])
  | c :: cs =>
      '(r, c) ← flush_client pending c;
      match r with
      | Err e => Some (Err e, c :: cs)
      | Ok true => Some (Ok (Some i), c :: cs)
      | Ok false => '(r, cs) ← flush_clients pending (S i) cs; Some (r, c :: cs)
      end
  end.

Definition flush_outbound : D () := fun d =>
  let d := keep_unclaimed d in
  let '(pending, d) := take_pending (claimed d) ∅ d in
  '(r, cs) ← flush_clients pending 0 (clients d);
  let d := d <| clients := cs |> in
  Some (match r with
        | Ok (Some i) => (Ok (), drop_client i d)
        | Ok None => (Ok (), d)
        | Err e => (Err e, d)
        end).

(** ** Resynchronisation *)

Definition resync_leaf (id : Z) : D () := fun d =>
  match session id d with
  | None => Some (Ok (), d)
  | Some s =>
      let '(history, s) := take_resync_history s in
      let d := update_session id (fun _ => s) d in
      match history with
      | None => Some (Ok (), d)
      | Some history =>
          if has_protocol2 (clients d) id then Some (Ok (), d)
          else
            '(r, e) ← Engine.resync_from_history history (d_chip d);
            let d := d <| d_chip := e |> in
            match r with
            | Err e => Some (Err (DChip e), d)
            | Ok bs =>
                Some (Ok (), if negb (len bs =? 0) then update_session id (enqueue_outbound (Data bs)) d else d)
            end
      end
  end.

Fixpoint resync_leaves (ids : list Z) : D () :=
  match ids with
  | [] => mret ()
  | id :: ids => _ ← resync_leaf id; resync_leaves ids
  end.

Definition maybe_resync : D () := fun d => resync_leaves (hash_order (kern d)) d.

(** ** The cold sockets *)

(** [accept()]: nothing waiting, a stream, or an error that ends the daemon. *)
Definition accepting (o : option (result IoError K)) (f : K -> D ()) : D () :=
  match o with
  | None | Some (Err WouldBlock) => mret ()
  | Some (Ok k) => f k
  | Some (Err e) => fail (DIo e)
  end.

Definition io_result (r : result IoError ()) : result DaemonError () :=
  match r with Ok _ => Ok () | Err e => Err (DIo e) end.

Definition close_stream (k : K) (d : Dm) : Dm := d <| closed := closed d ++ [k] |>.

Definition accept_client (o : option (result IoError K)) : D () :=
  accepting o (fun k =>
    if negb (peer_authorized k) then modify (close_stream k)
    else
      let '(r, k) := sock_set_nonblocking true k in
      _ ← of_result (io_result r);
      modify (fun d => d <| clients :=
        clients d ++ [mkClient k decoder_new [] None false PROTOCOL_VERSION 0] |>)).

(** [HostIdentity::Local.as_wire()] *)
Definition identity_wire : list Z := lit "local" ++ [0x0a].

Definition serve_cold_identity (o : option (result IoError K)) : D () :=
  accepting o (fun k d =>
    match session (default_id d) d with
    | None => Some (Err (DKernel UnknownSession), d)
    | Some _ =>
        let '(r, k) := sock_write_all identity_wire k in
        Some (match r with
              | Err e => if is_gone e then Ok () else Err (DIo e)
              | Ok _ => Ok ()
              end, close_stream k d)
    end).

Definition nav_line (d : Dm) : list Z := nav_snapshot_line (d_workspace d) (container_snapshot (kern d)).

Definition accept_cold_nav (o : option (result IoError K)) : D () :=
  accepting o (fun k =>
    let k := snd (sock_set_nonblocking false k) in
    line ← gets nav_line;
    let '(r, k) := sock_write_all line k in
    match r with
    | Ok _ =>
        let k := snd (sock_set_nonblocking true k) in
        modify (fun d => d <| nav_conns := nav_conns d ++ [k] |>)
    | Err WouldBlock => modify (fun d => d <| nav_conns := nav_conns d ++ [k] |>)
    | Err e => _ ← modify (close_stream k); if is_gone e then mret () else fail (DIo e)
    end).

Definition spawn_tab_leaf : D () :=
  t ← tick;
  leaf ← on_kernel (spawn_leaf_with (shell t));
  ws ← gets d_workspace;
  tab ← on_kernel (create_node Tab (Some ws));
  on_kernel (attach_leaf tab leaf).

(** One connection of [poll_nav_commands]: the stream, and whether it stays.
    The lossy UTF-8 conversion keeps ASCII as it is, so the command is looked for
    in the bytes. *)
Definition NAV_CMD_LEN : Z := 64.
Definition nav_command (k : K) (d : Dm) : option (result DaemonError bool * K * Dm) :=
  let '(r, k) := sock_read NAV_CMD_LEN k in
  match r with
  | Err WouldBlock => Some (Ok true, k, d)
  | Err (IoCode _) => Some (Ok false, k, d)
  | Ok bs =>
      if (len bs =? 0) || negb (str_contains bs (lit "NEW_TAB")) then Some (Ok false, k, d)
      else
        '(r, d) ← spawn_tab_leaf d;
        match r with
        | Err e => Some (Err e, k, d)
        | Ok _ =>
            let k := snd (sock_set_nonblocking false k) in
            Some (Ok false, snd (sock_write_all (nav_line d) k), d)
        end
  end.

(** A failure of [spawn_tab_leaf] leaves the connections where they are. *)
Fixpoint nav_commands (conns kept : list K) : D () := fun d =>
  match conns with
  | [] => Some (Ok (), d <| nav_conns := kept |>)
  | k :: conns =>
      '(r, k, d) ← nav_command k d;
      match r with
      | Ok true => nav_commands conns (kept ++ [k]) d
      | Ok false => nav_commands conns kept (close_stream k d)
      | Err e => Some (Err e, d <| nav_conns := kept ++ k :: conns |>)
      end
  end.
Definition poll_nav_commands : D () := fun d => nav_commands (nav_conns d) [] d.

Definition accept_cold_content (o : option (result IoError K)) : D () :=
  accepting o (fun k =>
    let '(r, k) := sock_set_nonblocking true k in
    _ ← of_result (io_result r);
    modify (fun d => d <| content_conns := content_conns d ++ [mkConn k [] [] false] |>)).

(** [request.kind], the execution id resolved against the default leaf. *)
Definition request_leaf (r : ContentRequest) (d : Dm) : Z :=
  if execution r =? 0 then default_id d else execution r.

Definition input_id (id sequence : Z) : string :=
  (("input-" +:+ pretty id) +:+ "-" +:+ pretty sequence)%string.

(** [timeline.len() as u64 + 1] panics past the end of u64. *)
Definition content_response (r : ContentRequest) (d : Dm) : option (list Z * Dm) :=
  let id := request_leaf r d in
  if bool_decide (session id d = None) then Some (content_error_response 2, d)
  else
    let timeline := default timeline_new (content_timelines d !! id) in
    let d := d <| content_timelines := <[id := timeline]> (content_timelines d) |> in
    if req_kind r =? 2 then
      if CONTENT_TIMELINE_MAX_ITEMS <=? len (events timeline) then Some (content_error_response 3, d)
      else if bool_decide (from_utf8 (req_payload r) = None) then Some (content_error_response 1, d)
      else
        sequence ← chk_add u64_max (len (events timeline)) 1;
        let event := structured_terminal_input (input_id id sequence) sequence (req_payload r) in
        let '(res, timeline) := timeline_append event timeline in
        let d := d <| content_timelines := <[id := timeline]> (content_timelines d) |> in
        match res with
        | Err _ => Some (content_error_response 3, d)
        | Ok _ => Some (encode_content_snapshot timeline, d)
        end
    else if negb (req_kind r =? 1) || negb (len (req_payload r) =? 0)
    then Some (content_error_response 1, d)
    else Some (encode_content_snapshot timeline, d).

(** The loop that reads a request; [true] when the connection is to be removed.
    Every turn that goes on adds a byte to an input of at most
    [CONTENT_REQUEST_MAX + 17], which bounds the loop; [None] is running out of
    fuel. *)
Definition CONTENT_READ_LEN : Z := 4096.
Fixpoint read_request (fuel : nat) (c : ContentConnection K) : option (bool * ContentConnection K) :=
  match fuel with
  | O => None
  | S fuel =>
      let '(r, k) := sock_read CONTENT_READ_LEN (cc_stream c) in
      let c := c <| cc_stream := k |> in
      match r with
      | Err WouldBlock => Some (false, c)
      | Err (IoCode _) => Some (true, c)
      | Ok bs =>
          if len bs =? 0 then Some (true, c)
          else if CONTENT_REQUEST_MAX + 17 <? sat_add u64_max (len (cc_input c)) (len bs)
          then Some (false, c <| cc_output := content_error_response 1 |> <| cc_handled := true |>)
          else read_request fuel (c <| cc_input := cc_input c ++ bs |>)
      end
  end.
Definition REQUEST_FUEL : nat := Z.to_nat (CONTENT_REQUEST_MAX + 19).

(** Decoding and answering what has arrived. *)
Definition answer_request (c : ContentConnection K) (d : Dm) : option (ContentConnection K * Dm) :=
  o ← decode_content_request (cc_input c);
  match o with
  | Ok (Some r) =>
      '(response, d) ← content_response r d;
      Some (c <| cc_output := response |> <| cc_handled := true |>, d)
  | Ok None => Some (c, d)
  | Err _ => Some (c <| cc_output := content_error_response 1 |> <| cc_handled := true |>, d)
  end.

(** One connection of [poll_content_commands], and whether it stays. *)
Definition content_command (c : ContentConnection K) (d : Dm)
  : option (bool * ContentConnection K * Dm) :=
  '(remove, c) ← (if cc_handled c then Some (false, c) else read_request REQUEST_FUEL c);
  '(c, d) ← (if negb remove && negb (cc_handled c) then answer_request c d else Some (c, d));
  if remove || negb (cc_handled c) then Some (negb remove, c, d)
  else
    '(r, q, k) ← write_outbox (cc_output c) (cc_stream c);
    Some (match r with Err _ => false | Ok _ => negb (len q =? 0) end,
          c <| cc_output := q |> <| cc_stream := k |>, d).

Fixpoint content_commands (conns kept : list (ContentConnection K)) (d : Dm) : option Dm :=
  match conns with
  | [] => Some (d <| content_conns := kept |>)
  | c :: conns =>
      '(stays, c, d) ← content_command c d;
      if stays : bool then content_commands conns (kept ++ [c]) d
      else content_commands conns kept (close_stream (cc_stream c) d)
  end.
Definition poll_content_commands : D () := fun d =>
  d ← content_commands (content_conns d) [] d; Some (Ok (), d).

(** ** The step *)

Fixpoint reap_all (ids : list Z) : D () :=
  match ids with
  | [] => mret ()
  | id :: ids => t ← tick; _ ← on_kernel (reap (instant t) id); reap_all ids
  end.

(** [Ok false] is a leaf whose drain ran out of fuel. *)
Definition poll_io (fuel : nat) (po : Polled K) : D bool :=
  readable ← of_result (match po_readable po with Ok ids => Ok ids | Err e => Err (DKernel e) end);
  _ ← accept_client (po_client po);
  _ ← serve_cold_identity (po_identity po);
  _ ← accept_cold_nav (po_nav po);
  _ ← accept_cold_content (po_content po);
  _ ← poll_nav_commands;
  _ ← poll_content_commands;
  _ ← read_clients (po_ready po) 0;
  drain_leaves fuel readable.

Definition step (fuel : nat) (po : Polled K) : D bool :=
  ids ← gets (fun d => hash_order (kern d));
  _ ← reap_all ids;
  finished ← poll_io fuel po;
  if finished : bool then
    _ ← flush_outbound;
    _ ← maybe_resync;
    mret true
  else mret false.

Definition step_timeout_ms (d : Dm) : Z :=
  if existsb (fun c => negb (len (cl_outbox c) =? 0)) (clients d) then 0 else 50.

(** [bind], given the spawned shell and the listeners: the default leaf in the
    first tab of the workspace. *)
Definition bind (spawned : result KernelError (Session P)) (cols rows : Z) (worker : bool)
  : option (result DaemonError Dm) :=
  '(r, k) ← (default_id ← spawn_leaf_with spawned;
             workspace_id ← create_node Workspace None;
             tab ← create_node Tab (Some workspace_id);
             _ ← attach_leaf tab default_id;
             mret (default_id, workspace_id)) kernel_new;
  match r with
  | Err e => Some (Err (DKernel e))
  | Ok (id, ws) =>
      Some (match Engine.new cols rows with
            | Err e => Err (DChip e)
            | Ok chip => Ok (mkDaemon k id ws [] chip worker [] [] ∅ 0 [])
            end)
  end.
End DaemonOps.
