(* ===== verification/DaemonFacts.v ===== *)
(** The daemon's terminal bytes and frames: what the fan-out gives each client,
    what a flush puts on each wire, and that a client is only ever sent whole
    frames. *)
From S2P Require Import Prelude Effect VtTypes Utf8 Parser Screen Engine Attach AttachFacts Ring Content Session SessionFacts Kernel Forest KernelFacts Socket Text Cold Daemon.

Local Open Scope Z_scope.

(** ** Encoding *)

Lemma encode_len f bs : encode f = Ok bs -> len bs <= 5 + MAX_FRAME.
Proof.
  assert (Hok : forall x : list Z, @Ok AttachError _ x = Ok bs -> x = bs) by congruence.
  unfold encode. case_if; [done|]. intros <-%Hok. rewrite len_cons, len_app, len_le_bytes. lia.
Qed.

(** A chunk of one read fits a frame. *)
Lemma chunk_encodes f bs : (f = Data bs \/ exists off, f = Delta off bs) -> len bs <= READ_BUF ->
  exists w, encode f = Ok w.
Proof.
  intros Hf Hb. unfold encode. assert (len (payload f) <= MAX_FRAME).
  { destruct Hf as [->|[off ->]]; cbn [payload]; [|rewrite len_app, len_le_bytes]; unfold READ_BUF, MAX_FRAME in *; lia. }
  rewrite (proj2 (Z.ltb_ge _ _)) by lia. by eexists.
Qed.

Section Fanout.
Context {K : Type}.
Implicit Types (c : Client K) (cs : list (Client K)).

(** The frame a client of protocol [p] gets for the chunk that ends at
    [offset]. *)
Definition chunk_frame (p offset : Z) (bs : list Z) : Frame :=
  if p =? PROTOCOL_2 then Delta (sat_sub offset (len bs)) bs else Data bs.


Definition takes (id : Z) (bs : list Z) c : Prop := cl_leaf c = Some id /\ len bs <= cl_credit c.

(** All or nothing. *)
Definition served (id offset : Z) (bs : list Z) c : Client K :=
  if bool_decide (cl_leaf c = Some id) && (len bs <=? cl_credit c)
  then c <| cl_credit := cl_credit c - len bs |>
         <| cl_outbox := cl_outbox c ++ encoded (chunk_frame (cl_protocol c) offset bs) |>
  else c.

Lemma live_chunk_eq credit n : 0 <= n -> 0 <= credit -> live_chunk credit n = if n <=? credit then Some n else None.
Proof. intros. unfold live_chunk. destruct (Z.eqb_spec n 0); repeat case_if; f_equal; lia. Qed.

Lemma fanout_client_eq id offset bs c :
  len bs <= READ_BUF -> 0 <= cl_credit c ->
  fanout_client id offset bs c = Some (Ok (), served id offset bs c).
Proof.
  intros Hb Hc. unfold fanout_client, served, on_leaf_of. case_bool_decide as Hl; [|done]. cbn [negb andb].
  pose proof (len_nonneg bs). rewrite live_chunk_eq by lia. destruct (Z.leb_spec (len bs) (cl_credit c)); [|done].
  unfold chk_sub. rewrite (proj2 (Z.leb_le _ _)) by lia. cbn [mbind option_bind].
  rewrite (slice_is bs [] bs [] 0 (len bs)) by (rewrite ?app_nil_r; done || lia). cbn [mbind option_bind].
  unfold queue_frame. change (cl_protocol (c <| cl_credit := _ |>)) with (cl_protocol c).
  fold (chunk_frame (cl_protocol c) offset bs). unfold encoded.
  destruct (chunk_encodes (chunk_frame (cl_protocol c) offset bs) bs) as [w Hw]; [|done|by rewrite Hw].
  unfold chunk_frame. case_if; [right; by eexists|by left].
Qed.

Lemma fanout_clients_eq id offset bs cs :
  len bs <= READ_BUF -> Forall (fun c => 0 <= cl_credit c) cs ->
  fanout_clients id offset bs cs = Some (Ok (), map (served id offset bs) cs).
Proof.
  intros Hb. induction 1 as [|c cs Hc _ IH]; [done|]. cbn [fanout_clients map].
  rewrite fanout_client_eq by done. cbn [mbind option_bind]. by rewrite IH.
Qed.

(** The credit of the protocol-1 writers bounds what is read for them. *)
Definition p1_writer (id : Z) c : Prop :=
  cl_leaf c = Some id /\ cl_observe c = false /\ cl_protocol c <> PROTOCOL_2.

Lemma writer_credit_cases id m c :
  (p1_writer id c /\ writer_credit id m c = Some (default (cl_credit c) ((fun x => Z.min x (cl_credit c)) <$> m))) \/
  (~ p1_writer id c /\ writer_credit id m c = m).
Proof.
  unfold writer_credit, on_leaf_of, p1_writer. case_bool_decide; cbn [negb orb]; [|right; by split; [intros [? _]|]].
  destruct (cl_observe c); cbn [orb]; [right; by split; [intros (_ & ? & _)|]|].
  destruct (Z.eqb_spec (cl_protocol c) PROTOCOL_2); [right; by split; [intros (_ & _ & ?)|]|left; by destruct m].
Qed.

Lemma writer_credit_fold id cs m :
  (forall x, m = Some x -> exists y, fold_left (writer_credit id) cs m = Some y /\ y <= x) /\
  (forall c, c ∈ cs -> p1_writer id c -> exists y, fold_left (writer_credit id) cs m = Some y /\ y <= cl_credit c) /\
  (Forall (fun c => 0 <= cl_credit c) cs -> (forall x, m = Some x -> 0 <= x) ->
   forall y, fold_left (writer_credit id) cs m = Some y -> 0 <= y).
Proof.
  revert m. induction cs as [|c cs IH]; intros m; cbn [fold_left].
  { split_and!; [intros x ->; exists x; split; [done|lia]|by intros c Hc%not_elem_of_nil|by auto]. }
  destruct (IH (writer_credit id m c)) as (I1 & I2 & I3).
  destruct (writer_credit_cases id m c) as [[Hw E]|[Hw E]]; rewrite E in *; split_and!.
  - intros x ->. destruct (I1 _ eq_refl) as (y & Hy & Hle). exists y. cbn in Hle. split; [done|lia].
  - intros c' [->|Hc]%elem_of_cons Hc'; [|by apply I2]. destruct (I1 _ eq_refl) as (y & Hy & Hle).
    exists y. split; [done|]. destruct m; cbn in Hle; lia.
  - intros [Hc Hf]%Forall_cons Hm. apply I3; [done|]. intros x [= <-]. destruct m as [x|]; cbn; [|done].
    specialize (Hm x eq_refl). lia.
  - done.
  - intros c' [->|Hc]%elem_of_cons Hc'; [done|by apply I2].
  - intros [_ Hf]%Forall_cons. by apply I3.
Qed.

Lemma writer_credit_le id cs c :
  c ∈ cs -> p1_writer id c -> exists y, protocol1_writer_credit cs id = Some y /\ y <= cl_credit c.
Proof. apply (writer_credit_fold id cs None). Qed.

Lemma writer_credit_nonneg id cs y :
  Forall (fun c => 0 <= cl_credit c) cs -> protocol1_writer_credit cs id = Some y -> 0 <= y.
Proof. intros Hf. apply (writer_credit_fold id cs None); done. Qed.
End Fanout.

(** ** Taking a session's frames *)

Section Pop.
Context {P : Type}.
Implicit Types (s : Session P).

Lemma pop_loop_eq s acc : pop_loop (length (outbound s)) s acc = (acc ++ outbound s, s <| outbound := [] |>).
Proof.
  remember (outbound s) as q eqn:Hq. revert s acc Hq. induction q as [|f q IH]; intros s acc Hq; cbn [pop_loop length].
  - rewrite app_nil_r. f_equal. destruct s; cbn in *; by subst.
  - unfold pop_outbound. rewrite <- Hq. rewrite (IH (s <| outbound := q |>)) by done. rewrite <- app_assoc. done.
Qed.

Lemma pop_all_eq s : pop_all s = (outbound s, s <| outbound := [] |>).
Proof. unfold pop_all. by rewrite pop_loop_eq. Qed.

Lemma fold_enqueue fs s :
  fold_left (fun s f => enqueue_outbound f s) fs s = s <| outbound := outbound s ++ fs |>.
Proof.
  revert s. induction fs as [|f fs IH]; intros s; cbn [fold_left].
  - rewrite app_nil_r. by destruct s.
  - rewrite IH. unfold enqueue_outbound. cbn. by rewrite <- app_assoc.
Qed.

(** An unclaimed leaf keeps its control frames and loses its terminal bytes. *)
Lemma keep_control_eq s :
  keep_control s = s <| outbound := List.filter (fun f => negb (is_data f)) (outbound s) |>.
Proof. unfold keep_control. rewrite pop_all_eq. by rewrite fold_enqueue. Qed.
End Pop.

(** ** Reading a leaf *)

Section Drain.
Context {P : Type} `{!PtyOps P, !PtyLaws P} {K : Type} `{!SockOps K, !BlockOps K}.
Abbreviation TP := (P * list PtyEvent)%type.
Abbreviation S := (Session TP).
Abbreviation Dm := (Daemon TP K).
Implicit Types (s : S) (d : Dm) (c : Client K).

(** What one drain gives is what was read from the PTY, and no more than was
    asked for. *)
Lemma drain_exact max s r s' :
  0 <= default READ_BUF max -> drain_pty_at_most max s = Some (r, s') ->
  match r with
  | Ok (Some bs) => reads (trace s') = reads (trace s) ++ bs /\ 0 < len bs <= Z.min (default READ_BUF max) READ_BUF /\ bytes bs
  | _ => reads (trace s') = reads (trace s)
  end.
Proof.
  intros Hmax. unfold drain_pty_at_most. destruct (child_exit s); [by intros [= <- <-]|]. cbv zeta.
  case_if; [by intros [= <- <-]|]. set (n := Z.min _ _) in *.
  assert (Hn : 0 <= n) by (subst n; unfold READ_BUF in *; lia).
  destruct (traced_read_cases n s Hn) as (q & [(e & E)|(bs & E & Hb & Hby)]); intros H;
    apply se_bind_inv in H as [(bs' & s1 & H1 & H)|(e' & H1 & ->)]; rewrite E in H1; try done.
  - injection H1 as _ <-. done.
  - injection H1 as <- <-. assert (Ht : reads (trace s ++ [TRead bs]) = reads (trace s) ++ bs)
      by (rewrite reads_app; cbn; by rewrite app_nil_r).
    pose proof (len_nonneg bs). destruct (Z.eqb_spec (len bs) 0) as [Hz|Hz].
    { injection H as <- <-. change (reads (trace s ++ [TRead bs]) = reads (trace s)). rewrite Ht.
      rewrite (nonempty_bytes bs) by lia. by rewrite app_nil_r. }
    apply se_bind_inv in H as [([] & s2 & H2 & H)|(e' & H2 & ->)].
    2: { unfold ring_push in H2. by destruct (ring_append _ _). }
    assert (Hs2 : trace s2 = trace s ++ [TRead bs]).
    { unfold ring_push in H2. destruct (ring_append _ _); [|done]. by injection H2 as <-. }
    apply se_bind_inv in H as [([] & s3 & H3 & H)|(e' & H3 & ->)]; [|done]. injection H3 as <-.
    apply se_bind_inv in H as [([] & s4 & H4 & H)|(e' & H4 & ->)].
    2: { unfold record in H4. by destruct (chk_add _ _ _). }
    assert (Hs4 : trace s4 = trace s2).
    { unfold record in H4. destruct (chk_add _ _ _); [|done]. injection H4 as <-. by case_if. }
    injection H as <- <-. rewrite Hs4, Hs2. split_and!; [done|lia..|done].
Qed.

(** The frames a leaf has queued are not touched. *)
Definition same_queue s s' : Prop := outbound s' = outbound s.
#[local] Instance same_queue_preorder : PreOrder same_queue.
Proof. split; unfold same_queue; intros ?; congruence. Qed.

Lemma drain_queue max : pres same_queue (drain_pty_at_most max).
Proof.
  intros s r s' E. unfold drain_pty_at_most in E. destruct (child_exit s); [by injection E as _ <-|].
  cbn zeta in E. destruct (_ =? 0); [by injection E as _ <-|].
  revert E. match goal with |- ?m s = _ -> _ => cut (pres same_queue m); [intros Hm; apply Hm|] end.
  apply pres_bind; [typeclasses eauto|intros x q y E; unfold on_pty in E; destruct (pty_read _ _) as [? ?]; by injection E as _ <-|].
  intros bs. destruct (len bs =? 0); [intros x q y E; by injection E as _ <-|].
  apply pres_bind; [typeclasses eauto| |intros _; apply pres_bind; [typeclasses eauto| |intros _; apply pres_bind;
    [typeclasses eauto| |intros _ x q y E; by injection E as _ <-]]].
  - intros x q y E. unfold ring_push in E. destruct (ring_append _ _); [|done]. by injection E as _ <-.
  - intros x q y E. by injection E as _ <-.
  - intros x q y E. unfold record in E. destruct (chk_add _ _ _); [|done]. injection E as _ <-. by case_if.
Qed.

Lemma drain_rule n max s :
  history_ok n s -> n < MAX_STEPS -> 0 <= default READ_BUF max ->
  safe (drain_pty_at_most max s) (fun '(r, s') => history_ok (n + 1) s' /\ same_life s s' /\ same_queue s s' /\
    match r with
    | Ok (Some bs) => reads (trace s') = reads (trace s) ++ bs /\ 0 < len bs <= Z.min (default READ_BUF max) READ_BUF /\ bytes bs
    | _ => reads (trace s') = reads (trace s)
    end).
Proof.
  intros Hh Hn Hmax.
  destruct (run_se_keeps (drain_pty_at_most max) (n + 1) s) as ([r s'] & E & Hh').
  { apply drain_inv; [by apply ghost_inv|done|]. destruct max; cbn in *; done. }
  exists (r, s'). split; [done|]. split; [done|]. split_and!; [by eapply pres_drain|by eapply drain_queue|by eapply drain_exact].
Qed.

Definition put_session (id : Z) s d : Dm := d <| kern := kern d <| leaves := <[id := s]> (leaves (kern d)) |> |>.

Lemma on_session_eq {A} id (m : SE S A) d s r s' :
  session id d = Some s -> m s = Some (r, s') ->
  on_session id m d = Some (match r with Ok a => Ok (Some a) | Err e => Err (DKernel e) end, put_session id s' d).
Proof.
  unfold session. intros Hs E. unfold on_session, session, on_kernel, on_leaf, mbind, se_bind. rewrite Hs, E.
  cbn [option_bind]. destruct r; by cbn [option_bind].
Qed.

Lemma put_session_ok n n' id s s' d :
  kernel_ok n (kern d) -> session id d = Some s -> n <= n' -> history_ok n' s' -> same_life s s' ->
  kernel_ok n' (kern (put_session id s' d)).
Proof. intros Hk Hs Hn Hh Hl. by apply (put_ok n n' (kern d) id s s'). Qed.

Lemma session_history_ok n id s d : kernel_ok n (kern d) -> session id d = Some s -> history_ok n s.
Proof. intros (_ & _ & []). eauto. Qed.

(** Reaching into a leaf without touching what the kernel counts. *)
Lemma update_session_eq id f d s : session id d = Some s -> update_session id f d = put_session id (f s) d.
Proof.
  unfold session. intros Hs. unfold update_session, put_session. do 2 f_equal. apply map_eq. intros x.
  rewrite lookup_alter, lookup_insert. case_decide; [subst; by rewrite Hs|done].
Qed.

Lemma update_session_none id f d : session id d = None -> update_session id f d = d.
Proof.
  unfold session. intros Hs. unfold update_session.
  assert (alter f id (leaves (kern d)) = leaves (kern d)) as ->; [|by destruct d as [[]]].
  apply map_eq. intros x. rewrite lookup_alter. case_decide; [subst; by rewrite Hs|done].
Qed.

Lemma update_session_ok n id f d :
  kernel_ok n (kern d) -> (forall s, history_ok n s -> history_ok n (f s)) -> (forall s, same_life s (f s)) ->
  kernel_ok n (kern (update_session id f d)).
Proof.
  intros Hk Hh Hl. destruct (session id d) as [s|] eqn:Hs.
  - rewrite (update_session_eq _ _ _ _ Hs). eapply put_session_ok; [done..|lia| |apply Hl].
    apply Hh. by eapply session_history_ok.
  - by rewrite update_session_none.
Qed.

(** Every chunk in turn; [off] is where the first one starts. *)
Fixpoint serve_all (id off : Z) (chunks : list (list Z)) c : Client K :=
  match chunks with
  | [] => c
  | bs :: chunks => serve_all id (off + len bs) chunks (served id (off + len bs) bs c)
  end.

Lemma served_credit id off bs c : 0 <= cl_credit c -> 0 <= cl_credit (served id off bs c).
Proof. intros H. unfold served. destruct (bool_decide _); cbn [andb]; [|done]. destruct (Z.leb_spec (len bs) (cl_credit c)); cbn; lia. Qed.

(** A client that takes part in the leaf's reading loses nothing. *)
Definition took (chunks : list (list Z)) c : Client K :=
  c <| cl_credit := cl_credit c - len (concat chunks) |>
    <| cl_outbox := cl_outbox c ++ concat (map (fun bs => encoded (Data bs)) chunks) |>.

Lemma served_writer id off bs c : p1_writer id c -> len bs <= cl_credit c -> served id off bs c = took [bs] c.
Proof.
  intros (Hl & _ & Hp) Hc. unfold served, took. rewrite bool_decide_eq_true_2, (proj2 (Z.leb_le _ _)) by done.
  unfold chunk_frame. rewrite (proj2 (Z.eqb_neq _ _)) by done. cbn -[encoded len]. by rewrite !app_nil_r.
Qed.

Lemma took_eq chunks c : took chunks c =
  mkClient (cl_stream c) (cl_decoder c) (cl_outbox c ++ concat (map (fun bs => encoded (Data bs)) chunks))
    (cl_leaf c) (cl_observe c) (cl_protocol c) (cl_credit c - len (concat chunks)).
Proof. done. Qed.

Lemma took_cons bs chunks c : took chunks (took [bs] c) = took (bs :: chunks) c.
Proof.
  rewrite !took_eq. cbn [cl_stream cl_decoder cl_outbox cl_leaf cl_observe cl_protocol cl_credit map concat].
  rewrite !app_nil_r, !len_app, Z.sub_add_distr. by rewrite <- app_assoc.
Qed.

Lemma took_writer id bs c : p1_writer id c -> p1_writer id (took bs c).
Proof. by intros (? & ? & ?). Qed.

Lemma took_nil c : took [] c = c.
Proof. rewrite took_eq. cbn [map concat]. rewrite app_nil_r, Z.sub_0_r. by destruct c. Qed.

(** The state the loop may leave: the leaf has read [chunks], its clients were
    served them, and nothing else changed. *)
Record drained (n id : Z) (s : S) (chunks : list (list Z)) (d d' : Dm) : Prop := {
  dr_leaf : exists s', session id d' = Some s' /\ reads (trace s') = reads (trace s) ++ concat chunks /\ same_queue s s';
  dr_clients : clients d' = map (serve_all id (len (reads (trace s))) chunks) (clients d);
  dr_writers : Forall (fun c => p1_writer id c -> serve_all id (len (reads (trace s))) chunks c = took chunks c) (clients d);
  dr_bound : Forall (fun bs => 0 < len bs <= READ_BUF) chunks;
  dr_bytes : Forall bytes chunks;
  dr_kernel : kernel_ok n (kern d');
  dr_leaves : forall x, x <> id -> session x d' = session x d;
  dr_same : d' = d <| kern := kern d' |> <| clients := clients d' |>;
}.

Lemma drained_refl n id s d d' s' :
  session id d' = Some s' -> reads (trace s') = reads (trace s) -> same_queue s s' -> kernel_ok n (kern d') ->
  d' = d <| kern := kern d' |> -> (forall x, x <> id -> session x d' = session x d) -> drained n id s [] d d'.
Proof.
  intros Hs Hr Hq Hk Hd Hx. assert (Hc : clients d' = clients d) by (by rewrite Hd). split; try done.
  - exists s'. split_and!; [done| |done]. by rewrite app_nil_r.
  - rewrite Hc. cbn. by rewrite map_id.
  - apply Forall_forall. intros c _ _. cbn. by rewrite took_nil.
  - rewrite Hc. rewrite Hd at 1. by destruct d.
Qed.
Lemma served_same id off bs c :
  cl_leaf (served id off bs c) = cl_leaf c /\ cl_observe (served id off bs c) = cl_observe c /\
  cl_protocol (served id off bs c) = cl_protocol c.
Proof. unfold served. by case_if. Qed.

Lemma served_protocol2 id off bs x (cs : list (Client K)) : has_protocol2 (map (served id off bs) cs) x = has_protocol2 cs x.
Proof.
  unfold has_protocol2, on_leaf_of. induction cs as [|c cs IH]; [done|]. cbn [map existsb]. rewrite IH.
  destruct (served_same id off bs c) as (-> & _ & ->). done.
Qed.

(** One more chunk at the front. *)
Lemma drained_cons n id s s1 bs chunks d d1 d' :
  drained n id s1 chunks d1 d' -> session id d1 = Some s1 ->
  reads (trace s1) = reads (trace s) ++ bs -> 0 < len bs <= READ_BUF -> bytes bs -> same_queue s s1 ->
  clients d1 = map (served id (len (reads (trace s)) + len bs) bs) (clients d) ->
  Forall (fun c => p1_writer id c -> len bs <= cl_credit c) (clients d) ->
  (forall x, x <> id -> session x d1 = session x d) ->
  d1 = d <| kern := kern d1 |> <| clients := clients d1 |> ->
  drained n id s (bs :: chunks) d d'.
Proof.
  intros [(s' & D1 & D2 & D2') D3 D4 D5 D5' D6 D7 D8] Hs1 Hr Hb Hby Hq Hc Hw Hx Hd.
  assert (Hlen : len (reads (trace s1)) = len (reads (trace s)) + len bs) by (by rewrite Hr, len_app).
  rewrite Hlen in *. split; try done.
  - exists s'. split_and!; [done| |by etransitivity]. rewrite D2, Hr. cbn. by rewrite app_assoc.
  - rewrite D3, Hc, map_map. done.
  - rewrite Hc, Forall_map in D4. rewrite Forall_forall in *. intros c Hin Hp. cbn [serve_all].
    specialize (D4 c Hin). rewrite served_writer in * by auto. rewrite D4 by (by apply took_writer). apply took_cons.
  - by constructor.
  - by constructor.
  - intros x Hne. by rewrite D7, Hx.
  - rewrite D8. rewrite Hd. by destruct d.
Qed.

Lemma drain_loop_rule fuel n id s d :
  kernel_ok n (kern d) -> n + Z.of_nat fuel <= MAX_STEPS -> session id d = Some s ->
  Forall (fun c => 0 <= cl_credit c) (clients d) -> has_protocol2 (clients d) id || is_worker d = true ->
  safe (drain_loop fuel id d) (fun '(r, d') => exists chunks, drained (n + Z.of_nat fuel) id s chunks d d' /\
    (r = Ok false -> len chunks = Z.of_nat fuel)).
Proof.
  revert n s d. induction fuel as [|fuel IH]; intros n s d Hk Hn Hs Hcr Hw; cbn [drain_loop].
  { apply safe_ret. exists []. split; [|done]. by apply (drained_refl _ _ _ _ _ s); try done; [rewrite Z.add_0_r|destruct d]. }
  rewrite Nat2Z.inj_succ in *. cbv zeta. rewrite Hw. pose proof (session_history_ok _ _ _ _ Hk Hs) as Hh.
  case_bool_decide as Hcap.
  { apply safe_ret. exists []. split; [|done].
    apply (drained_refl _ _ _ _ _ (note_stalled_read s)); rewrite ?(update_session_eq _ _ _ _ Hs).
    - apply lookup_insert_eq.
    - done.
    - done.
    - rewrite <- (update_session_eq _ _ _ _ Hs). eapply kernel_ok_mono; [|apply (update_session_ok n); [done| |done]]; [lia|].
      by intros t [].
    - by destruct d.
    - intros x Hx. apply lookup_insert_ne. congruence. }
  set (cap := protocol1_writer_credit (clients d) id) in *.
  assert (Hcap0 : 0 <= default READ_BUF cap).
  { destruct cap as [y|] eqn:Ey; cbn; [|done]. by eapply writer_credit_nonneg. }
  destruct (drain_rule n cap s Hh ltac:(lia) Hcap0) as ([r s1] & E & Hh1 & Hl & Hq & Hr).
  assert (Hk1 : kernel_ok (n + 1) (kern (put_session id s1 d))) by (eapply put_session_ok; [done..|lia|done|done]).
  assert (Hs1 : forall dd : Dm, session id (put_session id s1 dd) = Some s1) by (intros dd; apply lookup_insert_eq).
  assert (Hx1 : forall x, x <> id -> session x (put_session id s1 d) = session x d)
    by (intros x Hx; apply lookup_insert_ne; congruence).
  assert (Hend : reads (trace s1) = reads (trace s) -> drained (n + Z.succ (Z.of_nat fuel)) id s [] d (put_session id s1 d)).
  { intros Hr1. apply (drained_refl _ _ _ _ _ s1); try done. eapply kernel_ok_mono; [|exact Hk1]. lia. }
  apply se_bind_rule. rewrite (on_session_eq id _ d s r s1 Hs E). apply safe_ret. cbn [fst snd].
  destruct r as [[bs|]|e]; [|apply safe_ret; exists []; split; [by apply Hend|done]|exists []; split; [by apply Hend|done]].
  destruct Hr as (Hr & Hb & Hby). apply se_bind_rule, safe_ret. cbn [fst snd].
  rewrite Hs1. apply se_bind_rule. unfold fanout_pty_bytes.
  assert (Hoff : bytes_delivered s1 = len (reads (trace s)) + len bs).
  { rewrite (ho_delivered _ _ Hh1). unfold trace in Hr. by rewrite Hr, len_app. }
  rewrite fanout_clients_eq by (done || lia). cbn [mbind option_bind]. apply safe_ret. cbn [fst snd].
  set (d1 := put_session id s1 d <| clients := _ |>).
  assert (Hcl : Forall (fun c => p1_writer id c -> len bs <= cl_credit c) (clients d)).
  { apply Forall_forall. intros c Hc Hp. destruct (writer_credit_le id _ c Hc Hp) as (y & Hy & Hle).
    fold cap in Hy. rewrite Hy in Hb. cbn in Hb. lia. }
  eapply safe_mono; [apply (IH (n + 1) s1 d1)|].
  - done.
  - lia.
  - apply Hs1.
  - change (Forall (fun c => 0 <= cl_credit c) (map (served id (bytes_delivered s1) bs) (clients d))).
    apply Forall_map. eapply Forall_impl; [exact Hcr|]. intros c. apply served_credit.
  - change (has_protocol2 (map (served id (bytes_delivered s1) bs) (clients d)) id || is_worker d = true).
    by rewrite served_protocol2.
  - intros [r d'] (chunks & Hd & Hf). exists (bs :: chunks). split.
    + replace (n + Z.succ (Z.of_nat fuel)) with (n + 1 + Z.of_nat fuel) by lia.
      eapply drained_cons; [exact Hd|apply Hs1|done|lia|done|done| |done|done|by destruct d].
      subst d1. cbn. by rewrite Hoff.
    + intros Hr'. rewrite len_cons, (Hf Hr'). lia.
Qed.
End Drain.
