(* ===== verification/DaemonCold.v ===== *)
(** The daemon's content socket: a submission always takes its place at the end
    of its leaf's timeline until the timeline is full, and the host reads back
    what has been submitted. *)
From stdpp Require Import pretty.
From S2P Require Import Prelude Effect VtTypes Utf8 EngineFacts Attach Ring Content ContentFacts Session Kernel Socket Text Cold ColdFacts Daemon.

Local Open Scope Z_scope.

(** The timeline of a leaf after the texts submitted to it. *)
Definition submission (id : Z) (i : nat) (text : list Z) : ContentEvent :=
  structured_terminal_input (input_id id (Z.of_nat i + 1)) (Z.of_nat i + 1) text.
Definition submitted (id : Z) (texts : list (list Z)) : list ContentEvent := imap (submission id) texts.

Definition holds_texts (id : Z) (texts : list (list Z)) (t : ContentTimeline) : Prop :=
  len texts <= CONTENT_TIMELINE_MAX_ITEMS /\ shows (submitted id texts) Primary t /\
  Forall (fun text => bytes text /\ from_utf8 text <> None /\ len text <= CONTENT_REQUEST_MAX) texts.

Lemma input_id_inj id i j : input_id id i = input_id id j -> i = j.
Proof. unfold input_id. intros H. by repeat apply (inj _) in H. Qed.

Lemma submitted_snoc id texts text :
  submitted id (texts ++ [text]) = submitted id texts ++ [submission id (length texts) text].
Proof. unfold submitted. rewrite imap_app. cbn -[submission]. by rewrite Nat.add_0_r. Qed.

Lemma submitted_admits id texts text : admits Primary (submitted id texts) (submission id (length texts) text).
Proof.
  split; [done|]. apply Forall_forall. intros a Ha. unfold submitted in Ha. apply list_elem_of_lookup in Ha as [j Hj].
  rewrite list_lookup_imap in Hj. destruct (texts !! j) as [x|] eqn:Ex; [|done]. injection Hj as <-.
  apply lookup_lt_Some in Ex. split; cbn; [|lia]. intros E%input_id_inj. lia.
Qed.

(** The ids the daemon makes are ASCII. *)
Definition ascii_only (s : string) : Prop := Forall (fun b => 0 <= b <= 127) (lit s).

Lemma ascii_app s t : ascii_only s -> ascii_only t -> ascii_only (s +:+ t).
Proof. unfold ascii_only. intros Hs Ht. induction s as [|a s IH]; [done|]. cbn in *. inversion Hs. by constructor; auto. Qed.

Lemma ascii_utf8 s : ascii_only s -> from_utf8 (lit s) <> None.
Proof.
  unfold ascii_only. induction (lit s) as [|b bs IH]; intros Hf; [done|]. apply Forall_cons in Hf as [Hb Hf].
  cbn [from_utf8]. unfold within. rewrite (proj2 (Z.leb_le _ _)), (proj2 (Z.leb_le _ _)) by lia. cbn [andb].
  destruct (from_utf8 bs); [done|by destruct (IH Hf)].
Qed.

Lemma ascii_digit x : ascii_only (String (pretty_N_char x) EmptyString).
Proof. constructor; [|constructor]. unfold pretty_N_char. repeat case_match; vm_compute; split; intros Hx; discriminate Hx. Qed.

Lemma ascii_digits x s : ascii_only s -> ascii_only (pretty_N_go x s).
Proof.
  revert s. induction (N.lt_wf_0 x) as [x _ IH]; intros s Hs. destruct (decide (0 < x)%N).
  - rewrite pretty_N_go_step by done. apply IH; [by apply N.div_lt|].
    exact (ascii_app (String (pretty_N_char (x `mod` 10)) EmptyString) s (ascii_digit _) Hs).
  - assert (x = 0%N) as -> by lia. done.
Qed.

Lemma ascii_pretty (z : Z) : ascii_only (pretty z).
Proof.
  assert (Hp : forall p, ascii_only (pretty (Npos p))) by (intros p; apply (ascii_digits (Npos p) EmptyString); constructor).
  destruct z as [|p|p]; [by repeat constructor|apply Hp|]. apply (ascii_app "-"); [by repeat constructor|apply Hp].
Qed.

Lemma input_id_ascii id i : ascii_only (input_id id i).
Proof. unfold input_id. repeat apply ascii_app; try apply ascii_pretty; by repeat constructor. Qed.

Lemma submitted_ok id texts : len texts <= CONTENT_TIMELINE_MAX_ITEMS ->
  Forall (fun text => bytes text /\ from_utf8 text <> None /\ len text <= CONTENT_REQUEST_MAX) texts ->
  Forall content_ok (submitted id texts).
Proof.
  intros Hn Hf. apply Forall_lookup. intros i e. unfold submitted. rewrite list_lookup_imap.
  destruct (texts !! i) as [text|] eqn:E; [|done]. intros [= <-]. destruct (Forall_lookup_1 _ _ _ _ Hf E) as (H1 & H2 & _).
  apply lookup_lt_Some in E. unfold content_ok, submission, event_text. cbn. unfold CONTENT_TIMELINE_MAX_ITEMS, len in *.
  split_and!; [num|done|apply ascii_utf8, input_id_ascii|done|done].
Qed.

Lemma holds_nothing id : holds_texts id [] timeline_new.
Proof.
  split; [done|]. split; [|constructor]. split; try done.
  - intros x. cbn. split; [set_solver|]. by intros (e & He%not_elem_of_nil & _).
  - constructor.
Qed.

Lemma length_submitted id texts : length (submitted id texts) = length texts.
Proof. apply length_imap. Qed.

Section Respond.
Context {P K : Type}.
Implicit Types (d : Daemon P K).

Definition timeline_of (id : Z) d : ContentTimeline := default timeline_new (content_timelines d !! id).
Definition timelines_ok d : Prop := forall id, exists texts, holds_texts id texts (timeline_of id d).

(** One request against the texts submitted so far. *)
Definition respond (r : ContentRequest) (id : Z) (texts : list (list Z)) (t : ContentTimeline)
    (reply : list Z) (texts' : list (list Z)) (t' : ContentTimeline) : Prop :=
  if req_kind r =? 2 then
    if CONTENT_TIMELINE_MAX_ITEMS <=? len texts then reply = content_error_response 3 /\ texts' = texts /\ t' = t
    else if bool_decide (from_utf8 (req_payload r) = None)
    then reply = content_error_response 1 /\ texts' = texts /\ t' = t
    else reply = encode_content_snapshot t' /\ texts' = texts ++ [req_payload r]
  else if (req_kind r =? 1) && (len (req_payload r) =? 0)
  then reply = encode_content_snapshot t' /\ texts' = texts /\ t' = t
  else reply = content_error_response 1 /\ texts' = texts /\ t' = t.

Lemma timeline_of_insert id t d x :
  timeline_of x (d <| content_timelines := <[id := t]> (content_timelines d) |>) = if decide (id = x) then t else timeline_of x d.
Proof. unfold timeline_of. cbn. rewrite lookup_insert. by case_decide. Qed.

Lemma content_response_eq r d texts :
  let id := request_leaf r d in
  bytes (req_payload r) -> len (req_payload r) <= CONTENT_REQUEST_MAX -> session id d <> None -> holds_texts id texts (timeline_of id d) ->
  safe (content_response r d) (fun '(reply, d') => exists texts',
    respond r id texts (timeline_of id d) reply texts' (timeline_of id d') /\ holds_texts id texts' (timeline_of id d') /\
    (forall x, x <> id -> timeline_of x d' = timeline_of x d) /\
    d' = d <| content_timelines := content_timelines d' |>).
Proof.
  intros id Hby Hlen Hs (Hn & Hsh & Hok). unfold content_response. fold id. rewrite bool_decide_false by done.
  cbv zeta. fold (timeline_of id d). set (t := timeline_of id d) in *. set (d1 := d <| content_timelines := _ |>).
  assert (Ht1 : timeline_of id d1 = t) by (unfold d1; rewrite timeline_of_insert; by rewrite decide_True).
  assert (Hx1 : forall x, x <> id -> timeline_of x d1 = timeline_of x d)
    by (intros x Hx; unfold d1; rewrite timeline_of_insert; by rewrite decide_False).
  assert (Hd1 : d1 = d <| content_timelines := content_timelines d1 |>) by done.
  assert (Hev : len (events t) = len texts) by (rewrite (sh_events _ _ _ Hsh); unfold len; by rewrite length_submitted).
  assert (Hdone : forall reply, respond r id texts t reply texts t -> safe (Some (reply, d1)) (fun '(reply, d') =>
    exists texts', respond r id texts t reply texts' (timeline_of id d') /\ holds_texts id texts' (timeline_of id d') /\
    (forall x, x <> id -> timeline_of x d' = timeline_of x d) /\ d' = d <| content_timelines := content_timelines d' |>)).
  { intros reply Hr. apply safe_ret. exists texts. rewrite Ht1. by split_and!. }
  destruct (req_kind r =? 2) eqn:Hk.
  - rewrite Hev. destruct (CONTENT_TIMELINE_MAX_ITEMS <=? len texts) eqn:Hfull.
    { apply Hdone. unfold respond. by rewrite Hk, Hfull. }
    destruct (bool_decide (from_utf8 (req_payload r) = None)) eqn:Hu.
    { apply Hdone. unfold respond. by rewrite Hk, Hfull, Hu. }
    unfold chk_add. rewrite (proj2 (Z.leb_le _ _)) by (unfold CONTENT_TIMELINE_MAX_ITEMS in *; lia). cbn [mbind option_bind].
    fold (submission id (length texts) (req_payload r)).
    destruct (timeline_append_eq _ _ _ Hsh (submission id (length texts) (req_payload r))) as (Hsh' & Hiff & _).
    pose proof (submitted_admits id texts (req_payload r)) as Had. rewrite decide_True in Hsh' by done.
    destruct (timeline_append _ t) as [res t']. cbn [fst snd] in *. rewrite (proj2 Hiff Had). apply safe_ret.
    exists (texts ++ [req_payload r]). change (d1 <| content_timelines := _ |>)
      with (d1 <| content_timelines := <[id := t']> (content_timelines d1) |>).
    rewrite timeline_of_insert, decide_True by done. split_and!.
    + unfold respond. by rewrite Hk, Hfull, Hu.
    + split; [rewrite len_app; unfold CONTENT_TIMELINE_MAX_ITEMS in *; change (len [_]) with 1; lia|].
      split; [by rewrite submitted_snoc|]. apply Forall_app. split; [done|]. constructor; [|done].
      split_and!; [done|by apply bool_decide_eq_false in Hu|done].
    + intros x Hx. rewrite timeline_of_insert, decide_False by done. by apply Hx1.
    + done.
  - destruct (req_kind r =? 1) eqn:Hk1; cbn [negb orb]; [destruct (len (req_payload r) =? 0) eqn:Hl; cbn [negb]|];
      apply Hdone; unfold respond; by rewrite Hk, Hk1, ?Hl.
Qed.

Lemma content_response_unknown r d : session (request_leaf r d) d = None ->
  content_response r d = Some (content_error_response 2, d).
Proof. intros H. unfold content_response. by rewrite bool_decide_true. Qed.

(** ** Reading a request *)

Lemma read_request_ok {KK} `{!SockOps KK, !SockLaws KK} fuel (c : ContentConnection KK) :
  bytes (cc_input c) -> len (cc_input c) <= CONTENT_REQUEST_MAX + 17 ->
  CONTENT_REQUEST_MAX + 17 - len (cc_input c) < Z.of_nat fuel ->
  safe (read_request fuel c) (fun '(_, c') => bytes (cc_input c') /\ len (cc_input c') <= CONTENT_REQUEST_MAX + 17).
Proof.
  revert c. induction fuel as [|fuel IH]; intros c Hb Hl Hf; [lia|]. cbn [read_request].
  destruct (sock_read CONTENT_READ_LEN (cc_stream c)) as [r k] eqn:Er. cbv zeta.
  destruct r as [bs|[|e]]; [|by apply safe_ret..]. pose proof (len_nonneg bs).
  destruct (Z.eqb_spec (len bs) 0); [by apply safe_ret|]. apply sock_read_fits in Er as [Hlb Hbb]; [|done].
  cbn [cc_input put Prelude.eta conn_eta]. case_if; [by apply safe_ret|]. unfold CONTENT_READ_LEN, CONTENT_REQUEST_MAX in *.
  assert (len (cc_input c) + len bs <= 64 * 1024 + 17) by num.
  apply IH; cbn [cc_input put Prelude.eta conn_eta]; rewrite ?len_app; [by apply bytes_app|lia|lia].
Qed.

Lemma answer_request_ok (c : ContentConnection K) d :
  bytes (cc_input c) -> (forall id, exists texts, holds_texts id texts (timeline_of id d)) ->
  safe (answer_request c d) (fun '(c', d') => cc_input c' = cc_input c /\
    (forall id, exists texts, holds_texts id texts (timeline_of id d')) /\
    d' = d <| content_timelines := content_timelines d' |>).
Proof.
  intros Hb Ht. unfold answer_request. destruct (decode_request_safe (cc_input c) Hb) as (r & -> & Hr). cbn [mbind option_bind].
  assert (Hd : d = d <| content_timelines := content_timelines d |>) by by destruct d.
  destruct r as [[r|]|[]]; [|by apply safe_ret..]. destruct Hr as [Hr Hput].
  destruct (session (request_leaf r d) d) as [s|] eqn:Hs.
  2: { rewrite content_response_unknown by done. by apply safe_ret. }
  destruct (Ht (request_leaf r d)) as [texts Htx].
  eapply safe_bind.
  - apply (content_response_eq r d texts); [|apply Hr|by rewrite Hs|done].
    rewrite Hput in Hb. unfold put_request in Hb. by repeat apply bytes_app in Hb as [_ Hb].
  - intros [reply d'] (texts' & _ & Hh & Hx & Hd'). apply safe_ret. split_and!; [done| |done]. intros id.
    destruct (decide (id = request_leaf r d)) as [->|Hne]; [by eexists|]. rewrite Hx by done. apply Ht.
Qed.
End Respond.

(** ** Properties *)

(** C28. What is submitted is read back.  A text of at most 64 KiB the host
    submits to a leaf reaches the daemon as it was written; while the leaf's
    timeline holds fewer than 64 texts it becomes the next one - nothing refuses
    it, its identity is new - no other leaf's timeline changes, and the host
    reads the daemon's answer as the longest prefix of the submissions, in
    order, that fits the response limit.  A full timeline stays as it is and the
    host reads an error. *)
Theorem content_submission_read {P K} (exec : Z) (text : list Z) (texts : list (list Z)) (k : K) (d : Daemon P K) :
  let id := if exec =? 0 then default_id d else exec in
  u64 exec -> bytes text -> from_utf8 text <> None -> len text <= 64 * 1024 ->
  session id d <> None -> holds_texts id texts (timeline_of id d) ->
  exists req, content_request exec text = Ok req /\
  safe (answer_request (mkConn k req [] false) d) (fun '(c, d') =>
    cc_handled c = true /\ (forall x, x <> id -> timeline_of x d' = timeline_of x d) /\
    if CONTENT_TIMELINE_MAX_ITEMS <=? len texts
    then timeline_of id d' = timeline_of id d /\ parse_content_snapshot (cc_output c) = Some (Err InvalidContent)
    else
      let log := submitted id (texts ++ [text]) in
      holds_texts id (texts ++ [text]) (timeline_of id d') /\
      exists n, parse_content_snapshot (cc_output c) = Some (Ok (map item_of (take n log))) /\
        match log !! n with
        | Some e => ~ fits e (CONTENT_RESPONSE_MAX - len (cc_output c))
        | None => True
        end).
Proof.
  intros id He Hb Hu Hl Hs Hh. pose proof (content_request_agrees exec text [] He ltac:(constructor)) as [Hreq _].
  destruct (content_request exec text) as [req|e]; [|lia]. exists req. split; [done|].
  unfold answer_request. cbn [cc_input]. rewrite Hreq. cbn [mbind option_bind].
  eapply safe_bind; [by apply (content_response_eq (mkRequest 2 exec text) d texts)|].
  change (request_leaf (mkRequest 2 exec text) d) with id.
  intros [reply d'] (texts' & Hr & Hh' & Hx & _). apply safe_ret. split; [done|]. split; [done|].
  unfold respond in Hr. cbn [req_kind req_payload] in Hr. change (2 =? 2) with true in Hr. cbv iota in Hr.
  destruct (CONTENT_TIMELINE_MAX_ITEMS <=? len texts); [by destruct Hr as (-> & _ & ->)|].
  rewrite bool_decide_false in Hr by done. destruct Hr as [-> ->].
  split; [done|]. destruct Hh' as (Hn & Hsh & Hok). pose proof (sh_events _ _ _ Hsh) as Hev.
  destruct (content_reply_read (timeline_of id d')) as (n & _ & _ & Hp & Hf); rewrite ?Hev.
  - unfold len. rewrite length_submitted. exact Hn.
  - by apply submitted_ok.
  - exists n. by rewrite Hev in *.
Qed.

Definition demo_daemon : Daemon () () :=
  mkDaemon (kernel_new <| leaves := {[1 := spawn_configured () (mkWinsize 80 24 640 384) false]} |>)
    1 1 [] small_engine true [] [] ∅ 0 [].

Lemma content_submission_read_witness :
  session 1 demo_daemon <> None /\ holds_texts 1 [] (timeline_of 1 demo_daemon) /\
  exists req, content_request 0 (lit "ls") = Ok req /\
  safe (answer_request (mkConn () req [] false) demo_daemon) (fun '(c, d') =>
    cc_handled c = true /\ (forall x, x <> 1 -> timeline_of x d' = timeline_of x demo_daemon) /\
    let log := submitted 1 [lit "ls"] in
    holds_texts 1 [lit "ls"] (timeline_of 1 d') /\
    exists n, parse_content_snapshot (cc_output c) = Some (Ok (map item_of (take n log))) /\
      match log !! n with
      | Some e => ~ fits e (CONTENT_RESPONSE_MAX - len (cc_output c))
      | None => True
      end).
Proof.
  assert (Hs : session 1 demo_daemon <> None) by (vm_compute; discriminate).
  assert (Hh : holds_texts 1 [] (timeline_of 1 demo_daemon)) by apply holds_nothing.
  split; [exact Hs|split; [exact Hh|]].
  exact (content_submission_read 0 (lit "ls") [] () demo_daemon ltac:(num) (bytes_lit _)
    ltac:(vm_compute; discriminate) ltac:(vm_compute; discriminate) Hs Hh).
Defined.
