(* ===== verification/DaemonSafe.v ===== *)
(** The daemon as a whole: whatever its clients send and its sockets and PTYs
    do, a step never panics, keeps the kernel's invariant, and keeps every
    client's wire a sequence of whole frames. *)
From S2P Require Import Prelude Effect VtTypes Utf8 Parser ParserFacts Screen ScreenFacts Engine EngineFacts Attach AttachFacts Ring Content ContentFacts Session SessionFacts Kernel Forest KernelFacts Socket Text Cold ColdFacts Daemon DaemonFacts DaemonCold.

Local Open Scope Z_scope.

(** The order a [HashMap] is walked in is some order of its keys. *)
Class HashOrder {P} (order : Kernel P -> list Z) : Prop :=
  hash_order_keys : forall k, order k ≡ₚ map fst (map_to_list (leaves k)).

(** The daemon's extra operations on a socket that remembers; what a failed
    [write_all] wrote is not known. *)
#[export] Instance traced_block {K} `{!BlockOps K} : BlockOps (K * list SockEvent) := {|
  is_gone := is_gone (K := K);
  sock_write_all bs kt :=
    let '(r, k) := sock_write_all bs (fst kt) in
    (r, (k, match r with Ok _ => snd kt ++ [SWrote bs] | Err _ => snd kt end));
  sock_set_nonblocking b kt := let '(r, k) := sock_set_nonblocking b (fst kt) in (r, (k, snd kt));
  peer_authorized kt := peer_authorized (fst kt);
|}.

Section Inv.
Context {P : Type} `{!PtyOps P, !PtyLaws P} {K : Type} `{!SockOps K, !SockLaws K, !BlockOps K}.
Abbreviation TP := (P * list PtyEvent)%type.
Abbreviation TK := (K * list SockEvent)%type.
Abbreviation S := (Session TP).
Abbreviation Dm := (Daemon TP TK).
Abbreviation D := (ST DaemonError Dm).
Context (instant : nat -> Z) (sh : nat -> result KernelError (P * Winsize * bool)) (grace : Z).
Context (hash_order : Kernel TP -> list Z) `{!HashOrder hash_order}.
Definition shell (t : nat) : result KernelError S := spawned_session (sh t).
Implicit Types (d : Dm) (c : Client TK).

(** Everything a client was or will be sent. *)
Definition client_wire c : list Z := wrote (snd (cl_stream c)) ++ cl_outbox c.

Record client_ok c : Prop := {
  co_credit : 0 <= cl_credit c <= u64_max;
  co_buf : bytes (buf (cl_decoder c));
  co_small : len (buf (cl_decoder c)) < MAX_FRAME + 5;
  co_wire : exists fs, sends fs (client_wire c);
}.

Definition conn_ok (cn : ContentConnection TK) : Prop :=
  bytes (cc_input cn) /\ len (cc_input cn) <= CONTENT_REQUEST_MAX + 17.

Record dinv (n : Z) d : Prop := {
  di_kernel : kernel_ok n (kern d);
  di_chip : engine_ok (d_chip d);
  di_clients : Forall client_ok (clients d);
  di_conns : Forall conn_ok (content_conns d);
  di_timelines : forall id, exists texts, holds_texts id texts (timeline_of id d);
}.

Definition keeps {A} (m : D A) d (n' : Z) : Prop := safe (m d) (fun '(_, d') => dinv n' d').

Lemma keeps_bind {A B} (m : D A) (f : A -> D B) d n1 n2 :
  keeps m d n1 -> n1 <= n2 -> (forall a d1, dinv n1 d1 -> keeps (f a) d1 n2) -> keeps (m ≫= f) d n2.
Proof.
  intros Hm Hle Hf. apply se_bind_rule. eapply safe_mono; [exact Hm|]. intros [[a|e] d1] Hd; cbn [fst snd].
  - by apply Hf.
  - destruct Hd. split; try done. by eapply kernel_ok_mono.
Qed.

Lemma dinv_mono n n' d : n <= n' -> dinv n d -> dinv n' d.
Proof. intros Hn []. split; try done. by eapply kernel_ok_mono. Qed.

Lemma keeps_ret {A} (r : result DaemonError A) d d' n (m : D A) : m d = Some (r, d') -> dinv n d' -> keeps m d n.
Proof. intros E H. exists (r, d'). by split. Qed.

Lemma keeps_mono {A} (m : D A) d n n' : n <= n' -> keeps m d n -> keeps m d n'.
Proof. intros Hn H. eapply safe_mono; [exact H|]. intros [r d']. by apply dinv_mono. Qed.

Lemma dinv_kernel n n' d k : dinv n d -> kernel_ok n' k -> dinv n' (d <| kern := k |>).
Proof. intros [] Hk. by split. Qed.

Lemma dinv_clients n d cs : dinv n d -> Forall client_ok cs -> dinv n (d <| clients := cs |>).
Proof. intros [] Hc. by split. Qed.

Lemma dinv_chip n d e : dinv n d -> engine_ok e -> dinv n (d <| d_chip := e |>).
Proof. intros [] He. by split. Qed.

Lemma dinv_close n d k : dinv n d -> dinv n (close_stream k d).
Proof. intros []. by split. Qed.

Lemma dinv_tick n d : dinv n d -> dinv n (d <| ticks := Datatypes.S (ticks d) |>).
Proof. intros []. by split. Qed.

Lemma dinv_set n i f d :
  dinv n d -> (forall c, clients d !! i = Some c -> client_ok (f c)) -> dinv n (update_client i f d).
Proof.
  intros Hd Hf. apply dinv_clients; [done|]. destruct Hd. apply Forall_lookup. intros j c.
  destruct (decide (i = j)) as [->|Hne].
  - rewrite list_lookup_alter_eq. destruct (clients d !! j) as [c0|] eqn:E; [|done]. intros [= <-]. by apply Hf.
  - rewrite list_lookup_alter_ne by done. by apply Forall_lookup_1.
Qed.

Lemma client_at n d i c : dinv n d -> clients d !! i = Some c -> client_ok c.
Proof. intros Hd. apply Forall_lookup_1, Hd. Qed.

Lemma dinv_update n i f d : dinv n d -> (forall c, client_ok c -> client_ok (f c)) -> dinv n (update_client i f d).
Proof. intros Hd Hf. apply dinv_set; [done|]. intros c Hc. by eapply Hf, client_at. Qed.

Lemma dinv_session n id f d :
  dinv n d -> (forall s : S, history_ok n s -> history_ok n (f s)) -> (forall s : S, same_life s (f s)) ->
  dinv n (update_session id f d).
Proof. intros Hd Hh Hl. destruct Hd. split; try done. by apply update_session_ok. Qed.

(** ** Sessions *)

Lemma enqueue_history f n (s : S) : history_ok n s -> history_ok n (enqueue_outbound f s).
Proof. by intros []. Qed.

Lemma release_history n (s : S) : history_ok n s -> history_ok n (release_observer s).
Proof. by intros []. Qed.

Lemma detach_history n (s : S) : history_ok n s -> history_ok n (detach s).
Proof.
  intros []. pose proof (detach_fields s) as (E1 & E2 & E3 & E4 & E5 & E6 & E7 & E8 & E9). unfold trace in *.
  pose proof (len_nonneg (pending_input s)). split; rewrite ?E1, ?E2, ?E3, ?E4, ?E7, ?E8, ?E9; try done.
  change (len []) with 0. lia.
Qed.

Lemma detach_life (s : S) : same_life s (detach s).
Proof. unfold detach, same_life, life. destruct (ephemeral _); case_bool_decide; done. Qed.

Lemma keep_history n (s : S) : history_ok n s -> history_ok n (keep_control s).
Proof. rewrite keep_control_eq. by intros []. Qed.

Lemma keep_life (s : S) : same_life s (keep_control s).
Proof. by rewrite keep_control_eq. Qed.

(** A leaf's history as the daemon reads it. *)
Lemma history_bytes n id (s : S) d : dinv n d -> session id d = Some s -> bytes (ring_snapshot (ring s)).
Proof.
  intros [Hk] Hs. pose proof (session_history_ok _ _ _ _ Hk Hs) as []. rewrite ho_ring. cbn.
  unfold last_bytes. by apply Forall_drop.
Qed.

(** ** Sending *)

Lemma queue_frame_ok f c : client_ok c -> client_ok (snd (queue_frame f c)).
Proof.
  intros [H1 H2 H3 [fs H4]]. unfold queue_frame. destruct (encode f) as [bs|e] eqn:E; [|by split; eauto].
  split; try done. exists (fs ++ [f]). unfold client_wire. cbn. rewrite app_assoc. by apply sends_snoc.
Qed.

Lemma send_to_keeps n i f d : dinv n d -> keeps (send_to i f) d n.
Proof.
  intros Hd. unfold send_to. destruct (clients d !! i) as [c|] eqn:E; [|by eapply keeps_ret; [cbn; rewrite E|]].
  destruct (queue_frame f c) as [r c'] eqn:Eq. eapply keeps_ret; [cbn; by rewrite E, Eq|].
  apply dinv_clients; [done|]. pose proof (di_clients _ _ Hd) as Hc. apply Forall_insert; [done|].
  replace c' with (snd (queue_frame f c)) by (by rewrite Eq). apply queue_frame_ok. by eapply Forall_lookup_1 in Hc.
Qed.

Lemma drop_client_ok n i d : dinv n d -> dinv n (drop_client i d).
Proof.
  intros Hd. unfold drop_client. destruct (clients d !! i) as [c|]; [|done].
  set (d1 := match cl_leaf c with Some id => _ | None => d end).
  assert (Hd1 : dinv n d1).
  { subst d1. destruct (cl_leaf c) as [id|]; [|done].
    destruct (cl_observe c); apply dinv_session; try done.
    - apply release_history.
    - apply detach_history.
    - apply detach_life. }
  clearbody d1. change (dinv n (close_stream (cl_stream c) (d1 <| clients := delete i (clients d1) |>))).
  apply dinv_close, dinv_clients; [done|].
  apply Forall_delete. apply Hd1.
Qed.

Lemma drop_client_update i f d :
  (forall c, cl_leaf (f c) = cl_leaf c /\ cl_observe (f c) = cl_observe c /\ cl_stream (f c) = cl_stream c) ->
  drop_client i (update_client i f d) = drop_client i d.
Proof.
  intros Hf. unfold drop_client. cbn [clients put Prelude.eta daemon_eta update_client]. rewrite list_lookup_alter_eq.
  destruct (clients d !! i) as [c|] eqn:Ec; cbn [fmap option_fmap option_map].
  - destruct (Hf c) as (-> & -> & ->).
    assert (Hdel : delete i (alter f i (clients d)) = delete i (clients d)).
    { apply list_eq. intros j. destruct (decide (j < i)%nat).
      - rewrite !list_lookup_delete_lt by done. by rewrite list_lookup_alter_ne by lia.
      - rewrite !list_lookup_delete_ge by lia. by rewrite list_lookup_alter_ne by lia. }
    destruct (cl_leaf c); cbn -[delete]; by rewrite Hdel.
  - unfold update_client. assert (alter f i (clients d) = clients d) as ->; [|by destruct d].
    apply list_eq. intros j. destruct (decide (i = j)) as [->|].
    + by rewrite list_lookup_alter_eq, Ec.
    + by rewrite list_lookup_alter_ne.
Qed.

(** ** Frames from a client *)

Lemma forward_keeps n id f d : dinv n d -> n < MAX_STEPS -> rx_ok f -> keeps (forward instant grace id f) d (n + 1).
Proof.
  intros Hd Hn Hf. unfold forward. apply se_bind_rule, safe_ret. cbn [fst snd].
  set (d1 := d <| ticks := _ |>). assert (Hd1 : dinv n d1) by by apply dinv_tick. clearbody d1.
  unfold kernel_frame. eapply safe_bind; [apply (frame_ok n); [apply Hd1|done|]|].
  { destruct f; try done. }
  intros [r k] Hk. apply safe_ret. by eapply dinv_kernel.
Qed.

Lemma chip_keeps n m d : dinv n d -> safe (m (d_chip d)) (fun '(_, e) => engine_ok e) -> keeps (chip_op m) d n.
Proof.
  intros Hd Hm. unfold keeps, chip_op. eapply safe_bind; [exact Hm|]. intros [r e] He. apply safe_ret. by apply dinv_chip.
Qed.

Lemma chip_snapshot_ok e : engine_ok e -> safe (Engine.snapshot e) (fun '(_, e') => engine_ok e').
Proof.
  intros (Hp & Hpb & Hwf). unfold Engine.snapshot.
  destruct (snapshot_safe (screen e) Hwf) as ([g s] & -> & _ & Hw & _). apply safe_ret. by split_and!.
Qed.

Lemma emit_keeps n i id d : dinv n d -> keeps (emit_checkpoint i id) d n.
Proof.
  intros Hd. unfold keeps, emit_checkpoint. destruct (session id d) as [s|] eqn:Hs; [|by apply safe_ret].
  pose proof (history_bytes _ _ _ _ Hd Hs) as Hb. cbv zeta. set (hist := ring_snapshot (ring s)) in *. clearbody hist.
  apply (keeps_bind _ _ d n n); [|lia|intros _ d1 Hd1].
  { apply chip_keeps; [done|]. apply safe_ret. destruct (reset (d_chip d)) as [r e] eqn:E.
    change e with (snd (r, e)). rewrite <- E. apply reset_ok. apply Hd. }
  apply (keeps_bind _ _ d1 n n); [|lia|intros _ d2 Hd2].
  { case_if; [|by apply safe_ret]. apply chip_keeps; [done|].
    eapply safe_bind; [apply feed_safe; [apply Hd1|done]|]. intros e [He _]. by apply safe_ret. }
  apply (keeps_bind _ _ d2 n n); [|lia|intros g d3 Hd3; by apply send_to_keeps].
  eapply safe_bind; [apply chip_snapshot_ok, Hd2|]. intros [g e] He. apply safe_ret. by apply dinv_chip.
Qed.

Lemma attached_keeps n i id protocol observe d : dinv n d -> keeps (attached_to i id protocol observe) d n.
Proof.
  intros Hd. unfold attached_to. apply (keeps_bind _ _ d n n); [|lia|intros _ d1 Hd1].
  { apply safe_ret. apply dinv_update; [done|]. by intros c []. }
  case_if; [by apply emit_keeps|]. case_if; [|by apply safe_ret]. unfold keeps.
  destruct (session id d1) as [s|]; [|by apply safe_ret]. case_if; [by apply send_to_keeps|by apply safe_ret].
Qed.

Lemma on_attach_keeps n i generation sid protocol observe d :
  dinv n d -> n < MAX_STEPS -> keeps (on_attach_frame instant grace i generation sid protocol observe) d (n + 1).
Proof.
  intros Hd Hn. unfold keeps, on_attach_frame.
  assert (Hsend : forall f, keeps (send_to i f) d (n + 1)) by (intros f; eapply keeps_mono; [|by apply send_to_keeps]; lia).
  case_if; [apply Hsend|]. destruct (resolve_attach sid d) as [id|]; [|apply Hsend]. cbv zeta.
  case_if; [apply Hsend|].
  apply (keeps_bind _ _ d (n + 1) (n + 1)); [by apply forward_keeps|lia|intros _ d1 Hd1].
  apply (keeps_bind _ _ d1 (n + 1) (n + 1)); [by apply safe_ret|lia|intros b d2 Hd2].
  case_if; [by apply attached_keeps|by apply safe_ret].
Qed.

Lemma dispatch_keeps n i f d :
  dinv n d -> n < MAX_STEPS -> rx_ok f -> keeps (dispatch_frame instant grace i f) d (n + 1).
Proof.
  intros Hd Hn Hf. pose proof (dinv_mono n (n + 1) d ltac:(lia) Hd) as Hd1.
  destruct f as [bs|m|c r pw ph|st|generation sid pr ob|rr|off h bl|off bs|]; cbn [dispatch_frame];
    [..|by apply on_attach_keeps| | | |].
  all: unfold keeps; case_if; [apply safe_ret; by apply drop_client_ok|].
  all: cbv zeta; case_if; [by apply safe_ret|apply forward_keeps; try done].
  apply dinv_update; [done|]. intros cl []. cbn in Hf. split; try done. cbn. num.
Qed.

Lemma dispatch_all_keeps fs n i d :
  dinv n d -> n + len fs <= MAX_STEPS -> Forall rx_ok fs -> keeps (dispatch_frames instant grace i fs) d (n + len fs).
Proof.
  revert n d. induction fs as [|f fs IH]; intros n d Hd Hn Hf; cbn [dispatch_frames].
  { apply safe_ret. by rewrite Z.add_0_r. }
  rewrite len_cons in *. pose proof (len_nonneg fs). apply Forall_cons in Hf as [Hf Hfs].
  apply (keeps_bind _ _ d (n + 1)); [apply dispatch_keeps; [done|lia|done]|lia|].
  intros _ d1 Hd1. replace (n + (1 + len fs)) with (n + 1 + len fs) by lia. apply IH; [done|lia|done].
Qed.

Lemma traced_read_wrote n (k k' : TK) r : sock_read n k = (r, k') -> wrote (snd k') = wrote (snd k).
Proof.
  destruct k as [k tr]. cbn. destruct (sock_read n k) as [r0 k0]. intros [= <- <-]. cbn [snd].
  destruct r0; [apply wrote_read|done].
Qed.

(** At most so many frames come out of one read. *)
Definition READ_COST : Z := MAX_FRAME + 5 + READ_LEN.

Lemma weight_frames fs : 5 * len fs <= weight fs.
Proof.
  induction fs as [|f fs IH]; [done|]. rewrite len_cons. cbn. unfold data_len. destruct f; try lia.
  pose proof (len_nonneg bs). lia.
Qed.

(** Where a read leaves the client: its stream moved on, its wire did not. *)
Lemma read_stream_ok n i d c bs_max r tk :
  dinv n d -> clients d !! i = Some c -> sock_read bs_max (cl_stream c) = (r, tk) ->
  dinv n (update_client i (fun c => c <| cl_stream := tk |>) d) /\
  clients (update_client i (fun c => c <| cl_stream := tk |>) d) !! i = Some (c <| cl_stream := tk |>).
Proof.
  intros Hd Hc Hr. apply traced_read_wrote in Hr. split.
  - apply dinv_set; [done|]. intros x Hx. rewrite Hc in Hx. injection Hx as <-.
    destruct (client_at _ _ _ _ Hd Hc) as [? ? ? Hw]. split; try done. unfold client_wire in *.
    cbn [cl_stream cl_outbox put Prelude.eta dclient_eta]. by rewrite Hr.
  - cbn [clients put Prelude.eta daemon_eta update_client]. by rewrite list_lookup_alter_eq, Hc.
Qed.

Lemma read_client_keeps n i d :
  dinv n d -> n + READ_COST <= MAX_STEPS -> keeps (read_client instant grace i) d (n + READ_COST).
Proof.
  intros Hd Hn. assert (Hle : n <= n + READ_COST) by (unfold READ_COST, MAX_FRAME, READ_LEN; lia).
  unfold keeps, read_client. destruct (clients d !! i) as [c|] eqn:Ec; [|apply safe_ret; by eapply dinv_mono].
  destruct (sock_read READ_LEN (cl_stream c)) as [r tk] eqn:Er.
  destruct (read_stream_ok _ _ _ _ _ _ _ Hd Ec Er) as [Hd2 Hc2]. set (d2 := update_client i _ d) in *. clearbody d2.
  assert (Hdrop : forall d3, dinv n d3 -> dinv (n + READ_COST) (drop_client i d3))
    by (intros d3 Hd3; apply drop_client_ok; by eapply dinv_mono).
  pose proof (client_at _ _ _ _ Hd Ec) as Hc.
  destruct r as [bs|[|e]]; [|apply safe_ret; by eapply dinv_mono|apply safe_ret; by apply Hdrop].
  destruct (Z.eqb_spec (len bs) 0) as [Hz|Hz]; [apply safe_ret; by apply Hdrop|].
  apply sock_read_fits in Er as [Hlb Hbb]; [|done].
  destruct (push_rule bs (cl_decoder c) (co_buf _ Hc) Hbb) as ([r dec] & Ep & Hbd & Hr).
  destruct (push_bounded_eq bs (cl_decoder c) (co_buf _ Hc) Hbb) as ([r' dec'] & Ep' & Hpb).
  rewrite Ep in Ep'. injection Ep' as <- <-. rewrite Ep. cbn [mbind option_bind].
  assert (Hd3 : is_ok r = true -> dinv n (update_client i (fun c => c <| cl_decoder := dec |>) d2)).
  { intros Hok. apply dinv_set; [done|]. intros x Hx. destruct (client_at _ _ _ _ Hd2 Hx). split; try done. by apply Hpb. }
  destruct r as [fs|e].
  - destruct Hr as [Hw Hrx]. pose proof (weight_frames fs). pose proof (len_nonneg (buf dec)). pose proof (len_nonneg fs).
    pose proof (co_small _ Hc). apply (keeps_mono _ _ (n + len fs)); [unfold READ_COST in *; lia|].
    apply dispatch_all_keeps; [by apply Hd3|unfold READ_COST in *; lia|done].
  - apply safe_ret. rewrite drop_client_update by done. by apply Hdrop.
Qed.

Lemma read_clients_keeps ready i n d :
  dinv n d -> n + READ_COST * len ready <= MAX_STEPS ->
  keeps (read_clients instant grace ready i) d (n + READ_COST * len ready).
Proof.
  revert i n d. induction ready as [|r ready IH]; intros i n d Hd Hn; cbn [read_clients].
  { apply safe_ret. by rewrite Z.mul_0_r, Z.add_0_r. }
  assert (0 <= READ_COST) by (unfold READ_COST, MAX_FRAME, READ_LEN; lia).
  rewrite len_cons in *. pose proof (len_nonneg ready).
  assert (Hle : forall d', dinv n d' -> dinv (n + READ_COST * (1 + len ready)) d') by (intros d'; apply dinv_mono; lia).
  assert (Hnext : forall j m d', dinv m d' -> m <= n + READ_COST -> keeps (read_clients instant grace ready j) d' (n + READ_COST * (1 + len ready))).
  { intros j m d' Hd' Hm. apply (keeps_mono _ _ (m + READ_COST * len ready)); [lia|]. apply IH; [done|lia]. }
  unfold keeps. case_if; [|apply safe_ret; by apply Hle]. destruct r; [|apply (Hnext _ n); [done|lia]].
  apply (keeps_bind _ _ d (n + READ_COST)); [apply read_client_keeps; [done|lia]|lia|intros _ d1 Hd1].
  apply (keeps_bind _ _ d1 (n + READ_COST)); [by apply safe_ret|lia|intros m d2 Hd2].
  case_if; [by apply (Hnext _ (n + READ_COST))|apply safe_ret, (dinv_mono (n + READ_COST)); [lia|done]].
Qed.

(** ** Terminal bytes *)

Lemma served_ok id off bs c : len bs <= READ_BUF -> client_ok c -> client_ok (served id off bs c).
Proof.
  intros Hb [H1 H2 H3 [fs H4]]. unfold served. destruct (bool_decide _); cbn [andb]; [|by split; eauto].
  pose proof (len_nonneg bs). destruct (Z.leb_spec (len bs) (cl_credit c)); [|by split; eauto].
  set (f := chunk_frame _ _ _). destruct (chunk_encodes f bs) as [w Hw]; [|done|].
  { subst f. unfold chunk_frame. case_if; [right; by eexists|by left]. }
  unfold encoded. rewrite Hw. split; try done; [cbn; lia|]. exists (fs ++ [f]). unfold client_wire. cbn -[len].
  rewrite app_assoc. by apply sends_snoc.
Qed.

Lemma serve_all_ok id off chunks c :
  Forall (fun bs => 0 < len bs <= READ_BUF) chunks -> client_ok c -> client_ok (serve_all id off chunks c).
Proof.
  revert off c. induction chunks as [|bs chunks IH]; intros off c Hf Hc; [done|]. apply Forall_cons in Hf as [Hb Hf].
  cbn [serve_all]. apply IH; [done|]. apply served_ok; [lia|done].
Qed.

Lemma on_session_keeps {A} n n' id (m : SE S A) d :
  dinv n d -> n <= n' ->
  (forall s, session id d = Some s -> safe (m s) (fun '(_, s') => history_ok n' s' /\ same_life s s')) ->
  keeps (on_session id m) d n'.
Proof.
  intros Hd Hn Hm. destruct (session id d) as [s|] eqn:Hs.
  - destruct (Hm s eq_refl) as ([r s'] & E & Hh & Hl). eapply keeps_ret; [by apply (on_session_eq id m d s r s')|].
    apply dinv_kernel with n; [done|]. apply (put_session_ok n n' id s s' d); try done. apply Hd.
  - eapply keeps_ret; [by unfold on_session; rewrite Hs|]. by eapply dinv_mono.
Qed.

Lemma readable_keeps n (s : S) : history_ok n s -> n < MAX_STEPS ->
  safe (on_pty_readable s) (fun '(_, s') => history_ok (n + 1) s' /\ same_life s s').
Proof.
  intros Hh Hn. destruct (readable_inv n (ghost s) (ghost_inv _ _ Hh) Hn) as (w & E & [Hw _]).
  cbn [world_step ghost sess] in E. destruct (on_pty_readable s) as [[r s']|] eqn:Er; [|done]. injection E as <-.
  exists (r, s'). split; [done|]. split; [done|]. by eapply pres_readable.
Qed.

Lemma drain_keeps fuel n id d :
  dinv n d -> n + Z.of_nat fuel <= MAX_STEPS -> keeps (drain_loop fuel id) d (n + Z.of_nat fuel).
Proof.
  revert n d. induction fuel as [|fuel IH]; intros n d Hd Hn.
  { apply safe_ret. by rewrite Z.add_0_r. }
  destruct (has_protocol2 (clients d) id || is_worker d) eqn:Hw.
  - destruct (session id d) as [s|] eqn:Hs.
    + unfold keeps. eapply safe_mono; [apply (drain_loop_rule _ n id s); try done; [apply Hd|]|].
      { eapply Forall_impl; [apply Hd|]. intros c []. lia. }
      intros [r d'] (chunks & [_ Dc _ Db _ Dk _ Ds] & _). rewrite Ds. destruct Hd. split; try done. cbn. rewrite Dc.
      apply Forall_map. eapply Forall_impl; [done|]. intros c. by apply serve_all_ok.
    + unfold keeps. cbn [drain_loop]. cbv zeta. rewrite Hw. case_if.
      { apply safe_ret. rewrite update_session_none by done. eapply dinv_mono; [|done]. lia. }
      apply se_bind_rule. unfold on_session. rewrite Hs. apply safe_ret. cbn [fst snd]. apply safe_ret.
      eapply dinv_mono; [|done]. lia.
  - unfold keeps. cbn [drain_loop]. cbv zeta. rewrite Hw.
    assert (Hd' : dinv (n + Z.of_nat (Datatypes.S fuel)) d) by (eapply dinv_mono; [|done]; lia).
    destruct (session id d) as [s|] eqn:Hs; [|by apply safe_ret]. case_if; [|by apply safe_ret].
    apply (keeps_bind _ _ d (n + 1)); [|lia|].
    { apply (on_session_keeps n); [done|lia|]. intros s0 Hs0. apply readable_keeps; [|lia].
      eapply session_history_ok; [apply Hd|done]. }
    intros got d1 Hd1. case_if; [|apply safe_ret; eapply dinv_mono; [|done]; lia].
    rewrite Nat2Z.inj_succ. replace (n + Z.succ (Z.of_nat fuel)) with (n + 1 + Z.of_nat fuel) by lia. apply IH; [done|lia].
Qed.

Lemma drain_leaves_keeps fuel ids n d :
  dinv n d -> n + Z.of_nat fuel * len ids <= MAX_STEPS ->
  keeps (drain_leaves fuel ids) d (n + Z.of_nat fuel * len ids).
Proof.
  revert n d. induction ids as [|id ids IH]; intros n d Hd Hn; cbn [drain_leaves].
  { apply safe_ret. by rewrite Z.mul_0_r, Z.add_0_r. }
  rewrite len_cons in *. pose proof (len_nonneg ids).
  apply (keeps_bind _ _ d (n + Z.of_nat fuel)); [apply drain_keeps; [done|lia]|lia|intros b d1 Hd1].
  destruct b; [|apply safe_ret; eapply dinv_mono; [|done]; lia].
  apply (keeps_mono _ _ (n + Z.of_nat fuel + Z.of_nat fuel * len ids)); [lia|]. apply IH; [done|lia].
Qed.

(** ** Outbound frames *)

Lemma queue_frames_ok fs c : client_ok c -> client_ok (snd (queue_frames fs c)).
Proof.
  revert c. induction fs as [|f fs IH]; intros c Hc; [done|]. cbn [queue_frames]. case_if; [by apply IH|].
  pose proof (queue_frame_ok f c Hc) as Hq. destruct (queue_frame f c) as [[u|e] c']; [by apply IH|done].
Qed.

Lemma flush_client_ok pending c : client_ok c -> safe (flush_client pending c) (fun '(_, c') => client_ok c').
Proof.
  intros Hc. unfold flush_client. set (fs := match cl_leaf c with Some _ => _ | None => [] end).
  pose proof (queue_frames_ok fs c Hc) as Hq. destruct (queue_frames fs c) as [[u|e] c']; cbn [snd] in Hq; [|by apply safe_ret].
  eapply safe_bind; [apply write_outbox_eq|]. intros [[r q] k] (Hw & _). apply safe_ret.
  destruct Hq as [? ? ? Hwire]. split; try done. unfold client_wire in *. cbn in *. by rewrite Hw.
Qed.

Lemma flush_clients_ok pending i cs : Forall client_ok cs ->
  safe (flush_clients pending i cs) (fun '(_, cs') => Forall client_ok cs').
Proof.
  intros Hcs. revert i. induction Hcs as [|c cs Hc Hcs IH]; intros i; cbn [flush_clients]; [by apply safe_ret|].
  eapply safe_bind; [by apply flush_client_ok|]. intros [r c'] Hc'. destruct r as [[]|e]; [apply safe_ret; by constructor| |apply safe_ret; by constructor].
  eapply safe_bind; [apply IH|]. intros [r cs'] Hcs'. apply safe_ret. by constructor.
Qed.

Lemma keep_unclaimed_ok n d : dinv n d -> dinv n (keep_unclaimed hash_order d).
Proof.
  intros Hd. unfold keep_unclaimed. generalize (hash_order (kern d)) as ids, (claimed d) as cl. intros ids cl.
  revert d Hd. induction ids as [|id ids IH]; intros d Hd; [done|]. cbn [fold_left]. apply IH. case_bool_decide; [done|].
  apply dinv_session; [done| |]; intros s; [apply keep_history|apply keep_life].
Qed.

Lemma pop_all_ok n id (s : S) d : dinv n d -> session id d = Some s ->
  dinv n (update_session id (fun _ => snd (pop_all s)) d).
Proof.
  intros Hd Hs. destruct Hd. split; try done. rewrite (update_session_eq _ _ _ _ Hs). rewrite pop_all_eq. cbn [snd].
  apply (put_session_ok n n id s); try done. pose proof (session_history_ok _ _ _ _ di_kernel0 Hs) as []. by split.
Qed.

Lemma take_pending_ok n ids pending d : dinv n d -> dinv n (snd (take_pending ids pending d)).
Proof.
  revert pending d. induction ids as [|id ids IH]; intros pending d Hd; [done|]. cbn [take_pending].
  case_bool_decide; [by apply IH|]. destruct (session id d) as [s|] eqn:Hs; [|by apply IH].
  destruct (pop_all s) as [fs s'] eqn:Ep. apply IH. replace s' with (snd (pop_all s)) by (by rewrite Ep). by apply pop_all_ok.
Qed.

Lemma flush_keeps n d : dinv n d -> keeps (flush_outbound hash_order) d n.
Proof.
  intros Hd. unfold keeps, flush_outbound. pose proof (keep_unclaimed_ok _ _ Hd) as H1.
  set (d1 := keep_unclaimed hash_order d) in *. clearbody d1.
  pose proof (take_pending_ok n (claimed d1) ∅ d1 H1) as H2. destruct (take_pending _ ∅ d1) as [pending d2]. cbn [snd] in H2.
  eapply safe_bind; [apply flush_clients_ok, H2|]. intros [r cs] Hcs. apply safe_ret.
  pose proof (dinv_clients _ _ _ H2 Hcs) as H3. destruct r as [[i|]|e]; [by apply drop_client_ok|done|done].
Qed.

(** ** Resynchronisation *)

Lemma resync_leaf_keeps n id d : dinv n d -> keeps (resync_leaf id) d n.
Proof.
  intros Hd. unfold keeps, resync_leaf. destruct (session id d) as [s|] eqn:Hs; [|by apply safe_ret].
  pose proof (history_bytes _ _ _ _ Hd Hs) as Hb.
  assert (H1 : forall s', s' = s \/ s' = snd (take_resync_history s) -> dinv n (update_session id (fun _ => s') d)).
  { intros s' Hs'. destruct Hd. split; try done. rewrite (update_session_eq _ _ _ _ Hs).
    pose proof (session_history_ok _ _ _ _ di_kernel0 Hs) as Hh.
    assert (history_ok n s' /\ same_life s s') as [Hh' Hl].
    { destruct Hs' as [-> | ->]; [done|]. unfold take_resync_history. case_if; [done|]. by destruct Hh. }
    by apply (put_session_ok n n id s). }
  unfold take_resync_history in *. case_if; [apply safe_ret; apply H1; by left|].
  specialize (H1 _ (or_intror eq_refl)). cbn [snd] in H1. set (d1 := update_session id _ d) in *. clearbody d1.
  case_if; [by apply safe_ret|].
  eapply safe_bind; [apply resync_safe; [apply H1|done]|]. intros [r e] [He _]. cbn [snd] in He.
  pose proof (dinv_chip _ _ _ H1 He) as H2. destruct r as [bs|er]; apply safe_ret; [|done].
  case_if; [|done]. apply dinv_session; [done| |done]. intros t. apply enqueue_history.
Qed.

Lemma resync_keeps n d : dinv n d -> keeps (maybe_resync hash_order) d n.
Proof.
  intros Hd. unfold keeps, maybe_resync. generalize (hash_order (kern d)) as ids. intros ids. revert d Hd.
  induction ids as [|id ids IH]; intros d Hd; cbn [resync_leaves]; [by apply safe_ret|].
  apply (keeps_bind _ _ d n n); [by apply resync_leaf_keeps|lia|]. intros _ d1. apply IH.
Qed.

(** ** The cold sockets *)

Lemma accepting_keeps n o (f : TK -> D ()) d :
  dinv n d -> (forall k, o = Some (Ok k) -> keeps (f k) d n) -> keeps (accepting o f) d n.
Proof. intros Hd Hf. destruct o as [[k|[|e]]|]; cbn [accepting]; [by apply Hf|by apply safe_ret..]. Qed.

Lemma nonblocking_trace b (k : TK) : snd (snd (sock_set_nonblocking b k)) = snd k.
Proof. destruct k as [k tr]. cbn. by destruct (sock_set_nonblocking b k). Qed.

Definition fresh_stream (o : option (result IoError TK)) : Prop :=
  match o with Some (Ok k) => snd k = [] | _ => True end.

Lemma accept_client_keeps n o d : dinv n d -> fresh_stream o -> keeps (accept_client o) d n.
Proof.
  intros Hd Ho. apply accepting_keeps; [done|]. intros k ->. case_if; [apply safe_ret; by apply dinv_close|].
  pose proof (nonblocking_trace true k) as Ht. destruct (sock_set_nonblocking true k) as [r k']. cbn [snd] in Ht.
  apply (keeps_bind _ _ d n n); [by apply safe_ret|lia|]. intros _ d1 Hd1. apply safe_ret.
  apply dinv_clients; [done|]. apply Forall_app. split; [apply Hd1|]. constructor; [|done].
  split; [done|constructor|done|]. exists [], []. split; [constructor|]. unfold client_wire. cbn. rewrite Ht.
  cbn in Ho. by rewrite Ho.
Qed.

Lemma identity_keeps n o d : dinv n d -> keeps (serve_cold_identity o) d n.
Proof.
  intros Hd. apply accepting_keeps; [done|]. intros k _. unfold keeps.
  destruct (session (default_id d) d); [|by apply safe_ret]. destruct (sock_write_all identity_wire k) as [r k'].
  apply safe_ret. by apply dinv_close.
Qed.

Lemma dinv_nav n d ks : dinv n d -> dinv n (d <| nav_conns := ks |>).
Proof. intros []. by split. Qed.

Lemma accept_nav_keeps n o d : dinv n d -> keeps (accept_cold_nav o) d n.
Proof.
  intros Hd. apply accepting_keeps; [done|]. intros k _. cbv zeta.
  apply (keeps_bind _ _ d n n); [by apply safe_ret|lia|]. intros line d1 Hd1.
  destruct (sock_write_all line _) as [r k']. destruct r as [u|[|e]].
  - apply safe_ret. by apply dinv_nav.
  - apply safe_ret. by apply dinv_nav.
  - apply (keeps_bind _ _ d1 n n); [apply safe_ret; by apply dinv_close|lia|]. intros _ d2 Hd2.
    by case_if; apply safe_ret.
Qed.

Lemma accept_content_keeps n o d : dinv n d -> keeps (accept_cold_content o) d n.
Proof.
  intros Hd. apply accepting_keeps; [done|]. intros k _. destruct (sock_set_nonblocking true k) as [r k'].
  apply (keeps_bind _ _ d n n); [by apply safe_ret|lia|]. intros _ d1 []. apply safe_ret. split; try done.
  cbn. apply Forall_app. split; [done|]. constructor; [|done]. by split; [constructor|].
Qed.

Lemma on_kernel_keeps {A} n n' (m : SE (Kernel TP) A) d :
  dinv n d -> safe (m (kern d)) (fun '(_, k') => kernel_ok n' k') -> keeps (on_kernel m) d n'.
Proof.
  intros Hd Hm. unfold keeps, on_kernel. eapply safe_bind; [exact Hm|]. intros [r k] Hk. apply safe_ret.
  by eapply dinv_kernel.
Qed.

Lemma spawn_tab_keeps n d : dinv n d -> n + 3 <= MAX_STEPS -> keeps (spawn_tab_leaf shell) d (n + 3).
Proof.
  intros Hd Hn. unfold spawn_tab_leaf.
  apply (keeps_bind _ _ d n); [apply safe_ret; by apply dinv_tick|lia|]. intros t d1 Hd1.
  apply (keeps_bind _ _ d1 (n + 1)); [apply (on_kernel_keeps n); [done|]; apply spawn_ok; [apply Hd1|lia]|lia|].
  intros leaf d2 Hd2. apply (keeps_bind _ _ d2 (n + 1)); [by apply safe_ret|lia|]. intros ws d3 Hd3.
  apply (keeps_bind _ _ d3 (n + 2)); [|lia|].
  { apply (on_kernel_keeps (n + 1)); [done|]. replace (n + 2) with (n + 1 + 1) by lia. apply create_ok; [apply Hd3|lia]. }
  intros tab d4 Hd4. apply (on_kernel_keeps (n + 2)); [done|]. replace (n + 3) with (n + 2 + 1) by lia.
  apply attach_leaf_ok, Hd4.
Qed.

Lemma nav_command_keeps n k d : dinv n d -> n + 3 <= MAX_STEPS ->
  safe (nav_command shell k d) (fun '(_, _, d') => dinv (n + 3) d').
Proof.
  intros Hd Hn. assert (Hd3 : dinv (n + 3) d) by (eapply dinv_mono; [|done]; lia). unfold nav_command.
  destruct (sock_read NAV_CMD_LEN k) as [r k']. destruct r as [bs|[|e]]; [|by apply safe_ret..].
  case_if; [by apply safe_ret|]. eapply safe_bind; [exact (spawn_tab_keeps n d Hd Hn)|].
  intros [[u|e] d'] Hd'; by apply safe_ret.
Qed.

Lemma nav_commands_keeps conns kept n d : dinv n d -> n + 3 * len conns <= MAX_STEPS ->
  keeps (nav_commands shell conns kept) d (n + 3 * len conns).
Proof.
  revert kept n d. induction conns as [|k conns IH]; intros kept n d Hd Hn; unfold keeps; cbn [nav_commands].
  { apply safe_ret. rewrite Z.mul_0_r, Z.add_0_r. by apply dinv_nav. }
  rewrite len_cons in *. pose proof (len_nonneg conns).
  eapply safe_bind; [apply nav_command_keeps; [done|lia]|]. intros [[r k'] d'] Hd'.
  replace (n + 3 * (1 + len conns)) with (n + 3 + 3 * len conns) by lia. destruct r as [[]|e].
  - apply IH; [done|lia].
  - apply IH; [by apply dinv_close|lia].
  - apply safe_ret. apply dinv_nav. eapply dinv_mono; [|done]. lia.
Qed.

Lemma dinv_timelines n d tls :
  dinv n d -> (forall id, exists texts, holds_texts id texts (timeline_of id (d <| content_timelines := tls |>))) ->
  dinv n (d <| content_timelines := tls |>).
Proof. intros [] Ht. by split. Qed.

Lemma content_command_keeps n cn d : dinv n d -> conn_ok cn ->
  safe (content_command cn d) (fun '(_, cn', d') => conn_ok cn' /\ dinv n d').
Proof.
  intros Hd [Hb Hl]. unfold content_command.
  eapply safe_bind with (P := fun '(_, cn') => conn_ok cn').
  { apply safe_if; intros _; [by apply safe_ret|]. apply read_request_ok; [done|done|].
    unfold REQUEST_FUEL, CONTENT_REQUEST_MAX in *. pose proof (len_nonneg (cc_input cn)). lia. }
  intros [remove cn1] [Hb1 Hl1].
  eapply safe_bind with (P := fun '(cn', d') => conn_ok cn' /\ dinv n d').
  { apply safe_if; intros _; [|apply safe_ret; split; [by split|done]].
    eapply safe_mono; [apply answer_request_ok; [done|apply Hd]|]. intros [cn2 d2] (E & Ht & Hd2).
    split; [split; by rewrite E|]. rewrite Hd2. apply dinv_timelines; [done|]. intros id. rewrite <- Hd2. apply Ht. }
  intros [cn2 d2] [Hc2 Hd2]. case_if; [by apply safe_ret|].
  eapply safe_bind; [apply write_outbox_eq|]. intros [[r q] k] _. by apply safe_ret.
Qed.

Lemma content_commands_keeps n conns kept d : dinv n d -> Forall conn_ok conns -> Forall conn_ok kept ->
  safe (content_commands conns kept d) (dinv n).
Proof.
  intros Hd Hc. revert kept d Hd. induction Hc as [|cn conns Hcn _ IH]; intros kept d Hd Hk; cbn [content_commands].
  { apply safe_ret. destruct Hd. by split. }
  eapply safe_bind; [by apply content_command_keeps|]. intros [[stays cn'] d'] [Hc' Hd']. destruct stays.
  - apply IH; [done|]. apply Forall_app. split; [done|]. by constructor.
  - apply IH; [by apply dinv_close|done].
Qed.

Lemma poll_content_keeps n d : dinv n d -> keeps poll_content_commands d n.
Proof.
  intros Hd. unfold keeps, poll_content_commands. eapply safe_bind; [apply (content_commands_keeps n); [done|apply Hd|constructor]|].
  intros d' Hd'. by apply safe_ret.
Qed.

(** ** The step *)

Lemma reap_keeps ids n d : dinv n d -> n + len ids <= MAX_STEPS -> keeps (reap_all instant ids) d (n + len ids).
Proof.
  revert n d. induction ids as [|id ids IH]; intros n d Hd Hn; cbn [reap_all].
  { apply safe_ret. by rewrite Z.add_0_r. }
  rewrite len_cons in *. pose proof (len_nonneg ids).
  apply (keeps_bind _ _ d n); [apply safe_ret; by apply dinv_tick|lia|]. intros t d1 Hd1.
  apply (keeps_bind _ _ d1 (n + 1)); [apply (on_kernel_keeps n); [done|apply reap_ok; [apply Hd1|lia]]|lia|].
  intros _ d2 Hd2. replace (n + (1 + len ids)) with (n + 1 + len ids) by lia. apply IH; [done|lia].
Qed.

(** Before the commands are read, only [accept_cold_nav] adds a navigation
    connection. *)
Definition same_nav (d d' : Dm) : Prop := nav_conns d' = nav_conns d.

#[local] Instance same_nav_preorder : PreOrder same_nav.
Proof. split; [done|]. intros d1 d2 d3 H1 H2. unfold same_nav in *. congruence. Qed.

Lemma pres_on_kernel {A} (m : SE (Kernel TP) A) : pres same_nav (on_kernel m).
Proof. intros d r d'. unfold on_kernel. destruct (m (kern d)) as [[r0 k]|]; [|done]. by intros [= _ <-]. Qed.

Lemma pres_reap ids : pres same_nav (reap_all instant ids).
Proof.
  induction ids as [|id ids IH]; cbn [reap_all]; [by apply (pres_ret same_nav)|].
  apply (pres_bind same_nav); [by intros d r d' [= _ <-]|intros t].
  apply (pres_bind same_nav); [apply pres_on_kernel|done].
Qed.

Lemma pres_accepting o (f : TK -> D ()) : (forall k, pres same_nav (f k)) -> pres same_nav (accepting o f).
Proof.
  intros Hf. destruct o as [[k|[|e]]|]; cbn [accepting]; [apply Hf|by apply (pres_ret same_nav)|by intros d r d' [= _ <-]|by apply (pres_ret same_nav)].
Qed.

Lemma pres_accept_client o : pres same_nav (accept_client o).
Proof.
  apply pres_accepting. intros k. case_if; [by apply pres_modify|]. destruct (sock_set_nonblocking true k) as [r k'].
  apply (pres_bind same_nav); [by apply (pres_of_result same_nav)|intros _]. by apply pres_modify.
Qed.

Lemma pres_identity o : pres same_nav (serve_cold_identity o).
Proof.
  apply pres_accepting. intros k d r d'. destruct (session (default_id d) d); [|by intros [= _ <-]].
  destruct (sock_write_all identity_wire k). by intros [= _ <-].
Qed.

Lemma pres_accept_content o : pres same_nav (accept_cold_content o).
Proof.
  apply pres_accepting. intros k. destruct (sock_set_nonblocking true k) as [r k'].
  apply (pres_bind same_nav); [by apply (pres_of_result same_nav)|intros _]. by apply pres_modify.
Qed.

Lemma accept_nav_one o d r d' : accept_cold_nav o d = Some (r, d') -> len (nav_conns d') <= len (nav_conns d) + 1.
Proof.
  assert (Hone : forall k (d0 : Dm), len (nav_conns d0 ++ [k]) = len (nav_conns d0) + 1) by (intros; by rewrite len_app).
  unfold accept_cold_nav. destruct o as [[k|[|e]]|]; cbn [accepting]; try (intros [= _ <-]; lia).
  cbv zeta. intros H. apply se_bind_inv in H as [(line & d1 & H1 & H)|(e & H1 & ->)]; [|done]. injection H1 as _ <-.
  destruct (sock_write_all line _) as [r0 k']. destruct r0 as [u|[|e]].
  - injection H as _ <-. cbn. by rewrite Hone.
  - injection H as _ <-. cbn. by rewrite Hone.
  - apply se_bind_inv in H as [(u & d1 & H1 & H)|(e' & H1 & ->)]; [|done]. injection H1 as _ <-.
    case_if_in H; injection H as _ <-; cbn; lia.
Qed.

Lemma keeps_bind_pres {A B} (R : relation Dm) (m : D A) (f : A -> D B) d n1 n2 :
  keeps m d n1 -> n1 <= n2 -> (forall r d1, m d = Some (r, d1) -> R d d1) ->
  (forall a d1, dinv n1 d1 -> R d d1 -> keeps (f a) d1 n2) -> keeps (m ≫= f) d n2.
Proof.
  intros Hm Hle HR Hf. apply se_bind_rule. destruct Hm as ([r d1] & E & Hd). exists (r, d1). split; [done|].
  cbn [fst snd]. destruct r as [a|e]; [by eapply Hf; [|eapply HR]|by eapply dinv_mono].
Qed.

Definition readable_of (po : Polled TK) : list Z := match po_readable po with Ok ids => ids | Err _ => [] end.

(** A bound on the calls one step makes into the kernel and its sessions. *)
Definition poll_cost (fuel : nat) (po : Polled TK) (d : Dm) : Z :=
  3 * (len (nav_conns d) + 1) + READ_COST * len (po_ready po) + Z.of_nat fuel * len (readable_of po).
Definition step_cost (fuel : nat) (po : Polled TK) (d : Dm) : Z :=
  len (hash_order (kern d)) + poll_cost fuel po d.

Lemma poll_cost_nonneg fuel po d : 0 <= poll_cost fuel po d.
Proof.
  unfold poll_cost. pose proof (len_nonneg (nav_conns d)). pose proof (len_nonneg (po_ready po)).
  pose proof (len_nonneg (readable_of po)). unfold READ_COST, MAX_FRAME, READ_LEN in *. lia.
Qed.

Lemma step_cost_nonneg fuel po d : 0 <= step_cost fuel po d.
Proof.
  unfold step_cost. pose proof (poll_cost_nonneg fuel po d). pose proof (len_nonneg (hash_order (kern d))). lia.
Qed.

Lemma poll_keeps_all fuel po n d :
  dinv n d -> fresh_stream (po_client po) -> n + poll_cost fuel po d <= MAX_STEPS ->
  keeps (poll_io instant shell grace fuel po) d (n + poll_cost fuel po d).
Proof.
  intros Hd Hpo Hn. unfold poll_cost in *. pose proof (len_nonneg (nav_conns d)). pose proof (len_nonneg (po_ready po)).
  pose proof (len_nonneg (readable_of po)). assert (0 <= READ_COST) by (unfold READ_COST, MAX_FRAME, READ_LEN; lia).
  set (c1 := 3 * _) in *. set (c2 := READ_COST * _) in *. set (c3 := Z.of_nat fuel * _) in *.
  assert (0 <= c2 /\ 0 <= c3) as [? ?] by (split; apply Z.mul_nonneg_nonneg; lia). assert (0 <= c1) by (subst c1; lia).
  unfold poll_io, readable_of in *. destruct (po_readable po) as [readable|e].
  2: { apply se_bind_rule, safe_ret. cbn [fst snd]. eapply dinv_mono; [|done]. lia. }
  apply se_bind_rule, safe_ret. cbn [fst snd].
  apply (keeps_bind_pres same_nav _ _ d n); [by apply accept_client_keeps|lia|intros r d2; apply pres_accept_client|].
  intros _ d2 Hd2 N2.
  apply (keeps_bind_pres same_nav _ _ d2 n); [by apply identity_keeps|lia|intros r d3; apply pres_identity|].
  intros _ d3 Hd3 N3.
  apply (keeps_bind_pres (fun a b => len (nav_conns b) <= len (nav_conns a) + 1) _ _ d3 n);
    [by apply accept_nav_keeps|lia|intros r d4; apply accept_nav_one|].
  intros _ d4 Hd4 N4. unfold same_nav in *. rewrite N3, N2 in N4.
  apply (keeps_bind_pres same_nav _ _ d4 n); [by apply accept_content_keeps|lia|intros r d5; apply pres_accept_content|].
  intros _ d5 Hd5 N5. unfold same_nav in N5. rewrite <- N5 in N4.
  apply (keeps_bind _ _ d5 (n + c1)); [|lia|].
  { apply (keeps_mono _ _ (n + 3 * len (nav_conns d5))); [subst c1; lia|]. apply nav_commands_keeps; [done|subst c1; lia]. }
  intros _ d6 Hd6. apply (keeps_bind _ _ d6 (n + c1)); [by apply poll_content_keeps|lia|]. intros _ d7 Hd7.
  apply (keeps_bind _ _ d7 (n + c1 + c2)); [apply read_clients_keeps; [done|lia]|lia|]. intros _ d8 Hd8.
  replace (n + (c1 + c2 + c3)) with (n + c1 + c2 + c3) by lia. apply drain_leaves_keeps; [done|lia].
Qed.

Lemma step_keeps fuel po n d :
  dinv n d -> fresh_stream (po_client po) -> n + step_cost fuel po d <= MAX_STEPS ->
  keeps (step instant shell grace hash_order fuel po) d (n + step_cost fuel po d).
Proof.
  intros Hd Hpo Hn. unfold step_cost in *. pose proof (len_nonneg (hash_order (kern d))) as Hc0.
  pose proof (poll_cost_nonneg fuel po d) as Hc1.
  set (c0 := len (hash_order (kern d))) in *. set (c1 := poll_cost fuel po d) in *.
  unfold step. apply se_bind_rule, safe_ret. cbn [fst snd].
  apply (keeps_bind_pres same_nav _ _ d (n + c0)); [apply reap_keeps; [done|subst c0; lia]|lia|intros r d1; apply pres_reap|].
  intros _ d1 Hd1 N1. assert (Hc : poll_cost fuel po d1 = c1) by (unfold c1, poll_cost; by rewrite N1).
  replace (n + (c0 + c1)) with (n + c0 + poll_cost fuel po d1) by lia.
  apply (keeps_bind _ _ d1 (n + c0 + poll_cost fuel po d1)); [apply poll_keeps_all; [done|done|lia]|lia|].
  intros b d2 Hd2. destruct b; [|by apply safe_ret].
  apply (keeps_bind _ _ d2 (n + c0 + poll_cost fuel po d1)); [by apply flush_keeps|lia|]. intros _ d3 Hd3.
  apply (keeps_bind _ _ d3 (n + c0 + poll_cost fuel po d1)); [by apply resync_keeps|lia|]. intros _ d4 Hd4. by apply safe_ret.
Qed.

(** ** Binding and reaching *)

Lemma bind_ok x cols rows worker :
  1 <= cols <= MAX_TAB_COLS -> 1 <= rows <= u16_max ->
  safe (bind (K := TK) (spawned_session x) cols rows worker) (fun r => match r with Ok d => dinv 4 d | Err _ => True end).
Proof.
  intros Hc Hr. unfold bind.
  eapply safe_bind with (P := fun '(_, k) => kernel_ok 4 k).
  { apply se_bind_rule. eapply safe_mono; [apply (spawn_ok 0 x); [apply kernel_new_ok|done]|].
    intros [[id|e] k1] H1; cbn [fst snd]; [|by eapply kernel_ok_mono; [|done]].
    apply se_bind_rule. eapply safe_mono; [apply (create_ok (0 + 1)); [done|done]|].
    intros [[ws|e] k2] H2; cbn [fst snd]; [|by eapply kernel_ok_mono; [|done]].
    apply se_bind_rule. eapply safe_mono; [apply (create_ok (0 + 1 + 1)); [done|done]|].
    intros [[tab|e] k3] H3; cbn [fst snd]; [|by eapply kernel_ok_mono; [|done]].
    apply se_bind_rule. eapply safe_mono; [apply (attach_leaf_ok (0 + 1 + 1 + 1)); done|].
    intros [[u|e] k4] H4; cbn [fst snd]; [apply safe_ret|]; exact H4. }
  intros [[[id ws]|e] k] Hk; apply safe_ret; [|done]. destruct (Engine.new cols rows) as [chip|e] eqn:E; [|done].
  split; [done|by apply (new_ok cols rows)|constructor|constructor|].
  intros y. exists []. apply holds_nothing.
Qed.

(** The daemons there are after [n] calls at most, over any sockets, PTYs,
    clocks and shells. *)
Inductive dreach : Z -> Dm -> Prop :=
| dr_bind x cols rows worker d :
    1 <= cols <= MAX_TAB_COLS -> 1 <= rows <= u16_max ->
    bind (K := TK) (spawned_session x) cols rows worker = Some (Ok d) -> dreach 4 d
| dr_step n fuel po d r d' :
    dreach n d -> fresh_stream (po_client po) ->
    step instant shell grace hash_order fuel po d = Some (r, d') -> dreach (n + step_cost fuel po d) d'.

Lemma dreach_inv n d : dreach n d -> n <= MAX_STEPS -> dinv n d.
Proof.
  induction 1 as [x cols rows worker d Hc Hr E|n fuel po d r d' _ IH Hpo E]; intros Hn.
  - pose proof (safe_inv _ _ _ (bind_ok x cols rows worker Hc Hr) E) as H. done.
  - pose proof (step_cost_nonneg fuel po d).
    exact (safe_inv _ _ _ (step_keeps fuel po n d (IH ltac:(lia)) Hpo Hn) E).
Qed.
End Inv.

(** ** Properties *)

(** C2. The daemon is safe whatever it is connected to.  From binding on, over
    any sockets, PTYs, clocks and shells, a step runs without a panic (within
    2^48 - 1 kernel calls in all): credit never goes below zero, no slice or
    index is out of range, no counter overflows.  Whatever bytes its clients
    send, the kernel keeps its tree, its event log and every leaf's history;
    every connection's credit stays a u64 and its decoder holds less than one
    maximal frame; every client's wire - what was written and what is queued - is
    a sequence of whole frames, so no frame is ever torn, cut or sent twice in
    part; and every content timeline is exactly what was submitted to it. *)
Theorem daemon_safe {P} `{!PtyOps P, !PtyLaws P} {K} `{!SockOps K, !SockLaws K, !BlockOps K}
    (instant : nat -> Z) (sh : nat -> result KernelError (P * Winsize * bool)) (grace : Z)
    (hash_order : Kernel (P * list PtyEvent) -> list Z) (n : Z) (fuel : nat)
    (po : Polled (K * list SockEvent)) (d : Daemon (P * list PtyEvent) (K * list SockEvent)) :
  dreach instant sh grace hash_order n d -> fresh_stream (po_client po) ->
  n + step_cost hash_order fuel po d <= MAX_STEPS ->
  safe (step instant (shell sh) grace hash_order fuel po d) (fun '(_, d') =>
    kernel_ok (n + step_cost hash_order fuel po d) (kern d') /\
    Forall (fun c => u64 (cl_credit c) /\ len (buf (cl_decoder c)) < MAX_FRAME + 5 /\
              exists fs, sends fs (client_wire c)) (clients d') /\
    forall id, exists texts, holds_texts id texts (timeline_of id d')).
Proof.
  intros Hr Hpo Hn. eapply safe_mono.
  - apply (step_keeps instant sh grace hash_order fuel po n d); [|done|done]. eapply dreach_inv; [exact Hr|].
    pose proof (step_cost_nonneg hash_order fuel po d). lia.
  - intros [r d'] [Hk _ Hc _ Ht]. split; [done|]. split; [|done]. eapply Forall_impl; [exact Hc|].
    intros c [H1 H2 H3 H4]. split_and!; [num|done|done].
Qed.

(** ** A daemon that runs *)

#[export] Instance script_block : BlockOps Script := {|
  is_gone e := match e with IoCode c => c =? 32 | WouldBlock => false end;
  sock_write_all bs k := (Ok (), k);
  sock_set_nonblocking b k := (Ok (), k);
  peer_authorized k := true;
|}.

Abbreviation demo_tp := (list Z * list PtyEvent)%type.
Abbreviation demo_tk := (Script * list SockEvent)%type.

Definition demo_shell (t : nat) : result KernelError (list Z * Winsize * bool) := Err (SpawnError 2).
Definition demo_clock (t : nat) : Z := Z.of_nat t.
Definition demo_order (k : Kernel demo_tp) : list Z := map fst (map_to_list (leaves k)).

Definition demo_bytes (fs : list Frame) : list Z := concat (map encoded fs).

(** The shell writes "hi"; a client connects and then attaches with credit. *)
Definition demo_bind : option (Daemon demo_tp demo_tk) :=
  match bind (spawned_session (Ok (lit "hi", mkWinsize 8 3 64 48, false))) 8 3 true with
  | Some (Ok d) => Some d
  | _ => None
  end.
Definition quiet_poll : Polled demo_tk := mkPolled None None None None [] (Ok []).
Definition connect_poll (k : Script) : Polled demo_tk := mkPolled (Some (Ok (k, []))) None None None [] (Ok []).
Definition work_poll (ready : list bool) : Polled demo_tk := mkPolled None None None None ready (Ok [1]).

Definition demo_step (po : Polled demo_tk) (d : Daemon demo_tp demo_tk) : option (Daemon demo_tp demo_tk) :=
  match step demo_clock (shell demo_shell) 10 demo_order 4 po d with
  | Some (Ok true, d) => Some d
  | _ => None
  end.

Definition demo_writer : Script := mkScript [demo_bytes [Attach 1 None PROTOCOL_VERSION false; Credit 100]] [].

Lemma demo_bind_reach d : demo_bind = Some d -> dreach demo_clock demo_shell 10 demo_order 4 d.
Proof.
  unfold demo_bind. intros E.
  apply (dr_bind _ _ _ _ (Ok (lit "hi", mkWinsize 8 3 64 48, false)) 8 3 true).
  - vm_compute. split; intros H; discriminate H.
  - vm_compute. split; intros H; discriminate H.
  - destruct (bind _ 8 3 true) as [[d0|e]|]; [|discriminate E..]. by injection E as ->.
Qed.

Lemma daemon_safe_witness : exists d,
  demo_bind = Some d /\ dreach demo_clock demo_shell 10 demo_order 4 d /\
  safe (step demo_clock (shell demo_shell) 10 demo_order 4 (connect_poll demo_writer) d) (fun '(_, d') =>
    kernel_ok (4 + step_cost demo_order 4 (connect_poll demo_writer) d) (kern d') /\
    Forall (fun c => u64 (cl_credit c) /\ len (buf (cl_decoder c)) < MAX_FRAME + 5 /\
              exists fs, sends fs (client_wire c)) (clients d') /\
    forall id, exists texts, holds_texts id texts (timeline_of id d')).
Proof.
  destruct demo_bind as [d|] eqn:E; [|vm_compute in E; discriminate E].
  exists d. pose proof (demo_bind_reach d E) as Hr. split; [reflexivity|split; [exact Hr|]].
  apply (daemon_safe demo_clock demo_shell 10 demo_order 4 4 (connect_poll demo_writer) d Hr); [reflexivity|].
  vm_compute in E. injection E as <-. vm_compute. intros H. discriminate H.
Defined.
