(* ===== verification/DaemonFlow.v ===== *)
(** What reaches the daemon's clients: the reading of a leaf and its fan-out, the
    flush of queued frames, attaching and observing; and where the code falls
    short of them. *)
From S2P Require Import Prelude Effect VtTypes Utf8 Parser Screen Engine EngineFacts Attach AttachFacts Ring Content ContentFacts Session SessionFacts Kernel Forest KernelFacts Socket Text Cold ColdFacts Daemon DaemonFacts DaemonCold DaemonSafe.

Local Open Scope Z_scope.

Section Flow.
Context {P : Type} `{!PtyOps P, !PtyLaws P} {K : Type} `{!SockOps K, !SockLaws K, !BlockOps K}.
Abbreviation TP := (P * list PtyEvent)%type.
Abbreviation TK := (K * list SockEvent)%type.
Abbreviation S := (Session TP).
Abbreviation Dm := (Daemon TP TK).
Context (instant : nat -> Z) (sh : nat -> result KernelError (P * Winsize * bool)) (grace : Z).
Context (hash_order : Kernel TP -> list Z) `{!HashOrder hash_order}.
Implicit Types (d : Dm) (c : Client TK) (s : S).

(** ** Draining *)

Lemma chunks_length (chunks : list (list Z)) : Forall (fun bs => 0 < len bs <= READ_BUF) chunks -> len chunks <= len (concat chunks).
Proof.
  induction 1 as [|bs chunks Hb _ IH]; [done|]. cbn [concat]. rewrite len_cons, len_app. lia.
Qed.

Lemma serve_all_credit id off chunks c : 0 <= cl_credit c -> 0 <= cl_credit (serve_all id off chunks c).
Proof.
  revert off c. induction chunks as [|bs chunks IH]; intros off c Hc; [done|]. cbn [serve_all]. apply IH. by apply served_credit.
Qed.

(** ** Flushing *)

(** What of a leaf's queue a client is shown. *)
Definition shown c (fs : list Frame) : list Frame :=
  List.filter (fun f => negb ((cl_protocol c =? PROTOCOL_2) && is_data f)) fs.
Definition encodings (fs : list Frame) : list Z := concat (map encoded fs).

(** Nothing but its stream and outbox. *)
Definition only_sent c c' (bs : list Z) : Prop :=
  client_wire c' = client_wire c ++ bs /\ cl_leaf c' = cl_leaf c /\ cl_observe c' = cl_observe c /\
  cl_protocol c' = cl_protocol c /\ cl_credit c' = cl_credit c /\ cl_decoder c' = cl_decoder c.

Lemma queue_frames_eq fs c c' u : queue_frames fs c = (Ok u, c') ->
  c' = c <| cl_outbox := cl_outbox c ++ encodings (shown c fs) |>.
Proof.
  revert c. induction fs as [|f fs IH]; intros c; cbn [queue_frames].
  { intros [= _ <-]. unfold encodings. cbn. rewrite app_nil_r. by destruct c. }
  unfold shown. cbn [List.filter]. fold (shown c fs). destruct (_ && _); cbn [negb]; [apply IH|].
  unfold queue_frame. destruct (encode f) as [bs|e] eqn:E; [|done]. intros H. apply IH in H as ->.
  unfold encodings. cbn [map concat]. unfold encoded at 2. rewrite E. cbn. unfold shown. cbn. by rewrite <- app_assoc.
Qed.

Definition queue_of (pending : gmap Z (list Frame)) c : list Frame :=
  match cl_leaf c with Some id => default [] (pending !! id) | None => [] end.

Lemma flush_client_eq pending c :
  safe (flush_client pending c) (fun '(r, c') => is_ok r = true -> only_sent c c' (encodings (shown c (queue_of pending c)))).
Proof.
  unfold flush_client. fold (queue_of pending c). destruct (queue_frames (queue_of pending c) c) as [[u|e] c1] eqn:E.
  2: by apply safe_ret.
  apply queue_frames_eq in E as ->. eapply safe_bind; [apply write_outbox_eq|]. intros [[r q] k] (Hw & _). apply safe_ret.
  intros _. unfold only_sent, client_wire. cbn -[encodings] in *. rewrite Hw. by rewrite app_assoc.
Qed.

Lemma flush_clients_eq pending i cs :
  safe (flush_clients pending i cs) (fun '(r, cs') => length cs' = length cs /\
    match r with
    | Ok None => Forall2 (fun c c' => only_sent c c' (encodings (shown c (queue_of pending c)))) cs cs'
    | Ok (Some j) => (j < i + length cs)%nat
    | Err _ => True
    end).
Proof.
  revert i. induction cs as [|c cs IH]; intros i; cbn [flush_clients]; [by apply safe_ret|].
  eapply safe_bind; [apply flush_client_eq|]. intros [r c'] Hc. destruct r as [[]|e].
  - apply safe_ret. cbn. split; [done|]. lia.
  - eapply safe_bind; [apply IH|]. intros [r cs'] [Hl Hr]. apply safe_ret. cbn. split; [by rewrite Hl|].
    destruct r as [[j|]|e]; [lia| |done]. constructor; [by apply Hc|done].
  - by apply safe_ret.
Qed.

Lemma session_update x id f d : session x (update_session id f d) = if decide (id = x) then f <$> session x d else session x d.
Proof. unfold session, update_session. cbn. rewrite lookup_alter. case_decide; by subst. Qed.

(** The queues as taken so far. *)
Definition taken (ids : list Z) (pending : gmap Z (list Frame)) d (pending' : gmap Z (list Frame)) d' : Prop :=
  (forall x, pending' !! x = match pending !! x with
     | Some l => Some l
     | None => if decide (x ∈ ids) then Some (match session x d with Some s => outbound s | None => [] end) else None
     end) /\
  (forall x, session x d' = match pending !! x with
     | Some _ => session x d
     | None => if decide (x ∈ ids) then (fun s => s <| outbound := [] |>) <$> session x d else session x d
     end) /\
  clients d' = clients d.

Lemma decide_cons {A} (x id : Z) ids (a b : A) :
  x <> id -> (if decide (x ∈ id :: ids) then a else b) = if decide (x ∈ ids) then a else b.
Proof. intros Hx. apply decide_ext. rewrite elem_of_cons. naive_solver. Qed.

Lemma take_pending_eq ids pending d :
  taken ids pending d (fst (take_pending ids pending d)) (snd (take_pending ids pending d)).
Proof.
  revert pending d. induction ids as [|id ids IH]; intros pending d; cbn [take_pending].
  { split_and!; [intros x|intros x|done]; cbn; destruct (pending !! x); try done; rewrite decide_False; done || by apply not_elem_of_nil. }
  case_bool_decide as Hp.
  - destruct (IH pending d) as (I1 & I2 & I3). destruct (pending !! id) as [l|] eqn:El; [|done].
    split_and!; [intros x; rewrite I1|intros x; rewrite I2|done]; destruct (pending !! x) eqn:Ex; try done;
      by rewrite decide_cons by congruence.
  - assert (Hnone : pending !! id = None) by (by destruct (pending !! id); [destruct Hp|]).
    destruct (session id d) as [s|] eqn:Hs.
    + rewrite pop_all_eq. destruct (IH (<[id := outbound s]> pending) (update_session id (fun _ => s <| outbound := [] |>) d)) as (I1 & I2 & I3).
      split_and!; [intros x; rewrite I1|intros x; rewrite I2|done]; rewrite lookup_insert, ?session_update;
        (destruct (decide (id = x)) as [<-|Hne]; [rewrite Hnone, decide_True by (by left); by rewrite Hs|]);
        destruct (pending !! x); try done; by rewrite decide_cons by congruence.
    + destruct (IH (<[id := []]> pending) d) as (I1 & I2 & I3).
      split_and!; [intros x; rewrite I1|intros x; rewrite I2|done]; rewrite lookup_insert;
        (destruct (decide (id = x)) as [<-|Hne]; [rewrite Hnone, decide_True by (by left); by rewrite Hs|]);
        destruct (pending !! x); try done; by rewrite decide_cons by congruence.
Qed.

Definition control_only s : S := s <| outbound := List.filter (fun f => negb (is_data f)) (outbound s) |>.

Lemma control_only_idemp s : control_only (control_only s) = control_only s.
Proof.
  unfold control_only. cbn.
  enough (Hf : List.filter (fun f => negb (is_data f)) (List.filter (fun f => negb (is_data f)) (outbound s))
    = List.filter (fun f => negb (is_data f)) (outbound s)) by (by rewrite Hf).
  induction (outbound s) as [|f fs IH]; [done|]. cbn. destruct (is_data f) eqn:E; cbn; [exact IH|]. rewrite E. cbn. by rewrite IH.
Qed.

Lemma keep_fold ids (cl : list Z) d :
  let d' := fold_left (fun d' id => if bool_decide (id ∈ cl) then d' else update_session id keep_control d') ids d in
  clients d' = clients d /\
  forall x, session x d' = if decide (x ∈ ids /\ x ∉ cl) then control_only <$> session x d else session x d.
Proof.
  revert d. induction ids as [|id ids IH]; intros d; cbn [fold_left].
  { split; [done|]. intros x. rewrite decide_False; [done|]. by intros [?%not_elem_of_nil _]. }
  set (d1 := if bool_decide (id ∈ cl) then d else _). destruct (IH d1) as [I1 I2]. split.
  - rewrite I1. subst d1. by case_bool_decide.
  - intros x. rewrite I2. subst d1. case_bool_decide as Hcl.
    + rewrite (decide_ext (x ∈ id :: ids /\ x ∉ cl) (x ∈ ids /\ x ∉ cl)); [done|]. rewrite elem_of_cons. naive_solver.
    + rewrite session_update. destruct (decide (id = x)) as [<-|Hne].
      * rewrite (decide_True (P := id ∈ id :: ids /\ id ∉ cl)) by (split; [by left|done]).
        assert (keep_control <$> session id d = control_only <$> session id d) as ->
          by (destruct (session id d); [|done]; cbn; by rewrite keep_control_eq).
        case_decide; [|done]. destruct (session id d) as [s|]; [|done]. cbn. by rewrite control_only_idemp.
      * rewrite (decide_ext (x ∈ id :: ids /\ x ∉ cl) (x ∈ ids /\ x ∉ cl)); [done|]. rewrite elem_of_cons. naive_solver.
Qed.

Lemma elem_of_order k x : x ∈ hash_order k <-> is_Some (leaves k !! x).
Proof.
  rewrite (hash_order_keys k). rewrite list_elem_of_fmap. split.
  - intros ([i s] & -> & H). apply elem_of_map_to_list in H. by eexists.
  - intros [s H]. exists (x, s). split; [done|]. by apply elem_of_map_to_list.
Qed.

Lemma keep_unclaimed_eq d :
  clients (keep_unclaimed hash_order d) = clients d /\
  forall x, session x (keep_unclaimed hash_order d) =
    if decide (x ∈ claimed d) then session x d else control_only <$> session x d.
Proof.
  destruct (keep_fold (hash_order (kern d)) (claimed d) d) as [H1 H2]. split; [exact H1|]. intros x.
  unfold keep_unclaimed. rewrite H2. destruct (decide (x ∈ claimed d)) as [Hc|Hc].
  - rewrite decide_False; [done|]. by intros [_ ?].
  - destruct (session x d) as [s|] eqn:Hs.
    + rewrite decide_True; [done|]. split; [|done]. apply elem_of_order. by exists s.
    + by case_decide.
Qed.

Lemma drop_client_length i d : (i < length (clients d))%nat -> length (clients (drop_client i d)) = pred (length (clients d)).
Proof.
  intros Hi. unfold drop_client. destruct (clients d !! i) as [c|] eqn:Hc; [|by apply lookup_ge_None in Hc; lia].
  set (d1 := match cl_leaf c with Some id => _ | None => d end).
  assert (clients d1 = clients d) as E by (subst d1; by destruct (cl_leaf c)).
  change (length (delete i (clients d1)) = pred (length (clients d))). rewrite E, length_delete; [lia|by rewrite Hc].
Qed.

Lemma Forall2_impl_in {A B} (Q R : A -> B -> Prop) l k :
  Forall2 Q l k -> (forall x y, x ∈ l -> Q x y -> R x y) -> Forall2 R l k.
Proof. induction 1; intros H'; constructor; [apply H'; [by left|done]|]. apply IHForall2. intros. apply H'; [by right|done]. Qed.

Lemma flush_eq d :
  safe (flush_outbound hash_order d) (fun '(r, d') => r = Ok () -> length (clients d') = length (clients d) ->
    Forall2 (fun c c' => only_sent c c' (encodings (shown c (match cl_leaf c ≫= fun id => session id d with
                                                               | Some s => outbound s | None => [] end))))
      (clients d) (clients d') /\
    forall x, session x d' = (fun s => if decide (x ∈ claimed d) then s <| outbound := [] |> else control_only s) <$> session x d).
Proof.
  unfold flush_outbound. destruct (keep_unclaimed_eq d) as [K1 K2]. set (d1 := keep_unclaimed hash_order d) in *. clearbody d1.
  assert (Hcl : claimed d1 = claimed d) by (unfold claimed; by rewrite K1).
  destruct (take_pending_eq (claimed d1) ∅ d1) as (T1 & T2 & T3).
  destruct (take_pending (claimed d1) ∅ d1) as [pending d2]. cbn [fst snd] in *. rewrite Hcl in *.
  eapply safe_bind; [apply flush_clients_eq|]. intros [r cs] [Hl Hr]. apply safe_ret. rewrite T3, K1 in *.
  destruct r as [[i|]|e]; [|intros _ _|done].
  - intros _ Hlen. rewrite drop_client_length in Hlen by (cbn; rewrite Hl; cbn in Hr; lia). cbn in Hlen. lia.
  - split.
    + change (clients (d2 <| clients := cs |>)) with cs.
      eapply Forall2_impl_in; [exact Hr|]. intros c c' Hin Hc.
      replace (match cl_leaf c ≫= _ with Some s => outbound s | None => [] end) with (queue_of pending c); [done|].
      unfold queue_of. destruct (cl_leaf c) as [id|] eqn:Eid; [|done]. cbn [mbind option_bind].
      rewrite T1, lookup_empty, decide_True, K2, decide_True;
        try (unfold claimed; apply list_elem_of_omap; by exists c). by destruct (session id d).
    + intros x. change (session x (d2 <| clients := cs |>)) with (session x d2).
      rewrite T2, lookup_empty, K2. case_decide; by destruct (session x d).
Qed.
End Flow.

(** ** What a client is given *)

(** C8. Draining a readable leaf delivers what the shell wrote, exactly.  On
    every reachable daemon, if the leaf has a protocol-2 client or the daemon is
    a worker, the loop reads some chunks - between 1 and 8192 bytes each - and
    the leaf's history grows by them; each client is served the chunks in turn
    (protocol 2 as offset deltas, protocol 1 as data, a chunk whole or not at
    all); a protocol-1 writer takes every one of them, in order, and pays for
    them; no other leaf and nothing else of the daemon changes.  With a
    protocol-1 writer the loop ends: its credit bounds the turns. *)
Theorem drain_delivers {P} `{!PtyOps P, !PtyLaws P} {K} `{!SockOps K, !SockLaws K, !BlockOps K}
    (instant : nat -> Z) (sh : nat -> result KernelError (P * Winsize * bool)) (grace : Z)
    (hash_order : Kernel (P * list PtyEvent) -> list Z) (n : Z) (fuel : nat) (id : Z)
    (s : Session (P * list PtyEvent)) (d : Daemon (P * list PtyEvent) (K * list SockEvent)) :
  dreach instant sh grace hash_order n d -> n + Z.of_nat fuel <= MAX_STEPS -> session id d = Some s ->
  has_protocol2 (clients d) id || is_worker d = true ->
  safe (drain_loop fuel id d) (fun '(r, d') => exists chunks s',
    session id d' = Some s' /\ reads (trace s') = reads (trace s) ++ concat chunks /\
    Forall (fun bs => 0 < len bs <= READ_BUF) chunks /\
    clients d' = map (serve_all id (len (reads (trace s))) chunks) (clients d) /\
    Forall (fun c => p1_writer id c ->
      serve_all id (len (reads (trace s))) chunks c = took chunks c /\
      (cl_credit c < Z.of_nat fuel -> r <> Ok false)) (clients d) /\
    (forall x, x <> id -> session x d' = session x d) /\
    d' = d <| kern := kern d' |> <| clients := clients d' |>).
Proof.
  intros Hd Hn Hs Hw. assert (Hi : dinv n d) by (eapply dreach_inv; [exact Hd|lia]).
  assert (Hcr : Forall (fun c => 0 <= cl_credit c) (clients d)).
  { eapply Forall_impl; [apply Hi|]. intros c Hc. apply Hc. }
  eapply safe_mono; [apply (drain_loop_rule fuel n id s d); [apply Hi|done..]|].
  intros [r d'] (chunks & [(s' & D1 & D2 & _) D3 D4 D5 _ _ D7 D8] & Hf). exists chunks, s'. split_and!; try done.
  rewrite !Forall_forall in *. intros c Hc Hp. split; [by apply D4|]. intros Hlt Hr.
  pose proof (serve_all_credit id (len (reads (trace s))) chunks c (Hcr c Hc)) as Hz.
  rewrite (D4 c Hc Hp), took_eq in Hz. cbn [cl_credit] in Hz.
  pose proof (chunks_length chunks (proj2 (Forall_forall _ _) D5)). specialize (Hf Hr). lia.
Qed.

(** C9. A flush shows each client its leaf's queue, once and in order.  When no
    client is dropped by it, every client's wire - written and queued - grows by
    exactly the encodings of the frames its leaf had queued (for protocol 2, all
    but the data frames), its credit, leaf and decoder untouched; every client
    of a leaf sees the same frames; the queues of leaves that have a client are
    emptied, and a leaf without one keeps its control frames and loses only
    terminal bytes, which a later client gets from the history. *)
Theorem flush_exact {P} `{!PtyOps P, !PtyLaws P} {K} `{!SockOps K, !SockLaws K, !BlockOps K}
    (hash_order : Kernel (P * list PtyEvent) -> list Z) `{!HashOrder hash_order}
    (d : Daemon (P * list PtyEvent) (K * list SockEvent)) :
  safe (flush_outbound hash_order d) (fun '(r, d') => r = Ok () -> length (clients d') = length (clients d) ->
    Forall2 (fun c c' => only_sent c c' (encodings (shown c (match cl_leaf c ≫= fun id => session id d with
                                                               | Some s => outbound s | None => [] end))))
      (clients d) (clients d') /\
    forall x, session x d' = (fun s => if decide (x ∈ claimed d) then s <| outbound := [] |> else control_only s) <$> session x d).
Proof. exact (flush_eq hash_order d). Qed.

(** ** Runs *)

Definition attach_poll : Polled demo_tk := mkPolled None None None None [true] (Ok []).
Definition demo_run (ds : list (Polled demo_tk)) : option (Daemon demo_tp demo_tk) :=
  fold_left (fun o po => o ≫= demo_step po) ds demo_bind.

Lemma demo_step_reach n d po d' :
  dreach demo_clock demo_shell 10 demo_order n d -> fresh_stream (po_client po) -> demo_step po d = Some d' ->
  dreach demo_clock demo_shell 10 demo_order (n + step_cost demo_order 4 po d) d'.
Proof.
  unfold demo_step. destruct (step _ _ _ _ 4 po d) as [[r d1]|] eqn:E; [|done]. intros Hd Hf Hr.
  replace d' with d1 by (destruct r as [[]|]; [by injection Hr|done..]). by eapply dr_step.
Qed.

(** The shell's "hi", read with a writer attached. *)
Lemma drain_delivers_witness : exists d s,
  demo_run [connect_poll demo_writer; attach_poll] = Some d /\ session 1 d = Some s /\
  safe (drain_loop 101 1 d) (fun '(r, d') => exists chunks s',
    session 1 d' = Some s' /\ reads (trace s') = reads (trace s) ++ concat chunks /\
    Forall (fun bs => 0 < len bs <= READ_BUF) chunks /\
    clients d' = map (serve_all 1 (len (reads (trace s))) chunks) (clients d) /\
    Forall (fun c => p1_writer 1 c ->
      serve_all 1 (len (reads (trace s))) chunks c = took chunks c /\
      (cl_credit c < Z.of_nat 101 -> r <> Ok false)) (clients d) /\
    (forall x, x <> 1 -> session x d' = session x d) /\
    d' = d <| kern := kern d' |> <| clients := clients d' |>).
Proof.
  destruct demo_bind as [d0|] eqn:E0; [|vm_compute in E0; discriminate E0].
  pose proof (demo_bind_reach d0 E0) as R0.
  destruct (demo_step (connect_poll demo_writer) d0) as [d1|] eqn:E1; [|vm_compute in E0; injection E0 as <-; vm_compute in E1; discriminate E1].
  pose proof (demo_step_reach _ _ (connect_poll demo_writer) _ R0 eq_refl E1) as R1.
  destruct (demo_step attach_poll d1) as [d2|] eqn:E2;
    [|vm_compute in E0; injection E0 as <-; vm_compute in E1; injection E1 as <-; vm_compute in E2; discriminate E2].
  pose proof (demo_step_reach _ _ attach_poll _ R1 I E2) as R2.
  vm_compute in E0. injection E0 as <-. vm_compute in E1. injection E1 as <-. vm_compute in E2. injection E2 as <-.
  eexists _, _. split; [vm_compute; reflexivity|split; [vm_compute; reflexivity|]].
  eapply drain_delivers; [exact R2|vm_compute; intros H; discriminate H|reflexivity|reflexivity].
Defined.

#[export] Instance demo_hash_order : HashOrder demo_order.
Proof. intros k. reflexivity. Qed.

(** The repaint queued for the writer that has just attached. *)
Lemma flush_exact_witness : exists d,
  demo_run [connect_poll demo_writer; attach_poll] = Some d /\ length (clients d) = 1%nat /\
  safe (flush_outbound demo_order d) (fun '(r, d') => r = Ok () -> length (clients d') = length (clients d) ->
    Forall2 (fun c c' => only_sent c c' (encodings (shown c (match cl_leaf c ≫= fun id => session id d with
                                                               | Some s => outbound s | None => [] end))))
      (clients d) (clients d') /\
    forall x, session x d' = (fun s => if decide (x ∈ claimed d) then s <| outbound := [] |> else control_only s) <$> session x d).
Proof.
  eexists. split; [vm_compute; reflexivity|]. split; [reflexivity|]. apply (flush_exact demo_order).
Defined.

(** Where the code falls short: an observer that attaches again without
    observing becomes a second writer of the leaf, since the connection counts
    as the holder; and a resync queued at the end of a step is flushed only after
    the next step's fan-out, so a worker's client gets the new bytes first and
    then a repaint that wipes them. *)
Definition conn_of (fss : list (list Frame)) : Polled demo_tk := connect_poll (mkScript (map demo_bytes fss) []).

Lemma observer_takes_over :
  (fun d => map (fun c => (cl_leaf c, cl_observe c)) (clients d)) <$> demo_run
    [conn_of [[Attach 1 None PROTOCOL_VERSION true]; [Attach 1 None PROTOCOL_VERSION false]];
     conn_of [[Attach 1 None PROTOCOL_VERSION false]];
     mkPolled None None None None [true; true] (Ok []); mkPolled None None None None [true; false] (Ok [])]
  = Some [(Some 1, false); (Some 1, false)].
Proof. vm_compute. reflexivity. Qed.

Definition blank_repaint : list Z :=
  match Engine.new 8 3 with
  | Ok e => match Engine.resync_from_history [] e with Some (Ok bs, _) => bs | _ => [] end
  | Err _ => []
  end.

Lemma resync_overtaken :
  (fun d => map client_wire (clients d)) <$> demo_run
    [conn_of [[Attach 1 None PROTOCOL_VERSION false; Credit 9]]; attach_poll; work_poll [false]]
  = Some [encodings [Data (lit "hi"); Data blank_repaint]].
Proof. vm_compute. reflexivity. Qed.
