(* ===== verification/System.v ===== *)
(** The planes together: what a shell wrote, read by the daemon, served to the
    writer of its leaf, carried over a socket and pumped by a host, is what that
    host feeds its engine.  The two ends meet only in the bytes of the wire. *)
From S2P Require Import Prelude Look Effect VtTypes Utf8 Parser Screen Engine EngineFacts Attach AttachFacts Ring Content ContentFacts Session SessionFacts Kernel Forest KernelFacts Socket Viewport Text Input Cold ColdFacts HostClient HostClientFacts PumpFacts Daemon DaemonFacts DaemonCold DaemonSafe DaemonFlow.

Local Open Scope Z_scope.

(** ** The wire *)

Lemma encode_bytes f bs : AttachFacts.frame_ok f -> encode f = Ok bs -> bytes bs.
Proof.
  unfold encode. case_if; [done|]. intros Hf H.
  assert (bs = tag_u8 (frame_tag f) :: le_bytes 4 (len (payload f)) ++ payload f) as -> by congruence. clear H.
  assert (bytes (payload f)) as Hp.
  { destruct f; cbn [payload AttachFacts.frame_ok] in *; repeat apply Forall_app_2; try apply bytes_le_bytes; try tauto.
    - destruct Hf as (_ & Hp & _). set (tail := if _ || _ then _ else []).
      assert (bytes tail) as Ht by (subst tail; case_if; [|by constructor]; apply Forall_cons_2; [done|]; apply Forall_cons_2; [by destruct observe|by constructor]).
      destruct session_id; [|case_if]; repeat apply Forall_app_2; try apply bytes_le_bytes; first [exact Ht|constructor].
    - apply Forall_cons_2; [destruct reason; cbn; num|by constructor].
    - by constructor. }
  apply Forall_cons_2; [destruct f; cbn; num|]. apply Forall_app_2; [apply bytes_le_bytes|done].
Qed.

(** A frame a leaf may have queued for its host: well formed and no refusal. *)
Definition deliverable (f : Frame) : Prop := AttachFacts.frame_ok f /\ accepted f /\ encode f = Ok (encoded f).

Lemma data_deliverable bs : bytes bs -> 0 < len bs <= READ_BUF -> deliverable (Data bs).
Proof.
  intros Hb Hl. split_and!; [done|done|]. unfold encoded, encode. cbn [payload]. assert (READ_BUF < MAX_FRAME) by done.
  case_if; [lia|done].
Qed.

Lemma chunks_deliverable chunks :
  Forall bytes chunks -> Forall (fun bs => 0 < len bs <= READ_BUF) chunks -> Forall deliverable (map Data chunks).
Proof.
  intros Hb Hl. apply Forall_map, Forall_forall. intros bs Hin. rewrite Forall_forall in *. by apply data_deliverable; auto.
Qed.

Lemma deliverable_encodings fs : Forall deliverable fs ->
  Forall AttachFacts.frame_ok fs /\ Forall accepted fs /\ Forall2 (fun f bs => encode f = Ok bs) fs (map encoded fs) /\
  bytes (encodings fs).
Proof.
  induction 1 as [|f fs (H1 & H2 & H3) _ (I1 & I2 & I3 & I4)]; [by repeat split; constructor|]. split_and!; try by constructor.
  unfold encodings. cbn [map concat]. apply Forall_app_2; [by eapply encode_bytes|exact I4].
Qed.

Lemma shown_all {K} (c : Daemon.Client (K * list SockEvent)) fs : cl_protocol c <> PROTOCOL_2 -> shown c fs = fs.
Proof.
  intros Hp. unfold shown. rewrite (proj2 (Z.eqb_neq _ _)) by done.
  induction fs as [|f fs IH]; [done|]. cbn in *. by f_equal.
Qed.

Lemma encodings_app fs gs : encodings (fs ++ gs) = encodings fs ++ encodings gs.
Proof. unfold encodings. by rewrite map_app, concat_app. Qed.

Lemma data_bytes_chunks chunks : data_bytes (map Data chunks) = concat chunks.
Proof. unfold data_bytes. rewrite map_map. cbn. by rewrite map_id. Qed.

(** ** From the shell to the host's engine *)

Section Ends.
Context {P : Type} `{!PtyOps P, !PtyLaws P} {K : Type} `{!SockOps K, !SockLaws K, !BlockOps K}.
Abbreviation Dm := (Daemon (P * list PtyEvent) (K * list SockEvent)).
Context (hash_order : Kernel (P * list PtyEvent) -> list Z) `{!HashOrder hash_order}.

(** What draining a leaf and flushing put on the wire of the leaf's writer. *)
Lemma drain_flush_wire n fuel id i s c (d : Dm) r d1 d2 :
  dinv n d -> n + Z.of_nat fuel <= MAX_STEPS -> session id d = Some s ->
  clients d !! i = Some c -> p1_writer id c -> has_protocol2 (clients d) id || is_worker d = true ->
  drain_loop fuel id d = Some (r, d1) -> flush_outbound hash_order d1 = Some (Ok (), d2) ->
  length (clients d2) = length (clients d1) ->
  exists chunks s1 c2, session id d1 = Some s1 /\ reads (trace s1) = reads (trace s) ++ concat chunks /\
    Forall bytes chunks /\ Forall (fun bs => 0 < len bs <= READ_BUF) chunks /\
    clients d2 !! i = Some c2 /\ cl_credit c2 = cl_credit c - len (concat chunks) /\
    client_wire c2 = client_wire c ++ encodings (map Data chunks ++ outbound s).
Proof.
  intros Hi Hn Hs Hc Hw Hm Hdr Hfl Hlen.
  assert (Hcr : Forall (fun c => 0 <= cl_credit c) (clients d)).
  { eapply Forall_impl; [apply Hi|]. intros x Hx. apply Hx. }
  destruct (safe_inv _ _ _ (drain_loop_rule fuel n id s d (di_kernel _ _ Hi) Hn Hs Hcr Hm) Hdr)
    as (chunks & [(s1 & D1 & D2 & Dq) D3 D4 D5 D6 _ _ _] & _).
  destruct (safe_inv _ _ _ (flush_eq hash_order d1) Hfl eq_refl Hlen) as [F1 _].
  pose proof (proj1 (Forall_forall _ _) D4 c (proj2 (list_elem_of_lookup _ _) (ex_intro _ i Hc)) Hw) as Htook.
  assert (Hc1 : clients d1 !! i = Some (took chunks c)) by (rewrite D3, list_lookup_fmap, Hc; cbn; by rewrite Htook).
  destruct (Forall2_lookup_l _ _ _ _ _ F1 Hc1) as (c2 & Hc2 & Hsent). exists chunks, s1, c2.
  destruct Hw as (Hl & Ho & Hp). destruct Hsent as (Hwire & _ & _ & _ & Hcredit & _).
  split_and!; try done.
  rewrite Hwire, shown_all by done. change (cl_leaf (took chunks c)) with (cl_leaf c). rewrite Hl. cbn [mbind option_bind].
  rewrite D1, Dq, encodings_app. unfold client_wire. rewrite took_eq. cbn [cl_stream cl_outbox].
  unfold encodings at 2. rewrite map_map, <- !app_assoc. done.
Qed.
End Ends.

(** C19. The whole path.  A reachable daemon with a protocol-1 writer on a leaf
    drains the leaf and flushes, dropping no client; the bytes that puts on the
    writer's connection arrive, in any chunks, at a host that is at a frame
    boundary.  Then the host's pump ends, having fed its engine what the shell
    wrote - the very bytes the leaf read, chunk by chunk - and after it the
    frames the leaf had queued; it grants as much credit as it fed, of which the
    daemon charged the writer what the shell wrote. *)
Theorem shell_to_host {P} `{!PtyOps P, !PtyLaws P} {K} `{!SockOps K, !SockLaws K, !BlockOps K}
    {H} `{!SockOps H, !SockLaws H} (ready : H -> list (list Z) -> Prop) `{!SockReady H ready}
    (instant : nat -> Z) (sh : nat -> result KernelError (P * Winsize * bool)) (grace : Z)
    (hash_order : Kernel (P * list PtyEvent) -> list Z) `{!HashOrder hash_order}
    (n m id : Z) (fuel i hfuel : nat) (s : Session (P * list PtyEvent)) (c c2 : Daemon.Client (K * list SockEvent))
    (d d1 d2 : Daemon (P * list PtyEvent) (K * list SockEvent)) (r : result DaemonError bool)
    (h : HostClient.Client (H * list SockEvent)) (arrived : list (list Z))
    (Hd : dreach instant sh grace hash_order n d) (Hn : n + Z.of_nat fuel <= MAX_STEPS)
    (Hs : session id d = Some s) (Hqueue : Forall deliverable (outbound s))
    (Hc : clients d !! i = Some c) (Hw : p1_writer id c)
    (Hmode : has_protocol2 (clients d) id || is_worker d = true)
    (Hdrain : drain_loop fuel id d = Some (r, d1)) (Hflush : flush_outbound hash_order d1 = Some (Ok (), d2))
    (Hkept : length (clients d2) = length (clients d1)) (Hc2 : clients d2 !! i = Some c2)
    (Hlink : client_wire c2 = client_wire c ++ concat arrived)
    (Hh : hreach m h) (Hfresh : decoder h = decoder_new) (Hready : ready (fst (stream h)) arrived)
    (Hfuel : (length arrived < hfuel)%nat)
    (Hroom : m + len (read_in (trace_of h)) + READ_CHUNK * Z.of_nat hfuel <= LIMIT) :
  exists chunks s1 mr h',
    session id d1 = Some s1 /\ reads (trace s1) = reads (trace s) ++ concat chunks /\
    mirror (map Data chunks ++ outbound s) (mir h) = Some mr /\
    pump hfuel h = Some (Ok (Some (len (concat chunks) + fed_by (outbound s))), h') /\
    chip h' = m_chip mr /\ history_rows h' = m_history mr /\ alive h' = m_alive mr /\ exit_status h' = m_exit mr /\
    outstanding_credit h' = outstanding_credit h + len (concat chunks) + fed_by (outbound s) /\
    cl_credit c2 = cl_credit c - len (concat chunks) /\ decoder h' = decoder_new.
Proof.
  assert (Hi : dinv n d) by (eapply dreach_inv; [exact Hd|lia]).
  destruct (drain_flush_wire hash_order n fuel id i s c d r d1 d2 Hi Hn Hs Hc Hw Hmode Hdrain Hflush Hkept)
    as (chunks & s1 & c2' & H1 & H2 & H3 & H4 & H5 & H6 & H7).
  rewrite Hc2 in H5. injection H5 as <-. rewrite Hlink in H7. apply app_inv_head in H7.
  assert (Hall : Forall deliverable (map Data chunks ++ outbound s)) by (apply Forall_app_2; [by apply chunks_deliverable|done]).
  destruct (deliverable_encodings _ Hall) as (Hok & Hacc & Henc & Hby).
  destruct (pump_eq ready m h (map Data chunks ++ outbound s) (map encoded (map Data chunks ++ outbound s)) arrived hfuel)
    as (mr & h' & Hm & Hp & E1 & E2 & E3 & E4 & _ & E6 & _ & E8); try done.
  { by rewrite H7. }
  assert (Hfed : fed_by (map Data chunks ++ outbound s) = len (concat chunks) + fed_by (outbound s)).
  { rewrite fed_by_app. unfold fed_by at 1. by rewrite data_bytes_chunks. }
  rewrite Hfed in *. exists chunks, s1, mr, h'. split_and!; try done. by rewrite E6, Z.add_assoc.
Qed.

(** ** A run of both ends *)

(** What the run puts on the writer's connection: the shell's "hi", then the
    repaint the attachment had queued. *)
Definition demo_sent : list (list Z) := [encoded (Data (lit "hi")); encoded (Data blank_repaint)].
Definition demo_arrived : list (list Z) := cut3 7 (concat demo_sent).
Definition demo_host : option (HostClient.Client demo_tk) :=
  match connect_session (mkScript demo_arrived [], []) demo_surface (Some 1) None with
  | Some (Ok _, Some c) => Some c
  | _ => None
  end.

Lemma demo_host_reach : exists h, demo_host = Some h /\ hreach 0 h /\ decoder h = decoder_new /\
  script_ready (fst (stream h)) demo_arrived /\ read_in (trace_of h) = [].
Proof.
  unfold demo_host. destruct (connect_session (mkScript demo_arrived [], []) demo_surface (Some 1) None) as [[[[]|e] [c|]]|] eqn:E;
    try (vm_compute in E; discriminate E).
  exists c. split; [done|]. split.
  - apply (hreach_new (mkScript demo_arrived []) demo_surface (Some 1) None c); [by repeat split|exact E].
  - vm_compute in E. injection E as <-. split_and!; try done. split; [reflexivity|].
    apply (bool_decide_unpack _). vm_compute. exact I.
Qed.

Definition demo_attached : option (Daemon demo_tp demo_tk) := demo_run [connect_poll demo_writer; attach_poll].

Lemma demo_attached_reach : exists n d, demo_attached = Some d /\ n + Z.of_nat 101 <= MAX_STEPS /\
  dreach demo_clock demo_shell 10 demo_order n d.
Proof.
  destruct demo_bind as [d0|] eqn:E0; [|vm_compute in E0; discriminate E0].
  pose proof (demo_bind_reach d0 E0) as R0.
  destruct (demo_step (connect_poll demo_writer) d0) as [d1|] eqn:E1; [|vm_compute in E0; injection E0 as <-; vm_compute in E1; discriminate E1].
  pose proof (demo_step_reach _ _ (connect_poll demo_writer) _ R0 eq_refl E1) as R1.
  destruct (demo_step attach_poll d1) as [d2|] eqn:E2;
    [|vm_compute in E0; injection E0 as <-; vm_compute in E1; injection E1 as <-; vm_compute in E2; discriminate E2].
  pose proof (demo_step_reach _ _ attach_poll _ R1 I E2) as R2.
  eexists _, d2. split_and!; [|shelve|exact R2].
  unfold demo_attached, demo_run. cbn [fold_left]. rewrite E0. cbn [mbind option_bind]. by rewrite E1.
  Unshelve. vm_compute in E0. injection E0 as <-. vm_compute in E1. injection E1 as <-. vm_compute. intros H. discriminate H.
Qed.

Definition demo_drained : option (result DaemonError bool * Daemon demo_tp demo_tk) := demo_attached ≫= drain_loop 101 1.
Definition demo_flushed : option (result DaemonError () * Daemon demo_tp demo_tk) :=
  '(_, d) ← demo_drained; flush_outbound demo_order d.

Lemma demo_both : exists d s c d1 d2 c2,
  demo_attached = Some d /\ session 1 d = Some s /\ Forall deliverable (outbound s) /\ clients d !! 0%nat = Some c /\
  p1_writer 1 c /\ has_protocol2 (clients d) 1 || is_worker d = true /\
  drain_loop 101 1 d = Some (Ok true, d1) /\ flush_outbound demo_order d1 = Some (Ok (), d2) /\
  length (clients d2) = length (clients d1) /\ clients d2 !! 0%nat = Some c2 /\
  client_wire c2 = client_wire c ++ concat demo_arrived.
Proof.
  do 6 eexists. split; [vm_compute; reflexivity|]. split; [reflexivity|].
  split; [apply Forall_cons_2; [|by constructor]; split_and!;
          [unfold AttachFacts.frame_ok, bytes, u8; apply (bool_decide_unpack _); vm_compute; exact I|reflexivity|reflexivity]|].
  split; [reflexivity|]. split; [split_and!; [reflexivity|reflexivity|done]|]. split; [reflexivity|].
  split; [vm_compute; reflexivity|]. split; [vm_compute; reflexivity|]. split; [reflexivity|]. split; reflexivity.
Qed.

Lemma shell_to_host_witness : exists (d1 : Daemon demo_tp demo_tk) h h' chunks s1,
  demo_host = Some h /\ session 1 d1 = Some s1 /\ reads (trace s1) = concat chunks /\
  pump 20 h = Some (Ok (Some (len (concat chunks) + len blank_repaint)), h') /\ decoder h' = decoder_new.
Proof.
  destruct demo_attached_reach as (n & d & Ea & Hn & Hd).
  destruct demo_both as (d' & s & c & d1 & d2 & c2 & Ea' & Hs & Hq & Hc & Hw & Hm & Hdr & Hfl & Hk & Hc2 & Hl).
  assert (d' = d) as -> by congruence.
  destruct demo_host_reach as (h & Eh & Hh & Hf & Hr & Hin).
  destruct (shell_to_host script_ready demo_clock demo_shell 10 demo_order n 0 1 101 0 20 s c c2 d d1 d2 (Ok true) h demo_arrived
              Hd Hn Hs Hq Hc Hw Hm Hdr Hfl Hk Hc2 Hl Hh Hf Hr)
    as (chunks & s1 & mr & h' & H1 & H2 & _ & H4 & _ & _ & _ & _ & _ & _ & H9).
  - vm_compute. lia.
  - rewrite Hin. vm_compute. intros E. discriminate E.
  - exists d1, h, h', chunks, s1.
    assert (reads (trace s) = [] /\ fed_by (outbound s) = len blank_repaint) as [Hz Hb].
    { clear -Ea' Hs. vm_compute in Ea'. injection Ea' as <-. injection Hs as <-. vm_compute. by split. }
    rewrite Hz in H2. rewrite Hb in H4. split_and!; assumption.
Defined.
