(* ===== verification/Proxy.v ===== *)
(** The control-plane proxy, crates/rilld/src/proxy.rs: pipes between the public
    sockets and the surviving worker's.

    What [accept] and the connection to the worker give on a turn is an argument
    ([Arrivals]); finding, starting and reconciling the worker and binding the
    sockets stay outside.  [gone] remembers the pipes that were removed. *)
From S2P Require Import Prelude Effect Socket Daemon DaemonSafe.

Local Open Scope Z_scope.

Record Pipe (K : Type) := mkPipe {
  p_a : K;
  p_b : K;
  a_to_b : list Z;
  b_to_a : list Z;
}.
Arguments mkPipe {K}. Arguments p_a {K}. Arguments p_b {K}. Arguments a_to_b {K}. Arguments b_to_a {K}.

#[export] Instance pipe_eta {K} : Eta (Pipe K) := fun p => mkPipe (p_a p) (p_b p) (a_to_b p) (b_to_a p).

Definition CONTENT_REQUEST_PIPE_MAX : Z := 64 * 1024 + 17.
Definition CONTENT_RESPONSE_PIPE_MAX : Z := 1024 * 1024.

(** The three lists of [run_control], and what it has dropped. *)
Record Control (K : Type) := mkControl {
  pipes : list (Pipe K);
  nav_pipes : list (Pipe K);
  content_pipes : list (Pipe K);
  gone : list (Pipe K);
}.
Arguments mkControl {K}. Arguments pipes {K}. Arguments nav_pipes {K}. Arguments content_pipes {K}.
Arguments gone {K}.

(** A listener's [accept], and the worker's socket if one connects to it. *)
Record Arrivals (K : Type) := mkArrivals {
  ar_client : option (result IoError K);
  ar_identity : option (result IoError K);
  ar_nav : option (result IoError K);
  ar_content : option (result IoError K);
  wk_client : result IoError K;
  wk_identity : result IoError K;
  wk_nav : result IoError K;
  wk_content : result IoError K;
}.
Arguments mkArrivals {K}. Arguments ar_client {K}. Arguments ar_identity {K}. Arguments ar_nav {K}.
Arguments ar_content {K}. Arguments wk_client {K}. Arguments wk_identity {K}. Arguments wk_nav {K}.
Arguments wk_content {K}.

Section Proxy.
Context {K : Type} `{!SockOps K, !BlockOps K}.
Implicit Types (p : Pipe K) (ps : list (Pipe K)).

Definition SPLICE_LEN : Z := 8192.

(** Bytes that were read are never discarded here. *)
Definition read_into (k : K) (outbox : list Z) : result DaemonError () * K * list Z :=
  let '(r, k) := sock_read SPLICE_LEN k in
  match r with
  | Ok bs => if len bs =? 0 then (Err PeerRefused, k, outbox) else (Ok (), k, outbox ++ bs)
  | Err WouldBlock => (Ok (), k, outbox)
  | Err (IoCode e) => (Err (DIo (IoCode e)), k, outbox)
  end.

(** The steps of [splice], each a partial operation on the pipe. *)
Abbreviation Sp := (ST DaemonError (Pipe K)).

Definition read_a : Sp () := fun p =>
  let '(r, k, q) := read_into (p_a p) (a_to_b p) in Some (r, p <| p_a := k |> <| a_to_b := q |>).
Definition read_b : Sp () := fun p =>
  let '(r, k, q) := read_into (p_b p) (b_to_a p) in Some (r, p <| p_b := k |> <| b_to_a := q |>).

Definition write_result (r : result Z ()) : result DaemonError () :=
  match r with Ok _ => Ok () | Err e => Err (DIo (IoCode e)) end.
Definition write_b : Sp () := fun p =>
  '(r, q, k) ← write_outbox (a_to_b p) (p_b p); Some (write_result r, p <| p_b := k |> <| a_to_b := q |>).
Definition write_a : Sp () := fun p =>
  '(r, q, k) ← write_outbox (b_to_a p) (p_a p); Some (write_result r, p <| p_a := k |> <| b_to_a := q |>).

Definition splice : Sp () :=
  _ ← read_a; _ ← read_b; _ ← write_b; write_a.

Definition content_bounded p : bool :=
  negb ((CONTENT_REQUEST_PIPE_MAX <? len (a_to_b p)) || (CONTENT_RESPONSE_PIPE_MAX <? len (b_to_a p))).

Definition splice_content : Sp () :=
  _ ← read_a; _ ← read_b;
  fits ← gets content_bounded;
  if fits : bool then _ ← write_b; write_a else fail PeerRefused.

(** The pipes that stay and the ones that are removed. *)
Fixpoint splice_all (f : Sp ()) ps : option (list (Pipe K) * list (Pipe K)) :=
  match ps with
  | [] => Some ([], [])
  | p :: ps =>
      '(r, p) ← f p;
      '(kept, removed) ← splice_all f ps;
      Some (match r with Ok _ => (p :: kept, removed) | Err _ => (kept, p :: removed) end)
  end.

(** An accepted connection and its pipe; an error other than [WouldBlock] ends
    the proxy. *)
Definition open_pipe (o : option (result IoError K)) (w : result IoError K) : result DaemonError (list (Pipe K)) :=
  match o with
  | None | Some (Err WouldBlock) => Ok []
  | Some (Err e) => Err (DIo e)
  | Some (Ok k) =>
      if peer_authorized k then
        match w with
        | Ok wk => Ok [mkPipe (snd (sock_set_nonblocking true k)) (snd (sock_set_nonblocking true wk)) [] []]
        | Err _ => Ok []
        end
      else Ok []
  end.

Definition IDENTITY_LEN : Z := 16.

(** The worker's identity line, passed on in one read. *)
Definition relay_identity (o : option (result IoError K)) (w : result IoError K) : result DaemonError (list (result IoError () * K)) :=
  match o with
  | None | Some (Err WouldBlock) => Ok []
  | Some (Err e) => Err (DIo e)
  | Some (Ok k) =>
      if peer_authorized k then
        match w with
        | Ok wk =>
            match sock_read IDENTITY_LEN wk with
            | (Ok bs, _) => Ok [sock_write_all bs k]
            | (Err _, _) => Ok []
            end
        | Err _ => Ok []
        end
      else Ok []
  end.

(** One turn of the loop of [run_control]; an error ends it. *)
Definition control_turn (ar : Arrivals K) (c : Control K) : option (result DaemonError (Control K)) :=
  match open_pipe (ar_client ar) (wk_client ar), relay_identity (ar_identity ar) (wk_identity ar),
        open_pipe (ar_nav ar) (wk_nav ar), open_pipe (ar_content ar) (wk_content ar) with
  | Ok new, Ok _, Ok new_nav, Ok new_content =>
      '(ps, r1) ← splice_all splice (pipes c ++ new);
      '(ns, r2) ← splice_all splice (nav_pipes c ++ new_nav);
      '(cs, r3) ← splice_all splice_content (content_pipes c ++ new_content);
      Some (Ok (mkControl ps ns cs (gone c ++ r1 ++ r2 ++ r3)))
  | Err e, _, _, _ | _, Err e, _, _ | _, _, Err e, _ | _, _, _, Err e => Some (Err e)
  end.
End Proxy.

(** ** What passes through *)

Section Relay.
Context {K : Type} `{!SockOps K, !SockLaws K, !BlockOps K}.
Abbreviation TK := (K * list SockEvent)%type.
Implicit Types (p : Pipe TK) (ps : list (Pipe TK)).

(** Everything read from one side is on the other side's wire or queued for it,
    in order. *)
Definition relays p : Prop :=
  wrote (snd (p_b p)) ++ a_to_b p = read_in (snd (p_a p)) /\
  wrote (snd (p_a p)) ++ b_to_a p = read_in (snd (p_b p)).

Definition content_fits p : Prop :=
  len (a_to_b p) <= CONTENT_REQUEST_PIPE_MAX /\ len (b_to_a p) <= CONTENT_RESPONSE_PIPE_MAX.

Lemma read_into_eq (k : TK) q r k' q' : read_into k q = (r, k', q') ->
  wrote (snd k') = wrote (snd k) /\ exists bs, q' = q ++ bs /\ read_in (snd k') = read_in (snd k) ++ bs.
Proof.
  destruct k as [k tr]. unfold read_into. cbn. destruct (sock_read SPLICE_LEN k) as [[bs|[|e]] k1].
  - destruct (Z.eqb_spec (len bs) 0) as [Hz|_]; intros [= <- <- <-]; cbn [snd]; rewrite wrote_read, read_in_snoc.
    + split; [done|]. exists []. destruct bs; [by rewrite !app_nil_r|]. rewrite len_cons in Hz. pose proof (len_nonneg bs). lia.
    + split; [done|]. by exists bs.
  - intros [= <- <- <-]. split; [done|]. exists []. by rewrite !app_nil_r.
  - intros [= <- <- <-]. split; [done|]. exists []. by rewrite !app_nil_r.
Qed.

Lemma read_a_relays p : relays p -> safe (read_a p) (fun '(_, p') => relays p').
Proof.
  intros [H1 H2]. unfold read_a. destruct (read_into (p_a p) (a_to_b p)) as [[r k] q] eqn:E.
  apply read_into_eq in E as (Hw & bs & -> & Hr). apply safe_ret. split; cbn; by rewrite ?Hr, ?app_assoc, ?H1, ?Hw.
Qed.

Lemma read_b_relays p : relays p -> safe (read_b p) (fun '(_, p') => relays p').
Proof.
  intros [H1 H2]. unfold read_b. destruct (read_into (p_b p) (b_to_a p)) as [[r k] q] eqn:E.
  apply read_into_eq in E as (Hw & bs & -> & Hr). apply safe_ret. split; cbn; by rewrite ?Hr, ?app_assoc, ?H2, ?Hw.
Qed.

(** Reading both sides, whatever follows. *)
Lemma read_both {A} (m : Pipe TK -> option (result DaemonError A * Pipe TK)) (Q : result DaemonError A * Pipe TK -> Prop) p :
  relays p -> (forall p1, relays p1 -> safe (m p1) Q) -> (forall e p1, relays p1 -> Q (Err e, p1)) ->
  safe ((_ ← read_a; _ ← read_b; (m : ST _ _ _)) p) Q.
Proof.
  intros Hp Hm He. apply se_bind_rule. eapply safe_mono; [by apply read_a_relays|]. intros [[[]|e] p1] H1; [|by apply He].
  apply se_bind_rule. eapply safe_mono; [by apply read_b_relays|]. intros [[[]|e] p2] H2; [by apply Hm|by apply He].
Qed.

(** Writing shortens the queues. *)
Definition shorter p p' : Prop := len (a_to_b p') <= len (a_to_b p) /\ len (b_to_a p') <= len (b_to_a p).

Lemma len_drop_le {A} (n : nat) (l : list A) : len (drop n l) <= len l.
Proof. unfold len. rewrite length_drop. lia. Qed.

Lemma write_b_relays p : relays p -> safe (write_b p) (fun '(_, p') => relays p' /\ shorter p p').
Proof.
  intros [H1 H2]. eapply safe_bind; [apply write_outbox_eq|]. intros [[r q] k] (Hw & Hr & n & ->).
  apply safe_ret. split; split; cbn in *.
  - by rewrite Hw.
  - by rewrite Hr.
  - apply len_drop_le.
  - done.
Qed.

Lemma write_a_relays p : relays p -> safe (write_a p) (fun '(_, p') => relays p' /\ shorter p p').
Proof.
  intros [H1 H2]. eapply safe_bind; [apply write_outbox_eq|]. intros [[r q] k] (Hw & Hr & n & ->).
  apply safe_ret. split; split; cbn in *.
  - by rewrite Hr.
  - by rewrite Hw.
  - done.
  - apply len_drop_le.
Qed.

Lemma write_both p : relays p ->
  safe ((_ ← write_b; write_a) p) (fun '(r, p') => relays p' /\ shorter p p').
Proof.
  intros Hp. apply se_bind_rule. eapply safe_mono; [by apply write_b_relays|]. intros [[[]|e] p1] [Hp1 [S1 S2]]; [|done].
  eapply safe_mono; [by apply write_a_relays|]. intros [r p2] [Hp2 [S3 S4]]. split; [done|]. split; cbn in *; lia.
Qed.

Definition splices (fits : Pipe TK -> Prop) (f : Pipe TK -> option (result DaemonError () * Pipe TK)) : Prop :=
  forall p, relays p -> safe (f p) (fun '(r, p') => relays p' /\ (is_ok r = true -> fits p')).

Lemma splice_relays : splices (fun _ => True) splice.
Proof.
  intros p Hp. apply read_both; [done| |done]. intros p1 H1. eapply safe_mono; [by apply write_both|]. by intros [r p2] [].
Qed.

Lemma splice_content_relays : splices content_fits splice_content.
Proof.
  intros p Hp. apply read_both; [done| |done]. intros p1 H1. apply se_bind_rule, safe_ret. cbn [fst snd].
  destruct (content_bounded p1) eqn:Ef; [|by apply safe_ret].
  eapply safe_mono; [by apply write_both|]. intros [r p2] [Hr [S1 S2]]. split; [done|]. intros _.
  unfold content_bounded in Ef. rewrite negb_true_iff, orb_false_iff, !Z.ltb_ge in Ef. unfold content_fits. lia.
Qed.

Lemma splice_all_eq fits f ps : splices fits f -> Forall relays ps ->
  safe (splice_all f ps) (fun '(kept, removed) => Forall relays kept /\ Forall fits kept /\ Forall relays removed).
Proof.
  intros Hf. induction 1 as [|p ps Hp _ IH]; cbn [splice_all]; [by apply safe_ret|].
  eapply safe_bind; [by apply Hf|]. intros [r p1] [Hr Hft]. eapply safe_bind; [apply IH|].
  intros [kept removed] (H1 & H2 & H3). apply safe_ret. destruct r; split_and!; try done; constructor; try done. by apply Hft.
Qed.

(** The proxy from its start, over streams fresh from [accept] and [connect]. *)
Definition fresh_arrivals (ar : Arrivals TK) : Prop :=
  Forall fresh_stream [ar_client ar; ar_nav ar; ar_content ar; Some (wk_client ar); Some (wk_nav ar); Some (wk_content ar)].

Inductive creach : Control TK -> Prop :=
| cr_start : creach (mkControl [] [] [] [])
| cr_turn ar c c' : creach c -> fresh_arrivals ar -> control_turn ar c = Some (Ok c') -> creach c'.

Definition control_ok (c : Control TK) : Prop :=
  Forall relays (pipes c ++ nav_pipes c ++ content_pipes c ++ gone c) /\ Forall content_fits (content_pipes c).

Lemma open_pipe_relays (o : option (result IoError TK)) w new : fresh_stream o -> fresh_stream (Some w) ->
  open_pipe o w = Ok new -> Forall relays new.
Proof.
  unfold open_pipe. destruct o as [[k|[|e]]|]; try by intros _ _ [= <-]. case_if; [|by intros _ _ [= <-]].
  destruct w as [wk|e]; [|by intros _ _ [= <-]]. cbn [fresh_stream]. intros Hk Hw. intros [= <-]. constructor; [|done].
  destruct k as [k t1], wk as [wk t2]. cbn in *. destruct (sock_set_nonblocking true k), (sock_set_nonblocking true wk).
  unfold relays. cbn. by rewrite Hk, Hw.
Qed.

Lemma control_turn_ok ar c : control_ok c -> fresh_arrivals ar ->
  safe (control_turn ar c) (fun r => match r with Ok c' => control_ok c' | Err _ => True end).
Proof.
  unfold control_ok. intros [Hr _] Hf. rewrite !Forall_app in Hr. destruct Hr as (Hp & Hn & Hc & Hg).
  unfold fresh_arrivals in Hf. rewrite !Forall_cons in Hf. destruct Hf as (F1 & F2 & F3 & F4 & F5 & F6 & _).
  unfold control_turn.
  destruct (open_pipe (ar_client ar) _) as [new|] eqn:E1; [|by apply safe_ret].
  destruct (relay_identity _ _) as [i|]; [|by apply safe_ret].
  destruct (open_pipe (ar_nav ar) _) as [nn|] eqn:E2; [|by apply safe_ret].
  destruct (open_pipe (ar_content ar) _) as [nc|] eqn:E3; [|by apply safe_ret].
  apply open_pipe_relays in E1, E2, E3; try done.
  eapply safe_bind; [apply (splice_all_eq _ _ _ splice_relays); by apply Forall_app|]. intros [ps r1] (P1 & _ & P3).
  eapply safe_bind; [apply (splice_all_eq _ _ _ splice_relays); by apply Forall_app|]. intros [ns r2] (Q1 & _ & Q3).
  eapply safe_bind; [apply (splice_all_eq _ _ _ splice_content_relays); by apply Forall_app|].
  intros [cs r3] (R1 & R2 & R3). apply safe_ret. cbn. split; [|done]. by rewrite !Forall_app.
Qed.

Lemma creach_ok c : creach c -> control_ok c.
Proof.
  induction 1 as [|ar c c' _ IH Hf E]; [by split|]. destruct (control_turn_ok ar c IH Hf) as (r & E' & H).
  rewrite E in E'. by injection E' as <-.
Qed.
End Relay.

(** C26. The proxy neither loses, reorders nor invents a byte it has read.  After
    any number of turns, over any sockets and arrivals, on every pipe - attach,
    navigation or content, still open or removed - what was written to one side
    followed by what is queued for it is exactly what was read from the other
    side, in both directions; and the queues of an open content pipe are within
    their maxima.  A turn never panics. *)
Theorem control_relays {K} `{!SockOps K, !SockLaws K, !BlockOps K}
    (ar : Arrivals (K * list SockEvent)) (c : Control (K * list SockEvent)) :
  creach c -> fresh_arrivals ar ->
  safe (control_turn ar c) (fun r => match r with
    | Ok c' => Forall relays (pipes c' ++ nav_pipes c' ++ content_pipes c' ++ gone c') /\
               Forall content_fits (content_pipes c')
    | Err _ => True
    end).
Proof. intros Hc Hf. apply control_turn_ok; [by apply creach_ok|done]. Qed.

(** ** A proxy that runs *)

(** A client and a worker, and what each of them sends. *)
Definition demo_arrivals (from_client from_worker : list (list Z)) : Arrivals (Script * list SockEvent) :=
  let quiet := Err WouldBlock in
  mkArrivals (Some (Ok (mkScript from_client [], []))) None None None
    (Ok (mkScript from_worker [], [])) quiet quiet quiet.

Definition quiet_arrivals : Arrivals (Script * list SockEvent) :=
  mkArrivals None None None None (Err WouldBlock) (Err WouldBlock) (Err WouldBlock) (Err WouldBlock).

Lemma control_relays_witness : exists c,
  control_turn (demo_arrivals [lit "ls"] [lit "hi"]) (mkControl [] [] [] []) = Some (Ok c) /\ length (pipes c) = 1%nat /\
  safe (control_turn quiet_arrivals c) (fun r => match r with
    | Ok c' => Forall relays (pipes c' ++ nav_pipes c' ++ content_pipes c' ++ gone c') /\
               Forall content_fits (content_pipes c')
    | Err _ => True
    end).
Proof.
  assert (Hf : fresh_arrivals (demo_arrivals [lit "ls"] [lit "hi"])) by (repeat constructor).
  destruct (control_turn (demo_arrivals [lit "ls"] [lit "hi"]) (mkControl [] [] [] [])) as [[c|e]|] eqn:E;
    [|vm_compute in E; discriminate E..].
  exists c. split; [reflexivity|]. split; [vm_compute in E; injection E as <-; reflexivity|].
  apply control_relays; [exact (cr_turn _ _ c cr_start Hf E)|repeat constructor].
Defined.

(** Where the code falls short: a side that closes after its last bytes takes
    the pipe with it, and what is still queued for the other side is lost. *)
Lemma eof_loses_queued :
  (fun r => match r with Ok c => map (fun p => (wrote (snd (p_a p)), b_to_a p)) (gone c) | Err _ => [] end) <$>
    (control_turn (mkArrivals (Some (Ok (mkScript [] [1; 0], []))) None None None
        (Ok (mkScript [lit "answer"; []] [], [])) (Err WouldBlock) (Err WouldBlock) (Err WouldBlock)) (mkControl [] [] [] []) ≫= fun r =>
     match r with Ok c => control_turn quiet_arrivals c | Err e => Some (Err e) end)
  = Some [(lit "a", lit "nswer")].
Proof. vm_compute. reflexivity. Qed.
