(* ===== verification/Launch.v ===== *)
(** Starting up: crates/rilld/src/endpoint.rs, [bind], [step_timeout_ms] and
    [Drop] of lib.rs, [spawn_worker] and the start of [run_control] of proxy.rs,
    and main.rs (the Darwin build).

    A start is a program over system calls ([Prog]), so that several processes
    can be run against one file system, call by call.  [Throw] is an early
    [Err], [Hang] a loop out of fuel.  Where Rust drops the owner of a descriptor
    on an error the program closes it ([guarded]).  A call names the file a
    descriptor was opened at where the argument about it needs to know. *)
From S2P Require Import Prelude VtTypes Engine Attach Ring Session Socket Text Path SocketPath Daemon.

Local Open Scope Z_scope.

(** ** System calls *)

Record FileMeta := mkMeta { fm_mode : Z; fm_uid : Z }.

Inductive Sys : Type -> Type :=
| CreateDirAll (p : Path) : Sys (result Z ())
| Metadata (p : Path) : Sys (result Z FileMeta)
| Chmod (p : Path) (mode : Z) : Sys (result Z ())
| GetUid : Sys Z
| PeerEid (fd : Z) : Sys (result Z Z)
| OpenFile (p : Path) : Sys (result Z Z)
| FlockExclusive (fd : Z) (p : Path) : Sys bool
| PathExists (p : Path) : Sys bool
| Dial (p : Path) : Sys bool
| Unlink (p : Path) : Sys (result Z ())
| Listen (p : Path) : Sys (result Z Z)
| SetNonblocking (fd : Z) : Sys (result Z ())
| CloseFd (fd : Z) : Sys ()
| ReadText (p : Path) : Sys (result Z (list Z))
| WriteText (p : Path) (text : list Z) : Sys (result Z ())
| MyPid : Sys Z
| CurrentExe : Sys (result Z Path)
| SpawnProcess (exe : Path) (env : list (list Z * list Z)) : Sys (result Z Z)
| SpawnShell (shell : list Z) (args : list (list Z)) (size : Winsize) : Sys (result KernelError Z)
| Now : Sys Z
| Nap (ns : Z) : Sys ()
| IgnoreHangup : Sys ()
| Setsid : Sys (option Z).

Inductive Prog (A : Type) : Type :=
| Ret (a : A)
| Throw (e : DaemonError)
| Hang
| Do {X : Type} (c : Sys X) (k : X -> Prog A).
Arguments Ret {A}. Arguments Throw {A}. Arguments Hang {A}. Arguments Do {A X}.

#[export] Instance prog_ret : MRet Prog := fun A a => Ret a.
#[export] Instance prog_bind : MBind Prog := fun A B f =>
  fix bind m := match m with
                | Ret a => f a
                | Throw e => Throw e
                | Hang => Hang
                | Do c k => Do c (fun x => bind (k x))
                end.

Definition call {X} (c : Sys X) : Prog X := Do c Ret.
(** [?] on an [io::Result]. *)
Definition io {X} (c : Sys (result Z X)) : Prog X :=
  r ← call c; match r with Ok x => Ret x | Err e => Throw (DIo (IoCode e)) end.
(** [let _ =], [.ok()] and [match] on a [Result]. *)
Fixpoint attempt {A} (m : Prog A) : Prog (result DaemonError A) :=
  match m with
  | Ret a => Ret (Ok a)
  | Throw e => Ret (Err e)
  | Hang => Hang
  | Do c k => Do c (fun x => attempt (k x))
  end.
(** The owner of [fd] goes out of scope when an error leaves [m]. *)
Fixpoint guarded {A} (fd : Z) (m : Prog A) : Prog A :=
  match m with
  | Ret a => Ret a
  | Throw e => Do (CloseFd fd) (fun _ => Throw e)
  | Hang => Hang
  | Do c k => Do c (fun x => guarded fd (k x))
  end.

(** ** The endpoint *)

(** The directory must belong to the user and not be writable by others; then it
    is made private. *)
Definition ensure_protected_parent (socket : Path) : Prog () :=
  match parent socket with
  | None => Throw UnprotectedEndpoint
  | Some dir =>
      _ ← io (CreateDirAll dir);
      meta ← io (Metadata dir);
      uid ← call GetUid;
      if negb (fm_uid meta =? uid) then Throw UnprotectedEndpoint
      else if negb (Z.land (fm_mode meta) 2 =? 0) then Throw UnprotectedEndpoint
      else io (Chmod dir 448)
  end.

Definition parse_u32 (s : list Z) : option Z := n ← parse_u64 s; if n <=? u32_max then Some n else None.

(** A uid in the environment stands in for the peer's. *)
Definition peer_uid (env : Env) (fd : Z) : Prog Z :=
  match env (lit "RILL_TEST_FAKE_PEER_UID") ≫= parse_u32 with
  | Some n => Ret n
  | None => io (PeerEid fd)
  end.

Definition authorize_peer (env : Env) (fd : Z) : Prog () :=
  got ← peer_uid env fd;
  want ← call GetUid;
  if negb (got =? want) then Throw PeerRefused else Ret ().

(** ** Binding *)

Definition PRIVATE : Z := 384.

Definition listen_private (p : Path) : Prog Z :=
  l ← io (Listen p);
  guarded l (
    _ ← io (SetNonblocking l);
    _ ← io (Chmod p PRIVATE);
    Ret l).

(** A companion socket: whatever is at its path goes first. *)
Definition listen_companion (p : Path) : Prog Z :=
  there ← call (PathExists p);
  _ ← (if (there : bool) then io (Unlink p) else Ret ());
  listen_private p.

Record Bound := mkBound {
  b_socket : Path;
  b_lock : Z;
  b_listener : Z; b_identity : Z; b_nav : Z; b_content : Z;
  b_child : Z;
  b_worker : bool;
}.

Definition write_pid (path : option (list Z)) (pid : Z) : Prog () :=
  match path with
  | Some p => io (WriteText (path_of p) (to_string pid ++ [0x0a]))
  | None => Ret ()
  end.

(** The leaf, the pid files of the tests and the chip.  The container tree around
    the leaf is [Daemon.bind]. *)
Definition start_leaf (env : Env) (shell : list Z) (args : list (list Z)) (size : Winsize) : Prog Z :=
  let spawn := (r ← call (SpawnShell shell args size); match r with Ok pid => Ret pid | Err e => Throw (DKernel e) end) in
  child ← spawn;
  _ ← write_pid (env (lit "RILL_TEST_PIDFILE")) child;
  _ ← (if negb (var_is env (lit "RILL_WORKER") (lit "1")) then
         match env (lit "RILL_TEST_DAEMON_PIDFILE") with
         | Some p => me ← call MyPid; write_pid (Some p) me
         | None => Ret ()
         end
       else Ret ());
  _ ← match env (lit "RILL_TEST_SECOND_LEAF") with
      | Some _ => pid ← spawn; write_pid (env (lit "RILL_TEST_SECOND_PIDFILE")) pid
      | None => Ret ()
      end;
  match Engine.new (cols size) (rows size) with
  | Ok _ => Ret child
  | Err e => Throw (DChip e)
  end.

Definition lock_path (socket : Path) : Path := with_extension (lit "lock") socket.

(** The socket's own path, under the lock: something is there only if nobody
    answers on it. *)
Definition clear_stale (socket : Path) : Prog () :=
  there ← call (PathExists socket);
  if (there : bool) then
    answers ← call (Dial socket);
    if (answers : bool) then Throw AlreadyRunning else io (Unlink socket)
  else Ret ().

Definition bind_daemon (env : Env) (socket : Path) (shell : list Z) (args : list (list Z)) (size : Winsize) : Prog Bound :=
  if nested_launch_blocked env then Throw NestedLaunch
  else
    _ ← ensure_protected_parent socket;
    lock ← io (OpenFile (lock_path socket));
    guarded lock (
      ours ← call (FlockExclusive lock (lock_path socket));
      if negb ours then Throw AlreadyRunning
      else
        _ ← clear_stale socket;
        listener ← listen_private socket;
        guarded listener (
          identity ← listen_companion (cold_identity_socket_path socket);
          guarded identity (
            nav ← listen_companion (cold_nav_socket_path socket);
            guarded nav (
              content ← listen_companion (cold_content_socket_path socket);
              guarded content (
                child ← start_leaf env shell args size;
                Ret (mkBound socket lock listener identity nav content child (var_is env (lit "RILL_WORKER") (lit "1")))))))).

(** [Drop]: the paths while the lock is still held, then the fields in order. *)
Definition drop_daemon (b : Bound) : Prog () :=
  _ ← attempt (io (Unlink (b_socket b)));
  _ ← attempt (io (Unlink (cold_identity_socket_path (b_socket b))));
  _ ← attempt (io (Unlink (cold_nav_socket_path (b_socket b))));
  _ ← attempt (io (Unlink (cold_content_socket_path (b_socket b))));
  _ ← call (CloseFd (b_listener b));
  _ ← call (CloseFd (b_identity b));
  _ ← call (CloseFd (b_nav b));
  _ ← call (CloseFd (b_content b));
  call (CloseFd (b_lock b)).

(** ** The control proxy *)

Definition worker_alive (worker_sock : Path) : Prog bool := call (Dial worker_sock).

Definition MILLI : Z := 1000000.
Definition WORKER_WAIT : Z := 5000 * MILLI.
Definition WORKER_NAP : Z := 20 * MILLI.

Fixpoint await_worker (fuel : nat) (worker_sock : Path) (start : Z) : Prog bool :=
  match fuel with
  | O => Hang
  | S fuel =>
      t ← call Now;
      if sat_sub t start <? WORKER_WAIT then
        alive ← worker_alive worker_sock;
        if (alive : bool) then Ret true
        else _ ← call (Nap WORKER_NAP); await_worker fuel worker_sock start
      else Ret false
  end.

(** The variables handed down, those that are set. *)
Definition worker_env (env : Env) (worker_sock : Path) : list (list Z * list Z) :=
  [(lit "RILL_WORKER", lit "1"); (lit "RILL_SOCKET", worker_sock)]
  ++ omap (fun name => (fun v => (name, path_of v)) <$> env name)
       (map lit ["RILL_TEST_PIDFILE"; "RILL_TEST_SECOND_LEAF"; "RILL_TEST_SECOND_PIDFILE"; "RILL_ALLOW_NESTED"; "HOME"; "SHELL"]%string).

Definition spawn_worker (env : Env) (fuel : nat) (worker_sock : Path) : Prog Z :=
  exe ← io CurrentExe;
  child ← io (SpawnProcess exe (worker_env env worker_sock));
  start ← call Now;
  up ← await_worker fuel worker_sock start;
  if (up : bool) then Ret child else Throw WorkerMissing.

(** [format!("{outcome:?}")] *)
Definition show_outcome (o : TerminalOutcome) : list Z :=
  match o with
  | Running pid => lit "Running { child_pid: " ++ to_string pid ++ lit " }"
  | HostTerminated => lit "HostTerminated"
  | Missing => lit "Missing"
  | Exited st => lit "Exited { status: " ++ (if st <? 0 then ch "-" :: to_string (- st) else to_string st) ++ lit " }"
  end.

(** Nobody answers for the worker: what became of it is written down, and a new
    one is started. *)
Definition revive_worker (env : Env) (fuel : nat) (attach_sock worker_sock : Path) : Prog () :=
  recorded ← match env (lit "RILL_TEST_PIDFILE") with
             | Some p => r ← call (ReadText (path_of p)); Ret (match r with Ok s => parse_u32 (trim s) | Err _ => None end)
             | None => Ret None
             end;
  marked ← call (PathExists (with_file_name (lit "shutdown") attach_sock));
  let outcome := reconcile_execution recorded false marked in
  _ ← match parent attach_sock with
      | Some dir => _ ← call (WriteText (path_join dir (lit "outcome")) (show_outcome outcome ++ [0x0a])); Ret ()
      | None => Ret ()
      end;
  _ ← spawn_worker env fuel worker_sock;
  Ret ().

(** No lock here: what is at the path is dialled, removed and replaced. *)
Definition take_path (p : Path) : Prog () :=
  there ← call (PathExists p);
  if (there : bool) then
    answers ← call (Dial p);
    if (answers : bool) then Throw AlreadyRunning else _ ← call (Unlink p); Ret ()
  else Ret ().

Definition control_companion (p : Path) : Prog Z :=
  there ← call (PathExists p);
  _ ← (if (there : bool) then _ ← call (Unlink p); Ret () else Ret ());
  listen_private p.

Record ControlSockets := mkSockets { c_listener : Z; c_identity : Z; c_nav : Z; c_content : Z }.

(** [run_control] up to its loop. *)
Definition control_start (env : Env) (fuel : nat) (attach_sock : Path) : Prog ControlSockets :=
  _ ← ensure_protected_parent attach_sock;
  let worker_sock := worker_socket_path attach_sock in
  _ ← ensure_protected_parent worker_sock;
  alive ← worker_alive worker_sock;
  _ ← (if (alive : bool) then Ret () else revive_worker env fuel attach_sock worker_sock);
  _ ← match env (lit "RILL_TEST_DAEMON_PIDFILE") with
      | Some p => me ← call MyPid; write_pid (Some p) me
      | None => Ret ()
      end;
  _ ← take_path attach_sock;
  listener ← listen_private attach_sock;
  guarded listener (
    identity ← control_companion (cold_identity_socket_path attach_sock);
    guarded identity (
      nav ← control_companion (cold_nav_socket_path attach_sock);
      guarded nav (
        content ← control_companion (cold_content_socket_path attach_sock);
        Ret (mkSockets listener identity nav content)))).

(** ** main *)

(** The loops themselves are arguments: [serve] is [Daemon::run], [relay] the
    loop of [run_control].  The result is the exit code. *)
Section Main.
Context (EPERM : Z) (env : Env) (serve : Bound -> Prog ()) (relay : ControlSockets -> Prog ()).

Definition winsize_default : Winsize := mkWinsize 80 24 640 384.

Definition exit_code {E} (r : result E ()) : Z := match r with Ok _ => 0 | Err _ => 1 end.

(** [Daemon::run] owns the daemon: it is dropped however [serve] ends. *)
Definition after_serving (d : Bound) (r : result DaemonError ()) : Prog Z :=
  _ ← drop_daemon d; Ret (exit_code r).

Definition after_bind (r : result DaemonError Bound) : Prog Z :=
  match r with
  | Ok d => r ← attempt (serve d); after_serving d r
  | Err AlreadyRunning => Ret 0
  | Err _ => Ret 1
  end.

Definition run_worker (socket : Path) : Prog Z :=
  r ← attempt (bind_daemon env socket (default_shell env) [] winsize_default); after_bind r.

Definition main (fuel : nat) : Prog Z :=
  _ ← call IgnoreHangup;
  r ← call Setsid;
  if match r with Some e => negb (e =? EPERM) | None => false end then Ret 1
  else
    let socket := daemon_default_socket env in
    if nested_launch_blocked env then Ret 1
    else if var_is env (lit "RILL_WORKER") (lit "1") then run_worker socket
    else
      r ← attempt (sockets ← control_start env fuel socket; relay sockets);
      Ret (exit_code r).
End Main.
