(* ===== verification/LaunchFacts.v ===== *)
(** What starting up keeps, however several processes interleave: a daemon that
    runs keeps its sockets; the wait for the worker ends; and two control
    proxies, which take no lock, can take each other's. *)
From S2P Require Import Prelude VtTypes Engine Session Text Path SocketPath Daemon Launch.

Local Open Scope Z_scope.

(** ** The system underneath *)

(** [os_call pid c w] is the call [c] of one process; [os_exit] the end of a
    process.  [os_at] is the file a path names, [os_locks] the [flock]s that are
    held, [os_bound] the listener whose socket is at a place. *)
Class LaunchOs (W : Type) := {
  os_call : Z -> forall X, Sys X -> W -> X * W;
  os_exit : Z -> W -> W;
  os_at : Path -> Path;
  os_locks : W -> list (Path * (Z * Z));
  os_bound : W -> Path -> option (Z * Z);
}.

(** The path whose socket a call takes away or puts there. *)
Definition takes {X} (c : Sys X) : option Path :=
  match c with Unlink p | Listen p => Some p | _ => None end.
(** The file a call locks, the descriptor it closes. *)
Definition locks {X} (c : Sys X) : option Path :=
  match c with FlockExclusive _ p => Some p | _ => None end.
Definition closes {X} (c : Sys X) : option Z :=
  match c with CloseFd fd => Some fd | _ => None end.

(** [flock(LOCK_EX | LOCK_NB)], [unlink] and [bind], as they are documented. *)
Class LaunchLaws (W : Type) `{!LaunchOs W} : Prop := {
  flock_won : forall i fd p w w', os_call i _ (FlockExclusive fd p) w = (true, w') ->
    (forall j fd', (os_at p, (j, fd')) ∈ os_locks w -> j = i) /\ (os_at p, (i, fd)) ∈ os_locks w';
  locks_stay : forall i X (c : Sys X) w x w' q j fd, os_call i X c w = (x, w') ->
    (q, (j, fd)) ∈ os_locks w -> (j = i -> closes c <> Some fd) -> (q, (j, fd)) ∈ os_locks w';
  locks_come : forall i X (c : Sys X) w x w' q j fd, os_call i X c w = (x, w') ->
    (q, (j, fd)) ∈ os_locks w' -> (q, (j, fd)) ∈ os_locks w \/ (j = i /\ os_at <$> locks c = Some q);
  lock_lost : forall i fd p w w', os_call i _ (FlockExclusive fd p) w = (false, w') -> forall e, e ∈ os_locks w' -> e ∈ os_locks w;
  bound_stays : forall i X (c : Sys X) w x w' q, os_call i X c w = (x, w') ->
    os_at <$> takes c <> Some q -> os_bound w' q = os_bound w q;
  listen_binds : forall i p w fd w', os_call i _ (Listen p) w = (Ok fd, w') -> os_bound w' (os_at p) = Some (i, fd);
  unlink_fails : forall i p w e w' q, os_call i _ (Unlink p) w = (Err e, w') -> os_bound w' q = os_bound w q;
  listen_fails : forall i p w e w' q, os_call i _ (Listen p) w = (Err e, w') -> os_bound w' q = os_bound w q;
  exit_unlocks : forall i w q j fd, (q, (j, fd)) ∈ os_locks (os_exit i w) <-> j <> i /\ (q, (j, fd)) ∈ os_locks w;
  exit_leaves : forall i w q, os_bound (os_exit i w) q = os_bound w q;
}.

Section Discipline.
Context {W : Type} `{!LaunchOs W}.

(** ** One process *)

(** What a process knows it holds: the lock, by its descriptor, and the places
    where its listeners are. *)
Record Hold := mkHold { held : option Z; mine : gmap Path Z }.
Definition nothing : Hold := mkHold None ∅.

Definition next {X} (c : Sys X) : X -> Hold -> Hold :=
  match c in Sys X return X -> Hold -> Hold with
  | FlockExclusive fd _ => fun won h => if won then mkHold (Some fd) (mine h) else h
  | Listen p => fun r h => match r with Ok fd => mkHold (held h) (<[os_at p := fd]> (mine h)) | Err _ => h end
  | Unlink p => fun r h => match r with Ok _ => mkHold (held h) (delete (os_at p) (mine h)) | Err _ => h end
  | CloseFd fd => fun _ h => if bool_decide (held h = Some fd) then nothing else h
  | _ => fun _ h => h
  end.

Variables (lock : Path) (places : list Path).

(** The lock before the places. *)
Definition allowed {X} (c : Sys X) (h : Hold) : Prop :=
  match c with
  | FlockExclusive _ p => os_at p = lock /\ h = nothing
  | Unlink p | Listen p => os_at p ∈ places /\ held h <> None
  | _ => True
  end.

(** Every call of [m] is allowed; [Q] and [E] hold where it returns and throws. *)
Fixpoint wp {A} (m : Prog A) (h : Hold) (Q : Hold -> A -> Prop) (E : Hold -> Prop) : Prop :=
  match m with
  | Ret a => Q h a
  | Throw _ => E h
  | Hang => True
  | Do c k => allowed c h /\ forall x, wp (k x) (next c x h) Q E
  end.

(** A program that leaves lock and places alone; [keep] is a descriptor it does
    not close. *)
Fixpoint avoids {A} (keep : option Z) (m : Prog A) : Prop :=
  match m with
  | Do c k =>
      (forall p, takes c = Some p -> ~ os_at p ∈ places) /\ (forall p, locks c = Some p -> os_at p <> lock) /\
      (forall fd, closes c = Some fd -> keep <> Some fd) /\ forall x, avoids keep (k x)
  | _ => True
  end.

Lemma wp_mono {A} (m : Prog A) h (Q Q' : Hold -> A -> Prop) (E E' : Hold -> Prop) :
  wp m h Q E -> (forall h a, Q h a -> Q' h a) -> (forall h, E h -> E' h) -> wp m h Q' E'.
Proof. revert h. induction m as [| | |X c k IH]; cbn; auto. intros h [Ha Hk] HQ HE. split; auto. Qed.

Lemma wp_bind {A B} (m : Prog A) (f : A -> Prog B) h Q E :
  wp m h (fun h a => wp (f a) h Q E) E -> wp (m ≫= f) h Q E.
Proof. revert h. induction m as [| | |X c k IH]; cbn; auto. intros h [Ha Hk]. split; auto. Qed.

Lemma wp_call {X} (c : Sys X) h Q E : allowed c h -> (forall x, Q (next c x h) x) -> wp (call c) h Q E.
Proof. by split. Qed.

Lemma wp_io {X} (c : Sys (result Z X)) h Q E :
  allowed c h -> (forall x, Q (next c (Ok x) h) x) -> (forall e, E (next c (Err e) h)) -> wp (io c) h Q E.
Proof. intros Ha HQ HE. split; [done|]. intros [x|e]; cbn; auto. Qed.

Lemma wp_attempt {A} (m : Prog A) h Q E :
  wp m h (fun h a => Q h (Ok a)) (fun h => forall e, Q h (Err e)) -> wp (attempt m) h Q E.
Proof. revert h. induction m as [| | |X c k IH]; cbn; auto. intros h [Ha Hk]. split; auto. Qed.

(** Errors need nothing here: [E] is [any]. *)
Definition any (h : Hold) : Prop := True.

Lemma wp_guarded {A} fd (m : Prog A) h Q : wp m h Q any -> wp (guarded fd m) h Q any.
Proof. revert h. induction m as [| | |X c k IH]; cbn; auto. intros h [Ha Hk]. split; auto. Qed.

(** Calls that concern neither lock nor places. *)
Definition harmless {X} (c : Sys X) : Prop := takes c = None /\ locks c = None /\ closes c = None.

Lemma harmless_allowed {X} (c : Sys X) h : harmless c -> allowed c h.
Proof. unfold harmless. destruct c; cbn; intros (? & ? & ?); done. Qed.

Lemma harmless_next {X} (c : Sys X) x h : harmless c -> next c x h = h.
Proof. unfold harmless. destruct c; cbn; intros (? & ? & ?); done. Qed.

Fixpoint inert {A} (m : Prog A) : Prop :=
  match m with Do c k => harmless c /\ forall x, inert (k x) | _ => True end.

Lemma wp_inert {A} (m : Prog A) h : inert m -> wp m h (fun h' _ => h' = h) any.
Proof.
  induction m as [| | |X c k IH]; cbn; auto. intros [Hc Hk].
  split; [by apply harmless_allowed|]. intros x. rewrite harmless_next by done. auto.
Qed.

Lemma inert_bind {A B} (m : Prog A) (f : A -> Prog B) : inert m -> (forall a, inert (f a)) -> inert (m ≫= f).
Proof. intros Hm Hf. induction m as [| | |X c k IH]; cbn in *; auto. destruct Hm. split; auto. Qed.

Lemma inert_io {X} (c : Sys (result Z X)) : harmless c -> inert (io c).
Proof. intros Hc. split; [done|]. by intros []. Qed.

Lemma inert_avoids {A} keep (m : Prog A) : inert m -> avoids keep m.
Proof.
  induction m as [| | |X c k IH]; cbn; auto. intros [(H1 & H2 & H3) Hk]. rewrite H1, H2, H3. repeat split; auto; done.
Qed.

Lemma avoids_bind {A B} keep (m : Prog A) (f : A -> Prog B) :
  avoids keep m -> (forall a, avoids keep (f a)) -> avoids keep (m ≫= f).
Proof. intros Hm Hf. induction m as [| | |X c k IH]; cbn in *; auto. destruct Hm as (H1 & H2 & H3 & H4).
  exact (conj H1 (conj H2 (conj H3 (fun x => IH x (H4 x))))).
Qed.
End Discipline.

(** ** The programs of this directory *)

Definition socket_paths (s : Path) : list Path :=
  [s; cold_identity_socket_path s; cold_nav_socket_path s; cold_content_socket_path s].

Section Programs.
Context {W : Type} `{!LaunchOs W} (s : Path).
Let lock : Path := os_at (lock_path s).
Let places : list Path := os_at <$> socket_paths s.
Abbreviation wp := (wp lock places).

Lemma place_of p : p ∈ socket_paths s -> os_at p ∈ places.
Proof. apply list_elem_of_fmap_2. Qed.

(** The listeners of [b] are where they belong, under the lock. *)
Record full (b : Bound) (h : Hold) : Prop := {
  full_socket : b_socket b = s;
  full_lock : held h = Some (b_lock b);
  full_listener : mine h !! os_at s = Some (b_listener b);
  full_identity : mine h !! os_at (cold_identity_socket_path s) = Some (b_identity b);
  full_nav : mine h !! os_at (cold_nav_socket_path s) = Some (b_nav b);
  full_content : mine h !! os_at (cold_content_socket_path s) = Some (b_content b);
}.

Definition puts (p : Path) (h h' : Hold) (fd : Z) : Prop := h' = mkHold (held h) (<[os_at p := fd]> (mine h)).

Lemma listen_private_wp p h : p ∈ socket_paths s -> held h <> None -> wp (listen_private p) h (puts p h) any.
Proof.
  intros Hp Hh. apply wp_bind, wp_io; [split; [by apply place_of|done]| |done].
  intros fd. cbn [next]. apply wp_guarded, wp_bind, wp_io; [done| |done]. intros []; cbn [next].
  apply wp_bind, wp_io; [done| |done]. done.
Qed.

Lemma listen_companion_wp p h : p ∈ socket_paths s -> held h <> None -> wp (listen_companion p) h (puts p h) any.
Proof.
  intros Hp Hh. apply wp_bind, wp_call; [done|]. intros []; cbn [next]; apply wp_bind.
  - apply wp_io; [split; [by apply place_of|done]| |done]. intros []; cbn [next]. eapply wp_mono; [by apply listen_private_wp| |done].
    intros h' fd ->. unfold puts. cbn. by rewrite insert_delete_eq.
  - by apply listen_private_wp.
Qed.

Ltac harmless_steps :=
  repeat match goal with
  | |- inert (mbind _ _) => apply inert_bind; [|intros ?]
  | |- inert (call _) => split; [done|done]
  | |- inert (io _) => split; [done|intros []; done]
  | |- inert (Ret _) => exact I
  | |- inert (Throw _) => exact I
  | |- inert (match ?x with _ => _ end) => destruct x
  | |- inert (if ?x then _ else _) => destruct x
  end.

Lemma ensure_protected_parent_inert p : inert (ensure_protected_parent p).
Proof. unfold ensure_protected_parent. harmless_steps. Qed.

Lemma write_pid_inert p pid : inert (write_pid p pid).
Proof. unfold write_pid. harmless_steps. Qed.

Lemma start_leaf_inert env shell args size : inert (start_leaf env shell args size).
Proof. unfold start_leaf. cbv zeta. harmless_steps; apply write_pid_inert. Qed.

Lemma wp_after {A B} (m : Prog A) (f : A -> Prog B) h Q :
  inert m -> (forall a, wp (f a) h Q any) -> wp (m ≫= f) h Q any.
Proof. intros Hm Hf. apply wp_bind. eapply wp_mono; [by apply wp_inert| |done]. by intros h' a ->. Qed.

Lemma clear_stale_wp h : held h <> None ->
  wp (clear_stale s) h (fun h' _ => held h' = held h /\ mine h' ⊆ mine h) any.
Proof.
  intros Hh. apply wp_bind, wp_call; [done|]. intros []; cbn [next]; [|by split].
  apply wp_bind, wp_call; [done|]. intros []; cbn [next]; [done|].
  apply wp_io; [split; [by apply place_of; left|done]| |done]. intros []; cbn [next]. split; [done|]. apply delete_subseteq.
Qed.

Context (apart : NoDup places).

Lemma inserted4 (q1 q2 q3 q4 : Path) (l i n c : Z) (m : gmap Path Z) : NoDup [q1; q2; q3; q4] ->
  let m' := <[q4 := c]> (<[q3 := n]> (<[q2 := i]> (<[q1 := l]> m))) in
  m' !! q1 = Some l /\ m' !! q2 = Some i /\ m' !! q3 = Some n /\ m' !! q4 = Some c.
Proof.
  rewrite !NoDup_cons, !not_elem_of_cons. intros ((H12 & H13 & H14 & _) & (H23 & H24 & _) & (H34 & _) & _) m'. subst m'.
  rewrite !lookup_insert_eq, !(lookup_insert_ne _ q4), !(lookup_insert_ne _ q3), !(lookup_insert_ne _ q2), !lookup_insert_eq by done.
  done.
Qed.

Lemma bind_daemon_wp env shell args size : wp (bind_daemon env s shell args size) nothing (fun h b => full b h) any.
Proof.
  unfold bind_daemon. case_if; [done|]. apply wp_after; [apply ensure_protected_parent_inert|]. intros _.
  apply wp_bind, wp_io; [done| |done]. intros lk. cbn [next]. apply wp_guarded, wp_bind, wp_call; [done|].
  intros []; cbn [next negb]; [|done]. apply wp_bind. eapply wp_mono; [by apply clear_stale_wp| |done].
  intros h1 _ [Hh1 _]. apply wp_bind. eapply wp_mono; [apply listen_private_wp| |done]; [by left|by rewrite Hh1|].
  intros h2 l ->. apply wp_guarded, wp_bind. eapply wp_mono; [apply listen_companion_wp| |done]; [right; by left|by cbn; rewrite Hh1|].
  intros h3 i ->. apply wp_guarded, wp_bind. eapply wp_mono; [apply listen_companion_wp| |done]; [do 2 right; by left|by cbn; rewrite Hh1|].
  intros h4 n ->. apply wp_guarded, wp_bind. eapply wp_mono; [apply listen_companion_wp| |done]; [do 3 right; by left|by cbn; rewrite Hh1|].
  intros h5 c ->. apply wp_guarded, wp_after; [apply start_leaf_inert|]. intros child. cbn [wp mret prog_ret].
  destruct (inserted4 _ _ _ _ l i n c (mine h1) apart) as (E1 & E2 & E3 & E4). by split.
Qed.

(** An [unlink] whose error is ignored. *)
Lemma wp_unlinked {B} p (f : result DaemonError () -> Prog B) h Q : p ∈ socket_paths s -> held h <> None ->
  (forall h1 r, held h1 <> None -> wp (f r) h1 Q any) -> wp (attempt (io (Unlink p)) ≫= f) h Q any.
Proof.
  intros Hp Hl Hf. apply wp_bind, wp_attempt, wp_io.
  - split; [by apply place_of|done].
  - intros x. by apply Hf.
  - intros e r. by apply Hf.
Qed.

Lemma wp_closing {B} fd (f : () -> Prog B) h Q : (forall h1, wp (f tt) h1 Q any) -> wp (call (CloseFd fd) ≫= f) h Q any.
Proof. intros Hf. apply wp_bind, wp_call; [done|]. intros []. apply Hf. Qed.

Lemma drop_daemon_wp b h : full b h -> wp (drop_daemon b) h (fun _ _ => True) any.
Proof.
  intros [Hs Hh _ _ _ _]. unfold drop_daemon. rewrite Hs.
  assert (H0 : held h <> None) by (by rewrite Hh). clear Hh.
  apply (wp_unlinked s); [by left|exact H0|]. intros h1 _ H1.
  apply (wp_unlinked (cold_identity_socket_path s)); [right; by left|exact H1|]. intros h2 _ H2.
  apply (wp_unlinked (cold_nav_socket_path s)); [do 2 right; by left|exact H2|]. intros h3 _ H3.
  apply (wp_unlinked (cold_content_socket_path s)); [do 3 right; by left|exact H3|]. intros h4 _ _.
  do 4 (apply wp_closing; intros ?). by apply wp_call.
Qed.
End Programs.

(** ** Many processes *)

(** A process on the way up, serving, on the way down; or any other program. *)
Inductive Phase : Type :=
| Absent
| Starting (m : Prog Bound)
| Serving (b : Bound) (m : Prog ())
| Leaving (m : Prog Z)
| Other (m : Prog ()).

Section Interleaving.
Context {W : Type} `{!LaunchOs W, !LaunchLaws W} (s : Path) (serve : Bound -> Prog ()).
Let lock : Path := os_at (lock_path s).
Let places : list Path := os_at <$> socket_paths s.

Record Machine := mkMachine { phase : Z -> Phase; world : W }.

Definition goes (i : Z) (ph : Phase) (f : Z -> Phase) : Z -> Phase := fun j => if j =? i then ph else f j.

(** [run_worker], call by call, in any order; a process may end at any time, and
    a new one start. *)
Inductive step : Machine -> Machine -> Prop :=
| step_launch i f w env shell args size : f i = Absent ->
    step (mkMachine f w) (mkMachine (goes i (Starting (bind_daemon env s shell args size)) f) w)
| step_other i f w m : f i = Absent -> avoids lock places None m ->
    step (mkMachine f w) (mkMachine (goes i (Other m) f) w)
| step_starting i f w X (c : Sys X) k x w' : f i = Starting (Do c k) -> os_call i X c w = (x, w') ->
    step (mkMachine f w) (mkMachine (goes i (Starting (k x)) f) w')
| step_bound i f w b : f i = Starting (Ret b) ->
    step (mkMachine f w) (mkMachine (goes i (Serving b (serve b)) f) w)
| step_serving i f w b X (c : Sys X) k x w' : f i = Serving b (Do c k) -> os_call i X c w = (x, w') ->
    step (mkMachine f w) (mkMachine (goes i (Serving b (k x)) f) w')
| step_served i f w b m r : f i = Serving b m -> attempt m = Ret r ->
    step (mkMachine f w) (mkMachine (goes i (Leaving (after_serving b r)) f) w)
| step_leaving i f w X (c : Sys X) k x w' : f i = Leaving (Do c k) -> os_call i X c w = (x, w') ->
    step (mkMachine f w) (mkMachine (goes i (Leaving (k x)) f) w')
| step_running i f w X (c : Sys X) k x w' : f i = Other (Do c k) -> os_call i X c w = (x, w') ->
    step (mkMachine f w) (mkMachine (goes i (Other (k x)) f) w')
| step_exit i f w : step (mkMachine f w) (mkMachine (goes i Absent f) (os_exit i w)).

(** What is left to run of [run_worker] in a phase. *)
Definition rest (ph : Phase) : option (Prog Z) :=
  match ph with
  | Starting m => Some (r ← attempt m; after_bind serve r)
  | Serving b m => Some (r ← attempt m; after_serving b r)
  | Leaving m => Some m
  | Absent | Other _ => None
  end.

(** Between its start and its end a worker makes [run_worker]'s calls, in order,
    and nothing else. *)
Lemma step_runs_worker mc mc' i m m' : step mc mc' -> rest (phase mc i) = Some m -> rest (phase mc' i) = Some m' ->
  m' = m \/ exists X (c : Sys X) k x, m = Do c k /\ os_call i X c (world mc) = (x, world mc') /\ m' = k x.
Proof.
  intros Hs. destruct Hs as [j f w env shell args size Hf|j f w n Hf Hn|j f w X c k x w' Hf Hc|j f w b Hf|j f w b X c k x w' Hf Hc
    |j f w b n r Hf Hend|j f w X c k x w' Hf Hc|j f w X c k x w' Hf Hc|j f w]; cbn [phase world]; unfold goes;
    (destruct (Z.eqb_spec i j) as [->|_]; [|by intros -> [= ->]; left]); try rewrite Hf; cbn; try done; intros [= <-] [= <-].
  - right. by exists X, c, (fun x => r ← attempt (k x); after_bind serve r), x.
  - by left.
  - right. by exists X, c, (fun x => r ← attempt (k x); after_serving b r), x.
  - left. by rewrite Hend.
  - right. by exists X, c, k, x.
Qed.

Lemma launched_rest env socket : rest (Starting (bind_daemon env socket (default_shell env) [] winsize_default)) = Some (run_worker env serve socket).
Proof. done. Qed.

(** Nobody is there yet and the lock is free. *)
Definition initial (mc : Machine) : Prop :=
  (forall i, phase mc i = Absent) /\ forall e, ~ (lock, e) ∈ os_locks (world mc).

Definition reachable (mc : Machine) : Prop := exists m0, initial m0 /\ rtc step m0 mc.

(** ** The invariant *)

(** What a process believes it holds, it holds. *)
Definition owns (w : W) (i : Z) (h : Hold) : Prop :=
  (forall fd, held h = Some fd -> (lock, (i, fd)) ∈ os_locks w) /\
  forall q fd, mine h !! q = Some fd -> held h <> None /\ q ∈ places /\ os_bound w q = Some (i, fd).

Definition phase_ok (w : W) (i : Z) (ph : Phase) : Prop :=
  match ph with
  | Absent => True
  | Starting m => exists h, owns w i h /\ wp lock places m h (fun h b => full s b h) any
  | Serving b m => exists h, owns w i h /\ full s b h /\ avoids lock places (Some (b_lock b)) m
  | Leaving m => exists h, owns w i h /\ wp lock places m h (fun _ _ => True) any
  | Other m => avoids lock places None m
  end.

Definition exclusive (w : W) : Prop :=
  forall i j fd fd', (lock, (i, fd)) ∈ os_locks w -> (lock, (j, fd')) ∈ os_locks w -> i = j.

Definition machine_ok (mc : Machine) : Prop :=
  exclusive (world mc) /\ forall i, phase_ok (world mc) i (phase mc i).

(** Another process' call: it takes none of our places, nor our lock. *)
Definition bystander {X} (w : W) (i : Z) (c : Sys X) : Prop :=
  forall p, takes c = Some p -> os_at p ∈ places -> exists fd, (lock, (i, fd)) ∈ os_locks w.

Lemma owns_other w i j X (c : Sys X) x w' h :
  os_call i X c w = (x, w') -> exclusive w -> bystander w i c -> j <> i -> owns w j h -> owns w' j h.
Proof.
  intros Hc Hex Hby Hj [Hl Hm]. split.
  - intros fd Hfd. eapply locks_stay; [done|by apply Hl|done].
  - intros q fd Hq. destruct (Hm _ _ Hq) as (Hh & Hin & Hb). split_and!; [done|done|].
    rewrite <- Hb. eapply bound_stays; [done|]. intros E. destruct (takes c) as [p|] eqn:Et; [|done].
    injection E as <-. destruct (Hby p Et Hin) as [fd' Hi]. destruct (held h) as [fl|] eqn:Eh; [|done].
    apply Hj. eapply Hex; [by apply Hl|done].
Qed.

Lemma exclusive_call w i X (c : Sys X) x w' :
  os_call i X c w = (x, w') -> exclusive w -> exclusive w'.
Proof.
  intros Hc Hex j1 j2 fd1 fd2 H1 H2.
  assert (Hown : forall p j fd (E : locks c = Some p), (lock, (j, fd)) ∈ os_locks w -> os_at p = lock ->
            (lock, (i, fd1)) ∈ os_locks w' \/ (lock, (i, fd2)) ∈ os_locks w' -> j = i \/ exists fd', (lock, (i, fd')) ∈ os_locks w).
  { intros p j fd E Hj Hp Hi. destruct c; try discriminate E. cbn in E. injection E as ->. destruct x.
    - left. eapply (flock_won i fd0 p w w' Hc). by rewrite Hp.
    - right. destruct Hi as [Hi|Hi]; eexists; by eapply lock_lost. }
  destruct (locks_come _ _ _ _ _ _ _ _ _ Hc H1) as [O1|[-> E1]], (locks_come _ _ _ _ _ _ _ _ _ Hc H2) as [O2|[-> E2]].
  - by eapply Hex.
  - destruct (locks c) as [p|] eqn:El; [|done]. injection E2 as Hp.
    destruct (Hown p j1 fd1 eq_refl O1 Hp (or_intror H2)) as [?|[fd' Hi]]; [done|by eapply Hex].
  - destruct (locks c) as [p|] eqn:El; [|done]. injection E1 as Hp.
    destruct (Hown p j2 fd2 eq_refl O2 Hp (or_introl H1)) as [->|[fd' Hi]]; [done|by eapply Hex].
  - done.
Qed.

(** One call of a process that follows the discipline. *)
Lemma owns_self w i X (c : Sys X) x w' h :
  os_call i X c w = (x, w') -> owns w i h -> allowed lock places c h -> owns w' i (next c x h).
Proof.
  intros Hc [Hl Hm] Ha.
  assert (Hkeep : takes c = None -> closes c = None -> owns w' i h).
  { intros Ht Hcl. split.
    - intros fd Hfd. eapply locks_stay; [done|by apply Hl|by rewrite Hcl].
    - intros q fd Hq. destruct (Hm _ _ Hq) as (? & ? & Hb). split_and!; [done|done|]. rewrite <- Hb.
      eapply bound_stays; [done|by rewrite Ht]. }
  assert (Hlocks : forall fd, closes c = None -> held h = Some fd -> (lock, (i, fd)) ∈ os_locks w').
  { intros fd Hcl Hfd. eapply locks_stay; [done|by apply Hl|by rewrite Hcl]. }
  destruct c; try (by apply Hkeep).
  - cbn in *. destruct x; [|by apply Hkeep]. destruct Ha as [Hp ->]. split; cbn.
    + intros ? [= <-]. rewrite <- Hp. by eapply flock_won.
    + intros q f. by rewrite lookup_empty.
  - cbn in *. destruct Ha as [Hp Hh]. destruct x as [[]|e].
    + split; cbn; [intros ? ?; by apply Hlocks|]. intros q f. rewrite lookup_delete_Some. intros [Hne Hq].
      destruct (Hm _ _ Hq) as (? & ? & Hb). split_and!; [done|done|]. rewrite <- Hb.
      eapply bound_stays; [done|]. cbn. by intros [= E].
    + split; [intros ? ?; by apply Hlocks|]. intros q f Hq. destruct (Hm _ _ Hq) as (? & ? & Hb). split_and!; [done|done|].
      rewrite <- Hb. by eapply unlink_fails.
  - cbn in *. destruct Ha as [Hp Hh]. destruct x as [l|e].
    + split; cbn; [intros ? ?; by apply Hlocks|]. intros q f. rewrite lookup_insert_Some. intros [[<- <-]|[Hne Hq]].
      * split_and!; [done|done|]. by eapply listen_binds.
      * destruct (Hm _ _ Hq) as (? & ? & Hb). split_and!; [done|done|]. rewrite <- Hb.
        eapply bound_stays; [done|]. cbn. by intros [= E].
    + split; [intros ? ?; by apply Hlocks|]. intros q f Hq. destruct (Hm _ _ Hq) as (? & ? & Hb). split_and!; [done|done|].
      rewrite <- Hb. by eapply listen_fails.
  - cbn in *. case_bool_decide as Hcl.
    + split; [done|]. intros q f. cbn. by rewrite lookup_empty.
    + split.
      * intros f Hf. eapply locks_stay; [done|by apply Hl|]. cbn. intros _ [= ->]. done.
      * intros q f Hq. destruct (Hm _ _ Hq) as (? & ? & Hb). split_and!; [done|done|]. rewrite <- Hb.
        by eapply bound_stays.
Qed.

(** One call of a program that stays away. *)
Lemma owns_avoiding w i X (c : Sys X) x w' h lk :
  os_call i X c w = (x, w') -> owns w i h -> held h = Some lk ->
  (forall p, takes c = Some p -> ~ os_at p ∈ places) -> (forall fd, closes c = Some fd -> Some lk <> Some fd) ->
  owns w' i h.
Proof.
  intros Hc [Hl Hm] Hh Ht Hcl. split.
  - intros fd Hfd. eapply locks_stay; [done|by apply Hl|]. intros _ E. rewrite Hh in Hfd. by apply (Hcl fd E).
  - intros q fd Hq. destruct (Hm _ _ Hq) as (? & Hin & Hb). split_and!; [done|done|]. rewrite <- Hb.
    eapply bound_stays; [done|]. intros E. destruct (takes c) as [p|] eqn:Et; [|done]. injection E as <-. by apply (Ht p).
Qed.

Lemma allowed_bystander w i h X (c : Sys X) : owns w i h -> allowed lock places c h -> bystander w i c.
Proof.
  intros [Hl _] Ha p Ht _. assert (Hh : held h <> None) by (destruct c; cbn in *; try discriminate Ht; by destruct Ha).
  destruct (held h) as [fd|]; [|done]. exists fd. by apply Hl.
Qed.

Lemma avoiding_bystander w i X (c : Sys X) : (forall p, takes c = Some p -> ~ os_at p ∈ places) -> bystander w i c.
Proof. intros Ht p E Hin. by destruct (Ht p E). Qed.

Lemma phase_other w i j X (c : Sys X) x w' ph :
  os_call i X c w = (x, w') -> exclusive w -> bystander w i c -> j <> i -> phase_ok w j ph -> phase_ok w' j ph.
Proof.
  intros Hc Hex Hby Hj. destruct ph as [|m|b m|m|m]; cbn; auto.
  - intros (h & Ho & Hm). exists h. split; [by eapply owns_other|done].
  - intros (h & Ho & Hm). exists h. split; [by eapply owns_other|done].
  - intros (h & Ho & Hm). exists h. split; [by eapply owns_other|done].
Qed.

(** A call of process [i] that leads to a phase that is in order. *)
Lemma machine_call i f w X (c : Sys X) x w' ph :
  machine_ok (mkMachine f w) -> os_call i X c w = (x, w') -> bystander w i c -> phase_ok w' i ph ->
  machine_ok (mkMachine (goes i ph f) w').
Proof.
  intros [Hex Hok] Hc Hby Hph. split; [by eapply exclusive_call|]. intros j. cbn. unfold goes.
  destruct (Z.eqb_spec j i) as [->|Hj]; [done|]. eapply phase_other; [done..|]. apply Hok.
Qed.

Lemma machine_turn i f w ph :
  machine_ok (mkMachine f w) -> phase_ok w i ph -> machine_ok (mkMachine (goes i ph f) w).
Proof.
  intros [Hex Hok] Hph. split; [done|]. intros j. cbn. unfold goes. destruct (Z.eqb_spec j i) as [->|Hj]; [done|apply Hok].
Qed.

Lemma owns_nothing w i : owns w i nothing.
Proof. split; [done|]. intros q fd. cbn. by rewrite lookup_empty. Qed.

Context (apart : NoDup places).
Context (quiet : forall b, avoids lock places (Some (b_lock b)) (serve b)).

Lemma machine_exit i f w : machine_ok (mkMachine f w) -> machine_ok (mkMachine (goes i Absent f) (os_exit i w)).
Proof.
  intros [Hex Hok]. split.
  - intros j1 j2 fd1 fd2 H1%exit_unlocks H2%exit_unlocks. destruct H1, H2. by eapply Hex.
  - intros j. cbn. unfold goes. destruct (Z.eqb_spec j i) as [->|Hj]; [done|]. specialize (Hok j). cbn in Hok.
    assert (Ho : forall h, owns w j h -> owns (os_exit i w) j h).
    { intros h [Hl Hm]. split.
      - intros fd Hfd. apply exit_unlocks. auto.
      - intros q fd Hq. rewrite exit_leaves. by apply Hm. }
    destruct (f j) as [|m|b m|m|m]; cbn in *; auto; destruct Hok as (h & Hh & Hrest); eauto.
Qed.

Lemma step_ok mc mc' : machine_ok mc -> step mc mc' -> machine_ok mc'.
Proof.
  intros Hmc Hstep. assert (Hi := fun i => proj2 Hmc i).
  destruct Hstep as [i f w env shell args size Hf|i f w m Hf Hm|i f w X c k x w' Hf Hc|i f w b Hf|i f w b X c k x w' Hf Hc
                    |i f w b m r Hf Hend|i f w X c k x w' Hf Hc|i f w X c k x w' Hf Hc|i f w]; try (specialize (Hi i); cbn in Hi; rewrite Hf in Hi).
  - apply machine_turn; [done|]. exists nothing. split; [apply owns_nothing|]. by apply bind_daemon_wp.
  - by apply machine_turn.
  - destruct Hi as (h & Ho & Ha & Hk). eapply machine_call; [done|done|by eapply allowed_bystander|].
    exists (next c x h). split; [by eapply owns_self|apply Hk].
  - destruct Hi as (h & Ho & Hfull). apply machine_turn; [done|]. exists h. split_and!; [done|done|apply quiet].
  - destruct Hi as (h & Ho & Hfull & Ht & Hl & Hcl & Hk). eapply machine_call; [done|done|by apply avoiding_bystander|].
    exists h. split_and!; [|done|apply Hk]. eapply owns_avoiding; [done|done|by eapply full_lock|done|done].
  - destruct Hi as (h & Ho & Hfull & _). apply machine_turn; [done|]. exists h. split; [done|]. apply wp_bind. by eapply wp_mono; [apply drop_daemon_wp|..].
  - destruct Hi as (h & Ho & Ha & Hk). eapply machine_call; [done|done|by eapply allowed_bystander|].
    exists (next c x h). split; [by eapply owns_self|apply Hk].
  - destruct Hi as (Ht & Hl & Hcl & Hk). eapply machine_call; [done|done|by apply avoiding_bystander|apply Hk].
  - by apply machine_exit.
Qed.

Lemma reachable_ok mc : reachable mc -> machine_ok mc.
Proof.
  intros (m0 & [Habs Hfree] & Hsteps). assert (H0 : machine_ok m0).
  { split; [intros i j fd fd' Hi; by destruct (Hfree (i, fd))|]. intros i. by rewrite Habs. }
  clear Habs Hfree. induction Hsteps as [|x y z Hxy _ IH]; [done|]. apply IH. by eapply step_ok.
Qed.

(** The listeners of a serving daemon are at its paths. *)
Definition keeps_sockets (w : W) (i : Z) (b : Bound) : Prop :=
  os_bound w (os_at s) = Some (i, b_listener b) /\
  os_bound w (os_at (cold_identity_socket_path s)) = Some (i, b_identity b) /\
  os_bound w (os_at (cold_nav_socket_path s)) = Some (i, b_nav b) /\
  os_bound w (os_at (cold_content_socket_path s)) = Some (i, b_content b).

Lemma serving_keeps mc i b m : reachable mc -> phase mc i = Serving b m ->
  keeps_sockets (world mc) i b /\ (lock, (i, b_lock b)) ∈ os_locks (world mc).
Proof.
  intros [_ Hok]%reachable_ok Hph. specialize (Hok i). rewrite Hph in Hok. destruct Hok as (h & [Hl Hm] & [_ Hlk H1 H2 H3 H4] & _).
  split; [|by apply Hl]. repeat split; by eapply Hm.
Qed.

Lemma serving_alone mc i j b m b' m' : reachable mc -> phase mc i = Serving b m -> phase mc j = Serving b' m' -> i = j.
Proof.
  intros Hr Hi Hj. eapply (proj1 (reachable_ok _ Hr)); eapply serving_keeps; done.
Qed.
End Interleaving.

(** ** The proxy beside the worker *)

Section Beside.
Context {W : Type} `{!LaunchOs W} (s attach : Path).
Let lock : Path := os_at (lock_path s).
Let places : list Path := os_at <$> socket_paths s.
Abbreviation clear := (avoids lock places None).

Context (beside : forall p, p ∈ socket_paths attach -> ~ os_at p ∈ places).

Lemma avoids_call {X} (c : Sys X) :
  (forall p, takes c = Some p -> ~ os_at p ∈ places) -> locks c = None -> clear (call c).
Proof. intros Ht Hl. split; [done|]. rewrite Hl. by repeat split. Qed.

Lemma avoids_io {X} (c : Sys (result Z X)) :
  (forall p, takes c = Some p -> ~ os_at p ∈ places) -> locks c = None -> clear (io c).
Proof. intros Ht Hl. split; [done|]. rewrite Hl. split; [done|]. split; [done|]. by intros []. Qed.

Lemma avoids_guarded {A} fd (m : Prog A) : clear m -> clear (guarded fd m).
Proof.
  induction m as [| | |X c k IH]; cbn; auto; [by repeat split|].
  intros (? & ? & ? & Hk). repeat split; auto.
Qed.

Lemma listen_private_clear p : p ∈ socket_paths attach -> clear (listen_private p).
Proof.
  intros Hp. apply avoids_bind; [apply avoids_io; [cbn; intros ? [= <-]; by apply beside|done]|]. intros l.
  apply avoids_guarded, inert_avoids. repeat (apply inert_bind; [by apply inert_io|intros _]). done.
Qed.

Lemma unlink_clear {A} p (m : Prog A) : p ∈ socket_paths attach -> clear m -> clear (_ ← call (Unlink p); m).
Proof. intros Hp Hm. apply avoids_bind; [|done]. apply avoids_call; [cbn; intros ? [= <-]; by apply beside|done]. Qed.

Lemma control_companion_clear p : p ∈ socket_paths attach -> clear (control_companion p).
Proof.
  intros Hp. apply avoids_bind; [by apply avoids_call|]. intros there.
  apply avoids_bind; [destruct there; [by apply unlink_clear|done]|]. intros _. by apply listen_private_clear.
Qed.

Lemma take_path_clear : clear (take_path attach).
Proof.
  apply avoids_bind; [by apply avoids_call|]. intros []; [|done].
  apply avoids_bind; [by apply avoids_call|]. intros []; [done|]. apply unlink_clear; [by left|done].
Qed.

Lemma await_worker_clear fuel ws start : clear (await_worker fuel ws start).
Proof.
  induction fuel as [|fuel IH]; cbn [await_worker]; [done|]. apply avoids_bind; [by apply avoids_call|]. intros t.
  case_if; [|done]. apply avoids_bind; [by apply avoids_call|]. intros []; [done|].
  apply avoids_bind; [by apply avoids_call|]. by intros _.
Qed.

Lemma revive_worker_clear env fuel ws : clear (revive_worker env fuel attach ws).
Proof.
  unfold revive_worker, spawn_worker.
  repeat first [ apply await_worker_clear | by apply avoids_call | by apply avoids_io | done
               | apply avoids_bind; [|intros ?] | case_match ].
Qed.

(** The proxy of [attach] never touches the worker's sockets. *)
Lemma control_start_clear env fuel : clear (control_start env fuel attach).
Proof.
  unfold control_start. cbv zeta. do 2 (apply avoids_bind; [apply inert_avoids, ensure_protected_parent_inert|]; intros _).
  apply avoids_bind; [by apply avoids_call|]. intros alive. apply avoids_bind; [destruct alive; [done|apply revive_worker_clear]|]. intros _.
  apply avoids_bind; [case_match; [|done]; apply inert_avoids, inert_bind; [by split|intros ?; apply write_pid_inert]|]. intros _.
  apply avoids_bind; [apply take_path_clear|]. intros _. apply avoids_bind; [apply listen_private_clear; by left|]. intros l.
  apply avoids_guarded, avoids_bind; [apply control_companion_clear; right; by left|]. intros i.
  apply avoids_guarded, avoids_bind; [apply control_companion_clear; do 2 right; by left|]. intros n.
  apply avoids_guarded, avoids_bind; [apply control_companion_clear; do 3 right; by left|]. done.
Qed.
End Beside.

(** ** How long a start waits *)

(** A call made at [t] is answered at [t'], in any way but by the clock: it does
    not go back, and a nap lasts. *)
Definition clocked {X} (c : Sys X) : X -> Z -> Z -> Prop :=
  match c in Sys X return X -> Z -> Z -> Prop with
  | Now => fun x t t' => t <= x <= t'
  | Nap ns => fun _ t t' => t + ns <= t'
  | _ => fun _ t t' => t <= t'
  end.

Inductive answered {A} : Prog A * Z -> Prog A * Z -> Prop :=
| answer X (c : Sys X) k x t t' : clocked c x t t' -> answered (Do c k, t) (k x, t').

(** [m], begun at [t], comes to an end within [n] calls; [Q] is when it returns. *)
Fixpoint ends {A} (m : Prog A) (n : nat) (t : Z) (Q : A -> nat -> Z -> Prop) : Prop :=
  match m with
  | Ret a => Q a n t
  | Throw _ => True
  | Hang => False
  | Do c k => match n with
              | O => False
              | S n => forall x t', clocked c x t t' -> ends (k x) n t' Q
              end
  end.

Lemma ends_bind {A B} (m : Prog A) (f : A -> Prog B) n t Q :
  ends m n t (fun a n t => ends (f a) n t Q) -> ends (m ≫= f) n t Q.
Proof. revert n t. induction m as [| | |X c k IH]; cbn; auto. intros [|n] t H; [done|]. intros x t' Hx. by apply IH, H. Qed.

Lemma ends_call {X} (c : Sys X) n t (Q : X -> nat -> Z -> Prop) :
  (forall x t', clocked c x t t' -> Q x n t') -> ends (call c) (S n) t Q.
Proof. intros HQ x t' Hx. by apply HQ. Qed.

Lemma ends_io {X} (c : Sys (result Z X)) n t (Q : X -> nat -> Z -> Prop) :
  (forall x t', clocked c (Ok x) t t' -> Q x n t') -> ends (io c) (S n) t Q.
Proof. intros HQ [x|e] t' Hx; [by apply HQ|done]. Qed.

Lemma ends_sound {A} (m : Prog A) n t Q k m' t' :
  ends m n t Q -> nsteps answered k (m, t) (m', t') -> (k <= n)%nat /\ m' <> Hang.
Proof.
  revert m n t. induction k as [|k IH]; intros m n t He Hs.
  - inversion Hs; subst. split; [lia|]. by intros ->.
  - inversion Hs as [|? ? [m1 t1] ? Hone Hrest]; subst. inversion Hone as [X c f x ? ? Hx]; subst.
    destruct n as [|n]; [done|]. destruct (IH _ n _ (He x _ Hx) Hrest). split; [lia|done].
Qed.

(** Three calls a turn, and a turn is a nap of the five seconds. *)
Lemma await_worker_ends ws start (Q : bool -> nat -> Z -> Prop) (fuel : nat) : forall n t,
  start <= t -> start + WORKER_WAIT <= t + Z.of_nat fuel * WORKER_NAP ->
  (forall a k t', (n <= k)%nat -> Q a k t') ->
  ends (await_worker (S fuel) ws start) (1 + 3 * fuel + n) t Q.
Proof.
  induction fuel as [|fuel IH]; intros n t Ht Hf HQ.
  - apply ends_bind, ends_call. intros x t1 [Hx1 Hx2]. cbn [clocked] in *.
    rewrite (proj2 (Z.ltb_ge _ _)) by (unfold sat_sub; lia). apply HQ. lia.
  - replace (1 + 3 * S fuel + n)%nat with (S (S (S (1 + 3 * fuel + n)))) by lia.
    apply ends_bind, ends_call. intros x t1 [Hx1 Hx2]. cbn [clocked] in *.
    case_if; [|apply HQ; lia]. apply ends_bind, ends_call. intros alive t2 Ht2. cbn [clocked] in Ht2.
    destruct alive; [apply HQ; lia|]. apply ends_bind, ends_call. intros [] t3 Ht3. cbn [clocked] in Ht3.
    unfold WORKER_NAP, MILLI in *. apply IH; [lia|lia|done].
Qed.

(** [m] makes at most [n] calls, whenever it starts. *)
Definition costs {A} (m : Prog A) (n : nat) : Prop :=
  forall t k Q, (forall a k' t', (k <= k')%nat -> Q a k' t') -> ends m (n + k) t Q.

Lemma ends_guarded {A} fd (m : Prog A) n t Q : ends m n t (fun a k t => Q a (S k) t) -> ends (guarded fd m) (S n) t Q.
Proof. revert n t. induction m as [| | |X c k IH]; cbn; auto. intros [|n] t H; [done|]. intros x t' Hx. by apply IH, H. Qed.

Lemma costs_more {A} (m : Prog A) n n' : costs m n -> (n <= n')%nat -> costs m n'.
Proof. intros Hm Hn t k Q HQ. replace (n' + k)%nat with (n + (n' - n + k))%nat by lia. apply Hm. intros a k' t' Hk. apply HQ. lia. Qed.

Lemma costs_ret {A} (a : A) : costs (Ret a) 0.
Proof. intros t k Q HQ. by apply HQ. Qed.
Lemma costs_throw {A} e : costs (A := A) (Throw e) 0.
Proof. done. Qed.
Lemma costs_call {X} (c : Sys X) : costs (call c) 1.
Proof. intros t k Q HQ. apply ends_call. intros x t' _. by apply HQ. Qed.
Lemma costs_io {X} (c : Sys (result Z X)) : costs (io c) 1.
Proof. intros t k Q HQ. apply ends_io. intros x t' _. by apply HQ. Qed.

Lemma costs_bind {A B} (m : Prog A) (f : A -> Prog B) n1 n2 :
  costs m n1 -> (forall a, costs (f a) n2) -> costs (m ≫= f) (n1 + n2).
Proof.
  intros Hm Hf t k Q HQ. apply ends_bind. rewrite <- Nat.add_assoc. apply Hm. intros a k' t' Hk.
  replace k' with (n2 + (k' - n2))%nat by lia. apply Hf. intros b k2 t2 Hk2. apply HQ. lia.
Qed.

Lemma costs_guarded {A} fd (m : Prog A) n : costs m n -> costs (guarded fd m) (S n).
Proof. intros Hm t k Q HQ. apply ends_guarded, Hm. intros a k' t' Hk. apply HQ. lia. Qed.

Lemma costs_match_env {A} (o : option (list Z)) (m1 : list Z -> Prog A) m2 n :
  (forall p, costs (m1 p) n) -> costs m2 n -> costs (match o with Some p => m1 p | None => m2 end) n.
Proof. by destruct o. Qed.

Lemma ensure_protected_parent_costs p : costs (ensure_protected_parent p) 4.
Proof.
  unfold ensure_protected_parent. destruct (parent p); [|by apply (costs_more _ 0); [apply costs_throw|lia]].
  apply (costs_bind _ _ 1 3); [apply costs_io|intros []]. apply (costs_bind _ _ 1 2); [apply costs_io|intros meta].
  apply (costs_bind _ _ 1 1); [apply costs_call|intros uid]. repeat case_if; try done. apply costs_io.
Qed.

Lemma spawn_worker_costs env ws : costs (spawn_worker env 251 ws) 754.
Proof.
  apply (costs_bind _ _ 1 753); [apply costs_io|intros exe]. apply (costs_bind _ _ 1 752); [apply costs_io|intros child].
  intros t k Q HQ. apply ends_bind, ends_call. intros start t1 [H1 H2]. apply ends_bind.
  apply (await_worker_ends ws start _ 250 k); [done|unfold WORKER_WAIT, WORKER_NAP, MILLI; lia|].
  intros [] k' t' Hk; [by apply HQ|done].
Qed.

Lemma costs_none {A} (m : Prog A) n : costs m 0 -> costs m n.
Proof. intros Hm. apply (costs_more m 0); [done|lia]. Qed.

Ltac costs_step :=
  first [ exact (costs_none _ _ (costs_throw _)) | exact (costs_none _ _ (costs_ret _))
        | eapply costs_more; [apply costs_call|lia] | eapply costs_more; [apply costs_io|lia]
        | eapply costs_more; [apply ensure_protected_parent_costs|lia] | eapply costs_more; [apply spawn_worker_costs|lia] ].

(** Split a budget: [n1] calls, then the rest. *)
Ltac costs_then n1 := apply (costs_bind _ _ n1); [try costs_step|intros ?].

Lemma write_pid_costs p pid : costs (write_pid p pid) 1.
Proof. destruct p; costs_step. Qed.

Lemma listen_private_costs p : costs (listen_private p) 4.
Proof. apply (costs_bind _ _ 1 3); [costs_step|intros l]. apply costs_guarded. costs_then 1%nat. apply (costs_bind _ _ 1 0); [costs_step|intros ?]. costs_step. Qed.

Lemma control_companion_costs p : costs (control_companion p) 6.
Proof.
  apply (costs_bind _ _ 1 5); [costs_step|intros there]. apply (costs_bind _ _ 1 4); [|intros ?; apply listen_private_costs].
  destruct there; [|costs_step]. apply (costs_bind _ _ 1 0); [costs_step|intros ?; costs_step].
Qed.

Lemma take_path_costs p : costs (take_path p) 3.
Proof.
  apply (costs_bind _ _ 1 2); [costs_step|intros []; [|costs_step]]. apply (costs_bind _ _ 1 1); [costs_step|intros []; [costs_step|]].
  apply (costs_bind _ _ 1 0); [costs_step|intros ?; costs_step].
Qed.

Lemma revive_worker_costs env attach ws : costs (revive_worker env 251 attach ws) 757.
Proof.
  apply (costs_bind _ _ 1 756); [case_match; [|costs_step]; apply (costs_bind _ _ 1 0); [costs_step|intros ?; costs_step]|intros recorded].
  apply (costs_bind _ _ 1 755); [costs_step|intros marked]. cbv zeta.
  apply (costs_bind _ _ 1 754); [case_match; [|costs_step]; apply (costs_bind _ _ 1 0); [costs_step|intros ?; costs_step]|intros ?].
  apply (costs_bind _ _ 754 0); [costs_step|intros ?; costs_step].
Qed.

Lemma control_start_costs env attach : costs (control_start env 251 attach) 796.
Proof.
  unfold control_start. cbv zeta. apply (costs_bind _ _ 4 792); [costs_step|intros ?]. apply (costs_bind _ _ 4 788); [costs_step|intros ?].
  apply (costs_bind _ _ 1 787); [costs_step|intros alive].
  apply (costs_bind _ _ 757 30); [destruct alive; [costs_step|apply revive_worker_costs]|intros ?].
  apply (costs_bind _ _ 2 28); [case_match; [|costs_step]; apply (costs_bind _ _ 1 1); [costs_step|intros ?; apply write_pid_costs]|intros ?].
  apply (costs_bind _ _ 3 25); [apply take_path_costs|intros ?]. apply (costs_bind _ _ 4 21); [apply listen_private_costs|intros l].
  apply costs_guarded. apply (costs_bind _ _ 6 14); [apply control_companion_costs|intros i].
  apply costs_guarded. apply (costs_bind _ _ 6 7); [apply control_companion_costs|intros n].
  apply costs_guarded. apply (costs_bind _ _ 6 0); [apply control_companion_costs|intros c]. costs_step.
Qed.

Lemma costs_sound {A} (m : Prog A) n t k m' t' :
  costs m n -> nsteps answered k (m, t) (m', t') -> (k <= n)%nat /\ m' <> Hang.
Proof. intros Hm Hs. apply (ends_sound m (n + 0) t (fun _ _ _ => True) k m' t') in Hs as [? ?]; [split; [lia|done]|by apply Hm]. Qed.
