(* ===== verification/LaunchRuns.v ===== *)
(** Starting up on one system: its [flock], [bind] and [unlink] written out,
    the theorems about interleaved starts, and runs of them. *)
From S2P Require Import Prelude Text Path SocketPath Session Daemon Launch LaunchFacts.

Local Open Scope Z_scope.

(** ** A system *)

(** Sockets by path, locks, open descriptors, the next descriptor, the clock. *)
Record Host := mkHost {
  h_sockets : gmap Path (Z * Z);
  h_locks : list (Path * (Z * Z));
  h_open : gset (Z * Z);
  h_fresh : Z;
  h_now : Z;
}.

#[export] Instance host_eta : Eta Host := fun h => mkHost (h_sockets h) (h_locks h) (h_open h) (h_fresh h) (h_now h).

Definition ENOENT : Z := 2.
Definition EADDRINUSE : Z := 48.
Definition HOST_UID : Z := 501.

Definition host_fd (i : Z) (h : Host) : Z * Host :=
  (h_fresh h, h <| h_open := {[(i, h_fresh h)]} ∪ h_open h |> <| h_fresh := h_fresh h + 1 |>).

Definition locked_elsewhere (i : Z) (p : Path) (h : Host) : bool :=
  existsb (fun '(q, (j, _)) => bool_decide (q = p) && negb (j =? i)) (h_locks h).

Definition host_call (i : Z) (X : Type) (c : Sys X) : Host -> X * Host :=
  match c in Sys X return Host -> X * Host with
  | CreateDirAll _ => fun h => (Ok tt, h)
  | Metadata _ => fun h => (Ok (mkMeta 448 HOST_UID), h)
  | Chmod _ _ => fun h => (Ok tt, h)
  | GetUid => fun h => (HOST_UID, h)
  | PeerEid _ => fun h => (Ok HOST_UID, h)
  | OpenFile _ => fun h => let '(fd, h) := host_fd i h in (Ok fd, h)
  | FlockExclusive fd p => fun h =>
      if locked_elsewhere i p h then (false, h) else (true, h <| h_locks := (p, (i, fd)) :: h_locks h |>)
  | PathExists p => fun h => (bool_decide (is_Some (h_sockets h !! p)), h)
  | Dial p => fun h => (match h_sockets h !! p with Some e => bool_decide (e ∈ h_open h) | None => false end, h)
  | Unlink p => fun h =>
      match h_sockets h !! p with
      | Some _ => (Ok tt, h <| h_sockets := delete p (h_sockets h) |>)
      | None => (Err ENOENT, h)
      end
  | Listen p => fun h =>
      match h_sockets h !! p with
      | Some _ => (Err EADDRINUSE, h)
      | None => let '(fd, h) := host_fd i h in (Ok fd, h <| h_sockets := <[p := (i, fd)]> (h_sockets h) |>)
      end
  | SetNonblocking _ => fun h => (Ok tt, h)
  | CloseFd fd => fun h =>
      (tt, h <| h_open := h_open h ∖ {[(i, fd)]} |> <| h_locks := filter (fun e => snd e <> (i, fd)) (h_locks h) |>)
  | ReadText _ => fun h => (Err ENOENT, h)
  | WriteText _ _ => fun h => (Ok tt, h)
  | MyPid => fun h => (i, h)
  | CurrentExe => fun h => (Ok (lit "/usr/local/bin/rilld"), h)
  | SpawnProcess _ _ => fun h => (Ok (1000 + i), h)
  | SpawnShell _ _ _ => fun h => (Ok (2000 + i), h)
  | Now => fun h => (h_now h, h)
  | Nap ns => fun h => (tt, h <| h_now := h_now h + ns |>)
  | IgnoreHangup => fun h => (tt, h)
  | Setsid => fun h => (None, h)
  end.

Definition host_exit (i : Z) (h : Host) : Host :=
  h <| h_open := filter (fun e => fst e <> i) (h_open h) |> <| h_locks := filter (fun e => fst (snd e) <> i) (h_locks h) |>.

#[export] Instance host_os : LaunchOs Host := {
  os_call := host_call;
  os_exit := host_exit;
  os_at p := p;
  os_locks := h_locks;
  os_bound h p := h_sockets h !! p;
}.

Lemma locked_elsewhere_spec i p h : locked_elsewhere i p h = false ->
  forall j fd, (p, (j, fd)) ∈ h_locks h -> j = i.
Proof.
  intros He j fd Hin%list_elem_of_In. apply not_true_iff_false in He. destruct (Z.eq_dec j i) as [->|Hne]; [done|].
  destruct He. apply existsb_exists. exists (p, (j, fd)). split; [done|].
  rewrite bool_decide_eq_true_2 by done. by rewrite (proj2 (Z.eqb_neq _ _)).
Qed.

#[export] Instance host_laws : LaunchLaws Host.
Proof.
  split; cbn [os_call os_exit os_at os_locks os_bound host_os].
  - intros i fd p w w'. cbn. destruct (locked_elsewhere i p w) eqn:E; intros [= <-].
    split; [by eapply locked_elsewhere_spec|]. cbn. by left.
  - intros i X c w x w' q j fd Hc Hin Hcl. destruct c; cbn in *; repeat case_match; simplify_eq; cbn; try done; try by right.
    apply list_elem_of_filter. split; [|done]. cbn. intros [= -> ->]. by apply Hcl.
  - intros i X c w x w' q j fd Hc Hin. destruct c; cbn in *; repeat case_match; simplify_eq; cbn in *; try (by left).
    + apply elem_of_cons in Hin as [[= -> -> ->]|?]; auto.
    + apply list_elem_of_filter in Hin as [_ ?]. by left.
  - intros i fd p w w'. cbn. case_match; intros [= <-]; done.
  - intros i X c w x w' q Hc Ht. destruct c; cbn in *; repeat case_match; simplify_eq; cbn; try done.
    + rewrite lookup_delete_ne; [done|]. congruence.
    + rewrite lookup_insert_ne; [done|]. congruence.
  - intros i p w fd w'. cbn. case_match; [done|]. intros [= <- <-]. cbn. apply lookup_insert_eq.
  - intros i p w e w' q. cbn. case_match; by intros [= <- <-].
  - intros i p w e w' q. cbn. case_match; by intros [= <- <-].
  - intros i w q j fd. cbn. rewrite list_elem_of_filter. done.
  - done.
Qed.

(** ** Interleaved starts *)

Section Runs.
Context {W : Type} `{!LaunchOs W} (s : Path) (serve : Bound -> Prog ()).

(** The next move of process [i]. *)
Definition turn (i : Z) (mc : Machine (W := W)) : Machine :=
  match phase mc i with
  | Starting (Do c k) => let '(x, w) := os_call i _ c (world mc) in mkMachine (goes i (Starting (k x)) (phase mc)) w
  | Starting (Ret b) => mkMachine (goes i (Serving b (serve b)) (phase mc)) (world mc)
  | Serving b (Do c k) => let '(x, w) := os_call i _ c (world mc) in mkMachine (goes i (Serving b (k x)) (phase mc)) w
  | Leaving (Do c k) => let '(x, w) := os_call i _ c (world mc) in mkMachine (goes i (Leaving (k x)) (phase mc)) w
  | Other (Do c k) => let '(x, w) := os_call i _ c (world mc) in mkMachine (goes i (Other (k x)) (phase mc)) w
  | _ => mc
  end.

Lemma turn_step i mc : rtc (step s serve) mc (turn i mc).
Proof.
  destruct mc as [f w]. unfold turn. cbn [phase world].
  destruct (f i) as [|m|b m|m|m] eqn:Hf; [exact (rtc_refl _ _)|destruct m as [x|e| |X c k]..]; try exact (rtc_refl _ _).
  - exact (rtc_once _ _ (step_bound s serve i f w x Hf)).
  - destruct (os_call i X c w) as [x w'] eqn:Hc. exact (rtc_once _ _ (step_starting s serve i f w X c k x w' Hf Hc)).
  - destruct (os_call i X c w) as [x w'] eqn:Hc. exact (rtc_once _ _ (step_serving s serve i f w b X c k x w' Hf Hc)).
  - destruct (os_call i X c w) as [x w'] eqn:Hc. exact (rtc_once _ _ (step_leaving s serve i f w X c k x w' Hf Hc)).
  - destruct (os_call i X c w) as [x w'] eqn:Hc. exact (rtc_once _ _ (step_running s serve i f w X c k x w' Hf Hc)).
Qed.

Definition turns (sched : list Z) (mc : Machine) : Machine := foldl (fun mc i => turn i mc) mc sched.

Lemma turns_steps sched mc : rtc (step s serve) mc (turns sched mc).
Proof. revert mc. induction sched as [|i sched IH]; intros mc; [apply rtc_refl|]. etrans; [apply turn_step|apply IH]. Qed.
End Runs.

Definition demo_attach : Path := lit "run/attach.sock".
Definition demo_socket : Path := worker_socket_path demo_attach.
Definition demo_env : Env := fun _ => None.
Definition demo_serve (_ : Bound) : Prog () := Ret tt.
Definition demo_bind : Prog Bound := bind_daemon demo_env demo_socket (lit "/bin/sh") [] winsize_default.
Definition empty_host : Host := mkHost ∅ [] ∅ 3 0.

(** Two daemons for one socket and a proxy in front of it start together. *)
Definition demo_machine : Machine (W := Host) :=
  mkMachine (goes 3 (Other (_ ← control_start demo_env 251 demo_attach; Ret tt))
            (goes 2 (Starting demo_bind) (goes 1 (Starting demo_bind) (fun _ => Absent)))) empty_host.
Definition demo_schedule : list Z := concat (replicate 40 [1; 2; 3]).

Definition serving (mc : Machine (W := Host)) (i : Z) : option Bound :=
  match phase mc i with Serving b (Ret tt) => Some b | _ => None end.

Lemma beside_demo p : p ∈ socket_paths demo_attach -> ~ os_at p ∈ (os_at <$> socket_paths demo_socket : list Path).
Proof.
  assert (H : forallb (fun p => negb (existsb (fun q => bool_decide (p = q)) (socket_paths demo_socket))) (socket_paths demo_attach) = true)
    by (vm_compute; reflexivity).
  rewrite forallb_forall in H. intros Hp Hq. rewrite list_fmap_id in Hq. specialize (H p (proj1 (list_elem_of_In _ _) Hp)).
  apply negb_true_iff, not_true_iff_false in H. apply H, existsb_exists. exists p. split; [by apply list_elem_of_In|].
  by apply bool_decide_eq_true.
Qed.

Lemma demo_reachable : reachable demo_socket demo_serve (turns demo_serve demo_schedule demo_machine).
Proof.
  exists (mkMachine (fun _ => Absent) empty_host). split; [split; [done|]; intros e; apply not_elem_of_nil|].
  etrans; [|apply turns_steps]. eapply rtc_l; [by apply (step_launch _ _ 1)|].
  eapply rtc_l; [by apply (step_launch _ _ 2)|]. apply rtc_once. apply (step_other _ _ 3); [done|].
  apply avoids_bind; [|done]. apply control_start_clear, beside_demo.
Qed.

(** C10. A daemon keeps its sockets.  Whatever processes start, stop and die, in
    whatever order their calls fall (any number of daemons for one socket, and
    programs that leave its four paths and its lock alone, such as the proxy in
    front of it), while one daemon serves, all four paths lead to its own
    listeners, the lock is its own, and no other daemon serves. *)
Theorem live_daemon_keeps_socket {W} `{!LaunchOs W, !LaunchLaws W} (s : Path) (serve : Bound -> Prog ()) mc i b m :
  NoDup (os_at <$> socket_paths s) ->
  (forall b, avoids (os_at (lock_path s)) (os_at <$> socket_paths s) (Some (b_lock b)) (serve b)) ->
  reachable s serve mc -> phase mc i = Serving b m ->
  keeps_sockets s (world mc) i b /\
  (os_at (lock_path s), (i, b_lock b)) ∈ os_locks (world mc) /\
  forall j b' m', phase mc j = Serving b' m' -> j = i.
Proof.
  intros Hapart Hquiet Hr Hi. destruct (serving_keeps s serve Hapart Hquiet mc i b m Hr Hi) as [Hk Hl].
  split; [done|]. split; [done|]. intros j b' m' Hj. by eapply (serving_alone s serve Hapart Hquiet mc j i).
Qed.

Lemma live_daemon_keeps_socket_witness :
  let mc := turns demo_serve demo_schedule demo_machine in
  serving mc 1 = Some (mkBound demo_socket 3 5 7 9 11 2001 false) /\ serving mc 2 = None /\
  keeps_sockets demo_socket (world mc) 1 (mkBound demo_socket 3 5 7 9 11 2001 false).
Proof.
  split; [vm_compute; reflexivity|]. split; [vm_compute; reflexivity|].
  refine (proj1 (live_daemon_keeps_socket demo_socket demo_serve (turns demo_serve demo_schedule demo_machine) 1 _ (Ret tt) _ _ _ _)).
  - rewrite list_fmap_id. apply companions_differ.
  - done.
  - apply demo_reachable.
  - vm_compute. reflexivity.
Defined.

(** What becomes of the two: one serves; the other finds the lock taken.  When
    the first is killed, a third finds its socket stale and takes over. *)
Example second_daemon_gives_up :
  match phase (turns demo_serve demo_schedule demo_machine) 2 with Starting (Throw AlreadyRunning) => true | _ => false end = true.
Proof. vm_compute. reflexivity. Qed.

Example third_daemon_takes_over :
  let mc := turns demo_serve demo_schedule demo_machine in
  let after := mkMachine (goes 4 (Starting demo_bind) (goes 1 Absent (phase mc))) (os_exit 1 (world mc)) in
  b_socket <$> serving (turns demo_serve (replicate 40 4) after) 4 = Some demo_socket.
Proof. vm_compute. reflexivity. Qed.

(** ** Two proxies *)

(** The calls of two programs, in the order of [sched] ([false] is the first). *)
Fixpoint duel {W A} `{!LaunchOs W} (sched : list bool) (m1 m2 : Prog A) (w : W) : Prog A * Prog A * W :=
  match sched with
  | [] => (m1, m2, w)
  | false :: sched =>
      match m1 with
      | Do c k => let '(x, w) := os_call 1 _ c w in duel sched (k x) m2 w
      | _ => duel sched m1 m2 w
      end
  | true :: sched =>
      match m2 with
      | Do c k => let '(x, w) := os_call 2 _ c w in duel sched m1 (k x) w
      | _ => duel sched m1 m2 w
      end
  end.

(** The worker (process 8) is up; the socket of an earlier proxy (9) is stale. *)
Definition stale_host : Host :=
  mkHost (<[demo_attach := (9, 3)]> {[demo_socket := (8, 3)]}) [] {[(8, 3)]} 10 0.

Definition race_schedule : list bool :=
  replicate 11 false ++ replicate 11 true ++ replicate 40 false ++ replicate 40 true.

(** The proxy takes no lock, so two of them that start over a stale socket
    can both succeed, as on this schedule, the second having unlinked the live socket of the first:
    both hold four listeners, and no path leads to any of the first's. *)
Example proxies_race : exists c1 c2 w,
  let start := control_start demo_env 251 demo_attach in
  duel race_schedule start start stale_host = (Ret c1, Ret c2, w) /\
  os_bound w demo_attach = Some (2, c_listener c2) /\
  forallb (fun '(_, (i, _)) => negb (i =? 1)) (map_to_list (h_sockets w)) = true.
Proof.
  exists (mkSockets 10 11 12 13), (mkSockets 14 15 16 17). eexists. cbv zeta.
  split; [vm_compute; reflexivity|]. split; vm_compute; reflexivity.
Qed.

(** One after the other, the second is told. *)
Example proxies_in_turn :
  let start := control_start demo_env 251 demo_attach in
  match duel (replicate 60 false ++ replicate 60 true) start start stale_host with
  | (Ret _, Throw AlreadyRunning, _) => true
  | _ => false
  end = true.
Proof. vm_compute. reflexivity. Qed.

(** ** The wait *)

(** [n] calls of one program on the system above. *)
Fixpoint ran {A} (n : nat) (m : Prog A) (h : Host) : option (Prog A * Host) :=
  match n, m with
  | O, _ => Some (m, h)
  | S n, Do c k => let '(x, h) := host_call 1 _ c h in ran n (k x) h
  | S _, _ => None
  end.

Lemma host_clocked i X (c : Sys X) h x h' : host_call i X c h = (x, h') -> clocked c x (h_now h) (h_now h').
Proof. destruct c; cbn; repeat case_match; intros [= <- <-]; cbn; lia. Qed.

Lemma ran_steps {A} n (m : Prog A) h m' h' : ran n m h = Some (m', h') -> nsteps answered n (m, h_now h) (m', h_now h').
Proof.
  revert m h. induction n as [|n IH]; intros m h; cbn.
  - intros [= <- <-]. apply nsteps_O.
  - destruct m as [x|e| |X c k]; try done. destruct (host_call 1 X c h) as [x h1] eqn:Hc. intros Hr.
    eapply nsteps_l; [|by apply IH]. constructor. by eapply host_clocked.
Qed.

(** Nobody answers for the worker: 250 naps, then the error. *)
Definition gave_up : Prog ControlSockets := Throw WorkerMissing.

Lemma gave_up_ran : exists h, ran 765 (control_start demo_env 251 demo_attach) empty_host = Some (gave_up, h).
Proof. eexists. vm_compute. reflexivity. Qed.

(** C14. The start of the proxy ends: however its calls are answered, so long as
    the clock does not go back and a nap lasts, it returns or fails within 796
    calls, the wait for the worker included. *)
Theorem control_start_bounded env attach t k m t' :
  nsteps answered k (control_start env 251 attach, t) (m, t') -> (k <= 796)%nat /\ m <> Hang.
Proof. intros Hs. exact (costs_sound _ 796 t k m t' (control_start_costs env attach) Hs). Qed.

Lemma control_start_bounded_witness : (765 <= 796)%nat /\ gave_up <> Hang.
Proof.
  destruct gave_up_ran as [h Hr].
  exact (control_start_bounded demo_env demo_attach 0 765 gave_up _ (ran_steps _ _ _ _ _ Hr)).
Defined.
