(* ===== verification/Task.v ===== *)
(** The agent's task object, crates/rill-orchestrate/src/task.rs: its sections,
    approvals and questions, the prompt queue, the replay adapter, and the
    document both are saved as.

    Texts are lists of characters.  The TOML printer and parser are parameters;
    the order in which a [HashMap] is iterated is any order of its entries.
    [RILL_MUTATE] is unset. *)
From stdpp Require Import list.
From S2P Require Import Prelude Effect Text.

Local Open Scope Z_scope.

Inductive SectionKind : Type :=
| Prompt | Plan | Tool | Command | Output | Approval | Diff | Result | Question.

#[export] Instance section_kind_eq : EqDecision SectionKind.
Proof. solve_decision. Defined.

(** [SectionKind::from_tag] *)
Definition from_tag (tag : list Z) : SectionKind :=
  if decide (tag = lit "prompt") then Prompt
  else if decide (tag = lit "plan") then Plan
  else if decide (tag = lit "tool") then Tool
  else if decide (tag = lit "command") then Command
  else if decide (tag = lit "output") then Output
  else if decide (tag = lit "approval") then Approval
  else if decide (tag = lit "diff") then Diff
  else if decide (tag = lit "result") then Result
  else if decide (tag = lit "question") then Question
  else Output.

(** [SectionKind::as_str] *)
Definition kind_str (k : SectionKind) : list Z :=
  match k with
  | Prompt => lit "prompt" | Plan => lit "plan" | Tool => lit "tool" | Command => lit "command"
  | Output => lit "output" | Approval => lit "approval" | Diff => lit "diff" | Result => lit "result"
  | Question => lit "question"
  end.

Record Section_ := mkSection {
  sec_index : Z;
  sec_kind : SectionKind;
  sec_content : list Z;
  sec_closed : bool;
}.

#[export] Instance section_eta : Eta Section_ := fun s =>
  mkSection (sec_index s) (sec_kind s) (sec_content s) (sec_closed s).

Inductive TaskError : Type :=
| UnknownSection | SectionClosed | StillBlocked | NotAnApproval | NotAQuestion.

Inductive ApprovalDecision : Type := Approved | Rejected | Cancelled.

Record Decision_ := mkDecision {
  dec_decision : ApprovalDecision;
  dec_actor : list Z;
  dec_at_unix_ms : Z;
}.

Record Task := mkTask {
  task_id : Z;
  next_index : Z;
  sections : list Section_;
  decisions : gmap Z Decision_;
}.

#[export] Instance task_eta : Eta Task := fun t =>
  mkTask (task_id t) (next_index t) (sections t) (decisions t).

Abbreviation T := (ST TaskError Task).

(** ** The task *)

Definition task_new (id : Z) : Task := mkTask id 0 [] ∅.

(** [self.next_index += 1] panics past the end of u64. *)
Definition append (kind : SectionKind) (content : list Z) : T Z := fun t =>
  next ← chk_add u64_max (next_index t) 1;
  Some (Ok (next_index t),
        t <| next_index := next |> <| sections := sections t ++ [mkSection (next_index t) kind content false] |>).

(** [self.sections.iter().find(|s| s.index == index)] *)
Definition at_index (index : Z) (s : Section_) : bool := sec_index s =? index.
Definition find_section (index : Z) (t : Task) : option Section_ := List.find (at_index index) (sections t).

(** Assigning through [iter_mut().find(..)]: the first match only. *)
Fixpoint modify_first {A} (p : A -> bool) (f : A -> A) (l : list A) : list A :=
  match l with
  | [] => []
  | x :: l => if p x then f x :: l else x :: modify_first p f l
  end.
Definition set_section (index : Z) (f : Section_ -> Section_) (t : Task) : Task :=
  t <| sections := modify_first (at_index index) f (sections t) |>.

Definition close (index : Z) : T () := fun t =>
  match find_section index t with
  | None => Some (Err UnknownSection, t)
  | Some _ => Some (Ok (), set_section index (fun s => s <| sec_closed := true |>) t)
  end.

Definition mutate_content (index : Z) (new_content : list Z) : T () := fun t =>
  match find_section index t with
  | None => Some (Err UnknownSection, t)
  | Some s =>
      if sec_closed s then Some (Err SectionClosed, t)
      else Some (Ok (), set_section index (fun s => s <| sec_content := new_content |>) t)
  end.

(** [format!("[answers #{question_index}]")] *)
Definition marker (question_index : Z) : list Z := lit "[answers #" ++ to_string question_index ++ lit "]".

Definition starts_with (p s : list Z) : bool := bool_decide (strip_prefix p s <> None).

Definition has_answer (question_index : Z) (t : Task) : bool :=
  existsb (fun s => starts_with (marker question_index) (sec_content s)) (sections t).

Definition is_gate (s : Section_) : bool :=
  match sec_kind s with Approval | Question => true | _ => false end.

Definition latest_gate (t : Task) : option Section_ := List.find is_gate (reverse (sections t)).

Definition is_blocked (t : Task) : bool :=
  match latest_gate t with
  | Some s =>
      match sec_kind s with
      | Approval => negb (bool_decide (is_Some (decisions t !! sec_index s)))
      | Question => negb (has_answer (sec_index s) t)
      | _ => false
      end
  | None => false
  end.

Definition task_decide (index : Z) (decision : ApprovalDecision) (actor : list Z) (at_unix_ms : Z) : T () := fun t =>
  match find_section index t with
  | None => Some (Err UnknownSection, t)
  | Some s =>
      if decide (sec_kind s = Approval) then
        close index (t <| decisions := <[index := mkDecision decision actor at_unix_ms]> (decisions t) |>)
      else Some (Err NotAnApproval, t)
  end.

Definition decision_for (index : Z) (t : Task) : option Decision_ := decisions t !! index.

Definition answer (question_index : Z) (text : list Z) : T Z := fun t =>
  match find_section question_index t with
  | None => Some (Err UnknownSection, t)
  | Some s =>
      if decide (sec_kind s = Question) then
        (idx ← append Result (marker question_index ++ lit " " ++ text);
         _ ← close question_index;
         mret idx) t
      else Some (Err NotAQuestion, t)
  end.

(** [s.index + 1] panics past the end of u64. *)
Definition fork (new_id up_to_index : Z) (t : Task) : option Task :=
  let kept := List.filter (fun s => sec_index s <=? up_to_index) (sections t) in
  next ← (match last kept with Some s => chk_add u64_max (sec_index s) 1 | None => Some 0 end);
  Some (mkTask new_id next kept (filter (fun '(k, _) => k <= up_to_index) (decisions t))).

(** ** The prompt queue *)

Definition PromptQueue : Type := list (list Z).

Definition queue_push (prompt : list Z) (q : PromptQueue) : PromptQueue := q ++ [prompt].

Definition try_send (t : Task) (q : PromptQueue) : result TaskError (option (list Z)) * PromptQueue :=
  if is_blocked t then (Err StillBlocked, q)
  else match q with
       | [] => (Ok None, [])
       | p :: q => (Ok (Some p), q)
       end.

(** ** Replay *)

Record ReplayEvent := mkReplay { ev_tag : list Z; ev_content : list Z }.

(** The number of events driven, the adapter's queue being emptied. *)
Fixpoint drive (events : list ReplayEvent) (n : Z) : T Z :=
  match events with
  | [] => mret n
  | ev :: events => _ ← append (from_tag (ev_tag ev)) (ev_content ev); drive events (n + 1)
  end.

(** ** The saved document *)

Record SectionEntry := mkSectionEntry { se_index : Z; se_kind : list Z; se_content : list Z; se_closed : bool }.
Record DecisionEntry := mkDecisionEntry {
  de_section_index : Z; de_decision : list Z; de_actor : list Z; de_at_unix_ms : Z }.
Record SnapshotDoc := mkDoc {
  doc_id : Z;
  doc_next_index : Z;
  doc_section : list SectionEntry;
  doc_decision : list DecisionEntry;
  doc_queue : list (list Z);
}.

Definition decision_to_str (d : ApprovalDecision) : list Z :=
  match d with Approved => lit "approved" | Rejected => lit "rejected" | Cancelled => lit "cancelled" end.

Definition decision_from_str (s : list Z) : ApprovalDecision :=
  if decide (s = lit "approved") then Approved else if decide (s = lit "rejected") then Rejected else Cancelled.

Section Persist.
(** [toml::to_string_pretty] and [toml::from_str] on a [SnapshotDoc], failing
    where they fail; the order a [HashMap] is iterated in. *)
Context (toml_print : SnapshotDoc -> option (list Z)) (toml_parse : list Z -> option SnapshotDoc).
Context (hash_order : gmap Z Decision_ -> list (Z * Decision_)).

Definition section_entry (s : Section_) : SectionEntry :=
  mkSectionEntry (sec_index s) (kind_str (sec_kind s)) (sec_content s) (sec_closed s).
Definition decision_entry (p : Z * Decision_) : DecisionEntry :=
  mkDecisionEntry (fst p) (decision_to_str (dec_decision (snd p))) (dec_actor (snd p)) (dec_at_unix_ms (snd p)).

Definition snapshot_doc (t : Task) (q : PromptQueue) : SnapshotDoc :=
  mkDoc (task_id t) (next_index t) (map section_entry (sections t))
    (map decision_entry (hash_order (decisions t))) q.

Definition persist_task_and_queue (t : Task) (q : PromptQueue) : list Z :=
  default [] (toml_print (snapshot_doc t q)).

Definition entry_section (e : SectionEntry) : Section_ :=
  mkSection (se_index e) (from_tag (se_kind e)) (se_content e) (se_closed e).
Definition entry_decision (e : DecisionEntry) : Z * Decision_ :=
  (de_section_index e, mkDecision (decision_from_str (de_decision e)) (de_actor e) (de_at_unix_ms e)).

(** [collect] into a [HashMap]: a later entry replaces an earlier one. *)
Definition collect (l : list (Z * Decision_)) : gmap Z Decision_ :=
  fold_left (fun m p => <[fst p := snd p]> m) l ∅.

Definition restore_task_and_queue (id : Z) (text : list Z) : Task * PromptQueue :=
  let doc := default (mkDoc id 0 [] [] []) (toml_parse text) in
  (mkTask (doc_id doc) (doc_next_index doc) (map entry_section (doc_section doc))
     (collect (map entry_decision (doc_decision doc))),
   fold_left (fun q p => queue_push p q) (doc_queue doc) []).
End Persist.
