(* ===== verification/TaskFacts.v ===== *)
(** The task object keeps its promises: sections are append-only and numbered,
    closed ones never change, a fork is a prefix, a saved task comes back, and
    what ends a block. *)
From stdpp Require Import list.
From S2P Require Import Prelude Effect Text Task.

Local Open Scope Z_scope.

(** ** Texts *)

Lemma kind_round_trip k : from_tag (kind_str k) = k.
Proof. by destruct k. Qed.

Lemma decision_round_trip d : decision_from_str (decision_to_str d) = d.
Proof. by destruct d. Qed.

(** ** The operations on numbered sections *)

Lemma find_app {A} (p : A -> bool) l k :
  List.find p (l ++ k) = match List.find p l with Some x => Some x | None => List.find p k end.
Proof. induction l as [|x l IH]; [done|]. cbn. by destruct (p x). Qed.

Definition numbered (n : Z) (ss : list Section_) : Prop :=
  forall i s, ss !! i = Some s -> sec_index s = n + Z.of_nat i.

Lemma numbered_cons n s ss : numbered n (s :: ss) <-> sec_index s = n /\ numbered (n + 1) ss.
Proof.
  split.
  - intros H. split; [rewrite (H 0%nat s eq_refl); lia|]. intros i x Hx. rewrite (H (S i) x Hx). lia.
  - intros [H1 H2] [|i] x; cbn; [intros [= <-]; lia|]. intros Hx. rewrite (H2 i x Hx). lia.
Qed.

Lemma find_numbered n i ss : numbered n ss -> n <= i -> List.find (at_index i) ss = ss !! Z.to_nat (i - n).
Proof.
  revert n. induction ss as [|s ss IH]; intros n Hn Hi; [done|]. apply numbered_cons in Hn as [H1 H2].
  cbn [List.find]. unfold at_index at 1. destruct (Z.eqb_spec (sec_index s) i) as [E|E].
  - replace (i - n) with 0 by lia. done.
  - rewrite (IH (n + 1)) by (done || lia). replace (Z.to_nat (i - n)) with (S (Z.to_nat (i - (n + 1)))) by lia. done.
Qed.

Lemma find_below n i ss : numbered n ss -> i < n -> List.find (at_index i) ss = None.
Proof.
  revert n. induction ss as [|s ss IH]; intros n Hn Hi; [done|]. apply numbered_cons in Hn as [H1 H2].
  cbn [List.find]. unfold at_index at 1. rewrite (proj2 (Z.eqb_neq _ _)) by lia. apply (IH (n + 1)); [done|lia].
Qed.

Lemma modify_numbered n i f ss : numbered n ss -> n <= i ->
  modify_first (at_index i) f ss = alter f (Z.to_nat (i - n)) ss.
Proof.
  revert n. induction ss as [|s ss IH]; intros n Hn Hi; [done|]. apply numbered_cons in Hn as [H1 H2].
  cbn [modify_first]. unfold at_index at 1. destruct (Z.eqb_spec (sec_index s) i) as [E|E].
  - replace (i - n) with 0 by lia. done.
  - rewrite (IH (n + 1)) by (done || lia). replace (Z.to_nat (i - n)) with (S (Z.to_nat (i - (n + 1)))) by lia. done.
Qed.

(** ** The invariant *)

Record task_ok (t : Task) : Prop := {
  to_numbered : numbered 0 (sections t);
  to_next : next_index t = len (sections t);
  to_decided : forall i d, decisions t !! i = Some d -> exists s,
    find_section i t = Some s /\ sec_kind s = Approval /\ sec_closed s = true;
  to_closed : forall i s, find_section i t = Some s -> sec_closed s = true ->
    (sec_kind s = Approval /\ is_Some (decisions t !! i)) \/ sec_kind s = Question;
}.

Lemma find_section_eq i t : numbered 0 (sections t) ->
  find_section i t = if i <? 0 then None else sections t !! Z.to_nat i.
Proof.
  intros H. unfold find_section. destruct (Z.ltb_spec i 0); [by apply (find_below 0)|].
  rewrite (find_numbered 0) by done. by rewrite Z.sub_0_r.
Qed.

Lemma find_section_index i t s : find_section i t = Some s -> sec_index s = i.
Proof. unfold find_section. intros H%List.find_some. apply Z.eqb_eq, H. Qed.

Lemma find_section_bound i t s : task_ok t -> find_section i t = Some s -> 0 <= i < next_index t.
Proof.
  intros Ht. rewrite find_section_eq by apply Ht. destruct (Z.ltb_spec i 0); [done|]. intros Hs%lookup_lt_Some.
  rewrite (to_next _ Ht). unfold len. lia.
Qed.

(** A section may be closed or, while open, rewritten; its index and kind stay. *)
Definition section_grows (s s' : Section_) : Prop :=
  sec_index s' = sec_index s /\ sec_kind s' = sec_kind s /\
  (sec_closed s = true -> s' = s).

(** Append-only. *)
Definition grows (t t' : Task) : Prop :=
  task_id t' = task_id t /\
  forall i s, sections t !! i = Some s -> exists s', sections t' !! i = Some s' /\ section_grows s s'.

#[export] Instance grows_preorder : PreOrder grows.
Proof.
  split.
  - intros t. split; [done|]. intros i s H. by exists s.
  - intros t1 t2 t3 [I1 H1] [I2 H2]. split; [congruence|]. intros i s (s1 & E1 & K1 & K2 & K3)%H1.
    destruct (H2 i s1 E1) as (s2 & E2 & L1 & L2 & L3). exists s2. split; [done|]. split_and!; [congruence..|].
    intros Hc. rewrite L3; [by apply K3|]. by rewrite K3.
Qed.

(** Appending. *)
Definition appended (kind : SectionKind) (content : list Z) (t : Task) : Task :=
  t <| next_index := next_index t + 1 |>
    <| sections := sections t ++ [mkSection (next_index t) kind content false] |>.

Lemma append_eq kind content t : 0 <= next_index t < u64_max -> append kind content t = Some (Ok (next_index t), appended kind content t).
Proof. intros H. unfold append, chk_add. rewrite (proj2 (Z.leb_le _ _)) by lia. done. Qed.

Lemma append_inv kind content t r t' : append kind content t = Some (r, t') -> r = Ok (next_index t) /\ t' = appended kind content t.
Proof. unfold append, chk_add. case_if; [|done]. by intros [= <- <-]. Qed.

Lemma find_appended i kind content t : task_ok t -> find_section i (appended kind content t) =
  if i =? next_index t then Some (mkSection (next_index t) kind content false) else find_section i t.
Proof.
  intros Ht. unfold find_section. cbn. destruct (List.find (at_index i) (sections t)) as [s|] eqn:E.
  - rewrite find_app, E. pose proof (find_section_bound i t s Ht E). by rewrite (proj2 (Z.eqb_neq _ _)) by lia.
  - rewrite find_app, E. cbn. unfold at_index. cbn. rewrite (Z.eqb_sym (next_index t)). done.
Qed.

Lemma appended_ok kind content t : task_ok t -> task_ok (appended kind content t) /\ grows t (appended kind content t).
Proof.
  intros Ht. pose proof (to_next t Ht) as Hn. split; [split|].
  - intros i s. cbn. intros [H|[H1 H2]]%lookup_app_Some; [by apply Ht|].
    destruct (i - length (sections t))%nat eqn:E; [|done]. injection H2 as <-. cbn. rewrite Hn. unfold len. lia.
  - cbn. rewrite Hn, len_app. done.
  - intros i d (s & H1 & H2 & H3)%(to_decided t Ht). exists s. rewrite find_appended by done.
    pose proof (find_section_bound i t s Ht H1). by rewrite (proj2 (Z.eqb_neq _ _)) by lia.
  - intros i s. rewrite find_appended by done. case_if; [by intros [= <-]|]. by apply Ht.
  - split; [done|]. intros i s H. exists s. split; [by apply lookup_app_l_Some|done].
Qed.

(** Changing one section. *)
Lemma find_set i j f t : task_ok t -> (forall s, sec_index (f s) = sec_index s) ->
  find_section j (set_section i f t) = if i =? j then f <$> find_section j t else find_section j t.
Proof.
  intros Ht Hf. assert (Hidx : forall s, at_index j (f s) = at_index j s) by (intros s; unfold at_index; by rewrite Hf).
  unfold find_section. cbn. clear Ht. induction (sections t) as [|s ss IH]; [by case_if|]. cbn [modify_first].
  change (at_index i s) with (sec_index s =? i). destruct (Z.eqb_spec (sec_index s) i) as [E|E]; cbn [List.find].
  - rewrite Hidx. change (at_index j s) with (sec_index s =? j). rewrite E. destruct (Z.eqb_spec i j); done.
  - rewrite IH. change (at_index j s) with (sec_index s =? j). destruct (Z.eqb_spec (sec_index s) j); [|done].
    by rewrite (proj2 (Z.eqb_neq _ _)) by congruence.
Qed.

Lemma set_section_eq i f t s : task_ok t -> find_section i t = Some s ->
  sections (set_section i f t) = <[Z.to_nat i := f s]> (sections t) /\ sections t !! Z.to_nat i = Some s.
Proof.
  intros Ht Hs. pose proof (find_section_bound i t s Ht Hs). pose proof (to_numbered t Ht) as Hn.
  rewrite find_section_eq in Hs by done. rewrite (proj2 (Z.ltb_ge _ _)) in Hs by lia. split; [|done].
  cbn. rewrite (modify_numbered 0) by (done || lia). rewrite Z.sub_0_r. apply list_eq. intros j.
  destruct (decide (Z.to_nat i = j)) as [<-|Hne].
  - rewrite list_lookup_alter_eq, Hs, list_lookup_insert_eq by (by eapply lookup_lt_Some). done.
  - by rewrite list_lookup_alter_ne, list_lookup_insert_ne.
Qed.

(** Rewriting or closing section [i], with the decisions that go with it. *)
Lemma set_section_ok i f ds t s :
  task_ok t -> find_section i t = Some s -> section_grows s (f s) -> (forall s, sec_index (f s) = sec_index s) ->
  ds = decisions t \/ (exists d, ds = <[i := d]> (decisions t) /\ sec_kind s = Approval /\ sec_closed (f s) = true) ->
  (sec_closed (f s) = true -> (sec_kind s = Approval /\ is_Some (ds !! i)) \/ sec_kind s = Question) ->
  task_ok (set_section i f t <| decisions := ds |>) /\ grows t (set_section i f t <| decisions := ds |>).
Proof.
  intros Ht Hs Hg Hidx Hds Hcl. destruct (set_section_eq i f t s Ht Hs) as [E Hat]. pose proof Hg as (G1 & G2 & G3).
  assert (Hfind : forall j, find_section j (set_section i f t <| decisions := ds |>) =
    if i =? j then f <$> find_section j t else find_section j t) by (intros j; by apply find_set).
  split; [split|].
  - change (numbered 0 (sections (set_section i f t))). rewrite E. intros j x.
    destruct (decide (Z.to_nat i = j)) as [<-|Hne].
    + rewrite list_lookup_insert_eq by (by eapply lookup_lt_Some). intros [= <-]. rewrite G1. by apply (to_numbered t Ht).
    + rewrite list_lookup_insert_ne by done. apply Ht.
  - change (next_index t = len (sections (set_section i f t))). rewrite E. unfold len. rewrite length_insert. apply Ht.
  - intros j d Hd. rewrite Hfind. change (ds !! j = Some d) in Hd. destruct (Z.eqb_spec i j) as [<-|Hne].
    + rewrite Hs. exists (f s). split; [done|]. destruct Hds as [->|(d' & -> & Hk & Hc)]; [|by rewrite G2].
      destruct (to_decided t Ht i d Hd) as (s' & Hs' & Hk & Hc). rewrite Hs in Hs'. injection Hs' as <-. by rewrite (G3 Hc).
    + apply (to_decided t Ht j d). destruct Hds as [->|(d' & -> & _)]; [done|]. by rewrite lookup_insert_ne in Hd by done.
  - intros j x. rewrite Hfind. change (decisions (set_section i f t <| decisions := ds |>)) with ds.
    destruct (Z.eqb_spec i j) as [<-|Hne].
    + rewrite Hs. intros [= <-] Hc. rewrite G2. by apply Hcl.
    + intros Hx Hc. destruct (to_closed t Ht j x Hx Hc) as [[Hk Hd]|Hk]; [left|by right]. split; [done|].
      destruct Hds as [->|(d' & -> & _)]; [done|]. by rewrite lookup_insert_ne by done.
  - split; [done|]. intros j x Hx. change (sections (set_section i f t <| decisions := ds |>)) with (sections (set_section i f t)).
    rewrite E. destruct (decide (Z.to_nat i = j)) as [<-|Hne].
    + rewrite list_lookup_insert_eq by (by eapply lookup_lt_Some). exists (f s). split; [done|]. congruence.
    + rewrite list_lookup_insert_ne by done. by exists x.
Qed.

(** ** The operations *)

Inductive TaskOp : Type :=
| OAppend (kind : SectionKind) (content : list Z)
| OMutate (index : Z) (content : list Z)
| ODecide (index : Z) (decision : ApprovalDecision) (actor : list Z) (at_unix_ms : Z)
| OAnswer (index : Z) (text : list Z).

Definition task_op (o : TaskOp) : T () :=
  match o with
  | OAppend k c => _ ← append k c; mret ()
  | OMutate i c => mutate_content i c
  | ODecide i d a m => task_decide i d a m
  | OAnswer i x => _ ← answer i x; mret ()
  end.

Lemma same_decisions t : t <| decisions := decisions t |> = t.
Proof. by destruct t. Qed.

Lemma close_question_ok i t s : task_ok t -> find_section i t = Some s -> sec_kind s = Question ->
  let t' := set_section i (fun s => s <| sec_closed := true |>) t in task_ok t' /\ grows t t'.
Proof.
  intros Ht Hs Hk. cbv zeta. rewrite <- (same_decisions (set_section _ _ _)).
  eapply set_section_ok; [done|exact Hs| |done|by left|by right]. split_and!; [done|done|]. intros Hc. destruct s. cbn in *. by subst.
Qed.

Lemma answer_eq i x t s : 0 <= next_index t < u64_max -> task_ok t -> find_section i t = Some s -> sec_kind s = Question ->
  answer i x t = Some (Ok (next_index t),
    set_section i (fun s => s <| sec_closed := true |>) (appended Result (marker i ++ lit " " ++ x) t)).
Proof.
  intros Hn Ht Hs Hk. unfold answer. rewrite Hs, decide_True by done. unfold mbind at 1, se_bind at 1.
  rewrite append_eq by done. unfold mbind, se_bind, close. rewrite find_appended by done.
  pose proof (find_section_bound i t s Ht Hs). rewrite (proj2 (Z.eqb_neq _ _)) by lia. by rewrite Hs.
Qed.

Lemma task_op_ok o t : task_ok t -> next_index t < u64_max -> safe (task_op o t) (fun '(_, t') => task_ok t' /\ grows t t').
Proof.
  intros Ht Hn. assert (Hn0 : 0 <= next_index t) by (rewrite (to_next t Ht); apply len_nonneg).
  destruct o as [k c|i c|i d a m|i x]; cbn [task_op].
  - unfold mbind, se_bind. rewrite append_eq by done. apply safe_ret. by apply appended_ok.
  - unfold mutate_content. destruct (find_section i t) as [s|] eqn:Hs; [|by apply safe_ret].
    destruct (sec_closed s) eqn:Hc; apply safe_ret; [done|]. rewrite <- (same_decisions (set_section _ _ _)).
    eapply set_section_ok; [done|exact Hs| |done|by left| ]; [split_and!; [done|done|congruence]|]. cbn. congruence.
  - unfold task_decide. destruct (find_section i t) as [s|] eqn:Hs; [|by apply safe_ret].
    case_decide as Hk; [|by apply safe_ret]. unfold close.
    change (find_section i (t <| decisions := _ |>)) with (find_section i t). rewrite Hs. apply safe_ret.
    apply (set_section_ok i (fun s => s <| sec_closed := true |>) (<[i := mkDecision d a m]> (decisions t)) t s); try done.
    + split_and!; [done|done|]. intros Hc. destruct s. cbn in *. by subst.
    + right. by eexists.
    + left. split; [done|]. rewrite lookup_insert_eq. by eexists.
  - destruct (find_section i t) as [s|] eqn:Hs.
    2: { unfold mbind, se_bind, answer. rewrite Hs. by apply safe_ret. }
    destruct (decide (sec_kind s = Question)) as [Hk|Hk].
    + unfold mbind, se_bind. rewrite (answer_eq i x t s) by done. apply safe_ret.
      destruct (appended_ok Result (marker i ++ lit " " ++ x) t Ht) as [Ha Hg].
      destruct (close_question_ok i (appended Result (marker i ++ lit " " ++ x) t) s) as [Hc1 Hc2]; [done| |done|].
      * rewrite find_appended by done. pose proof (find_section_bound i t s Ht Hs). by rewrite (proj2 (Z.eqb_neq _ _)) by lia.
      * split; [exact Hc1|]. by etransitivity.
    + unfold mbind, se_bind, answer. rewrite Hs, decide_False by done. by apply safe_ret.
Qed.

(** ** Blocking *)

Definition same_gate (s s' : Section_) : Prop := sec_index s' = sec_index s /\ sec_kind s' = sec_kind s.

Lemma find_gate_same ss ss' : Forall2 same_gate ss ss' -> option_Forall2 same_gate (List.find is_gate ss) (List.find is_gate ss').
Proof.
  induction 1 as [|s s' ss ss' Hs _ IH]; [constructor|]. cbn [List.find].
  assert (is_gate s' = is_gate s) as -> by (unfold is_gate; by rewrite (proj2 Hs)). destruct (is_gate s); [by constructor|exact IH].
Qed.

Lemma latest_gate_same t t' : Forall2 same_gate (sections t) (sections t') ->
  option_Forall2 same_gate (latest_gate t) (latest_gate t').
Proof. intros H. by apply find_gate_same, Forall2_reverse. Qed.

Lemma set_section_same i f t : (forall s, same_gate s (f s)) -> Forall2 same_gate (sections t) (sections (set_section i f t)).
Proof.
  intros Hf. cbn. induction (sections t) as [|s ss IH]; [constructor|]. cbn [modify_first].
  case_if; constructor; try done. clear. induction ss; by constructor.
Qed.

Lemma latest_appended k c t : latest_gate (appended k c t) =
  if decide (k = Approval \/ k = Question) then Some (mkSection (next_index t) k c false) else latest_gate t.
Proof.
  unfold latest_gate. change (sections (appended k c t)) with (sections t ++ [mkSection (next_index t) k c false]).
  rewrite reverse_snoc. cbn [List.find].
  change (is_gate _) with (match k with Approval | Question => true | _ => false end). destruct k; case_decide; naive_solver.
Qed.

(** What an operation does to the gates and to the decisions. *)
Definition gate_step (o : TaskOp) (t t' : Task) : Prop :=
  (option_Forall2 same_gate (latest_gate t) (latest_gate t') \/
   exists k c, o = OAppend k c /\ latest_gate t' = Some (mkSection (next_index t) k c false)) /\
  (decisions t' = decisions t \/
   exists i d a m, o = ODecide i d a m /\ decisions t' = <[i := mkDecision d a m]> (decisions t)).

Lemma gate_refl t : option_Forall2 same_gate (latest_gate t) (latest_gate t).
Proof. destruct (latest_gate t); by constructor. Qed.

Lemma gate_step_refl o t : gate_step o t t.
Proof. split; left; [apply gate_refl|done]. Qed.

Lemma close_same i t : option_Forall2 same_gate (latest_gate t) (latest_gate (set_section i (fun s => s <| sec_closed := true |>) t)).
Proof. by apply latest_gate_same, set_section_same. Qed.

Lemma op_gate o t r t' : task_op o t = Some (r, t') -> gate_step o t t'.
Proof.
  destruct o as [k c|i c|i d a m|i x]; cbn [task_op].
  - intros [(z & t1 & H1%append_inv & H2)|(e & H1%append_inv & _)]%se_bind_inv; [|by destruct H1].
    destruct H1 as [_ ->]. injection H2 as _ <-. split; [|by left]. rewrite latest_appended. case_decide; [right; by exists k, c|left; apply gate_refl].
  - unfold mutate_content. destruct (find_section i t); [case_if|]; intros [= _ <-]; [by apply gate_step_refl| |by apply gate_step_refl]. split; [left|by left].
    by apply latest_gate_same, set_section_same.
  - unfold task_decide. destruct (find_section i t) as [s|] eqn:Hs; [case_decide|]; [|intros [= _ <-]; by apply gate_step_refl..].
    unfold close. change (find_section i (t <| decisions := _ |>)) with (find_section i t). rewrite Hs. intros [= _ <-]. split.
    + left. apply (latest_gate_same t). by apply (set_section_same i (fun s => s <| sec_closed := true |>) t).
    + right. by exists i, d, a, m.
  - intros H. assert (Hans : exists r1, answer i x t = Some (r1, t')).
    { apply se_bind_inv in H as [(a & t1 & H1 & H2)|(e & H1 & _)]; [injection H2 as _ <-|]; by eexists. }
    destruct Hans as [r1 Ha]. clear H. unfold answer in Ha.
    destruct (find_section i t) as [s|] eqn:Hs; [case_decide|]; [|injection Ha as _ <-; by apply gate_step_refl..].
    apply se_bind_inv in Ha as [(idx & t1 & H1%append_inv & H2)|(e & H1%append_inv & _)]; [|by destruct H1]. destruct H1 as [_ ->].
    assert (Hcl : exists r2, close i (appended Result (marker i ++ lit " " ++ x) t) = Some (r2, t')).
    { apply se_bind_inv in H2 as [([] & t2 & H3 & H4)|(e & H3 & _)]; [injection H4 as _ <-|]; by eexists. }
    destruct Hcl as [r2 Hcl]. unfold close in Hcl. set (t1 := appended _ _ t) in *.
    assert (Hg : latest_gate t1 = latest_gate t) by (subst t1; rewrite latest_appended; by rewrite decide_False by (by intros [?|?])).
    destruct (find_section i t1); injection Hcl as _ <-; (split; [|by left]); left; rewrite <- Hg; [apply close_same|apply gate_refl].
Qed.

Lemma undecided_next t : task_ok t -> decisions t !! next_index t = None.
Proof.
  intros Ht. destruct (decisions t !! next_index t) as [d|] eqn:E; [|done].
  apply (to_decided t Ht) in E as (s & Hs & _). apply (find_section_bound _ _ _ Ht) in Hs. lia.
Qed.

(** What ends a block: the decision of the approval in question, or a section
    that carries the answer's mark. *)
Definition resolved (o : TaskOp) (t' : Task) : Prop :=
  exists g, latest_gate t' = Some g /\
    match sec_kind g with
    | Approval => exists d a m, o = ODecide (sec_index g) d a m
    | _ => has_answer (sec_index g) t' = true
    end.

Lemma unblocked_by o t r t' : task_ok t -> is_blocked t = true -> task_op o t = Some (r, t') ->
  is_blocked t' = false -> resolved o t'.
Proof.
  intros Ht Hb Ho Hu. destruct (op_gate o t r t' Ho) as [Hg Hd].
  assert (Hfresh : forall j, decisions t !! j = None -> is_Some (decisions t' !! j) -> exists d a m, o = ODecide j d a m).
  { intros j Hj Hj'. destruct Hd as [E|(i & d & a & m & -> & E)]; rewrite E in Hj'; [by rewrite Hj in Hj'; destruct Hj'|].
    destruct (decide (i = j)) as [->|Hne]; [by eexists _, _, _|]. rewrite lookup_insert_ne in Hj' by done.
    rewrite Hj in Hj'. by destruct Hj'. }
  unfold is_blocked in Hu, Hb. destruct (latest_gate t') as [g'|] eqn:E'.
  - exists g'. split; [done|]. destruct (sec_kind g') eqn:K.
    all: try (apply List.find_some in E' as [_ E']; unfold is_gate in E'; by rewrite K in E').
    + apply negb_false_iff, bool_decide_eq_true in Hu. apply Hfresh; [|done].
      destruct Hg as [Hg|(k & c & -> & Hg)].
      * inversion Hg as [g ? [H1 H2] Eg|]; subst. rewrite <- Eg in Hb. rewrite K in H2. rewrite <- H2 in Hb.
        apply negb_true_iff, bool_decide_eq_false, eq_None_not_Some in Hb. by rewrite H1.
      * injection Hg as ->. by apply undecided_next.
    + by apply negb_false_iff in Hu.
  - destruct Hg as [Hg|(k & c & _ & Hg)]; [|done]. inversion Hg as [|Eg]. by rewrite <- Eg in Hb.
Qed.

(** ** Forking *)

Lemma filter_numbered n up ss : numbered n ss ->
  List.filter (fun s => sec_index s <=? up) ss = take (Z.to_nat (up + 1 - n)) ss.
Proof.
  revert n. induction ss as [|s ss IH]; intros n Hn; [by rewrite take_nil|]. apply numbered_cons in Hn as [H1 H2].
  cbn [List.filter]. destruct (Z.leb_spec (sec_index s) up).
  - replace (Z.to_nat (up + 1 - n)) with (S (Z.to_nat (up + 1 - (n + 1)))) by lia. cbn [take]. f_equal. by apply IH.
  - replace (Z.to_nat (up + 1 - n)) with 0%nat by lia. rewrite (IH (n + 1)) by done.
    by replace (Z.to_nat (up + 1 - (n + 1))) with 0%nat by lia.
Qed.

Lemma numbered_take n k ss : numbered n ss -> numbered n (take k ss).
Proof. intros H i s [Hs _]%lookup_take_Some. by apply H. Qed.

Lemma numbered_last ss s : numbered 0 ss -> last ss = Some s -> sec_index s + 1 = len ss.
Proof. intros Hn Hl. rewrite last_lookup in Hl. rewrite (Hn _ _ Hl). apply lookup_lt_Some in Hl. unfold len. lia. Qed.

Definition forked (id up : Z) (t : Task) : Task :=
  let kept := take (Z.to_nat (up + 1)) (sections t) in
  mkTask id (len kept) kept (filter (fun '(k, _) => k <= up) (decisions t)).

Lemma fork_eq id up t : task_ok t -> next_index t <= u64_max -> fork id up t = Some (forked id up t).
Proof.
  intros Ht Hn. unfold fork, forked. cbv zeta. pose proof (to_numbered t Ht) as Hnum.
  rewrite (filter_numbered 0) by done. rewrite Z.sub_0_r. set (kept := take _ _).
  assert (Hk : numbered 0 kept) by (by apply numbered_take).
  destruct (last kept) as [s|] eqn:El.
  - pose proof (numbered_last kept s Hk El) as Hs. unfold chk_add.
    assert (len kept <= next_index t) by (rewrite (to_next t Ht); subst kept; rewrite len_take; lia).
    rewrite (proj2 (Z.leb_le _ _)) by lia. cbn [mbind option_bind]. by rewrite Hs.
  - apply last_None in El. cbn [mbind option_bind]. by rewrite El.
Qed.

Lemma find_take k i ss : numbered 0 ss ->
  List.find (at_index i) (take k ss) = if i <? Z.of_nat k then List.find (at_index i) ss else None.
Proof.
  intros Hn. destruct (Z.ltb_spec i 0) as [Hi|Hi].
  - rewrite !(find_below 0) by (done || by apply numbered_take). by case_if.
  - rewrite !(find_numbered 0) by (done || by apply numbered_take). rewrite Z.sub_0_r. destruct (Z.ltb_spec i (Z.of_nat k)).
    + apply lookup_take_lt. lia.
    + apply lookup_take_ge. lia.
Qed.

Lemma forked_find id up t i : task_ok t -> 0 <= up ->
  find_section i (forked id up t) = if i <=? up then find_section i t else None.
Proof.
  intros Ht Hup. unfold find_section, forked. cbn [sections]. rewrite find_take by apply Ht.
  destruct (Z.leb_spec i up); [rewrite (proj2 (Z.ltb_lt _ _)) by lia|rewrite (proj2 (Z.ltb_ge _ _)) by lia]; done.
Qed.

Lemma forked_decision id up t i : decisions (forked id up t) !! i = if i <=? up then decisions t !! i else None.
Proof.
  unfold forked. cbn [decisions]. destruct (Z.leb_spec i up).
  - destruct (decisions t !! i) as [d|] eqn:E; [by apply map_lookup_filter_Some|]. apply map_lookup_filter_None. by left.
  - apply map_lookup_filter_None. right. intros d _. lia.
Qed.

Lemma forked_ok id up t : task_ok t -> 0 <= up -> task_ok (forked id up t).
Proof.
  intros Ht Hup. split.
  - apply numbered_take, Ht.
  - done.
  - intros i d. rewrite forked_decision, forked_find by done. case_if; [|done]. apply Ht.
  - intros i s. rewrite forked_decision, forked_find by done. case_if; [|done]. apply Ht.
Qed.

(** ** Reachable tasks *)

Inductive treach : Task -> Prop :=
| tr_new id : treach (task_new id)
| tr_op o t r t' : treach t -> next_index t < u64_max -> task_op o t = Some (r, t') -> treach t'
| tr_fork id up t t' : treach t -> 0 <= up -> next_index t <= u64_max -> fork id up t = Some t' -> treach t'.

Lemma treach_ok t : treach t -> task_ok t.
Proof.
  induction 1 as [id|o t r t' _ IH Hn E|id up t t' _ IH Hup Hn E].
  - by split.
  - destruct (task_op_ok o t IH Hn) as ([r1 t1] & E1 & H1 & _). rewrite E in E1. injection E1 as <- <-. exact H1.
  - rewrite fork_eq in E by done. injection E as <-. by apply forked_ok.
Qed.

(** ** Saving *)

Section Persist.
Context (toml_print : SnapshotDoc -> option (list Z)) (toml_parse : list Z -> option SnapshotDoc).
Context (hash_order : gmap Z Decision_ -> list (Z * Decision_)).
(** What is printed reads back; nothing reads back from nothing, the id having
    no default; iteration visits each entry once. *)
Hypothesis toml_reads_back : forall doc text, toml_print doc = Some text -> toml_parse text = Some doc.
Hypothesis toml_empty : toml_parse [] = None.
Hypothesis hash_entries : forall m, hash_order m ≡ₚ map_to_list m.

Lemma collect_eq l m : NoDup (l.*1) -> fold_left (fun m p => <[fst p := snd p]> m) l m = list_to_map l ∪ (m : gmap Z Decision_).
Proof.
  revert m. induction l as [|[k d] l IH]; intros m; cbn [fold_left fmap list_fmap fst snd]; [intros _; symmetry; exact (map_empty_union m)|].
  intros [Hk Hl]%NoDup_cons. rewrite IH by done. cbn. rewrite <- insert_union_l. symmetry. apply insert_union_r.
  by apply not_elem_of_list_to_map_1.
Qed.

Lemma collect_order m : collect (hash_order m) = m.
Proof.
  unfold collect. assert (Hnd : NoDup ((hash_order m).*1)) by (rewrite hash_entries; apply NoDup_fst_map_to_list).
  rewrite collect_eq by done. rewrite map_union_empty. rewrite (list_to_map_proper _ (map_to_list m)); [apply list_to_map_to_list|done|apply hash_entries].
Qed.

Lemma push_all q0 q : fold_left (fun q p => queue_push p q) q q0 = q0 ++ q.
Proof. revert q0. induction q as [|p q IH]; intros q0; cbn; [by rewrite app_nil_r|]. rewrite IH. unfold queue_push. by rewrite <- app_assoc. Qed.

Lemma entry_section_round s : entry_section (section_entry s) = s.
Proof. unfold entry_section, section_entry. cbn. rewrite kind_round_trip. by destruct s. Qed.

Lemma entry_decision_round p : entry_decision (decision_entry p) = p.
Proof. destruct p as [i [d a m]]. unfold entry_decision, decision_entry. cbn. by rewrite decision_round_trip. Qed.

Lemma persist_restore id t q :
  restore_task_and_queue toml_parse id (persist_task_and_queue toml_print hash_order t q) =
    match toml_print (snapshot_doc hash_order t q) with Some _ => (t, q) | None => (task_new id, []) end.
Proof.
  unfold restore_task_and_queue, persist_task_and_queue. destruct (toml_print _) as [text|] eqn:E.
  - change (default [] (Some text)) with text. rewrite (toml_reads_back _ _ E). cbn [default from_option].
    change (Datatypes.id ?x) with x. unfold snapshot_doc. cbn [doc_id doc_next_index doc_section doc_decision doc_queue].
    rewrite push_all. rewrite !map_map. rewrite (map_ext _ (fun s => s) entry_section_round), map_id.
    rewrite (map_ext _ (fun p => p) entry_decision_round), map_id, collect_order. by destruct t.
  - change (default [] None) with (@nil Z). by rewrite toml_empty.
Qed.
End Persist.

(** ** What a task promises *)

(** A task's sections are append-only.  On every reachable task, every
    operation succeeds or fails without a panic (short of 2^64 sections), keeps
    section i at place i with its kind, never changes a closed section, and
    leaves the sections numbered from 0 to [next_index] without a gap, with a
    decision only on a closed approval and nothing closed but decided approvals
    and questions. *)
Theorem task_append_only t o :
  treach t -> next_index t < u64_max ->
  safe (task_op o t) (fun '(_, t') => task_ok t' /\ grows t t').
Proof. intros Ht Hn. apply task_op_ok; [by apply treach_ok|done]. Qed.

(** C30. A blocked task waits for its gate.  While a task is blocked no prompt
    leaves its queue; and an operation that unblocks it is either the decision
    of the very approval that is latest, or leaves some section that starts with
    the mark of the answer to the latest question.  No other decision, edit or
    new section unblocks it. *)
Theorem blocked_until_resolved t o r t' q :
  treach t -> is_blocked t = true -> task_op o t = Some (r, t') ->
  try_send t q = (Err StillBlocked, q) /\ (is_blocked t' = false -> resolved o t').
Proof.
  intros Ht Hb Ho. split; [unfold try_send; by rewrite Hb|]. intros Hu. eapply unblocked_by; [by apply treach_ok|done..].
Qed.

(** A fork is a prefix.  Forking a reachable task at [up] never fails; the
    new task has exactly the sections up to [up], and the decisions on them, and
    is itself well formed, so that its next section follows on the prefix. *)
Theorem fork_prefix t id up :
  treach t -> next_index t <= u64_max -> 0 <= up ->
  safe (fork id up t) (fun t' => task_ok t' /\ task_id t' = id /\
    sections t' = take (Z.to_nat (up + 1)) (sections t) /\ next_index t' = len (sections t') /\
    forall i, decisions t' !! i = if i <=? up then decisions t !! i else None).
Proof.
  intros Ht Hn Hup. pose proof (treach_ok t Ht) as Hok. rewrite fork_eq by done. apply safe_ret.
  split_and!; [by apply forked_ok|done..|]. intros i. apply forked_decision.
Qed.

(** C31. A saved task comes back.  With any TOML printer and parser that read back
    what they print, and whatever order the map of decisions is iterated in,
    restoring what was saved gives the same task - id, numbering, sections,
    decisions - and the same queue, in order.  When the printer fails, what comes
    back is an empty task: everything is lost without an error. *)
Theorem task_persists (toml_print : SnapshotDoc -> option (list Z)) (toml_parse : list Z -> option SnapshotDoc)
    (hash_order : gmap Z Decision_ -> list (Z * Decision_)) (id : Z) (t : Task) (q : PromptQueue) :
  (forall doc text, toml_print doc = Some text -> toml_parse text = Some doc) -> toml_parse [] = None ->
  (forall m, hash_order m ≡ₚ map_to_list m) ->
  restore_task_and_queue toml_parse id (persist_task_and_queue toml_print hash_order t q) =
    match toml_print (snapshot_doc hash_order t q) with Some _ => (t, q) | None => (task_new id, []) end.
Proof. intros H1 H2 H3. by apply persist_restore. Qed.

(** ** Tasks that run *)

Definition demo_task : Task :=
  mkTask 7 2 [mkSection 0 Plan (lit "build") false; mkSection 1 Approval (lit "rm -rf target") false] ∅.

Lemma demo_task_reach : treach demo_task.
Proof.
  eapply (tr_op (OAppend Approval (lit "rm -rf target"))).
  - eapply (tr_op (OAppend Plan (lit "build"))); [apply (tr_new 7)|reflexivity|reflexivity].
  - reflexivity.
  - reflexivity.
Qed.

Lemma task_append_only_witness :
  treach demo_task /\
  safe (task_op (ODecide 1 Rejected (lit "me") 5) demo_task) (fun '(_, t') => task_ok t' /\ grows demo_task t').
Proof. split; [exact demo_task_reach|]. apply task_append_only; [exact demo_task_reach|reflexivity]. Defined.

Lemma blocked_until_resolved_witness : exists t',
  task_op (ODecide 1 Rejected (lit "me") 5) demo_task = Some (Ok (), t') /\ is_blocked demo_task = true /\
  is_blocked t' = false /\
  try_send demo_task [lit "next"] = (Err StillBlocked, [lit "next"]) /\
  (is_blocked t' = false -> resolved (ODecide 1 Rejected (lit "me") 5) t').
Proof.
  eexists. split; [vm_compute; reflexivity|]. split; [reflexivity|]. split; [reflexivity|].
  apply (blocked_until_resolved demo_task _ (Ok ())); [exact demo_task_reach|reflexivity|vm_compute; reflexivity].
Defined.

Lemma fork_prefix_witness :
  treach demo_task /\ safe (fork 8 0 demo_task) (fun t' => task_ok t' /\ task_id t' = 8 /\
    sections t' = take (Z.to_nat 1) (sections demo_task) /\ next_index t' = len (sections t') /\
    forall i, decisions t' !! i = if i <=? 0 then decisions demo_task !! i else None).
Proof.
  split; [exact demo_task_reach|]. apply (fork_prefix demo_task 8 0); [exact demo_task_reach|vm_compute; discriminate|lia].
Defined.

(** A printer and a parser that know one document. *)
#[local] Instance section_entry_eq : EqDecision SectionEntry.
Proof. solve_decision. Defined.
#[local] Instance decision_entry_eq : EqDecision DecisionEntry.
Proof. solve_decision. Defined.
#[local] Instance snapshot_doc_eq : EqDecision SnapshotDoc.
Proof. solve_decision. Defined.

Definition demo_doc : SnapshotDoc := snapshot_doc map_to_list demo_task [lit "next"].
Definition demo_print (d : SnapshotDoc) : option (list Z) := if decide (d = demo_doc) then Some (lit "doc") else None.
Definition demo_parse (text : list Z) : option SnapshotDoc := if decide (text = lit "doc") then Some demo_doc else None.

Lemma demo_toml doc text : demo_print doc = Some text -> demo_parse text = Some doc.
Proof. unfold demo_print, demo_parse. case_decide; [|done]. intros [= <-]. subst. done. Qed.

Lemma task_persists_witness :
  demo_print (snapshot_doc map_to_list demo_task [lit "next"]) = Some (lit "doc") /\
  restore_task_and_queue demo_parse 3 (persist_task_and_queue demo_print map_to_list demo_task [lit "next"]) =
    match demo_print (snapshot_doc map_to_list demo_task [lit "next"]) with
    | Some _ => (demo_task, [lit "next"]) | None => (task_new 3, []) end.
Proof.
  split; [reflexivity|]. apply task_persists; [exact demo_toml|reflexivity|reflexivity].
Defined.

(** Where the code falls short: any section that starts with the mark answers a
    question, whoever wrote it, so an agent's own output - even one written
    before the question - lets the next queued prompt through. *)
Lemma output_answers_question :
  (fun r => match r with
            | (Ok n, t) => Some (n, is_blocked t, fst (try_send t [lit "yes, delete it"]))
            | (Err _, _) => None
            end) <$> drive [mkReplay (lit "output") (lit "[answers #1] "); mkReplay (lit "question") (lit "Delete it?")] 0 (task_new 1)
  = Some (Some (2, false, Ok (Some (lit "yes, delete it")))).
Proof. vm_compute. reflexivity. Qed.
