(* ===== verification/Attention.v ===== *)
(** The attention queue, crates/rill-orchestrate/src/attention.rs, and what its
    surfaces can rely on: one queue, bounded for each target, that never drops
    what needs a person.  [RILL_MUTATE] is unset. *)
From stdpp Require Import list.
From S2P Require Import Prelude Effect Text.

Local Open Scope Z_scope.

(** In ascending priority, as the derived [Ord] has it. *)
Inductive AttentionState : Type :=
| CompletedUnread | Disconnected | Failed | NeedsInput | ApprovalState.

#[export] Instance attention_state_eq : EqDecision AttentionState.
Proof. solve_decision. Defined.

Definition urgency (s : AttentionState) : Z :=
  match s with CompletedUnread => 0 | Disconnected => 1 | Failed => 2 | NeedsInput => 3 | ApprovalState => 4 end.

Definition is_actionable (s : AttentionState) : bool :=
  match s with NeedsInput | ApprovalState => true | _ => false end.

Record AttentionEntry := mkEntry {
  ae_id : Z;
  ae_target : list Z;
  ae_state : AttentionState;
  ae_origin : list Z;
  ae_seq : Z;
  ae_at_unix_ms : Z;
  ae_read : bool;
}.

#[export] Instance entry_eta : Eta AttentionEntry := fun e =>
  mkEntry (ae_id e) (ae_target e) (ae_state e) (ae_origin e) (ae_seq e) (ae_at_unix_ms e) (ae_read e).

Record ViewEvent := mkView { visible : bool; key : bool; dwell_ms : Z }.

Definition MIN_DWELL_MS : Z := 250.

Record AttentionQueue := mkQueue {
  entries : list AttentionEntry;
  next_id : Z;
  next_seq : Z;
  cap_per_target : Z;
}.

#[export] Instance queue_eta : Eta AttentionQueue := fun q =>
  mkQueue (entries q) (next_id q) (next_seq q) (cap_per_target q).

Definition attention_new (cap : Z) : AttentionQueue := mkQueue [] 1 1 cap.

Definition for_target (target : list Z) (e : AttentionEntry) : bool := bool_decide (ae_target e = target).

(** [position] and [remove]: the first entry that satisfies [p] goes. *)
Fixpoint remove_first {A} (p : A -> bool) (l : list A) : list A :=
  match l with
  | [] => []
  | x :: l => if p x then l else x :: remove_first p l
  end.

Definition droppable (target : list Z) (e : AttentionEntry) : bool :=
  for_target target e && negb (is_actionable (ae_state e)).

(** [None] is an overflow of a counter. *)
Definition enqueue (target : list Z) (state : AttentionState) (origin : list Z) (at_unix_ms : Z)
    (q : AttentionQueue) : option (Z * AttentionQueue) :=
  let id := next_id q in
  next ← chk_add u64_max id 1;
  let seq := next_seq q in
  next_s ← chk_add u64_max seq 1;
  let es := entries q ++ [mkEntry id target state origin seq at_unix_ms false] in
  let count := len (List.filter (for_target target) es) in
  Some (id, q <| next_id := next |> <| next_seq := next_s |>
              <| entries := if cap_per_target q <? count then remove_first (droppable target) es else es |>).

Definition unread_of (target : list Z) (e : AttentionEntry) : bool := for_target target e && negb (ae_read e).

(** [Iterator::max]: the last of the greatest. *)
Definition max_state (acc : option AttentionState) (s : AttentionState) : option AttentionState :=
  match acc with
  | None => Some s
  | Some a => Some (if urgency s <? urgency a then a else s)
  end.

Definition rollup (targets : list (list Z)) (q : AttentionQueue) : option AttentionState :=
  fold_left max_state
    (map ae_state (List.filter (fun e => bool_decide (ae_target e ∈ targets) && negb (ae_read e)) (entries q))) None.

Fixpoint mark_read (id : Z) (es : list AttentionEntry) : list AttentionEntry :=
  match es with
  | [] => []
  | e :: es => if ae_id e =? id then e <| ae_read := true |> :: es else e :: mark_read id es
  end.

Definition clears (v : ViewEvent) : bool := visible v && key v && (MIN_DWELL_MS <=? dwell_ms v).

Definition observe_view (id : Z) (v : ViewEvent) (q : AttentionQueue) : AttentionQueue :=
  if clears v then q <| entries := mark_read id (entries q) |> else q.

Definition is_read (id : Z) (q : AttentionQueue) : bool :=
  match List.find (fun e => ae_id e =? id) (entries q) with Some e => ae_read e | None => false end.

Definition badge_count (target : list Z) (q : AttentionQueue) : Z :=
  len (List.filter (unread_of target) (entries q)).

Definition mailbox_entries (target : list Z) (q : AttentionQueue) : list AttentionEntry :=
  List.filter (unread_of target) (entries q).

(** ** The queue over time *)

Inductive AttOp : Type :=
| AEnqueue (target : list Z) (state : AttentionState) (origin : list Z) (at_unix_ms : Z)
| AView (id : Z) (v : ViewEvent).

Definition att_op (o : AttOp) (q : AttentionQueue) : option AttentionQueue :=
  match o with
  | AEnqueue t s or at_ => '(_, q) ← enqueue t s or at_ q; Some q
  | AView id v => Some (observe_view id v q)
  end.

(** A queue, and what has been asked of it, latest last. *)
Inductive areach (cap : Z) : list AttOp -> AttentionQueue -> Prop :=
| ar_new : areach cap [] (attention_new cap)
| ar_op h o q q' : areach cap h q -> att_op o q = Some q' -> areach cap (h ++ [o]) q'.

(** The id the [n]th request gets, counting from 1, when it is an enqueue. *)
Fixpoint produced (n : Z) (h : list AttOp) : list (Z * AttOp) :=
  match h with
  | [] => []
  | AEnqueue t s or at_ :: h => (n, AEnqueue t s or at_) :: produced (n + 1) h
  | AView _ _ :: h => produced n h
  end.

Definition entry_of (e : AttentionEntry) : Z * AttOp :=
  (ae_id e, AEnqueue (ae_target e) (ae_state e) (ae_origin e) (ae_at_unix_ms e)).

Definition entry_actionable (p : Z * AttOp) : bool :=
  match snd p with AEnqueue _ s _ _ => is_actionable s | AView _ _ => false end.

(** Whether a view after its arrival showed entry [id]. *)
Fixpoint shown_since (n id : Z) (h : list AttOp) : bool :=
  match h with
  | [] => false
  | AEnqueue _ _ _ _ :: h => shown_since (n + 1) id h
  | AView i v :: h => ((i =? id) && (id <? n) && clears v) || shown_since n id h
  end.
