(* ===== verification/AttentionFacts.v ===== *)
(** What the attention queue's surfaces can rely on. *)
From stdpp Require Import list.
From S2P Require Import Prelude Effect Text Attention.

Local Open Scope Z_scope.

(** ** Requests *)





(** ** Dropping *)







(** ** The invariant *)















(** ** The rollup *)

Lemma urgency_inj s s' : urgency s = urgency s' -> s = s'.
Proof. by destruct s, s'. Qed.

Lemma max_state_eq l acc : match fold_left max_state l acc with
  | Some m => (Some m = acc \/ m ∈ l) /\ (forall s, s ∈ l \/ acc = Some s -> urgency s <= urgency m)
  | None => l = [] /\ acc = None
  end.
Proof.
  revert acc. induction l as [|s l IH]; intros acc; cbn [fold_left].
  - destruct acc as [a|]; [|done]. split; [by left|]. intros s [?%not_elem_of_nil|[= ->]]; done.
  - specialize (IH (max_state acc s)). destruct (fold_left max_state l (max_state acc s)) as [m|].
    + destruct IH as [I1 I2]. split.
      * destruct I1 as [I1|I1]; [|right; by right]. destruct acc as [a|]; cbn in I1; injection I1 as ->; [|right; by left].
        case_if; [by left|right; by left].
      * assert (Hs : urgency s <= urgency m /\ forall a, acc = Some a -> urgency a <= urgency m).
        { destruct acc as [a|]; cbn in I2.
          - pose proof (I2 _ (or_intror eq_refl)) as H. destruct (Z.ltb_spec (urgency s) (urgency a));
              (split; [lia|]); intros a' [= <-]; lia.
          - split; [by apply I2; right|done]. }
        intros x [[-> | Hx]%elem_of_cons|Hx]; [exact (proj1 Hs)|apply I2; by left|by apply Hs].
    + destruct IH as [_ IH]. by destruct acc.
Qed.

(** Whether a surface shows entry [e] for one of [targets]. *)
Definition shows (targets : list (list Z)) (e : AttentionEntry) : Prop := ae_target e ∈ targets /\ ae_read e = false.

Lemma elem_of_filter_bool {A} (f : A -> bool) x l : x ∈ List.filter f l <-> x ∈ l /\ f x = true.
Proof. rewrite !list_elem_of_In. apply List.filter_In. Qed.


(** Every surface reads the one queue.  The rollup of some targets is the
    most urgent state among their unread entries - none exactly when the mailbox
    of each is empty - and the badge of a target counts its mailbox. *)
Theorem rollup_exact targets q :
  match rollup targets q with
  | Some m => (exists e, e ∈ entries q /\ shows targets e /\ ae_state e = m) /\
              forall e, e ∈ entries q -> shows targets e -> urgency (ae_state e) <= urgency m
  | None => forall target, target ∈ targets -> mailbox_entries target q = []
  end /\
  forall target, badge_count target q = len (mailbox_entries target q).
Proof.
  split; [|done]. unfold rollup. set (f := fun e => _ && _). set (l := List.filter f (entries q)).
  assert (Hin : forall e, e ∈ l <-> e ∈ entries q /\ shows targets e).
  { intros e. subst l f. rewrite elem_of_filter_bool, andb_true_iff, bool_decide_eq_true, negb_true_iff. done. }
  pose proof (max_state_eq (map ae_state l) None) as H. destruct (fold_left max_state _ None) as [m|].
  - destruct H as [[?|(e & -> & He)%list_elem_of_fmap] H2]; [done|]. split.
    + exists e. by apply Hin in He as [? ?].
    + intros x Hx Hs. apply H2. left. apply list_elem_of_fmap_2. by apply Hin.
  - destruct H as [Hl _]. intros t Ht. unfold mailbox_entries. destruct (List.filter (unread_of t) (entries q)) as [|e es] eqn:E; [done|].
    assert (He : e ∈ List.filter (unread_of t) (entries q)) by (rewrite E; by left).
    apply elem_of_filter_bool in He as [He [Hu1 Hu2]%andb_true_iff]. unfold for_target in Hu1. apply bool_decide_eq_true in Hu1 as <-.
    apply negb_true_iff in Hu2. assert (e ∈ l) as Hel by (by apply Hin). apply (list_elem_of_fmap_2 ae_state) in Hel.
    change (ae_state e ∈ map ae_state l) in Hel. rewrite Hl in Hel. by apply not_elem_of_nil in Hel.
Qed.







