(* ===== verification/Automation.v ===== *)
(** The typed actions of the automation layer and their bounded dispatcher,
    crates/rill-orchestrate/src/automation.rs.

    Texts are lists of characters; an [f64] is a binary64 [spec_float]. *)
From Stdlib Require Import SpecFloat.
From stdpp Require Import list.
From S2P Require Import Prelude Effect Text.

Local Open Scope Z_scope.

Inductive EventClass : Type := V1 | Future | NotAllowed.

Inductive RillEventKind : Type :=
| WorkspaceOpened | WorkspaceClosed | TabCreated | TabFocused | PaneCreated | PaneFocused | CwdChanged
| CommandStarted | CommandCompleted | BellEvent | AgentStarted | AgentCompleted | AgentAttention
| AttentionCreated | ConfigReloaded.

Definition maturity (k : RillEventKind) : EventClass :=
  match k with
  | WorkspaceOpened | WorkspaceClosed | TabCreated | TabFocused | PaneCreated | PaneFocused | CwdChanged
  | CommandStarted | CommandCompleted | BellEvent | ConfigReloaded => V1
  | AgentStarted | AgentCompleted | AgentAttention | AttentionCreated => Future
  end.

Inductive SplitDirection : Type := SplitLeft | SplitRight | SplitUp | SplitDown.

Definition direction_str (d : SplitDirection) : list Z :=
  match d with
  | SplitLeft => lit "left" | SplitRight => lit "right" | SplitUp => lit "up" | SplitDown => lit "down"
  end.

Inductive RillAction : Type :=
| CreateTab (tab_id title command : option (list Z))
| CloseTab (tab_id : list Z)
| SplitPane (pane_id : list Z) (direction : SplitDirection) (command : option (list Z))
| FocusPane (pane_id : list Z)
| SetTabTitle (tab_id title : list Z)
| SetTabBadge (tab_id badge : list Z)
| ShowNotification (title body : list Z)
| ChangeRuntimeAppearanceOverride (theme : list Z) (background_opacity : option spec_float)
| RunCommand (command : list Z) (cwd : option (list Z))
| OpenWorkspace (path : list Z).

Inductive ActionValidationError : Type :=
| EmptyValue (field : list Z)
| MissingIdentifier (field : list Z)
| InvalidOpacity.

Definition is_blank (s : list Z) : bool := len (trim s) =? 0.

(** [if s.trim().is_empty() { return Err(e) }] *)
Definition require_text (e : ActionValidationError) (s : list Z) : result ActionValidationError () :=
  if is_blank s then Err e else Ok ().
Definition require_some (e : ActionValidationError) (o : option (list Z)) : result ActionValidationError () :=
  match o with Some s => require_text e s | None => Ok () end.

Definition F0 : spec_float := S754_zero false.
Definition F1 : spec_float := S754_finite false 4503599627370496 (-52).

(** [*opacity >= 0.0 && *opacity <= 1.0]: false on NaN. *)
Definition opacity_ok (o : spec_float) : bool := SFleb F0 o && SFleb o F1.

Definition validate (a : RillAction) : result ActionValidationError () :=
  match a with
  | CreateTab (Some id) title command =>
      _ ← require_text (MissingIdentifier (lit "tab_id")) id;
      _ ← require_some (EmptyValue (lit "title")) title;
      require_some (EmptyValue (lit "command")) command
  | CreateTab None _ _ => Ok ()
  | CloseTab id => require_text (MissingIdentifier (lit "tab_id")) id
  | SplitPane id _ command =>
      _ ← require_text (MissingIdentifier (lit "pane_id")) id;
      require_some (EmptyValue (lit "command")) command
  | FocusPane id => require_text (MissingIdentifier (lit "pane_id")) id
  | SetTabTitle id title =>
      _ ← require_text (MissingIdentifier (lit "tab_id")) id;
      require_text (EmptyValue (lit "title")) title
  | SetTabBadge id badge =>
      _ ← require_text (MissingIdentifier (lit "tab_id")) id;
      require_text (EmptyValue (lit "badge")) badge
  | ShowNotification title body =>
      _ ← require_text (EmptyValue (lit "title")) title;
      require_text (EmptyValue (lit "body")) body
  | ChangeRuntimeAppearanceOverride theme opacity =>
      _ ← require_text (EmptyValue (lit "theme")) theme;
      match opacity with
      | Some o => if opacity_ok o then Ok () else Err InvalidOpacity
      | None => Ok ()
      end
  | RunCommand command cwd =>
      _ ← require_text (EmptyValue (lit "command")) command;
      require_some (EmptyValue (lit "cwd")) cwd
  | OpenWorkspace path => require_text (EmptyValue (lit "path")) path
  end.

(** ** The dispatcher *)

Inductive ActionDispatchError : Type :=
| QueueFull (limit : Z)
| Validation (e : ActionValidationError).

Record ActionDispatcher := mkDispatcher { d_queue : list RillAction; d_limit : Z }.

#[export] Instance dispatcher_eta : Eta ActionDispatcher := fun d => mkDispatcher (d_queue d) (d_limit d).

Definition dispatcher_new (limit : Z) : ActionDispatcher := mkDispatcher [] (Z.max limit 1).

Definition enqueue_action (a : RillAction) (d : ActionDispatcher) : result ActionDispatchError () * ActionDispatcher :=
  match validate a with
  | Err e => (Err (Validation e), d)
  | Ok _ =>
      if d_limit d <=? len (d_queue d) then (Err (QueueFull (d_limit d)), d)
      else (Ok (), d <| d_queue := d_queue d ++ [a] |>)
  end.

Definition dispatch_action (a : RillAction) (d : ActionDispatcher) : result ActionDispatchError () * ActionDispatcher :=
  enqueue_action a d.

(** [while let Some(action) = self.queue.pop_front()]; the queue bounds it. *)
Fixpoint drain_queue (fuel : nat) (d : ActionDispatcher) (out : list RillAction) : list RillAction * ActionDispatcher :=
  match fuel with
  | O => (out, d)
  | S fuel =>
      match d_queue d with
      | [] => (out, d)
      | a :: q => drain_queue fuel (d <| d_queue := q |>) (out ++ [a])
      end
  end.
Definition drain (d : ActionDispatcher) : list RillAction * ActionDispatcher :=
  drain_queue (S (length (d_queue d))) d [].

Definition queued_len (d : ActionDispatcher) : Z := len (d_queue d).

Record LuaHostPolicy := mkPolicy {
  enabled : bool; safe_mode : bool; max_actions_per_event : Z; timeout_ms : Z; queue_limit : Z }.
Definition policy_default : LuaHostPolicy := mkPolicy false true 16 50 256.

(** ** What the dispatcher promises *)

Lemma drain_queue_eq fuel d out : (length (d_queue d) < fuel)%nat -> drain_queue fuel d out = (out ++ d_queue d, d <| d_queue := [] |>).
Proof.
  revert d out. induction fuel as [|fuel IH]; intros d out Hf; [lia|]. cbn [drain_queue].
  destruct d as [[|a q] l]; cbn [d_queue] in *; [by rewrite app_nil_r|]. cbn [length] in Hf.
  rewrite IH by (cbn; lia). cbn. by rewrite <- app_assoc.
Qed.

Lemma drain_eq d : drain d = (d_queue d, d <| d_queue := [] |>).
Proof. unfold drain. by rewrite drain_queue_eq by lia. Qed.

(** Draining empties the queue. *)
Inductive DispOp : Type := DEnqueue (a : RillAction) | DDrain.

(** One request: the actions it hands out, whether it accepted one. *)
Definition disp_op (o : DispOp) (d : ActionDispatcher) : list RillAction * list RillAction * ActionDispatcher :=
  match o with
  | DEnqueue a => let '(r, d) := dispatch_action a d in ([], if is_ok r then [a] else [], d)
  | DDrain => let '(out, d) := drain d in (out, [], d)
  end.

(** Everything handed out, everything accepted, in order. *)
Fixpoint disp_run (os : list DispOp) (d : ActionDispatcher) : list RillAction * list RillAction * ActionDispatcher :=
  match os with
  | [] => ([], [], d)
  | o :: os =>
      let '(out, acc, d) := disp_op o d in
      let '(outs, accs, d) := disp_run os d in
      (out ++ outs, acc ++ accs, d)
  end.

Lemma dispatch_action_eq a d : dispatch_action a d =
  match validate a with
  | Err e => (Err (Validation e), d)
  | Ok _ => if len (d_queue d) <? d_limit d then (Ok (), mkDispatcher (d_queue d ++ [a]) (d_limit d)) else (Err (QueueFull (d_limit d)), d)
  end.
Proof.
  unfold dispatch_action, enqueue_action. destruct (validate a); [|done].
  destruct (Z.leb_spec (d_limit d) (len (d_queue d))); [rewrite (proj2 (Z.ltb_ge _ _)) by lia|rewrite (proj2 (Z.ltb_lt _ _)) by lia]; done.
Qed.

Lemma disp_run_eq os d : len (d_queue d) <= d_limit d -> 1 <= d_limit d -> Forall (fun a => validate a = Ok ()) (d_queue d) ->
  let '(outs, accs, d') := disp_run os d in
  outs ++ d_queue d' = d_queue d ++ accs /\ len (d_queue d') <= d_limit d' /\ d_limit d' = d_limit d /\
  Forall (fun a => validate a = Ok ()) (outs ++ d_queue d').
Proof.
  revert d. induction os as [|o os IH]; intros d Hl H1 Hv; cbn [disp_run]; [by rewrite app_nil_r|].
  destruct (disp_op o d) as [[out acc] d1] eqn:E.
  assert (Hd1 : out ++ d_queue d1 = d_queue d ++ acc /\ len (d_queue d1) <= d_limit d1 /\ d_limit d1 = d_limit d /\
    Forall (fun a => validate a = Ok ()) (out ++ d_queue d1)).
  { destruct o as [a|]; cbn [disp_op] in E.
    - rewrite dispatch_action_eq in E. destruct (validate a) as [[]|e] eqn:Ev.
      + destruct (Z.ltb_spec (len (d_queue d)) (d_limit d)); injection E as <- <- <-; cbn [d_queue d_limit app is_ok]; rewrite ?app_nil_r; split_and!; try done.
        * rewrite len_app, len_cons, len_nil. lia.
        * apply Forall_app. split; [done|]. by constructor.
      + injection E as <- <- <-. cbn. by rewrite app_nil_r.
    - rewrite drain_eq in E. injection E as <- <- <-. cbn. rewrite !app_nil_r. split_and!; try done. change (len []) with 0. lia. }
  destruct Hd1 as (D1 & D2 & D3 & D4). apply Forall_app in D4 as [D4 D5]. specialize (IH d1 D2 ltac:(lia) D5).
  destruct (disp_run os d1) as [[outs accs] d2]. destruct IH as (I1 & I2 & I3 & I4). split_and!.
  - by rewrite <- app_assoc, I1, !app_assoc, D1.
  - done.
  - by rewrite I3.
  - rewrite <- app_assoc. by apply Forall_app.
Qed.

(** The dispatcher is a bounded first-in first-out queue of valid actions.
    Over any sequence of requests, what was handed out followed by what is still
    queued is exactly what was accepted, in order; at most [max(limit, 1)]
    actions are queued; and every action that gets through has been validated. *)
Theorem dispatcher_fifo limit os :
  let '(outs, accs, d) := disp_run os (dispatcher_new limit) in
  outs ++ d_queue d = accs /\ queued_len d <= Z.max limit 1 /\
  Forall (fun a => validate a = Ok ()) (outs ++ d_queue d).
Proof.
  pose proof (disp_run_eq os (dispatcher_new limit)) as H. cbn in H.
  specialize (H ltac:(change (len []) with 0; lia) ltac:(lia) ltac:(done)).
  destruct (disp_run os (dispatcher_new limit)) as [[outs accs] d]. unfold queued_len. destruct H as (H1 & H2 & H3 & H4).
  split_and!; [done|lia|done].
Qed.

(** ** Validation *)

Definition present (s : list Z) : Prop := is_blank s = false.
Definition present_if (o : option (list Z)) : Prop := match o with Some s => present s | None => True end.

Lemma require_text_iff e s : require_text e s = Ok () <-> present s.
Proof. unfold require_text, present. by destruct (is_blank s). Qed.

Lemma require_some_iff e o : require_some e o = Ok () <-> present_if o.
Proof. destruct o; cbn; [apply require_text_iff|done]. Qed.

Lemma bind_ok_iff {E A} (m : result E ()) (f : () -> result E A) b : (m ≫= f) = Ok b <-> m = Ok () /\ f () = Ok b.
Proof. destruct m as [[]|e]; cbn; [naive_solver|naive_solver]. Qed.

(** An action is valid exactly when its texts are there and its opacity is in
    [0, 1]; a tab without an id is not looked at. *)
Definition well_formed (a : RillAction) : Prop :=
  match a with
  | CreateTab (Some id) title command => present id /\ present_if title /\ present_if command
  | CreateTab None _ _ => True
  | CloseTab id | FocusPane id | OpenWorkspace id => present id
  | SplitPane id _ command => present id /\ present_if command
  | SetTabTitle x y | SetTabBadge x y | ShowNotification x y => present x /\ present y
  | ChangeRuntimeAppearanceOverride theme o =>
      present theme /\ match o with Some o => opacity_ok o = true | None => True end
  | RunCommand command cwd => present command /\ present_if cwd
  end.

Lemma validate_iff a : validate a = Ok () <-> well_formed a.
Proof.
  destruct a as [[id|] t c|id|id dir c|id|id t|id b|t b|th [o|]|c cwd|p]; cbn [validate well_formed];
    rewrite ?bind_ok_iff, ?require_text_iff, ?require_some_iff; try done.
  - destruct (opacity_ok o); naive_solver.
  - naive_solver.
Qed.
