(* ===== verification/Trust.v ===== *)
(** Project trust and redaction, crates/rill-orchestrate/src/trust.rs, and the
    attachment of context in task.rs.

    A file's content is its bytes; a text is its characters.  Paths are compared
    as [Path] compares them: their type is a parameter.  [to_uppercase] is given
    up to characters outside ASCII, all that a search for ASCII hints can see.
    [RILL_MUTATE] is unset. *)
From stdpp Require Import list gmap.
From S2P Require Import Prelude Effect Text.

Local Open Scope Z_scope.

(** ** Trust *)

Definition FNV_OFFSET : Z := 0xcbf29ce484222325.
Definition FNV_PRIME : Z := 0x100000001b3.

Definition digest_step (hash b : Z) : Z := (Z.lxor hash b * FNV_PRIME) mod 2 ^ 64.
Definition content_digest (bs : list Z) : Z := fold_left digest_step bs FNV_OFFSET.

Section Store.
Context {Path : Type} `{Countable Path}.

Definition TrustStore : Type := gmap Path Z.
Implicit Type (s : TrustStore).

Definition trust (path : Path) (content : list Z) s : TrustStore := <[path := content_digest content]> s.
Definition revoke (path : Path) s : TrustStore := delete path s.
Definition is_trusted (path : Path) (content : list Z) s : bool :=
  bool_decide (s !! path = Some (content_digest content)).
End Store.

(** ** Redaction *)

Definition SECRET_KEY_HINTS : list (list Z) :=
  map lit ["SECRET"; "TOKEN"; "PASSWORD"; "PASSWD"; "API_KEY"; "APIKEY"; "PRIVATE_KEY"]%string.

Definition SECRET_VALUE_PREFIXES : list (list Z) :=
  map lit ["sk-"; "ghp_"; "gho_"; "AKIA"; "xoxb-"; "xoxp-"; "xoxa-"]%string.

Definition MASK : list Z := lit "[REDACTED]".

(** The characters outside ASCII whose upper case has an ASCII letter; the other
    characters outside ASCII stand for themselves. *)
Definition upper_char (c : Z) : list Z :=
  if within 0x61 0x7a c then [c - 32]
  else if c <=? 0x7f then [c]
  else if c =? 0xdf then lit "SS"
  else if c =? 0x131 then lit "I"
  else if c =? 0x149 then 0x2bc :: lit "N"
  else if c =? 0x17f then lit "S"
  else if c =? 0x1f0 then lit "J" ++ [0x30c]
  else if c =? 0x1e96 then lit "H" ++ [0x331]
  else if c =? 0x1e97 then lit "T" ++ [0x308]
  else if c =? 0x1e98 then lit "W" ++ [0x30a]
  else if c =? 0x1e99 then lit "Y" ++ [0x30a]
  else if c =? 0x1e9a then lit "A" ++ [0x2be]
  else if c =? 0xfb00 then lit "FF"
  else if c =? 0xfb01 then lit "FI"
  else if c =? 0xfb02 then lit "FL"
  else if c =? 0xfb03 then lit "FFI"
  else if c =? 0xfb04 then lit "FFL"
  else if (c =? 0xfb05) || (c =? 0xfb06) then lit "ST"
  else [c].
Definition to_uppercase (s : list Z) : list Z := concat (map upper_char s).

Fixpoint skip_word (s : list Z) : list Z :=
  match s with
  | [] => []
  | c :: s' => if is_whitespace c then s else skip_word s'
  end.

(** One turn of the loop over the prefixes: the word that starts at the first
    occurrence is masked. *)
Definition redact_prefix (out p : list Z) : list Z :=
  match find_sub p out with
  | Some pos => take pos out ++ MASK ++ skip_word (drop pos out)
  | None => out
  end.

Definition is_secret_key (key : list Z) : bool :=
  existsb (fun h => has_sub h (to_uppercase (trim key))) SECRET_KEY_HINTS.

Definition NEWLINE : Z := 0x0a.
Definition ends_with_newline (s : list Z) : bool := bool_decide (last s = Some NEWLINE).

Definition redact_line (line : list Z) : list Z :=
  match before_char (ch "=") line with
  | Some key =>
      if is_secret_key key then key ++ lit "=" ++ MASK ++ (if ends_with_newline line then [NEWLINE] else [])
      else fold_left redact_prefix SECRET_VALUE_PREFIXES line
  | None => fold_left redact_prefix SECRET_VALUE_PREFIXES line
  end.

(** [split_inclusive('\n')] *)
Fixpoint lines_from (acc s : list Z) : list (list Z) :=
  match s with
  | [] => match acc with [] => [] | _ => [acc] end
  | c :: s => if c =? NEWLINE then (acc ++ [c]) :: lines_from [] s else lines_from (acc ++ [c]) s
  end.
Definition split_inclusive (s : list Z) : list (list Z) := lines_from [] s.

Definition redact (text : list Z) : list Z := concat (map redact_line (split_inclusive text)).

(** A sink is what has been written to it. *)
Definition persist (sink text : list Z) : list Z := sink ++ redact text.
Definition write_live_surface (sink text : list Z) : list Z := sink ++ text.

(** [attach_context] of task.rs *)
Inductive AttachError : Type := EmptyScope.
Record ContextAttachment := mkAttachment { scope : list Z; content : list Z }.
Definition attach_context (scope raw_content : list Z) : result AttachError ContextAttachment :=
  if len (trim scope) =? 0 then Err EmptyScope else Ok (mkAttachment scope (redact raw_content)).

(** ** What trust is bound to *)

Lemma lxor_bound h b : 0 <= h < 2 ^ 64 -> 0 <= b < 2 ^ 64 -> 0 <= Z.lxor h b < 2 ^ 64.
Proof.
  intros Hh Hb. assert (0 <= Z.lxor h b) by (apply Z.lxor_nonneg; lia). split; [done|].
  destruct (decide (Z.lxor h b = 0)) as [->|Hne]; [lia|]. apply Z.log2_lt_pow2; [lia|].
  pose proof (Z.log2_lxor h b ltac:(lia) ltac:(lia)). 
  assert (forall x, 0 <= x < 2 ^ 64 -> Z.log2 x < 64).
  { intros x Hx. destruct (decide (x = 0)) as [->|]; [done|]. apply Z.log2_lt_pow2; lia. }
  pose proof (H1 h Hh). pose proof (H1 b Hb). lia.
Qed.

(** Multiplying by an odd number mod 2^64 loses nothing. *)
Lemma mul_prime_inj x y : 0 <= x < 2 ^ 64 -> 0 <= y < 2 ^ 64 ->
  (x * FNV_PRIME) mod 2 ^ 64 = (y * FNV_PRIME) mod 2 ^ 64 -> x = y.
Proof.
  intros Hx Hy H. assert (Hd : (2 ^ 64 | FNV_PRIME * (x - y))).
  { apply Z.mod_divide; [done|]. replace (FNV_PRIME * (x - y)) with (x * FNV_PRIME - y * FNV_PRIME) by lia.
    by rewrite Zminus_mod, H, Z.sub_diag. }
  apply Z.gauss in Hd; [|reflexivity]. destruct Hd as [k Hk]. nia.
Qed.

Lemma step_hash_inj h h' b : 0 <= h < 2 ^ 64 -> 0 <= h' < 2 ^ 64 -> u8 b -> digest_step h b = digest_step h' b -> h = h'.
Proof.
  intros Hh Hh' Hb H. assert (0 <= b < 2 ^ 64) by num. apply mul_prime_inj in H; [|by apply lxor_bound..].
  rewrite <- (Z.lxor_0_r h), <- (Z.lxor_0_r h'), <- (Z.lxor_nilpotent b), <- !Z.lxor_assoc. by rewrite H.
Qed.

Lemma step_byte_inj h b b' : 0 <= h < 2 ^ 64 -> u8 b -> u8 b' -> digest_step h b = digest_step h b' -> b = b'.
Proof.
  intros Hh Hb Hb' H. assert (0 <= b < 2 ^ 64) by num. assert (0 <= b' < 2 ^ 64) by num.
  apply mul_prime_inj in H; [|by apply lxor_bound..].
  rewrite <- (Z.lxor_0_l b), <- (Z.lxor_0_l b'), <- (Z.lxor_nilpotent h), !Z.lxor_assoc. by rewrite H.
Qed.

Lemma digest_bound bs h : 0 <= h < 2 ^ 64 -> 0 <= fold_left digest_step bs h < 2 ^ 64.
Proof. revert h. induction bs as [|b bs IH]; intros h Hh; [done|]. cbn. apply IH. by apply Z.mod_pos_bound. Qed.

Lemma digest_rest_inj bs h h' : bytes bs -> 0 <= h < 2 ^ 64 -> 0 <= h' < 2 ^ 64 ->
  fold_left digest_step bs h = fold_left digest_step bs h' -> h = h'.
Proof.
  intros Hb. revert h h'. induction Hb as [|b bs Hb _ IH]; intros h h' Hh Hh'; [done|]. cbn. intros H.
  apply IH in H; [|by apply Z.mod_pos_bound..]. by apply step_hash_inj in H.
Qed.

Lemma digest_edit x y b b' : bytes x -> bytes y -> u8 b -> u8 b' -> b <> b' ->
  content_digest (x ++ b :: y) <> content_digest (x ++ b' :: y).
Proof.
  intros Hx Hy Hb Hb' Hne H. unfold content_digest in H. rewrite !fold_left_app in H. cbn [fold_left] in H.
  assert (Hh : 0 <= fold_left digest_step x FNV_OFFSET < 2 ^ 64) by (apply digest_bound; done).
  apply digest_rest_inj in H; [|done|by apply Z.mod_pos_bound..]. by apply step_byte_inj in H.
Qed.

(** Trust is bound to the path and to its content: once a file is trusted,
    that content is trusted and the same file with any one byte changed is not;
    revoking ends it; and no other path is affected.  (The digest is 64 bits, not
    a cryptographic hash: contents can be crafted to collide.) *)
Theorem trust_bound {Path} `{Countable Path} (path : Path) (x y : list Z) (b : Z) (s : gmap Path Z) :
  bytes x -> bytes y -> u8 b ->
  let s' := trust path (x ++ b :: y) s in
  is_trusted path (x ++ b :: y) s' = true /\
  (forall b', u8 b' -> b' <> b -> is_trusted path (x ++ b' :: y) s' = false) /\
  (forall c, is_trusted path c (revoke path s') = false) /\
  forall p c, p <> path -> is_trusted p c s' = is_trusted p c s.
Proof.
  intros Hx Hy Hb s'. unfold s', is_trusted, trust, revoke, TrustStore. split_and!.
  - apply bool_decide_eq_true. by rewrite lookup_insert_eq.
  - intros b' Hb' Hne. apply bool_decide_eq_false. rewrite lookup_insert_eq. intros [= E]. by eapply digest_edit; [..|exact E].
  - intros c. apply bool_decide_eq_false. by rewrite lookup_delete_eq.
  - intros p c Hp. by rewrite lookup_insert_ne.
Qed.

(** ** What redaction hides *)

Lemma lines_cons acc s rest : Forall (fun c => c <> NEWLINE) s ->
  lines_from acc (s ++ NEWLINE :: rest) = (acc ++ s ++ [NEWLINE]) :: lines_from [] rest.
Proof.
  intros Hs. revert acc. induction Hs as [|c s Hc _ IH]; intros acc; cbn [app lines_from].
  - done.
  - rewrite (proj2 (Z.eqb_neq _ _)) by done. rewrite IH. by rewrite <- app_assoc.
Qed.

Lemma lines_before acc s rest : (acc ++ s = [] \/ ends_with_newline (acc ++ s) = true) -> acc = [] ->
  lines_from acc (s ++ rest) = lines_from acc s ++ lines_from [] rest.
Proof.
  intros He ->. cbn [app] in He. remember (length s) as n eqn:Hn. revert s He Hn.
  induction n as [n IH] using lt_wf_ind. intros s He ->.
  destruct (decide (NEWLINE ∈ s)) as [Hin|Hout].
  - apply list_elem_of_split_l in Hin as (a & t & -> & Ha). rewrite <- app_assoc. cbn [app].
    assert (Hf : Forall (fun c => c <> NEWLINE) a) by (apply Forall_forall; intros c Hc ->; done).
    rewrite !lines_cons by done. cbn [app]. f_equal. apply (IH (length t)); [rewrite length_app; cbn; lia| |done].
    destruct t as [|c t]; [by left|right]. destruct He as [He|He]; [by destruct a|].
    unfold ends_with_newline in *. apply bool_decide_eq_true in He. apply bool_decide_eq_true. rewrite <- He.
    by rewrite last_app_cons, last_cons_cons.
  - destruct He as [->|He]; [done|]. unfold ends_with_newline in He. apply bool_decide_eq_true in He.
    apply last_Some_elem_of in He. done.
Qed.

Lemma before_eq key rest c : Forall (fun x => x <> c) key -> before_char c (key ++ c :: rest) = Some key.
Proof. induction 1 as [|x key Hx _ IH]; cbn; [by rewrite Z.eqb_refl|]. rewrite (proj2 (Z.eqb_neq _ _)) by done. by rewrite IH. Qed.

(** A secret's value never gets through.  On a line [key=value] of any text,
    whose key - trimmed, upper-cased - contains one of the hints, the redacted
    text has the key, the mask, and nothing that depends on the value; the lines
    before and after are redacted on their own. *)
Theorem redact_hides_value (before key value after : list Z) :
  (before = [] \/ ends_with_newline before = true) ->
  Forall (fun c => c <> NEWLINE /\ c <> ch "=") key -> Forall (fun c => c <> NEWLINE) value -> is_secret_key key = true ->
  redact (before ++ key ++ lit "=" ++ value ++ NEWLINE :: after) =
    redact before ++ (key ++ lit "=" ++ MASK ++ [NEWLINE]) ++ redact after.
Proof.
  intros Hb Hk Hv Hs. unfold redact, split_inclusive. rewrite lines_before by done.
  replace (key ++ lit "=" ++ value ++ NEWLINE :: after) with ((key ++ ch "=" :: value) ++ NEWLINE :: after)
    by (by rewrite <- app_assoc).
  assert (Hl : Forall (fun c => c <> NEWLINE) (key ++ ch "=" :: value)).
  { apply Forall_app. split; [|by constructor]. eapply Forall_impl; [exact Hk|]. by intros c []. }
  rewrite lines_cons by done. rewrite map_app, concat_app. cbn [map concat app]. do 2 f_equal.
  unfold redact_line. rewrite <- app_assoc. cbn [app]. rewrite before_eq by (eapply Forall_impl; [exact Hk|]; by intros c []).
  rewrite Hs. do 3 f_equal. unfold ends_with_newline. rewrite bool_decide_eq_true_2; [done|].
  change (key ++ ch "=" :: value ++ [NEWLINE]) with (key ++ (ch "=" :: value) ++ [NEWLINE]). by rewrite app_assoc, last_snoc.
Qed.

Lemma trust_bound_witness :
  let s' := trust (lit "rill.toml") (lit "run" ++ 0x31 :: lit "x") ∅ in
  is_trusted (lit "rill.toml") (lit "run" ++ 0x31 :: lit "x") s' = true /\
  (forall b', u8 b' -> b' <> 0x31 -> is_trusted (lit "rill.toml") (lit "run" ++ b' :: lit "x") s' = false) /\
  (forall c, is_trusted (lit "rill.toml") c (revoke (lit "rill.toml") s') = false) /\
  forall p c, p <> lit "rill.toml" -> is_trusted p c s' = is_trusted p c ∅.
Proof. apply (trust_bound (lit "rill.toml") (lit "run") (lit "x") 0x31 ∅); [repeat constructor; done..|done]. Defined.

Lemma redact_hides_value_witness :
  redact (lit "a" ++ [NEWLINE] ++ lit " my_token " ++ lit "=" ++ lit "hunter2" ++ NEWLINE :: lit "b") =
    redact (lit "a" ++ [NEWLINE]) ++ (lit " my_token " ++ lit "=" ++ MASK ++ [NEWLINE]) ++ redact (lit "b").
Proof.
  rewrite (app_assoc (lit "a")). apply (redact_hides_value (lit "a" ++ [NEWLINE]) (lit " my_token ") (lit "hunter2") (lit "b")).
  - right. reflexivity.
  - repeat constructor; done.
  - repeat constructor; done.
  - vm_compute. reflexivity.
Defined.

(** Where the code falls short: of several secrets of one kind on a line, only
    the first is masked. *)
Lemma second_secret_leaks : redact_line (lit "keys sk-one sk-two") = lit "keys [REDACTED] sk-two".
Proof. vm_compute. reflexivity. Qed.
