(* ===== verification/Config.v ===== *)
(** Configuration resolution and the swallowed-chord check,
    crates/rill-orchestrate/src/config.rs.

    A TOML table is a finite map from keys to values of a type of their own; the
    order in which a table lists its keys is a parameter, as are the TOML printer
    and parser.  [RILL_MUTATE] is unset. *)
From stdpp Require Import list gmap.
From S2P Require Import Prelude Effect Text.

Local Open Scope Z_scope.

Inductive ConfigLayer : Type := Flag | Env | ProjectTrusted | UserFile | ShippedDefault.

Abbreviation Key := (list Z).
Record UnknownKey := mkUnknown { uk_layer : ConfigLayer; uk_key : Key }.

Section Config.
Context {V : Type}.
Abbreviation Table := (gmap (list Z) V).
Context (table_keys : Table -> list Key).
Implicit Types (layers : list (ConfigLayer * Table)) (schema : list Key).

(** The inner loop of [resolve]: the first layer that has the key. *)
Fixpoint first_layer (key : Key) layers : option V :=
  match layers with
  | [] => None
  | (_, t) :: layers => match t !! key with Some v => Some v | None => first_layer key layers end
  end.

Definition resolve_key layers (table : Table) (key : Key) : Table :=
  match first_layer key layers with Some v => <[key := v]> table | None => table end.

Definition unknown_in schema (layer : ConfigLayer * Table) : list UnknownKey :=
  omap (fun k => if bool_decide (k ∈ schema) then None else Some (mkUnknown (fst layer) k)) (table_keys (snd layer)).

Definition resolve layers schema : Table * list UnknownKey :=
  (fold_left (resolve_key layers) schema ∅, concat (map (unknown_in schema) layers)).

Record ResolvedConfig := mkConfig { values : Table; unknown : list UnknownKey }.

(** Each reader is invoked once, here. *)
Definition resolve_once (layers : list (ConfigLayer * (() -> Table))) schema : ResolvedConfig :=
  let tables := map (fun '(l, f) => (l, f ())) layers in
  let '(values, unknown) := resolve tables schema in
  mkConfig values unknown.

Definition get (key : Key) (c : ResolvedConfig) : option V := values c !! key.
Definition unknown_keys (c : ResolvedConfig) : list UnknownKey := unknown c.

(** [write_user_config]: the text to write, [None] when it cannot be printed.
    [existing] is the file's text, empty when it cannot be read. *)
Definition write_user_config (toml_parse : list Z -> option Table) (toml_print : Table -> option (list Z))
    (update_list : list (Key * V)) (existing : list Z) : option (list Z) :=
  let doc := default ∅ (toml_parse existing) in
  toml_print (fold_left (fun d p => <[fst p := snd p]> d) update_list doc).

(** ** Resolution *)

Lemma resolve_fold layers schema table key :
  fold_left (resolve_key layers) schema table !! key =
    if decide (key ∈ schema) then match first_layer key layers with Some v => Some v | None => table !! key end
    else table !! key.
Proof.
  revert table. induction schema as [|k schema IH]; intros table; cbn [fold_left]; [by rewrite decide_False by apply not_elem_of_nil|].
  rewrite IH. unfold resolve_key. destruct (decide (key = k)) as [->|Hne].
  - rewrite (decide_True (P := k ∈ k :: schema)) by (by left).
    destruct (first_layer k layers); [rewrite lookup_insert_eq|]; by case_decide.
  - rewrite (decide_ext (key ∈ k :: schema) (key ∈ schema)) by (rewrite elem_of_cons; naive_solver).
    destruct (first_layer k layers); [rewrite lookup_insert_ne by done|]; done.
Qed.

(** Every key resolves to its highest layer, and no key is guessed.  Reading
    the resolved configuration gives, for a key of the schema, the value of the
    first layer that has it, and nothing for any other key; and the keys reported
    unknown are exactly those that some layer has and the schema has not, each
    with its layer. *)
Theorem resolve_exact (layers : list (ConfigLayer * (() -> Table))) schema key l :
  (forall t, table_keys t ≡ₚ map fst (map_to_list t)) ->
  let tables := map (fun '(l, f) => (l, f ())) layers in
  let c := resolve_once layers schema in
  get key c = (if decide (key ∈ schema) then first_layer key tables else None) /\
  ((mkUnknown l key ∈ unknown_keys c) <-> (key ∉ schema) /\ exists t, (l, t) ∈ tables /\ is_Some (t !! key)).
Proof.
  intros Hkeys tables c. unfold c, resolve_once, resolve. fold tables. cbn. split.
  - unfold get. cbn. rewrite resolve_fold, lookup_empty. case_decide; [|done]. by destruct (first_layer key tables).
  - unfold unknown_keys. cbn. rewrite list_elem_of_In, in_concat. split.
    + intros (us & Hus & Hin). apply list_elem_of_In in Hus. apply list_elem_of_In in Hin. apply list_elem_of_fmap in Hus as ([l' t] & -> & Ht).
      unfold unknown_in in Hin. apply list_elem_of_omap in Hin as (k & Hk & Hu). case_bool_decide; [done|]. injection Hu as -> ->.
      cbn [fst snd] in *. split; [done|]. exists t. split; [done|]. rewrite Hkeys in Hk.
      apply list_elem_of_fmap in Hk as ([k' v] & -> & Hk). apply elem_of_map_to_list in Hk. by eexists.
    + intros (Hs & t & Ht & v & Hv). exists (unknown_in schema (l, t)). rewrite <- !list_elem_of_In. split.
      * by apply list_elem_of_fmap_2.
      * apply list_elem_of_omap. exists key. split; [|by rewrite bool_decide_eq_false_2].
        cbn [snd]. rewrite Hkeys. apply list_elem_of_fmap. exists (key, v). split; [done|]. by apply elem_of_map_to_list.
Qed.
End Config.

(** ** Swallowed control characters *)

Definition CTRL : Z := 1.
Record KeyChord := mkChord { modifiers : Z; chord_key : list Z }.
Record Binding := mkBinding { chord : KeyChord; action : list Z }.
Record SwallowWarning := mkWarning { w_chord : KeyChord; bound_to : list Z }.

#[export] Instance chord_eq : EqDecision KeyChord.
Proof. solve_decision. Defined.

Definition reserved_control_chords : list KeyChord := map (fun k => mkChord CTRL k) [lit "c"; lit "d"; lit "z"; lit "\"].

Definition detect_swallowed_control_chars (bindings : list Binding) : list SwallowWarning :=
  map (fun b => mkWarning (chord b) (action b))
    (List.filter (fun b => bool_decide (chord b ∈ reserved_control_chords)) bindings).

(** ** A configuration *)

Definition demo_layers : list (ConfigLayer * (() -> gmap (list Z) Z)) :=
  [(UserFile, fun _ => {[lit "font" := 2; lit "colour" := 5]}); (ShippedDefault, fun _ => {[lit "font" := 1; lit "size" := 3]})].

Definition demo_keys (t : gmap (list Z) Z) : list Key := map fst (map_to_list t).

Lemma resolve_exact_witness :
  let tables := map (fun '(l, f) => (l, f ())) demo_layers in
  let c := resolve_once demo_keys demo_layers [lit "font"; lit "size"] in
  get (lit "font") c = (if decide (lit "font" ∈ [lit "font"; lit "size"]) then first_layer (lit "font") tables else None) /\
  ((mkUnknown UserFile (lit "font") ∈ unknown_keys c) <->
     (lit "font" ∉ [lit "font"; lit "size"]) /\ exists t, (UserFile, t) ∈ tables /\ is_Some (t !! lit "font")).
Proof. apply resolve_exact. intros t. done. Defined.
