(* ===== verification/Polls.v ===== *)
(** What the daemon and the proxy sleep on: the descriptors of [poll_io] and
    [step_timeout_ms] of crates/rilld/src/lib.rs, [poll_with_extras] of
    crates/rill-kernel/src/kernel.rs, and the poll between two turns of
    [run_control] of crates/rilld/src/proxy.rs.

    A turn of the daemon is a poll, what [accept] gives on the listeners that are
    ready, and [Daemon.step]; [run] and [pump] repeat it. *)
From S2P Require Import Prelude Effect VtTypes Engine Attach Ring Session SessionFacts Kernel Pty Socket Daemon DaemonSafe Proxy.

Local Open Scope Z_scope.

(** poll(2): of each open descriptor, the conditions that hold and were asked for,
    and hang-ups and errors in any case. *)
Class PollLaws (W : Type) `{!PtySys W, !Libc} := {
  pending : W -> Z -> Z;
  poll_reports : forall fds t w rc revents w', sys_poll fds t w = (Ok (rc, revents), w') ->
    revents = map (fun p => Z.land (pending w' (pfd_fd p)) (Z.lor (pfd_events p) (Z.lor POLLHUP POLLERR))) fds;
}.

Section Polls.
Context `{!Libc} {W : Type} `{!PtySys W}.

Definition asking (events fd : Z) : PollFd := mkPollFd fd events 0.
Definition WAKES : Z := Z.lor POLLIN (Z.lor POLLHUP POLLERR).
Definition wakes (revents : Z) : bool := negb (Z.land revents WAKES =? 0).

(** Input always; output where something is queued. *)
Definition events_for (queue : list Z) : Z := if len queue =? 0 then POLLIN else Z.lor POLLIN POLLOUT.

(** ** The kernel *)

Section Leaves.
Context {P : Type} `{!PtyOps P} (master_of : P -> Z).

(** The leaves whose child lives, in the order of the map. *)
Definition live_leaves (order : list Z) (k : Kernel P) : list (Z * Z) :=
  omap (fun id => s ← leaves k !! id; if child_alive s then Some (id, master_of (pty s)) else None) order.

Definition poll_leaves (order : list Z) (k : Kernel P) (extras : list PollFd) (timeout_ms : Z) (w : W)
  : result KernelError (list Z) * list PollFd * W :=
  let ready := live_leaves order k in
  let fds := map (fun e => asking POLLIN (snd e)) ready ++ extras in
  if bool_decide (fds = []) then (Ok [], extras, w)
  else
    let '(r, w) := sys_poll fds timeout_ms w in
    match r with
    | Err e => (if e =? EINTR then Ok [] else Err (Ring.IoError e), extras, w)
    | Ok (_, revents) =>
        (Ok (omap (fun '(leaf, rev) => if wakes rev then Some (fst leaf) else None) (zip ready revents)),
         zip_with (fun e rev => e <| pfd_revents := rev |>) extras (drop (length ready) revents), w)
    end.
End Leaves.

(** ** The daemon *)

Section DaemonPolls.
Context {P : Type} `{!PtyOps P} {K : Type} `{!SockOps K, !BlockOps K}.
Context (master_of : P -> Z) (fd_of : K -> Z).
Context (accept : Z -> W -> result IoError K * W).

(** The listeners: attach, identity, navigation, content. *)
Record Listeners := mkListeners { ls_client : Z; ls_identity : Z; ls_nav : Z; ls_content : Z }.
Definition listener_fds (ls : Listeners) : list Z := [ls_client ls; ls_identity ls; ls_nav ls; ls_content ls].

Definition daemon_fds (ls : Listeners) (d : Daemon P K) : list PollFd :=
  map (asking POLLIN) (listener_fds ls) ++ map (fun c => asking (events_for (cl_outbox c)) (fd_of (cl_stream c))) (clients d).

(** [if fds[i].revents & POLLIN != 0 { listener.accept() }] *)
Definition accept_if (fds : list PollFd) (i : nat) (fd : Z) (w : W) : option (result IoError K) * W :=
  match fds !! i with
  | Some p => if Z.land (pfd_revents p) POLLIN =? 0 then (None, w) else let '(r, w) := accept fd w in (Some r, w)
  | None => (None, w)
  end.

Definition client_flags (fds : list PollFd) : list bool := map (fun p => wakes (pfd_revents p)) (drop 4 fds).

(** The poll and the accepts of [poll_io], with the reads still to come.  A turn
    that fails accepts no further; what the later accepts would give is then
    not looked at. *)
Definition poll_daemon (order : list Z) (ls : Listeners) (timeout_ms : Z) (d : Daemon P K) (w : W) : Polled K * W :=
  let '(readable, fds, w) := poll_leaves master_of order (kern d) (daemon_fds ls d) timeout_ms w in
  let '(a_client, w) := accept_if fds 0 (ls_client ls) w in
  let '(a_identity, w) := accept_if fds 1 (ls_identity ls) w in
  let '(a_nav, w) := accept_if fds 2 (ls_nav ls) w in
  let '(a_content, w) := accept_if fds 3 (ls_content ls) w in
  (mkPolled a_client a_identity a_nav a_content (client_flags fds) readable, w).

Context (instant : nat -> Z) (shell : nat -> result KernelError (Session P)) (grace : Z).
Context (hash_order : Kernel P -> list Z).

(** [step] from the poll on. *)
Definition after_poll (drains : nat) (po : Polled K) : ST DaemonError (Daemon P K) bool :=
  finished ← poll_io instant shell grace drains po;
  if finished : bool then
    _ ← flush_outbound hash_order;
    _ ← maybe_resync hash_order;
    mret true
  else mret false.

(** One turn: [step] of [Daemon], the poll between the reaping and the reading. *)
Definition daemon_turn (drains : nat) (ls : Listeners) (timeout : Z) (d : Daemon P K) (w : W)
  : option (result DaemonError bool * Daemon P K * W) :=
  '(r, d1) ← reap_all instant (hash_order (kern d)) d;
  match r with
  | Err e => Some (Err e, d1, w)
  | Ok _ =>
      let '(po, w) := poll_daemon (hash_order (kern d1)) ls timeout d1 w in
      '(r, d2) ← after_poll drains po d1;
      Some (r, d2, w)
  end.

(** [run]: turns until one fails. *)
Fixpoint daemon_run (turns drains : nat) (ls : Listeners) (d : Daemon P K) (w : W)
  : option (result DaemonError () * Daemon P K * W) :=
  match turns with
  | O => Some (Ok (), d, w)
  | S turns =>
      '(r, d, w) ← daemon_turn drains ls (step_timeout_ms d) d w;
      match r with
      | Ok _ => daemon_run turns drains ls d w
      | Err e => Some (Err e, d, w)
      end
  end.

(** What is accepted is what [accept] gave. *)
Definition accepted (ls : Listeners) (o : option (result IoError K)) : Prop :=
  forall r, o = Some r -> exists w, r = fst (accept (ls_client ls) w).

Lemma poll_daemon_accepts order ls t d w : accepted ls (po_client (fst (poll_daemon order ls t d w))).
Proof.
  unfold poll_daemon. destruct (poll_leaves _ _ _ _ _ _) as [[readable fds] w1].
  destruct (accept_if fds 0 _ w1) as [a1 w2] eqn:E. destruct (accept_if fds 1 _ w2) as [a2 w3].
  destruct (accept_if fds 2 _ w3) as [a3 w4]. destruct (accept_if fds 3 _ w4) as [a4 w5]. cbn [fst po_client].
  intros r ->. unfold accept_if in E. destruct (fds !! _) as [p|]; [|done]. case_match; [done|].
  destruct (accept _ w1) as [r' w'] eqn:Ea. injection E as <- _. exists w1. by rewrite Ea.
Qed.

(** A turn is a step on what its poll found. *)
Lemma daemon_turn_step drains ls t d w r d2 w2 : daemon_turn drains ls t d w = Some (r, d2, w2) ->
  exists po, accepted ls (po_client po) /\ Daemon.step instant shell grace hash_order drains po d = Some (r, d2).
Proof.
  unfold daemon_turn. intros HT.
  destruct (reap_all instant (hash_order (kern d)) d) as [[r1 d1]|] eqn:E; [|done].
  unfold Daemon.step, mbind at 1, se_bind at 1. cbn [gets]. unfold mbind at 1, se_bind at 1. rewrite E.
  destruct r1 as [[]|e]; cbn [mbind option_bind] in HT.
  - pose proof (poll_daemon_accepts (hash_order (kern d1)) ls t d1 w) as Ha.
    destruct (poll_daemon _ _ _ _ _) as [po w1] eqn:Ep. exists po. split; [exact Ha|].
    destruct (after_poll drains po d1) as [[r' d']|] eqn:Ea; [|done]. injection HT as <- <- <-. exact Ea.
  - injection HT as <- <- <-. by exists (mkPolled None None None None [] (Ok [])).
Qed.

(** The run passes only through daemons its steps lead to. *)
Lemma daemon_run_rule (I : Daemon P K -> Prop) ls turns drains d w r d2 w2 :
  (forall po d r d', accepted ls (po_client po) -> I d ->
     Daemon.step instant shell grace hash_order drains po d = Some (r, d') -> I d') ->
  I d -> daemon_run turns drains ls d w = Some (r, d2, w2) -> I d2.
Proof.
  intros Hstep. revert d w. induction turns as [|turns IH]; intros d w Hd HR; cbn in HR; [by injection HR as _ <- _|].
  destruct (daemon_turn drains ls (step_timeout_ms d) d w) as [[[r1 d1] w1]|] eqn:E; [|done]. cbn [mbind option_bind] in HR.
  apply daemon_turn_step in E as (po & Ha & E). pose proof (Hstep _ _ _ _ Ha Hd E) as H1.
  destruct r1; [by apply (IH d1 w1)|by injection HR as _ <- _].
Qed.

(** ** Driven for a time *)

Definition PUMP_MS : Z := 20.

(** [pump]: turns until the time is over or one fails. *)
Fixpoint daemon_pump_loop (fuel drains : nat) (ls : Listeners) (start duration : Z) (d : Daemon P K) (w : W)
  : option (result DaemonError () * Daemon P K * W) :=
  match fuel with
  | O => None
  | S fuel =>
      let '(t, w) := sys_now w in
      if t - start <? duration then
        '(r, d, w) ← daemon_turn drains ls PUMP_MS d w;
        match r with
        | Ok _ => daemon_pump_loop fuel drains ls start duration d w
        | Err e => Some (Err e, d, w)
        end
      else Some (Ok (), d, w)
  end.
Definition daemon_pump (fuel drains : nat) (ls : Listeners) (duration : Z) (d : Daemon P K) (w : W)
  : option (result DaemonError () * Daemon P K * W) :=
  let '(start, w) := sys_now w in daemon_pump_loop fuel drains ls start duration d w.

(** It ends when each turn takes some of the time that is left: no more turns than
    there are pieces of it. *)
Lemma daemon_pump_ends (I : Daemon P K -> Prop) (left : W -> nat) ls drains start duration fuel d w :
  (forall w, (left (snd (sys_now w)) <= left w)%nat /\ ((fst (sys_now w) - start <? duration) = true -> (0 < left w)%nat)) ->
  (forall d w, I d -> exists r d' w', daemon_turn drains ls PUMP_MS d w = Some (r, d', w') /\ I d' /\
     ((0 < left w)%nat -> (left w' < left w)%nat) /\ (left w = 0%nat -> left w' = 0%nat)) ->
  I d -> (left w < fuel)%nat ->
  exists r d' w', daemon_pump_loop fuel drains ls start duration d w = Some (r, d', w') /\ I d'.
Proof.
  intros Hnow Hturn. revert d w. induction fuel as [|fuel IH]; intros d w Hd Hf; [lia|]. cbn [daemon_pump_loop].
  destruct (Hnow w) as [Hle Hpos]. destruct (sys_now w) as [t w1] eqn:E. cbn [fst snd] in *.
  destruct (t - start <? duration); [|by eexists _, _, _]. specialize (Hpos eq_refl).
  destruct (Hturn d w1 Hd) as (r & d' & w' & -> & Hd' & Hlt & H0). cbn [mbind option_bind].
  destruct r; [|by eexists _, _, _]. apply IH; [exact Hd'|]. destruct (left w1) eqn:El; [rewrite (H0 eq_refl)|specialize (Hlt ltac:(lia))]; lia.
Qed.
End DaemonPolls.

(** ** The proxy *)

Section ControlPolls.
Context {K : Type} `{!SockOps K, !BlockOps K} (fd_of : K -> Z).

Definition CONTROL_SLEEP_MS : Z := 50.

Definition pipe_fds (p : Pipe K) : list PollFd :=
  [asking (events_for (b_to_a p)) (fd_of (p_a p)); asking (events_for (a_to_b p)) (fd_of (p_b p))].

Definition control_fds (ls : Listeners) (c : Control K) : list PollFd :=
  map (asking POLLIN) (listener_fds ls) ++ concat (map pipe_fds (pipes c ++ nav_pipes c)) ++ concat (map pipe_fds (content_pipes c)).
(** [run_control]: a turn on what arrives, and a sleep of 50 ms at most. *)
Fixpoint control_loop (arrivals : list (Arrivals K)) (ls : Listeners) (c : Control K) (w : W)
  : option (result DaemonError (Control K) * W) :=
  match arrivals with
  | [] => Some (Ok c, w)
  | ar :: arrivals =>
      r ← control_turn ar c;
      match r with
      | Ok c => control_loop arrivals ls c (snd (sys_poll (control_fds ls c) CONTROL_SLEEP_MS w))
      | Err e => Some (Err e, w)
      end
  end.
End ControlPolls.

(** ** What a poll finds *)

Lemma wakes_asked p ev : ev = POLLIN \/ ev = Z.lor POLLIN POLLOUT ->
  wakes (Z.land p (Z.lor ev (Z.lor POLLHUP POLLERR))) = wakes p.
Proof.
  intros Hev. unfold wakes, WAKES. do 2 f_equal. rewrite <- Z.land_assoc. f_equal. apply Z.bits_inj'. intros n _.
  destruct Hev as [-> | ->]; rewrite !Z.land_spec, !Z.lor_spec;
    repeat match goal with |- context [Z.testbit ?a n] => destruct (Z.testbit a n) end; reflexivity.
Qed.

Lemma events_for_cases q : events_for q = POLLIN \/ events_for q = Z.lor POLLIN POLLOUT.
Proof. unfold events_for. case_if; auto. Qed.

Section Found.
Context {P : Type} `{!PtyOps P} (master_of : P -> Z).
Context `{PL : !PollLaws W}.

Definition found (w : W) (p : PollFd) : Z := Z.land (pending w (pfd_fd p)) (Z.lor (pfd_events p) (Z.lor POLLHUP POLLERR)).

Lemma wakes_found w p : pfd_events p = POLLIN \/ pfd_events p = Z.lor POLLIN POLLOUT ->
  wakes (found w p) = wakes (pending w (pfd_fd p)).
Proof. apply wakes_asked. Qed.

Lemma ready_of_found {A} (key : A -> Z) (fd : A -> Z) (l : list A) (rest : list Z) w :
  omap (fun '(a, rev) => if wakes rev then Some (key a) else None)
    (zip l (map (found w) (map (fun a => asking POLLIN (fd a)) l) ++ rest))
  = omap (fun a => if wakes (pending w (fd a)) then Some (key a) else None) l.
Proof.
  induction l as [|a l IH]; [done|]. cbn [map app zip zip_with omap list_omap].
  rewrite (wakes_found w (asking POLLIN (fd a))) by (by left). cbn [asking pfd_fd].
  destruct (wakes (pending w (fd a))); [f_equal|]; exact IH.
Qed.

(** A poll that succeeds finds exactly the live leaves with something pending, and
    of each other descriptor what was asked for. *)
Theorem poll_leaves_exact order k extras t w rc revents w1 :
  sys_poll (map (fun e => asking POLLIN (snd e)) (live_leaves master_of order k) ++ extras) t w = (Ok (rc, revents), w1) ->
  live_leaves master_of order k <> [] \/ extras <> [] ->
  poll_leaves master_of order k extras t w =
    (Ok (omap (fun e => if wakes (pending w1 (snd e)) then Some (fst e) else None) (live_leaves master_of order k)),
     map (fun e => e <| pfd_revents := found w1 e |>) extras, w1).
Proof.
  intros Hp Hne. unfold poll_leaves. set (l := live_leaves master_of order k) in *.
  rewrite bool_decide_false by (destruct l, extras; cbn; naive_solver). rewrite Hp. apply poll_reports in Hp.
  change (revents = map (found w1) (map (fun e => asking POLLIN (snd e)) l ++ extras)) in Hp. rewrite map_app in Hp. subst revents.
  rewrite (ready_of_found fst snd l), drop_app_length' by (by rewrite !length_map). do 2 f_equal.
  clear. induction extras as [|e rest IH]; [done|]. cbn. f_equal. exact IH.
Qed.

(** What the daemon's poll tells it: the leaves with output or a hang-up, and the
    clients with input or a hang-up. *)
Theorem poll_daemon_exact {K} `{!SockOps K, !BlockOps K} (fd_of : K -> Z) accept order ls t (d : Daemon P K) w rc revents w1 :
  sys_poll (map (fun e => asking POLLIN (snd e)) (live_leaves master_of order (kern d)) ++ daemon_fds fd_of ls d) t w
    = (Ok (rc, revents), w1) ->
  let po := fst (poll_daemon master_of fd_of accept order ls t d w) in
  po_readable po = Ok (omap (fun e => if wakes (pending w1 (snd e)) then Some (fst e) else None) (live_leaves master_of order (kern d))) /\
  po_ready po = map (fun c => wakes (pending w1 (fd_of (cl_stream c)))) (clients d).
Proof.
  intros Hp. unfold poll_daemon. rewrite (poll_leaves_exact order (kern d) _ _ _ _ _ _ Hp) by (by right).
  repeat (destruct (accept_if _ _ _ _) as [? ?]). cbn [fst po_readable po_ready]. split; [done|].
  unfold client_flags, daemon_fds. rewrite map_app, drop_app_length' by done. rewrite !map_map. apply map_ext.
  intros c. cbn. apply (wakes_found w1 (asking _ _)). apply events_for_cases.
Qed.
End Found.
End Polls.

(** The loop of the daemon stays among the daemons its safety is proved of, when
    an accepted stream is a new one. *)
Theorem daemon_run_reach `{!Libc} {W} `{!PtySys W} {P} `{!PtyOps P, !PtyLaws P} {K} `{!SockOps K, !SockLaws K, !BlockOps K}
    (master_of : P * list PtyEvent -> Z) (fd_of : K * list SockEvent -> Z)
    (accept : Z -> W -> result IoError (K * list SockEvent) * W)
    (instant : nat -> Z) (sh : nat -> result KernelError (P * Winsize * bool)) (grace : Z)
    (hash_order : Kernel (P * list PtyEvent) -> list Z) ls turns drains n d w r d2 w2 :
  (forall fd w, fresh_stream (Some (fst (accept fd w)))) -> dreach instant sh grace hash_order n d ->
  daemon_run master_of fd_of accept instant (DaemonSafe.shell sh) grace hash_order turns drains ls d w = Some (r, d2, w2) ->
  exists n', n <= n' /\ dreach instant sh grace hash_order n' d2.
Proof.
  intros Hfresh Hd. apply (daemon_run_rule _ _ _ _ _ _ _ (fun d => exists n', n <= n' /\ dreach instant sh grace hash_order n' d)); [|by exists n].
  intros po d1 r1 d' Ha (n1 & Hn & H1) E. exists (n1 + step_cost hash_order drains po d1).
  pose proof (step_cost_nonneg hash_order drains po d1). split; [lia|]. eapply dr_step; [exact H1| |exact E].
  destruct (po_client po) as [a|] eqn:Ep; [|done]. destruct (Ha a eq_refl) as [w' ->]. apply Hfresh.
Qed.
