(* ===== verification/Observe.v ===== *)
(** What a caller sees of a session, a kernel and a daemon besides their
    operations: the getters and waits of crates/rill-kernel/src/session.rs and
    kernel.rs and of crates/rilld/src/lib.rs, how their errors read
    (rill-kernel/error.rs, rilld/error.rs), and what dropping a session does. *)
From S2P Require Import Prelude Effect VtTypes Engine Attach Ring Session SessionFacts Kernel Pty Socket Text Connect Daemon DaemonSafe Polls.

Local Open Scope Z_scope.

(** ** A session *)

Section Sessions.
Context {P : Type} `{!PtyOps P}.

Definition history (s : Session P) : list Z := ring_snapshot (ring s).
Definition session_end_offset (s : Session P) : Z := end_ (ring s).
Definition session_retained_base (s : Session P) : Z := Ring.retained_base (ring s).
Definition io_journal (s : Session P) : list (Z * IoEvent) := journal s.
Definition is_terminated (s : Session P) : bool := terminated s.

(** [Drop]: the child of an ephemeral session ends with it; no other does. *)
Definition drop_session (s : Session P) : P :=
  if ephemeral s then snd (pty_terminate (pty s)) else pty s.
End Sessions.

(** [RILL_LEASE_GRACE_MS], in the unit of the clock; an hour otherwise. *)
Definition LEASE_GRACE : Z := 3600 * SECOND.
Definition lease_grace (var : option (list Z)) : Z :=
  match var ≫= parse_u64 with Some ms => ms * MILLISECOND | None => LEASE_GRACE end.

Section Waits.
Context `{!Libc} {W : Type} `{!PtySys W}.

(** An operation of the PTY of pty.rs, from its session. *)
Definition through_pty {A} (m : ST KernelError (Pty W) A) : ST KernelError (Session (Pty W)) A := fun s =>
  '(r, p) ← m (pty s); Some (r, s <| pty := p |>).

Definition session_winsize : ST KernelError (Session (Pty W)) Winsize := through_pty winsize.
Definition session_wait_readable (timeout : Z) : ST KernelError (Session (Pty W)) bool := through_pty (wait_readable timeout).
Definition session_poll_with_extras (extras : list PollFd) (timeout_ms : Z)
  : ST KernelError (Session (Pty W)) (bool * list PollFd) := through_pty (poll_with_extras extras timeout_ms).
Definition session_master_pollfd (events : Z) (s : Session (Pty W)) : PollFd := master_pollfd events (pty s).
End Waits.

(** ** The daemon *)

Section Daemons.
Context {P : Type} `{!PtyOps P} {K : Type}.
Abbreviation Dm := (Daemon P K).

(** The first leaf, while the kernel has it. *)
Definition default_leaf (d : Dm) : result DaemonError (Session P) :=
  match leaves (kern d) !! default_id d with Some s => Ok s | None => Err (DKernel UnknownSession) end.
Definition leaf_or {A} (f : Session P -> A) (none : A) (d : Dm) : A :=
  match default_leaf d with Ok s => f s | Err _ => none end.

Definition daemon_child_pid : Dm -> Z := leaf_or child_pid 0.
Definition daemon_resync_count : Dm -> Z := leaf_or resync_count 0.
Definition daemon_stalled_reads : Dm -> Z := leaf_or stalled_reads 0.
Definition daemon_child_alive : Dm -> bool := leaf_or child_alive false.
Definition child_pid_of (id : Z) (d : Dm) : option Z := child_pid <$> leaves (kern d) !! id.

Definition daemon_spawn_leaf (spawned : result KernelError (Session P)) : ST DaemonError Dm Z := on_kernel (spawn_leaf_with spawned).
Definition terminate_leaf (id : Z) : ST DaemonError Dm () := on_kernel (kernel_terminate id).
End Daemons.

(** ** Errors, read *)

Section Display.
Context (strerror : Z -> list Z).

Definition show_kernel_error (e : KernelError) : list Z :=
  match e with
  | PtyError s => lit "pty: " ++ lit s
  | SpawnError c => lit "spawn: " ++ strerror c
  | Ring.IoError c => lit "kernel io: " ++ strerror c
  | Dead => lit "child has exited"
  | AttachRefused => lit "second attach refused"
  | UnknownSession => lit "unknown session id"
  | CwdUnreadable => lit "cwd unreadable"
  | UnsupportedPlatform s => lit "unsupported platform: " ++ lit s
  | UnknownNode => lit "unknown container node id"
  | IncompatibleCheckpoint => lit "incompatible checkpoint format"
  | CheckpointEvicted => lit "checkpoint offset evicted"
  | NoCheckpoint => lit "no checkpoint installed"
  end.

(** [WouldBlock] is an error code of its own. *)
Context (io_code : IoError -> Z).

Definition show_daemon_error (e : DaemonError) : list Z :=
  match e with
  | DIo e => lit "rilld io: " ++ strerror (io_code e)
  | DKernel e => show_kernel_error e
  | DAttach e => show_attach_error strerror e
  | DChip e => show_vt_error strerror e
  | AlreadyRunning => lit "already running"
  | NestedLaunch => lit "nested rilld refused (set RILL_ALLOW_NESTED=1)"
  | UnprotectedEndpoint => lit "runtime endpoint parent is not protected"
  | PeerRefused => lit "peer credentials refused"
  | WorkerMissing => lit "worker did not appear"
  end.
End Display.
