(* ===== verification/Alike.v ===== *)
(** Screens that differ only in what a checkpoint does not carry: the damage
    since the last snapshot, the replies waiting, the rows scrolled off.  Every
    operation of screen.rs takes such screens to such screens, so that they show
    the same for ever. *)
From S2P Require Import Prelude VtTypes Utf8 Parser ParserFacts Width Screen.

Local Open Scope Z_scope.

(** ** The relation *)

(** A screen without what a checkpoint leaves out. *)
Definition core (s : Screen) : Screen :=
  mkScreen (cols s) (rows s) (cells s) (cursor_col s) (cursor_row s) (cursor_visible s)
    (pending_wrap s) (autowrap s) true 0 0
    (scroll_top s) (scroll_bottom s) (palette s) (pen_fg s) (pen_bg s) (pen_attrs s)
    (saved_cursor s) (alt_cursor s) (saved_grid s) (in_alt s) [] 0 false (open_cluster s) (grapheme_truncated s)
    (application_cursor_keys s) (application_keypad s) (bracketed_paste s) (mouse_x10 s)
    (mouse_button s) (mouse_any s) (mouse_sgr s) (focus_events s) [].

#[export] Instance screen_equiv : Equiv Screen := fun a b => core a = core b.

#[export] Instance screen_equivalence : Equivalence (≡@{Screen}).
Proof. split; [by intros a|by intros a b|intros a b c H1 H2; exact (eq_trans H1 H2)]. Qed.

(** A part of the screen that is the same on screens alike. *)
Class Seen {A} (f : Screen -> A) : Prop := seen a b : a ≡ b -> f a = f b.

Lemma seen_of {A} (f : Screen -> A) : (forall s, f s = f (core s)) -> Seen f.
Proof. intros H a b E. rewrite (H a), (H b). exact (f_equal f E). Qed.

#[export] Instance seen_cols : Seen cols. Proof. by apply seen_of. Qed.
#[export] Instance seen_rows : Seen rows. Proof. by apply seen_of. Qed.
#[export] Instance seen_cells : Seen cells. Proof. by apply seen_of. Qed.
#[export] Instance seen_cursor_col : Seen cursor_col. Proof. by apply seen_of. Qed.
#[export] Instance seen_cursor_row : Seen cursor_row. Proof. by apply seen_of. Qed.
#[export] Instance seen_cursor_visible : Seen cursor_visible. Proof. by apply seen_of. Qed.
#[export] Instance seen_pending_wrap : Seen pending_wrap. Proof. by apply seen_of. Qed.
#[export] Instance seen_autowrap : Seen autowrap. Proof. by apply seen_of. Qed.
#[export] Instance seen_scroll_top : Seen scroll_top. Proof. by apply seen_of. Qed.
#[export] Instance seen_scroll_bottom : Seen scroll_bottom. Proof. by apply seen_of. Qed.
#[export] Instance seen_palette : Seen palette. Proof. by apply seen_of. Qed.
#[export] Instance seen_pen_fg : Seen pen_fg. Proof. by apply seen_of. Qed.
#[export] Instance seen_pen_bg : Seen pen_bg. Proof. by apply seen_of. Qed.
#[export] Instance seen_pen_attrs : Seen pen_attrs. Proof. by apply seen_of. Qed.
#[export] Instance seen_saved_cursor : Seen saved_cursor. Proof. by apply seen_of. Qed.
#[export] Instance seen_alt_cursor : Seen alt_cursor. Proof. by apply seen_of. Qed.
#[export] Instance seen_saved_grid : Seen saved_grid. Proof. by apply seen_of. Qed.
#[export] Instance seen_in_alt : Seen in_alt. Proof. by apply seen_of. Qed.
#[export] Instance seen_open_cluster : Seen open_cluster. Proof. by apply seen_of. Qed.
#[export] Instance seen_truncated : Seen grapheme_truncated. Proof. by apply seen_of. Qed.
#[export] Instance seen_modes : Seen mode_state. Proof. by apply seen_of. Qed.
#[export] Instance seen_idx c r : Seen (idx c r). Proof. by apply seen_of. Qed.
#[export] Instance seen_last_col : Seen last_col. Proof. by apply seen_of. Qed.
#[export] Instance seen_last_row : Seen last_row. Proof. by apply seen_of. Qed.
#[export] Instance seen_capture : Seen capture_cursor. Proof. by apply seen_of. Qed.
#[export] Instance seen_blank_grid : Seen blank_grid. Proof. by apply seen_of. Qed.
#[export] Instance seen_remaining : Seen remaining_cols. Proof. by apply seen_of. Qed.
#[export] Instance seen_append c : Seen (should_append c). Proof. by apply seen_of. Qed.
#[export] Instance seen_line_count n : Seen (line_count n). Proof. by apply seen_of. Qed.
#[export] Instance seen_pod_cell c : Seen (fun s => pod_cell s c). Proof. by apply seen_of. Qed.

(** ** Respecting it *)

(** An operation that takes screens alike to screens alike, and panics on both or
    on neither. *)
Class Respects (f : Screen -> option Screen) : Prop := respects a b : a ≡ b -> f a ≡ f b.
Class Total (f : Screen -> Screen) : Prop := total_alike a b : a ≡ b -> f a ≡ f b.

Lemma bind_alike {A B} `{Equiv A, Equiv B} (m1 m2 : option A) (f1 f2 : A -> option B) :
  m1 ≡ m2 -> (forall a b, a ≡ b -> f1 a ≡ f2 b) -> (m1 ≫= f1) ≡ (m2 ≫= f2).
Proof. intros [a b Hab|] Hf; cbn; [by apply Hf|constructor]. Qed.

Lemma bind_same {A B} `{Equiv B} (m : option A) (f1 f2 : A -> option B) :
  (forall a, f1 a ≡ f2 a) -> (m ≫= f1) ≡ (m ≫= f2).
Proof. intros Hf. destruct m; cbn; [apply Hf|constructor]. Qed.

Lemma for_each_alike {X} (xs : list X) (f1 f2 : X -> Screen -> option Screen) a b :
  (forall x a b, a ≡ b -> f1 x a ≡ f2 x b) -> a ≡ b -> for_each xs f1 a ≡ for_each xs f2 b.
Proof.
  intros Hf. revert a b. induction xs as [|x xs IH]; intros a b H; cbn; [by constructor|].
  apply bind_alike; [by apply Hf|exact IH].
Qed.

Lemma fold_alike {X} (f : Screen -> X -> Screen) xs a b :
  (forall x, Total (fun s => f s x)) -> a ≡ b -> fold_left f xs a ≡ fold_left f xs b.
Proof. intros Hf. revert a b. induction xs as [|x xs IH]; intros a b H; cbn; [done|]. by apply IH, Hf. Qed.

(** Updates of the same fields by the same values. *)
Ltac evaluate :=
  cbv beta iota zeta delta [equiv screen_equiv core put cols rows cells cursor_col cursor_row cursor_visible pending_wrap autowrap
    full_damage damage_row0 damage_row1 scroll_top scroll_bottom palette pen_fg pen_bg pen_attrs saved_cursor alt_cursor
    saved_grid in_alt replies replies_dropped discard_replies open_cluster grapheme_truncated application_cursor_keys
    application_keypad bracketed_paste mouse_x10 mouse_button mouse_any mouse_sgr focus_events scrolled_off] in *.
Ltac updates :=
  match goal with H : ?a ≡ ?b |- _ ≡ _ =>
    destruct a, b; evaluate; injection H; intros; subst; reflexivity
  end.

Ltac fields :=
  repeat match goal with H : ?a ≡ ?b |- context [?f ?a] => rewrite (seen (f := f) a b H) end.

#[export] Hint Extern 1 (Total (put _)) => intros ? ? ?; updates : typeclass_instances.

Ltac alike1 :=
  first
    [ match goal with |- ?x ≡ ?x => reflexivity | H : ?a ≡ ?b |- ?a ≡ ?b => exact H end
    | progress fields
    | match goal with
      | |- Some _ ≡ Some _ => constructor
      | |- (?m ≫= _) ≡ (?m ≫= _) => apply bind_same; intros ?
      | |- (_ ≫= _) ≡ (_ ≫= _) => apply (bind_alike (A := Screen)); [|intros ? ? ?]
      | |- (if ?c then _ else _) ≡ (if ?c then _ else _) => destruct c
      | |- match ?c with _ => _ end ≡ match ?c with _ => _ end => destruct c
      | |- match ?f ?x with _ => _ end ≡ match ?f ?y with _ => _ end =>
          let E := fresh in assert (E : f x = f y) by (apply seen; updates); rewrite E; clear E
      | |- (?m ≫= _) ≡ (?n ≫= _) =>
          let E := fresh in assert (E : m = n) by same_value; rewrite E; clear E
      | |- (if ?c then _ else _) ≡ (if ?d then _ else _) =>
          let E := fresh in assert (E : c = d) by same_value; rewrite E; clear E
      | |- for_each ?xs _ _ ≡ for_each ?xs _ _ => apply for_each_alike; [intros ? ? ? ?|]
      | |- ?f ?x ≡ ?f ?y => apply (respects (f := f))
      | |- ?f ?x ≡ ?f ?y => apply (total_alike (f := f))
      end
    | updates ]
with same_value := first [reflexivity | apply seen; solve [repeat alike1] | f_equal; same_value].
Ltac alike := intros ? ? ?; cbv zeta; repeat (alike1; cbv zeta).

(** ** Every operation *)

Lemma core_dirty r s : core (dirty r s) = core s.
Proof. unfold dirty. repeat case_match; reflexivity. Qed.

#[export] Instance dirty_alike r : Total (dirty r).
Proof. intros a b H. change (core (dirty r a) = core (dirty r b)). by rewrite !core_dirty. Qed.

#[export] Instance enqueue_alike bs : Total (enqueue_reply bs).
Proof.
  assert (Hc : forall s, core (enqueue_reply bs s) = core s) by (intros s; unfold enqueue_reply; repeat case_match; reflexivity).
  intros a b H. change (core (enqueue_reply bs a) = core (enqueue_reply bs b)). by rewrite !Hc.
Qed.

#[export] Instance wrap_alike : Total clear_pending_wrap. Proof. unfold clear_pending_wrap. alike. Qed.
#[export] Instance set_cursor_alike r c : Total (set_cursor r c). Proof. unfold set_cursor. alike. Qed.
#[export] Instance blank_row_alike r : Respects (blank_row r). Proof. unfold blank_row. alike. Qed.
#[export] Instance copy_row_alike r1 r2 : Respects (copy_row r1 r2). Proof. unfold copy_row. alike. Qed.
#[export] Instance scroll_up_alike : Respects scroll_up. Proof. unfold scroll_up. alike. Qed.
#[export] Instance scroll_down_alike : Respects scroll_down. Proof. unfold scroll_down. alike. Qed.
#[export] Instance index_alike : Respects index. Proof. unfold index. alike. Qed.
#[export] Instance reverse_index_alike : Respects reverse_index. Proof. unfold reverse_index. alike. Qed.
#[export] Instance restore_alike c : Total (restore_cursor c). Proof. unfold restore_cursor. alike. Qed.
#[export] Instance enter_alt_alike sc cl : Total (enter_alt sc cl). Proof. unfold enter_alt. intros a b H. fields. destruct (in_alt b), sc, cl; cbv zeta; repeat alike1. Qed.
#[export] Instance leave_alt_alike r : Total (leave_alt r). Proof. unfold leave_alt. intros a b H. fields. destruct (in_alt b), (saved_grid b), r; cbv zeta; repeat alike1. Qed.
#[export] Instance region_alike ps : Respects (set_scroll_region ps). Proof. unfold set_scroll_region. alike. Qed.
#[export] Instance private_one_alike set p : Total (private_mode_one set p). Proof. unfold private_mode_one. alike. Qed.
#[export] Instance private_alike ps set : Total (private_mode ps set).
Proof. intros a b H. apply fold_alike; [|exact H]. intros p. apply private_one_alike. Qed.
#[export] Instance wrap_if_alike w : Respects (wrap_if_needed_width w). Proof. unfold wrap_if_needed_width. alike. Qed.
#[export] Instance blank_if_alike j bit : Respects (blank_if j bit). Proof. unfold blank_if. alike. Qed.
#[export] Instance smash_alike c r : Respects (smash_wide_at c r). Proof. unfold smash_wide_at. alike. Qed.
#[export] Instance advance_alike w : Total (advance_after_width w). Proof. unfold advance_after_width. alike. Qed.
#[export] Instance expand_alike : Respects maybe_expand_ri_pair. Proof. unfold maybe_expand_ri_pair. alike. Qed.
#[export] Instance put_glyph_alike c w : Respects (put_glyph c w). Proof. unfold put_glyph. alike. Qed.

#[export] Instance dirty_rows_alike r0 r1 : Total (fun s => fold_left (fun s r => dirty r s) (range_incl r0 r1) s).
Proof. intros a b H. apply fold_alike; [|exact H]. intros r. apply dirty_alike. Qed.

#[export] Instance erase_span_alike x y : Respects (erase_span x y).
Proof.
  unfold erase_span. intros a b H. cbv zeta. fields. apply bind_alike.
  - apply for_each_alike; [|exact H]. intros i a1 b1 H1. by apply smash_alike.
  - intros a1 b1 H1. fields. apply bind_same. intros cs. case_match; constructor; [|by repeat alike1].
    apply fold_alike; [intros r; apply dirty_alike|by repeat alike1].
Qed.
#[export] Instance erase_display_alike m : Respects (erase_display m). Proof. unfold erase_display. alike. Qed.
#[export] Instance erase_line_alike m : Respects (erase_line m). Proof. unfold erase_line. alike. Qed.
#[export] Instance erase_chars_alike n : Respects (erase_chars n). Proof. unfold erase_chars. alike. Qed.
#[export] Instance to_bottom_alike : Total dirty_to_bottom.
Proof. intros a b H. unfold dirty_to_bottom. fields. apply fold_alike; [|exact H]. intros r. apply dirty_alike. Qed.
#[export] Instance insert_lines_alike n : Respects (insert_lines n). Proof. unfold insert_lines. alike. Qed.
#[export] Instance delete_lines_alike n : Respects (delete_lines n). Proof. unfold delete_lines. alike. Qed.
#[export] Instance insert_cells_alike n : Respects (insert_cells n). Proof. unfold insert_cells. alike. Qed.
#[export] Instance delete_cells_alike n : Respects (delete_cells n). Proof. unfold delete_cells. alike. Qed.
#[export] Instance repeat_alike n op : Respects op -> Respects (repeat_op n op).
Proof. intros Hop. unfold repeat_op. intros a b H. apply for_each_alike; [|exact H]. intros _. exact Hop. Qed.
#[export] Instance sgr_one_alike n : Respects (sgr_one n). Proof. unfold sgr_one. alike. Qed.
#[export] Instance set_pen_alike f c : Total (set_pen f c). Proof. unfold set_pen. alike. Qed.

#[export] Instance sgr_loop_alike ps : Respects (sgr_loop ps).
Proof.
  cut (forall n ps, (length ps <= n)%nat -> Respects (sgr_loop ps)); [intros H; by apply (H (length ps))|].
  intros n. induction n as [|n IH]; intros [|p qs] Hl a b H; cbn [length] in Hl; try lia; try (by constructor).
  assert (Hrec : forall l s1 s2, (length l <= n)%nat -> s1 ≡ s2 -> sgr_loop l s1 ≡ sgr_loop l s2) by (intros l s1 s2 Hn; by apply IH).
  cbn [sgr_loop]. destruct ((p =? 38) || (p =? 48)).
  - destruct qs as [|kind q1]; [by apply Hrec; [cbn; lia|]|]. cbn [length] in Hl.
    destruct (kind =? 5); [|destruct (kind =? 2)].
    + destruct q1 as [|i q2]; apply Hrec; cbn in *; try lia; [done|by apply set_pen_alike].
    + destruct q1 as [|r [|g [|x q2]]]; apply Hrec; cbn in *; try lia; try done. by apply set_pen_alike.
    + apply Hrec; [cbn; lia|done].
  - apply bind_alike; [by apply sgr_one_alike|]. intros s1 s2 Hs. apply Hrec; [lia|done].
Qed.
#[export] Instance apply_sgr_alike ps : Respects (apply_sgr ps).
Proof. intros a b H. unfold apply_sgr. by apply sgr_loop_alike. Qed.

#[export] Instance primary_alike : Total reply_primary_da. Proof. unfold reply_primary_da. alike. Qed.
#[export] Instance secondary_alike : Total reply_secondary_da. Proof. unfold reply_secondary_da. alike. Qed.
#[export] Instance status_alike : Total reply_dsr_status. Proof. unfold reply_dsr_status. alike. Qed.
#[export] Instance dsr_cursor_alike : Respects reply_dsr_cursor.
Proof.
  unfold reply_dsr_cursor. intros a b H. cbv zeta. fields. repeat (apply bind_same; intros; try case_match).
  constructor. by apply enqueue_alike.
Qed.

Lemma append_alike c a b : a ≡ b ->
  fst (append_to_cluster c a) = fst (append_to_cluster c b) /\ snd (append_to_cluster c a) ≡ snd (append_to_cluster c b).
Proof.
  intros H. unfold append_to_cluster. fields. destruct (open_cluster b) as [cl|]; [|done]. split; [done|]. cbn [snd].
  destruct (RILL_GRAPHEME_MAX <=? oc_len cl); repeat alike1.
Qed.

#[export] Instance write_char_alike c : Respects (write_char c).
Proof.
  intros a b H. unfold write_char. fields. destruct (append_alike c a b H) as [Hf Hs].
  set (x := if should_append c b then append_to_cluster c a else (false, a)).
  set (y := if should_append c b then append_to_cluster c b else (false, b)).
  assert (Hxy : fst x = fst y /\ snd x ≡ snd y) by (subst x y; by destruct (should_append c b)).
  destruct x as [p s1], y as [q s2], Hxy as [E H12]. cbn [fst snd] in *. subst q. clear - H12. cbv zeta.
  repeat alike1.
Qed.

#[export] Instance execute_alike byte : Respects (screen_execute byte). Proof. unfold screen_execute. alike. Qed.
#[export] Instance csi_alike ps c : Respects (csi_dispatch ps c). Proof. unfold csi_dispatch. alike. Qed.
#[export] Instance screen_csi_alike ps i ign c : Respects (screen_csi ps i ign c). Proof. unfold screen_csi. alike. Qed.
#[export] Instance screen_esc_alike i c : Respects (screen_esc i c). Proof. unfold screen_esc. alike. Qed.

(** ** Any calls of the parser *)

#[export] Instance perform_alike e : Respects (perform e).
Proof.
  destruct e; cbn [perform print execute csi esc osc screen_actions];
    [apply write_char_alike|apply execute_alike|apply screen_csi_alike|apply screen_esc_alike|]. intros a b H. cbn. by constructor.
Qed.

Lemma replay_alike evs a b : a ≡ b -> replay evs a ≡ replay evs b.
Proof. intros H. apply for_each_alike; [|exact H]. intros e. apply perform_alike. Qed.

(** ** What is shown *)

(** A snapshot without its damage and its count of replies. *)
Definition shown (g : PodGrid) : PodGrid :=
  g <| pg_full_damage := true |> <| pg_damage_row0 := 0 |> <| pg_damage_row1 := 0 |> <| pg_replies_dropped := 0 |>.

Lemma pod_cells_alike a b cs : a ≡ b -> mapM (pod_cell a) cs = mapM (pod_cell b) cs.
Proof. intros H. apply mapM_ext. intros c. exact (seen (f := fun s => pod_cell s c) a b H). Qed.

Lemma snapshot_alike a b : a ≡ b ->
  shown <$> (fst <$> snapshot a) = shown <$> (fst <$> snapshot b).
Proof.
  intros H. unfold snapshot. rewrite (pod_cells_alike a b _ H). fields.
  destruct (mapM (pod_cell b) (cells b)); [|done]. cbn [fmap option_fmap option_map mbind option_bind fst]. by f_equal.
Qed.
