(* ===== verification/Resume.v ===== *)
(** Recovery: a checkpoint, imported into any engine and fed the rest of the
    stream, shows what an engine fed the whole stream shows.

    A checkpoint carries no parser, so that the export asks for an idle one; the
    buffers an idle parser still holds are never read again ([peer]).  What the
    screen keeps besides the checkpoint decides nothing it shows ([Alike]). *)
From S2P Require Import Prelude Effect VtTypes Utf8 Parser ParserFacts Width Screen ScreenFacts Checkpoint CheckpointFacts Engine EngineFacts Attach Ring Session SessionFacts Alike.

Local Open Scope Z_scope.

(** ** Parsers that behave the same *)

Record peer (p q : Parser) : Prop := {
  pe_state : state p = state q;
  pe_len : utf8_len p = utf8_len q;
  pe_needed : utf8_needed p = utf8_needed q;
  pe_utf8 : utf8_needed p <= 0 \/ utf8 p = utf8 q;
  pe_putback : putback p = putback q;
  pe_room : len (osc_buf p) = len (osc_buf q);
  pe_seq : state p = Ground \/
    (params p = params q /\ param_len p = param_len q /\ param_acc p = param_acc q /\
     intermediates p = intermediates q /\ inter_len p = inter_len q /\ ignore p = ignore q /\
     osc_len p = osc_len q /\ take (Z.to_nat (osc_len p)) (osc_buf p) = take (Z.to_nat (osc_len p)) (osc_buf q));
}.

Lemma peer_refl p : peer p p.
Proof. split; auto. right. auto 10. Qed.

(** Results of peers: a panic of both, or peers and clients alike. *)
Definition together {A} `{Equiv A} (r1 r2 : option (Parser * A)) : Prop :=
  match r1, r2 with
  | Some (p, a), Some (q, b) => peer p q /\ a ≡ b
  | None, None => True
  | _, _ => False
  end.

#[global] Arguments together : simpl never.

(** A client whose calls respect its equivalence. *)
Class ActionsAlike (A : Type) `{Actions A, Equiv A} : Prop := {
  print_alike c (a b : A) : a ≡ b -> print c a ≡ print c b;
  act_alike c (a b : A) : a ≡ b -> execute c a ≡ execute c b;
  csi_call_alike ps i ign c (a b : A) : a ≡ b -> csi ps i ign c a ≡ csi ps i ign c b;
  esc_call_alike i c (a b : A) : a ≡ b -> esc i c a ≡ esc i c b;
  osc_call_alike payload (a b : A) : a ≡ b -> osc payload a ≡ osc payload b;
}.

#[export] Instance screen_actions_alike : ActionsAlike Screen.
Proof.
  split; [intros c; apply write_char_alike|intros c; apply execute_alike|intros ps i ign c; apply screen_csi_alike|
    intros i c; apply screen_esc_alike|intros payload a b E; by constructor].
Qed.

Section Peers.
Context {A : Type} `{ActionsAlike A}.
Implicit Types (p q : Parser) (x y : A) (b : Z).

Lemma together_act {B} `{Equiv B} (m1 m2 : option B) (f g : B -> option (Parser * A)) :
  m1 ≡ m2 -> (forall v w, v ≡ w -> together (f v) (g w)) -> together (m1 ≫= f) (m2 ≫= g).
Proof. intros [v w Hvw|] Hf; cbn; [by apply Hf|exact I]. Qed.

Lemma together_value {B} (m : option B) (f g : B -> option (Parser * A)) :
  (forall v, together (f v) (g v)) -> together (m ≫= f) (m ≫= g).
Proof. intros Hf. destruct m; cbn; [apply Hf|exact I]. Qed.

Lemma together_bind (m1 m2 : option (Parser * A)) (f g : Parser * A -> option (Parser * A)) :
  together m1 m2 -> (forall p q x y, peer p q -> x ≡ y -> together (f (p, x)) (g (q, y))) ->
  together (m1 ≫= f) (m2 ≫= g).
Proof. destruct m1 as [[p x]|], m2 as [[q y]|]; cbn; try done. intros [Hp Ha] Hf. exact (Hf p q x y Hp Ha). Qed.
(** The cases of a handler on peers whose fields are equal. *)
Ltac peers :=
  repeat first
    [ match goal with
      | |- together (Some _) (Some _) => split; [|assumption]
      | |- together (if ?c then _ else _) (if ?c then _ else _) => destruct c eqn:?
      | |- together ((if ?c then _ else _) ≫= _) _ => destruct c eqn:?
      | |- together (Some _ ≫= _) _ => cbn
      | |- together ((_ ≫= _) ≫= _) _ => rewrite !bind_assoc_opt
      | |- together (execute _ _ ≫= _) _ => apply together_act; [by apply act_alike|intros ? ? ?]
      | |- together (print _ _ ≫= _) _ => apply together_act; [by apply print_alike|intros ? ? ?]
      | |- together (esc _ _ _ ≫= _) _ => apply together_act; [by apply esc_call_alike|intros ? ? ?]
      | |- together (csi _ _ _ _ _ ≫= _) _ => apply together_act; [by apply csi_call_alike|intros ? ? ?]
      | |- together (osc _ _ ≫= _) _ => apply together_act; [by apply osc_call_alike|intros ? ? ?]
      | |- together (match ?c with _ => _ end) (match ?c with _ => _ end) => destruct c
      | |- together (?m ≫= _) (?m ≫= _) => apply together_value; intros ?
      | |- peer _ _ => split; cbn; try (left; lia); auto 12
      end ].

Ltac open_peers p q Hpe :=
  destruct p, q, Hpe as [E1 E2 E3 E4 E5 E6 E7]; cbn in E1, E2, E3, E4, E5, E6, E7; subst;
  destruct E7 as [E7|(? & ? & ? & ? & ? & ? & ? & ?)]; [try discriminate E7|subst].

Ltac handled := unfold cancel, push_inter, push_digit, finish_param, dispatch_csi, reprocess, reset_seq; cbn; peers.

Lemma ground_together b p q x y : peer p q -> state p = Ground -> x ≡ y -> together (ground b p x) (ground b q y).
Proof.
  intros Hpe Hs Hxy. open_peers p q Hpe; cbn in Hs; subst; unfold ground, abort_utf8, finish_utf8, start_utf8; cbn.
  all: destruct E4 as [E4| ->]; [rewrite (proj2 (Z.ltb_ge 0 _)) by exact E4|]; handled.
Qed.

Lemma escape_together b p q x y : peer p q -> state p = Escape -> x ≡ y -> together (escape b p x) (escape b q y).
Proof. intros Hpe Hs Hxy. open_peers p q Hpe; cbn in Hs; try congruence; subst. unfold escape. handled. Qed.
Lemma inter_together b p q x y : peer p q -> state p = EscapeIntermediate -> x ≡ y ->
  together (escape_intermediate b p x) (escape_intermediate b q y).
Proof. intros Hpe Hs Hxy. open_peers p q Hpe; cbn in Hs; try congruence; subst. unfold escape_intermediate. handled. Qed.
Lemma csi_entry_together b p q x y : peer p q -> state p = CsiEntry -> x ≡ y -> together (csi_entry b p x) (csi_entry b q y).
Proof. intros Hpe Hs Hxy. open_peers p q Hpe; cbn in Hs; try congruence; subst. unfold csi_entry. handled. Qed.
Lemma csi_param_together b p q x y : peer p q -> state p = CsiParam -> x ≡ y -> together (csi_param b p x) (csi_param b q y).
Proof. intros Hpe Hs Hxy. open_peers p q Hpe; cbn in Hs; try congruence; subst. unfold csi_param. handled.
Qed.
Lemma csi_inter_together b p q x y : peer p q -> state p = CsiIntermediate -> x ≡ y ->
  together (csi_intermediate b p x) (csi_intermediate b q y).
Proof. intros Hpe Hs Hxy. open_peers p q Hpe; cbn in Hs; try congruence; subst. unfold csi_intermediate. handled. Qed.
Lemma csi_ignore_together b p q x y : peer p q -> state p = CsiIgnore -> x ≡ y -> together (csi_ignore b p x) (csi_ignore b q y).
Proof. intros Hpe Hs Hxy. open_peers p q Hpe; cbn in Hs; try congruence; subst. unfold csi_ignore. handled. Qed.

(** The payload read so far is the same; what lies behind it need not be. *)
Lemma payload_front (l l' : list Z) n : len l = len l' -> take (Z.to_nat n) l = take (Z.to_nat n) l' -> slice l 0 n = slice l' 0 n.
Proof.
  intros Hl Ht. unfold slice, in_range. rewrite Hl, Z.sub_0_r. change (Z.to_nat 0) with 0%nat. by rewrite !drop_0, Ht.
Qed.

Lemma payload_set (l l' : list Z) n v : len l = len l' -> take (Z.to_nat n) l = take (Z.to_nat n) l' ->
  (zset l n v = None /\ zset l' n v = None) \/
  exists m m', zset l n v = Some m /\ zset l' n v = Some m' /\ len m = len m' /\
    take (Z.to_nat (n + 1)) m = take (Z.to_nat (n + 1)) m'.
Proof.
  intros Hl Ht. unfold zset. rewrite Hl. destruct ((0 <=? n) && (n <? len l')) eqn:E; [|by left].
  right. do 2 eexists. do 2 (split; [done|]). unfold len in *. rewrite !length_insert. split; [done|].
  replace (Z.to_nat (n + 1)) with (S (Z.to_nat n)) by lia.
  rewrite !(take_S_r _ _ v) by (apply list_lookup_insert_eq; lia). by rewrite !take_insert_ge, Ht.
Qed.

Lemma osc_string_together b p q x y : peer p q -> state p = OscString -> x ≡ y -> together (osc_string b p x) (osc_string b q y).
Proof.
  intros Hpe Hs Hxy. open_peers p q Hpe; cbn in Hs; try congruence; subst. unfold osc_string, push_osc. cbn.
  match goal with Ht : take _ _ = take _ _ |- _ => rewrite (payload_front _ _ _ E6 Ht); destruct (payload_set _ _ _ b E6 Ht) as
    [[-> ->]|(m & m' & -> & -> & Hm & Ht')] end; handled.
Qed.

Lemma osc_escape_together b p q x y : peer p q -> state p = OscEscape -> x ≡ y -> together (osc_escape b p x) (osc_escape b q y).
Proof.
  intros Hpe Hs Hxy. open_peers p q Hpe; cbn in Hs; try congruence; subst. unfold osc_escape. cbn.
  match goal with Ht : take _ _ = take _ _ |- _ => rewrite (payload_front _ _ _ E6 Ht) end; handled.
Qed.

Lemma strings_together b p q x y : peer p q -> x ≡ y ->
  match state p with
  | DcsPassthrough => together (dcs_passthrough b p x) (dcs_passthrough b q y)
  | DcsEscape => together (dcs_escape b p x) (dcs_escape b q y)
  | SosPmApc => together (sos b p x) (sos b q y)
  | SosEscape => together (sos_escape b p x) (sos_escape b q y)
  | _ => True
  end.
Proof.
  intros Hpe Hxy. destruct (state p) eqn:Hs; try exact I; open_peers p q Hpe; cbn in Hs; try congruence; subst;
    unfold dcs_passthrough, dcs_escape, sos, sos_escape; handled.
Qed.

Lemma dispatch_together b p q x y : peer p q -> x ≡ y -> together (dispatch b p x) (dispatch b q y).
Proof.
  intros Hpe Hxy. pose proof (strings_together b p q x y Hpe Hxy) as Hstr. unfold dispatch. rewrite <- (pe_state _ _ Hpe).
  destruct (state p) eqn:Hs; try exact Hstr.
  - by apply ground_together.
  - by apply escape_together.
  - by apply inter_together.
  - by apply csi_entry_together.
  - by apply csi_param_together.
  - by apply csi_inter_together.
  - by apply csi_ignore_together.
  - by apply osc_string_together.
  - by apply osc_escape_together.
Qed.

Lemma step_together b p q x y : peer p q -> x ≡ y -> together (step b p x) (step b q y).
Proof.
  intros Hpe Hxy. unfold step. rewrite <- (pe_state _ _ Hpe), <- (pe_needed _ _ Hpe).
  apply together_bind; [|intros; by apply dispatch_together]. destruct (_ && _); [|by split].
  unfold abort_utf8. rewrite <- (pe_needed _ _ Hpe). destruct (0 <? utf8_needed p); [|by split].
  open_peers p q Hpe; handled.
Qed.

Lemma feed_together bs p q x y : peer p q -> x ≡ y -> together (Parser.feed bs p x) (Parser.feed bs q y).
Proof.
  intros Hpe Hxy. unfold Parser.feed, feed_fuel. generalize (2 * length bs + 3)%nat as n. intros n.
  revert bs p q x y Hpe Hxy. induction n as [|n IH]; intros bs p q x y Hpe Hxy; [exact I|]. cbn [feed_loop].
  rewrite <- (pe_putback _ _ Hpe). destruct (putback p) as [c|] eqn:Hc.
  - rewrite !bind_assoc_opt. apply together_bind; [|intros; by apply IH]. apply step_together; [|done].
    destruct Hpe; split; done.
  - destruct bs as [|b bs]; [by split|]. rewrite !bind_assoc_opt. apply together_bind; [by apply step_together|]. intros; by apply IH.
Qed.
End Peers.

(** ** Engines *)

(** Engines that show the same now and after whatever is fed to both. *)
Definition interchangeable (e f : VtEngine) : Prop := peer (parser e) (parser f) /\ screen e ≡ screen f.

Lemma feed_interchangeable bs e f : interchangeable e f ->
  match feed bs e, feed bs f with Some e', Some f' => interchangeable e' f' | None, None => True | _, _ => False end.
Proof.
  intros [Hp Hs]. pose proof (feed_together bs _ _ _ _ Hp Hs) as Ht. unfold together in Ht. unfold feed.
  destruct (Parser.feed bs (parser e) (screen e)) as [[p s]|], (Parser.feed bs (parser f) (screen f)) as [[q t]|]; done.
Qed.

(** What can be seen of an engine. *)
Definition display (e : VtEngine) : option PodGrid * TerminalModeState := (shown <$> (fst <$> snapshot e), mode_state e).

Lemma display_interchangeable e f : interchangeable e f -> display e = display f.
Proof.
  intros [_ Hs]. unfold display. f_equal; [|exact (seen (f := Screen.mode_state) _ _ Hs)].
  pose proof (snapshot_alike _ _ Hs) as H. unfold snapshot.
  destruct (Screen.snapshot (screen e)) as [[g s]|], (Screen.snapshot (screen f)) as [[h t]|]; exact H.
Qed.

(** The parser of an engine that can be exported is as good as a new one. *)
Lemma idle_peer p : parser_ok p -> is_idle p = true -> peer p Parser.new.
Proof.
  intros Hp Hi. destruct (is_idle_ok p Hp Hi) as (_ & Hg & [Hn Hl] & Hpb). destruct Hp as [(_ & _ & Ho) _].
  split; cbn; try done; [left; lia| |by left]. destruct Ho as [Ho _]. by rewrite Ho.
Qed.

Lemma restored_alike s s0 : restored s s0 ≡ s.
Proof. destruct s. reflexivity. Qed.

Lemma import_interchangeable e e0 off bs : engine_ok e -> u64 off -> export_checkpoint off e = Ok bs ->
  fst (import_checkpoint bs e0) = Ok off /\ interchangeable e (snd (import_checkpoint bs e0)).
Proof.
  intros (Hp & Hpb & Hwf) Hoff He. unfold export_checkpoint in He.
  destruct (is_idle (parser e)) eqn:Hi; cbn [negb] in He; [|done]. injection He as <-.
  unfold import_checkpoint. rewrite import_export_eq by done. split; [done|]. split; [by apply idle_peer|].
  symmetry. apply restored_alike.
Qed.

Lemma feed_app bs bs' e : feed (bs ++ bs') e = (e ← feed bs e; feed bs' e).
Proof. unfold feed. rewrite feed_app_eq. by destruct (Parser.feed bs (parser e) (screen e)) as [[p s]|]. Qed.

(** ** Recovery *)

Lemma stream_after_drop cap s start ds : stream_after cap s start = Ok ds ->
  0 <= start <= len s /\ ds = drop (Z.to_nat start) s.
Proof. unfold stream_after. case_match eqn:E; [|done]. intros [= <-]. split; [lia|done]. Qed.

Lemma recovery_stream {P} `{!PtyOps P, !PtyLaws P} (p : P) sz eph os w cp ds :
  len os <= MAX_STEPS -> Forall step_ok os -> world_run os (world_new p sz eph) = Some w ->
  recovery (sess w) = Ok (cp, ds) -> 0 <= ending_offset cp ->
  bytes (reads (trace (sess w))) /\ ds = drop (Z.to_nat (ending_offset cp)) (reads (trace (sess w))).
Proof.
  intros Hl Hok Hrun Hrec Hoff.
  pose proof (safe_inv _ _ _ (reach_inv p sz eph os Hl Hok) Hrun) as [[Hring _ _ _ _ _ Hbytes] _].
  split; [exact Hbytes|]. unfold recovery in Hrec. destruct (checkpoint (sess w)) as [c|]; [|done].
  destruct (deltas_after (ending_offset c) (ring (sess w))) as [d|] eqn:E; [|done]. injection Hrec as -> ->.
  rewrite Hring, deltas_after_eq in E by (done || (unfold RING_CAP; lia)). by apply stream_after_drop in E as [_ ->].
Qed.

(** ** Properties *)

(** C5. A session is recovered as if nothing had happened.  Over any PTY and after
    any steps from a new session: when the session's checkpoint was exported, at
    its offset, by an engine that had been fed the child's output up to there, then
    importing it into any engine whatsoever and feeding the bytes [recovery] gives
    with it, and any bytes after them, shows exactly what an engine fed the whole
    output shows - every cell, colour and attribute, the cursor, the modes - and
    neither panics.  Only the damage since the last snapshot and the count of
    dropped replies may differ. *)
Theorem recovery_resumes {P} `{!PtyOps P, !PtyLaws P} (p : P) (sz : Winsize) (eph : bool) (os : list Step)
    (w : World) (cols rows : Z) (e0 e blank : VtEngine) (cp : StoredCheckpoint) (deltas more : list Z) :
  len os <= MAX_STEPS -> Forall step_ok os -> world_run os (world_new p sz eph) = Some w ->
  recovery (sess w) = Ok (cp, deltas) -> u64 (ending_offset cp) ->
  1 <= cols <= MAX_TAB_COLS -> 1 <= rows <= u16_max -> Engine.new cols rows = Ok e0 ->
  feed (take (Z.to_nat (ending_offset cp)) (reads (trace (sess w)))) e0 = Some e ->
  export_checkpoint (ending_offset cp) e = Ok (blob cp) -> bytes more ->
  exists all resumed,
    feed (reads (trace (sess w)) ++ more) e0 = Some all /\
    fst (import_checkpoint (blob cp) blank) = Ok (ending_offset cp) /\
    feed (deltas ++ more) (snd (import_checkpoint (blob cp) blank)) = Some resumed /\
    display resumed = display all.
Proof.
  intros Hl Hok Hrun Hrec Hoff Hc Hr Hnew Hfed Hexp Hmore.
  destruct (recovery_stream p sz eph os w cp deltas Hl Hok Hrun Hrec ltac:(num)) as [Hb ->].
  set (s := reads (trace (sess w))) in *. set (n := Z.to_nat (ending_offset cp)) in *.
  assert (He : engine_ok e).
  { pose proof (new_ok _ _ _ Hc Hr Hnew) as H0.
    exact (proj1 (safe_inv _ _ _ (feed_safe (take n s) e0 H0 ltac:(by apply Forall_take)) Hfed)). }
  destruct (import_interchangeable e blank _ _ He Hoff Hexp) as [Hi Hie].
  set (r := snd (import_checkpoint (blob cp) blank)) in *. clearbody r.
  assert (Hrest : bytes (drop n s ++ more)) by (apply Forall_app_2; [by apply Forall_drop|done]).
  destruct (feed_safe _ e He Hrest) as (all & Hall & _).
  pose proof (feed_interchangeable (drop n s ++ more) e r Hie) as H. rewrite Hall in H.
  destruct (feed (drop n s ++ more) r) as [resumed|]; [|done]. exists all, resumed.
  rewrite (display_interchangeable _ _ H). split_and!; try done.
  rewrite <- (take_drop n s), <- app_assoc, feed_app, Hfed. exact Hall.
Qed.

(** ** A recovery *)

Definition resume_output : list Z := lit "he" ++ elit "[31mllo".
Definition resume_engine : VtEngine := after_feed (lit "he") small_engine.
Definition resume_checkpoint : StoredCheckpoint :=
  stored_new 2 0 (Checkpoint.export_checkpoint 2 (screen resume_engine)).
Definition resume_steps : list Step :=
  [WFrame 0 100 (Attach 7 None 1 false); WFrame 1 100 (Credit 2); WReadable; WCheckpoint resume_checkpoint;
   WFrame 2 100 (Credit 20); WReadable].
Definition resume_world : World := default (world_new [] demo_size false) (world_run resume_steps (world_new resume_output demo_size false)).

Lemma recovery_resumes_witness :
  world_run resume_steps (world_new resume_output demo_size false) = Some resume_world /\
  recovery (sess resume_world) = Ok (resume_checkpoint, elit "[31mllo") /\
  exists all resumed,
    feed (reads (trace (sess resume_world)) ++ lit "!") small_engine = Some all /\
    fst (import_checkpoint (blob resume_checkpoint) small_engine) = Ok 2 /\
    feed (elit "[31mllo" ++ lit "!") (snd (import_checkpoint (blob resume_checkpoint) small_engine)) = Some resumed /\
    display resumed = display all.
Proof.
  assert (Hrun : world_run resume_steps (world_new resume_output demo_size false) = Some resume_world) by (vm_compute; reflexivity).
  assert (Hrec : recovery (sess resume_world) = Ok (resume_checkpoint, elit "[31mllo")) by (vm_compute; reflexivity).
  split; [exact Hrun|]. split; [exact Hrec|].
  apply (recovery_resumes resume_output demo_size false resume_steps resume_world 4 3 small_engine resume_engine small_engine
    resume_checkpoint (elit "[31mllo") (lit "!")); [vm_compute; discriminate| |exact Hrun|exact Hrec| | | | | | |].
  - repeat constructor; cbn; num.
  - vm_compute. split; discriminate.
  - vm_compute. split; discriminate.
  - vm_compute. split; discriminate.
  - vm_compute. reflexivity.
  - vm_compute. reflexivity.
  - vm_compute. reflexivity.
  - repeat constructor; discriminate.
Defined.

(** In the middle of a sequence nothing is exported. *)
Example export_waits : export_checkpoint 3 (after_feed (lit "he" ++ [0x1b]) small_engine) = Err (Vt "incomplete parser").
Proof. vm_compute. reflexivity. Qed.
